(* ===== verification/_CoqProject ===== *)
-Q . S2P
Prelude.v
GoStrings.v
Codecs.v
Errors.v
SyntaxLimits.v
Httpsfv.v
HttpsfvRef.v
StructuredFieldSafe.v
SignatureFields.v
SerializationFacts.v
SignatureFacts.v
HttpTypes.v
MessageLimits.v
SizeFacts.v
FieldText.v
MessageFields.v
MessageDerived.v
QueryFacts.v
MessageBase.v
BaseFacts.v
GoTime.v
Heap.v
Replay.v
ReplayStore.v
ReplayFacts.v
ReplaySteps.v
ReplayConcurrency.v
Digest.v
DigestFacts.v
FieldRoundtrip.v
HttpsfvRefReads.v
Algorithm.v
Signer.v
Verifier.v
VerifierFacts.v
AlgorithmFacts.v
SignerFacts.v
ProfileFacts.v
HttpFields.v
BodyReader.v
HttpIntegration.v
ResponseSigning.v
BodyDigest.v
HttpFacts.v
ResponseFacts.v
BodyDigestFacts.v
EndToEnd.v
ResponseEndToEnd.v
TrailerFields.v
TrailerBody.v
TrailerSigning.v
TrailerSigningFacts.v
TrailerResponse.v
TrailerResponseFacts.v
TrailerVerification.v
TrailerVerificationFacts.v
Compatibility.v
Instances.v
Witnesses.v
HttpWitnesses.v
StreamWitnesses.v
TrailerWitnesses.v
RoundtripWitnesses.v
