(* ===== verification/Prelude.v ===== *)
(** * Verification of go-http-signature: HTTP Message Signatures for Go

    The Go package under src/ signs and verifies HTTP messages as RFC 9421
    describes: a signer and a verifier agree on the bytes of a _signature base_
    made of the covered components of a message, the verifier applies a policy
    profile to the signature's parameters, resolves a key, checks the signature
    and consumes the nonce in a replay store.  Round trippers and handlers apply
    both to the messages of net/http: they normalize the protected fields,
    compute or check digests of the body, buffered or streamed, and answer with
    signed responses or trailers.  This development translates the package file
    by file and proves the theorems that make it correct.

    ** Files

    Each Go file is modelled by the file in its row; the definitions keep the
    names of the Go functions, with the receiver's type first where two methods
    share a name ([DigestField_Verify], [Verifier_Verify]).

<<
    Prelude, GoStrings   tactics, byte strings, the functions of strings,
                         strconv, sort and encoding/base64 the code calls
    Errors               the sentinel errors of the package and errors.Is
    SyntaxLimits         syntax_limits.go
    Httpsfv              the Structured Fields dependency as an interface
    HttpsfvRef           an instance of it
    StructuredFieldSafe  structured_field_safe.go; message.go 1496-1533
    SignatureFields      signature_fields.go
    MessageLimits        message_limits.go
    HttpTypes            net/http and net/url data, message.go 1-98
    MessageFields        message.go 418-921, 1142-1170   (field values)
    MessageDerived       message.go 923-1140, 1314-1494  (derived values)
    MessageBase          message.go 99-416, 1172-1312    (signature base)
    GoTime, Heap         time.Time and container/heap
    Replay, ReplayStore  replay.go: the in-memory store, and the interface
    Digest               digest.go, digest_preference.go
    Algorithm            algorithm.go
    Signer               signer.go
    Verifier             verifier.go
    HttpFields           http_integration.go, body_integration.go: headers,
                         bodies and the normalization of protected fields
    BodyReader           the bounded reader of a body
    HttpIntegration      http_integration.go: the signing and the verifying
                         transport, the verifying handler
    ResponseSigning      http_integration.go: the handler that signs responses
    BodyDigest           body_integration.go: digests of buffered bodies
    TrailerFields        body_integration.go: trailer names and trailers
    TrailerBody          body_integration.go: the reader that hashes a stream
    TrailerSigning       body_integration.go: the transport that signs one
    TrailerResponse      body_integration.go: the handler that signs a response
                         in its trailers
    TrailerVerification  body_integration.go: the handler and the transport
                         that verify signed trailers
    Compatibility        compatibility/adapter.go
    *Facts               the theorems about the files before them
    Codecs               base64 and decimal numerals, written and read back
    FieldText            the text the serializer prints, and the passes of
                         structured_field_safe.go that leave it alone
    FieldRoundtrip       fields printed and parsed again
    HttpsfvRefReads      the instance of [HttpsfvRef] reads what it prints
    EndToEnd             from the signing transport to the verifying handler
    ResponseEndToEnd     from the signing handler to the verifying client
    ReplaySteps          the critical section of Consume, access by access
    ReplayConcurrency    goroutines that share a replay store
    Instances, Witnesses concrete instances and runs; HttpWitnesses,
                         StreamWitnesses, TrailerWitnesses those of the
                         handlers and transports, RoundtripWitnesses those of
                         the round trips
>>

    ** How the code is modelled

    - A string or []byte is a list of eight-bit characters; an [int] is a [Z],
      with the saturating arithmetic of message_limits.go and the bounds of
      [int] and of [time.Duration] written out.  A header is a finite map from
      the stored key to its values, so Go's random map order is a quantified
      choice that the theorems range over.
    - An [error] is a value ([Errors.error]); a function that can fail returns
      [res]; one that can panic returns an option, [None] for the panic.
    - What a call reads from outside (context, clock, key provider, resolver,
      entropy) is an argument, an observation record whose fields are in the
      order in which the code reads them.  The theorems quantify over it.
    - The entries of the replay store are pointers that its map and its heap
      share: [Replay] keeps a memory of entry cells, and the invariant relates
      the map, the heap positions and the [index] fields.  The channel mutex is
      a state, and [ReplayConcurrency] interleaves goroutines over it.  Inside
      the critical section every access of the map, the heap or the latest
      clock reading is a step ([ReplaySteps.section_step]) that other
      goroutines may come between: that they do not is a theorem about the
      token, and [ReplayConcurrency.unlocked_sections_race] shows two sections
      without it that accept one nonce twice.
    - Parameters of the development, with the laws used: the httpsfv package
      ([Httpsfv], [HttpsfvLaws], and for the round trips [HttpsfvReads]: what
      it marshals it unmarshals to a value with the same entries), net/url ([NetURL]), the case mapping of
      non-ASCII letters ([UnicodeCase]), SHA-2 ([Hashes], [HashLaws]) and the
      primitives of crypto/* ([Crypto], [CryptoLaws]).  [HttpsfvRef],
      [HttpsfvRefReads] and [Instances] satisfy all of them, and [Witnesses] applies the theorems to
      the request of RFC 9421, appendix B.2, signed and verified in the kernel.
    - A handler or transport runs code of its caller: a wrapped transport, an
      inner handler, selectors, a body that is read and closed.  What such code
      returns is an observation; what it does with the objects it is given is
      a sequence of calls ([ResponseSigning.writer_op], [TrailerResponse],
      [TrailerBody]), each a step of the object's state, and the theorems
      quantify over the sequence.  The end of a call is an inductive type with
      one constructor per way the code ends: [HttpIntegration.inbound],
      [ResponseSigning], [TrailerSigning.streaming] and so on name what is
      delegated, served, released, written, closed or reported.
    - Requests and responses are values with an address, and [fresh] is the
      address of the clone a handler makes, because errors and contexts refer
      to the message they were given.
    - A client of the replay store uses the class [ReplayStore]; its laws
      ([ReplayStoreLaws]) are the documented promise, which the in-memory store
      is proved to keep ([ReplayFacts.memory_store_laws]).

    ** What is proved

    - Replay protection ([ReplayFacts], [ReplayConcurrency], [VerifierFacts]):
      [Consume] refines an atomic abstract store, never panics and stays in its
      capacity; no identity is accepted twice before it expires, sequentially
      or under any schedule; concurrent calls are linearizable and return; no
      signature verifies twice.
    - Verification ([VerifierFacts], [ProfileFacts]): what a success means for
      coverage, key, algorithm and time; that the nonce is consumed only after
      the signature was checked; that errors carry no collaborator's text; that
      a verifier with a constructed profile always answers.
    - Signing ([SignerFacts], [ProfileFacts], [AlgorithmFacts]): what a signer
      emits, the profile configurations both constructors accept, the round
      trip of each algorithm, and the end-to-end theorem that what a signer
      signs a verifier with a matching policy verifies.
    - The signature base ([BaseFacts], [SizeFacts], [QueryFacts]): one line per
      component that no value can break, equal bases have equal values, the
      base stays within its limit because the size estimates bound the
      serializer, header lookup does not depend on map order, and the codec of
      query parameters.
    - Fields ([SyntaxLimits], [SignatureFacts], [DigestFacts]): exact domains
      of the pre-parse checks, well-formedness of parsed fields, digests.
    - Round trips of fields ([FieldRoundtrip]): Signature-Input,
      Accept-Signature, Signature, digest and digest preference fields without
      decimals, printed by [String], are what the parser returns, through all
      its textual passes and limits.
    - Transports and handlers of complete messages ([HttpFacts],
      [ResponseFacts], [BodyDigestFacts]): a handler serves, and a client gets,
      only what the verifier accepted, with exactly the bytes that the covered
      digest matches; what is delegated or written carries the signer's
      signature over that very message; the buffered writer equals its
      specification on every sequence of calls; what one side's digest
      transport delegates the other side's handler serves.
    - From transport to handler ([EndToEnd]): a request that the signing
      transport delegates is served, unchanged and with the signature's
      metadata, by a verifying handler whose policy agrees.
    - From handler to client ([ResponseEndToEnd]): the response that the
      signing handler signed before it was written and the one the client's
      transport received have one signature base, and the client gets it; for
      a response without earlier signatures, on a plain connection, and for
      components of the request that both sides show alike.
    - Streams ([TrailerBody], [TrailerSigningFacts], [TrailerResponseFacts],
      [TrailerVerificationFacts]): the trailer digest is that of the bytes
      delivered, once, whatever the reader does; a response is released only
      after its request was signed; an inbound stream is served only if its
      trailers authenticate all of it.
    - Foreign schemes ([Compatibility]): the adapter calls the scheme only
      within its boundary, on copies, and reports nothing of its errors.

    ** Bounds and fuel

    Four loops are not structural.  [Heap.up_loop] and [Heap.down_loop] take
    fuel above the position that decreases or the room that is left, and their
    lemmas prove that they return; [GoStrings.dec_digits] has one unit per bit
    and [GoStrings.trim_prefixes] one per byte, more than the iterations.
    [MessageDerived.utf8_loop] recurses on the bytes left.
    [BodyReader.read_loop] has one unit more than the limit: every read that is
    not the last delivers a byte, and [BodyReader.readBoundedAndClose_exact]
    proves that the loop returns whatever the body does.

    ** Not modelled

    - The parser of the httpsfv package: the theorems use nothing of a parsed
      value but what the program checks of it, except for the round trips,
      which use that the package reads what it prints.  Typed nil values of interfaces
      and the erasure of keys are outside the model, as they are outside the
      package's promise.
    - Of the callers' code that handlers and transports run, panics and
      concurrent use of one header map or writer; the values a context carries
      other than the package's own; the text that http.Error writes.
    - doc.go, which has no code. *)

From stdpp Require Export base tactics gmap sets list strings countable.
From Stdlib Require Export ZArith Ascii Bool Lia ZifyBool.

#[global] Set Default Goal Selector "!".
#[export] Set Warnings "-clear-no-such-hyp".

(** ** Go strings

    A Go [string] (and a Go [[]byte]) is a sequence of bytes.  Both are lists
    of [ascii], an eight-bit character; a literal is written as a Rocq string
    and coerced. *)

Abbreviation gostring := (list ascii).

Definition str (s : string) : gostring := String.list_ascii_of_string s.
Coercion str : string >-> list.
#[global] Arguments str _ : simpl never.

Declare Scope go_scope.
Delimit Scope go_scope with go.

(** [len] is Go's [len]: an [int]. *)
Definition len {A} (l : list A) : Z := Z.of_nat (length l).
#[global] Arguments len {A} l : simpl never.

Notation "a =s b" := (bool_decide ((a : gostring) = (b : gostring)))
  (at level 70, no associativity) : go_scope.
Notation "a <>s b" := (negb (bool_decide ((a : gostring) = (b : gostring))))
  (at level 70, no associativity) : go_scope.
Open Scope go_scope.

(** Go's machine integers. *)
Definition MaxInt : Z := 2 ^ 63 - 1.
Definition MinInt : Z := - 2 ^ 63.

(** [p == nil]. *)
Definition is_nil {A} (o : option A) : bool :=
  match o with None => true | Some _ => false end.

(** ** Fallible results *)

Inductive result (E A : Type) : Type :=
| Ok (a : A)
| Err (e : E).
Arguments Ok {E A} a.
Arguments Err {E A} e.

Definition rbind {E A B} (m : result E A) (k : A -> result E B) : result E B :=
  match m with Ok a => k a | Err e => Err e end.

Definition is_Ok {E A} (m : result E A) : bool :=
  match m with Ok _ => true | Err _ => false end.

Notation "'let?' x := m 'in' k" := (rbind m (fun x => k))
  (at level 10, x pattern, m at level 100, k at level 200)
  : go_scope.
(** [guard? b else e in k]: the early return [if !b { return e }]. *)
Notation "'guard?' b 'else' e 'in' k" := (if (b : bool) then k else Err e)
  (at level 10, b at level 100, e at level 100, k at level 200)
  : go_scope.

(** ** Characters *)

Definition byte_of (c : ascii) : N := N_of_ascii c.
Definition char_le (a b : ascii) : bool := (N_of_ascii a <=? N_of_ascii b)%N.
Definition char_in (lo hi c : ascii) : bool := char_le lo c && char_le c hi.
Definition char_eqb (a b : ascii) : bool := Ascii.eqb a b.

(** The quotation mark, the backslash and the control characters, by code. *)
Definition c_quote : ascii := "034"%char.
Definition c_backslash : ascii := "092"%char.
Definition c_tab : ascii := "009"%char.
Definition c_lf : ascii := "010"%char.
Definition c_cr : ascii := "013"%char.
Definition c_space : ascii := " "%char.

(** ** Tactics *)

(** Case analysis on one character: 256 closed goals. *)
Ltac all_ascii c := destruct c as [[] [] [] [] [] [] [] []].

(** Reduce boolean hypotheses to propositions. *)
Ltac bool_to_prop :=
  repeat match goal with
  | H : (_ && _)%bool = true |- _ => apply andb_true_iff in H as [? ?]
  | H : (_ || _)%bool = false |- _ => apply orb_false_iff in H as [? ?]
  | H : negb _ = true |- _ => apply negb_true_iff in H
  | H : negb _ = false |- _ => apply negb_false_iff in H
  | H : bool_decide _ = true |- _ => apply bool_decide_eq_true in H
  | H : bool_decide _ = false |- _ => apply bool_decide_eq_false in H
  | H : (_ <=? _)%Z = true |- _ => apply Z.leb_le in H
  | H : (_ <=? _)%Z = false |- _ => apply Z.leb_gt in H
  | H : (_ <? _)%Z = true |- _ => apply Z.ltb_lt in H
  | H : (_ <? _)%Z = false |- _ => apply Z.ltb_ge in H
  | H : (_ =? _)%Z = true |- _ => apply Z.eqb_eq in H
  | H : (_ =? _)%Z = false |- _ => apply Z.eqb_neq in H
  end.

(** Split every [if] and [match] of a hypothesis or of the goal. *)
Ltac break_match_in H :=
  match type of H with
  | context [match ?x with _ => _ end] =>
      lazymatch x with
      | context [match _ with _ => _ end] => fail
      | _ => destruct x eqn:?
      end
  end.
Ltac break_match_goal :=
  match goal with
  | |- context [match ?x with _ => _ end] =>
      lazymatch x with
      | context [match _ with _ => _ end] => fail
      | _ => destruct x eqn:?
      end
  end.

(** Invert a successful run of a monadic program step by step. *)
Ltac inv_ok H :=
  repeat (first
    [ discriminate H
    | progress unfold rbind in H
    | match type of H with Ok _ = Ok _ => injection H as H end
    | break_match_in H; try discriminate H ]).

(** ** Generic lemmas *)

Lemma len_nonneg {A} (l : list A) : (0 <= len l)%Z.
Proof. unfold len. lia. Qed.

Lemma len_app {A} (l k : list A) : len (l ++ k) = (len l + len k)%Z.
Proof. unfold len. rewrite length_app. lia. Qed.

Lemma len_cons {A} (x : A) (l : list A) : len (x :: l) = (1 + len l)%Z.
Proof. unfold len. cbn [length]. lia. Qed.

Lemma len_nil {A} : len (@nil A) = 0%Z.
Proof. reflexivity. Qed.

Lemma len_0 {A} (l : list A) : len l = 0%Z <-> l = [].
Proof.
  unfold len. destruct l; cbn [length]; split; intros H; (lia || congruence || reflexivity).
Qed.

Lemma rbind_Ok {E A B} (m : result E A) (k : A -> result E B) b :
  rbind m k = Ok b <-> exists a, m = Ok a /\ k a = Ok b.
Proof.
  destruct m as [a | e]; cbn.
  - split; [eauto | intros (x & [= ->] & H); exact H].
  - split; [discriminate | intros (x & H & _); discriminate].
Qed.

(** A character predicate closed under concatenation. *)
Lemma forallb_app_true {A} (p : A -> bool) (l k : list A) :
  forallb p (l ++ k) = true <-> forallb p l = true /\ forallb p k = true.
Proof. rewrite forallb_app, andb_true_iff. reflexivity. Qed.

Create HintDb go.
Create Rewrite HintDb go_len.
#[export] Hint Resolve len_nonneg : go.
#[export] Hint Rewrite @len_app @len_cons @len_nil : go_len.

(** Arithmetic on lengths. *)
Ltac len_lia :=
  autorewrite with go_len in *;
  repeat match goal with
  | |- context [len ?l] =>
      lazymatch goal with
      | _ : (0 <= len l)%Z |- _ => fail
      | _ => pose proof (len_nonneg l)
      end
  | _ : context [len ?l] |- _ =>
      lazymatch goal with
      | _ : (0 <= len l)%Z |- _ => fail
      | _ => pose proof (len_nonneg l)
      end
  end; lia.
