(* ===== verification/GoStrings.v ===== *)
(** * The standard-library string functions the program calls

    Byte-level definitions of the functions of Go's [strings], [strconv],
    [encoding/base64], [sort] and [net/http] packages that appear in src/,
    with the lemmas the components share.  [strings.EqualFold] is defined for
    an ASCII right operand, which is how the source always calls it;
    [strings.ToLower] takes the case mapping of a non-ASCII string from the
    class [UnicodeCase]. *)

From S2P Require Import Prelude.

(** ** Character classes *)

Definition is_digit (c : ascii) : bool := char_in "0" "9" c.
Definition is_lower (c : ascii) : bool := char_in "a" "z" c.
Definition is_upper (c : ascii) : bool := char_in "A" "Z" c.
Definition is_ascii (c : ascii) : bool := (N_of_ascii c <? 128)%N.

(** [strings.ContainsRune(set, rune(c))] for an ASCII [set]. *)
Definition char_mem (c : ascii) (set : gostring) : bool := existsb (char_eqb c) set.

Definition lower_ascii (c : ascii) : ascii :=
  if is_upper c then ascii_of_N (N_of_ascii c + 32) else c.
Definition upper_ascii (c : ascii) : ascii :=
  if is_lower c then ascii_of_N (N_of_ascii c - 32) else c.

(** ** Searching, trimming and splitting *)

Fixpoint HasPrefix (s p : gostring) : bool :=
  match p, s with
  | [], _ => true
  | _, [] => false
  | b :: p', a :: s' => char_eqb a b && HasPrefix s' p'
  end.

Fixpoint CutPrefix (s p : gostring) : option gostring :=
  match p, s with
  | [], _ => Some s
  | _, [] => None
  | b :: p', a :: s' => if char_eqb a b then CutPrefix s' p' else None
  end.

Definition TrimPrefix (s p : gostring) : gostring := default s (CutPrefix s p).

Definition HasSuffix (s p : gostring) : bool := HasPrefix (reverse s) (reverse p).

(** [strings.IndexByte]: the first position of [c]. *)
Fixpoint IndexByte (s : gostring) (c : ascii) : option nat :=
  match s with
  | [] => None
  | a :: s' => if char_eqb a c then Some 0 else S <$> IndexByte s' c
  end.

(** [strings.LastIndexByte]. *)
Definition LastIndexByte (s : gostring) (c : ascii) : option nat :=
  (fun i => length s - 1 - i) <$> IndexByte (reverse s) c.

Definition ContainsByte (s : gostring) (c : ascii) : bool := existsb (char_eqb c) s.

(** [strings.ContainsAny] for an ASCII set. *)
Definition ContainsAny (s set : gostring) : bool := existsb (fun c => char_mem c set) s.

Fixpoint TrimLeft (s cutset : gostring) : gostring :=
  match s with
  | [] => []
  | a :: s' => if char_mem a cutset then TrimLeft s' cutset else s
  end.
Definition TrimRight (s cutset : gostring) : gostring :=
  reverse (TrimLeft (reverse s) cutset).
Definition Trim (s cutset : gostring) : gostring := TrimRight (TrimLeft s cutset) cutset.

(** The UTF-8 encodings of the characters with Unicode's White_Space property,
    which [strings.TrimSpace] removes. *)
Definition ascii_n (n : N) : ascii := ascii_of_N n.
Definition white_space : list gostring :=
  (fun n => [ascii_n n]) <$> [9; 10; 11; 12; 13; 32]%N.
Definition white_space_multi : list gostring :=
  (map ascii_n <$>
    [ [0xC2; 0x85]; [0xC2; 0xA0]; [0xE1; 0x9A; 0x80];
      [0xE2; 0x80; 0x80]; [0xE2; 0x80; 0x81]; [0xE2; 0x80; 0x82]; [0xE2; 0x80; 0x83];
      [0xE2; 0x80; 0x84]; [0xE2; 0x80; 0x85]; [0xE2; 0x80; 0x86]; [0xE2; 0x80; 0x87];
      [0xE2; 0x80; 0x88]; [0xE2; 0x80; 0x89]; [0xE2; 0x80; 0x8A];
      [0xE2; 0x80; 0xA8]; [0xE2; 0x80; 0xA9]; [0xE2; 0x80; 0xAF];
      [0xE2; 0x81; 0x9F]; [0xE3; 0x80; 0x80] ]%N).

(** Remove the first of [ps] that is a prefix of [s]. *)
Fixpoint cut_any (s : gostring) (ps : list gostring) : option gostring :=
  match ps with
  | [] => None
  | p :: ps' => match CutPrefix s p with Some r => Some r | None => cut_any s ps' end
  end.

Fixpoint trim_prefixes (fuel : nat) (ps : list gostring) (s : gostring) : gostring :=
  match fuel with
  | O => s
  | S f => match cut_any s ps with Some r => trim_prefixes f ps r | None => s end
  end.

(** [strings.TrimSpace].  Every removal shortens the string, so its length is
    enough fuel. *)
Definition TrimSpace (s : gostring) : gostring :=
  let ps := white_space ++ white_space_multi in
  let l := trim_prefixes (length s) ps s in
  reverse (trim_prefixes (length l) (reverse <$> ps) (reverse l)).

(** [strings.Split] and [strings.SplitSeq] for a one-byte separator. *)
Fixpoint Split (s : gostring) (sep : ascii) : list gostring :=
  match s with
  | [] => [[]]
  | c :: s' =>
      if char_eqb c sep then [] :: Split s' sep
      else match Split s' sep with
           | [] => [[c]]
           | w :: ws => (c :: w) :: ws
           end
  end.

(** [strings.Cut] for a one-byte separator: before, after, found. *)
Fixpoint Cut (s : gostring) (sep : ascii) : gostring * gostring * bool :=
  match s with
  | [] => ([], [], false)
  | c :: s' =>
      if char_eqb c sep then ([], s', true)
      else let '(before, after, found) := Cut s' sep in (c :: before, after, found)
  end.

Fixpoint Join (l : list gostring) (sep : gostring) : gostring :=
  match l with
  | [] => []
  | [x] => x
  | x :: l' => x ++ sep ++ Join l' sep
  end.

(** ** Case folding *)

(** [strings.EqualFold s t] for an ASCII [t]: simple Unicode folding adds to
    the ASCII pairs only U+017F for [s] and U+212A for [k]. *)
Fixpoint EqualFold (s t : gostring) : bool :=
  match t with
  | [] => match s with [] => true | _ => false end
  | d :: t' =>
      match s with
      | [] => false
      | c :: s1 =>
          if is_ascii c then char_eqb (lower_ascii c) (lower_ascii d) && EqualFold s1 t'
          else match s1 with
               | [] => false
               | c2 :: s2 =>
                   if char_eqb (lower_ascii d) "s" && char_eqb c "197" && char_eqb c2 "191"
                   then EqualFold s2 t'
                   else match s2 with
                        | [] => false
                        | c3 :: s3 =>
                            char_eqb (lower_ascii d) "k" && char_eqb c "226" &&
                            char_eqb c2 "132" && char_eqb c3 "170" && EqualFold s3 t'
                        end
               end
      end
  end.

Definition asciiString_list (s : gostring) : bool := forallb is_ascii s.

(** Unicode case mapping of strings with a byte above 0x7f. *)
Class UnicodeCase := { ToLower_unicode : gostring -> gostring }.

Definition ToLower `{UnicodeCase} (s : gostring) : gostring :=
  if asciiString_list s then map lower_ascii s else ToLower_unicode s.

(** ** Decimal numbers *)

Definition digit_char (n : N) : ascii := ascii_of_N (48 + n).
Definition digit_val (c : ascii) : N := (N_of_ascii c - 48)%N.

Fixpoint dec_digits (fuel : nat) (n : N) (acc : gostring) : gostring :=
  match fuel with
  | O => acc
  | S f =>
      let acc' := digit_char (n mod 10) :: acc in
      if (n <? 10)%N then acc' else dec_digits f (n / 10) acc'
  end.

(** [strconv.FormatUint(n, 10)]: the number of binary digits bounds the number
    of decimal ones. *)
Definition FormatUint (n : N) : gostring := dec_digits (S (N.size_nat n)) n [].

(** [strconv.FormatInt(z, 10)] and [strconv.Itoa]. *)
Definition FormatInt (z : Z) : gostring :=
  match z with
  | Z0 => FormatUint 0
  | Zpos p => FormatUint (Npos p)
  | Zneg p => "-"%char :: FormatUint (Npos p)
  end.
Definition Itoa (z : Z) : gostring := FormatInt z.

Definition digits_value (acc : N) (s : gostring) : N :=
  fold_left (fun n c => (10 * n + digit_val c)%N) s acc.

(** [strconv.ParseUint(s, 10, bits)]. *)
Definition ParseUint (s : gostring) (bits : N) : option N :=
  match s with
  | [] => None
  | _ =>
      if forallb is_digit s
      then let n := digits_value 0 s in if (n <? 2 ^ bits)%N then Some n else None
      else None
  end.

(** ** base64 *)

Definition b64_char (n : N) : ascii :=
  if (n <? 26)%N then ascii_of_N (65 + n)
  else if (n <? 52)%N then ascii_of_N (97 + (n - 26))
  else if (n <? 62)%N then ascii_of_N (48 + (n - 52))
  else if (n =? 62)%N then "+"%char else "/"%char.

Definition b64_val (c : ascii) : option N :=
  let n := N_of_ascii c in
  if is_upper c then Some (n - 65)%N
  else if is_lower c then Some (n - 97 + 26)%N
  else if is_digit c then Some (n - 48 + 52)%N
  else if char_eqb c "+" then Some 62%N
  else if char_eqb c "/" then Some 63%N
  else None.

(** [base64.StdEncoding.EncodeToString]. *)
Fixpoint StdEncode (s : gostring) : gostring :=
  match s with
  | [] => []
  | [a] =>
      let n := N.shiftl (N_of_ascii a) 16 in
      [b64_char (N.land (N.shiftr n 18) 63); b64_char (N.land (N.shiftr n 12) 63); "="%char; "="%char]
  | [a; b] =>
      let n := N.lor (N.shiftl (N_of_ascii a) 16) (N.shiftl (N_of_ascii b) 8) in
      [b64_char (N.land (N.shiftr n 18) 63); b64_char (N.land (N.shiftr n 12) 63);
       b64_char (N.land (N.shiftr n 6) 63); "="%char]
  | a :: b :: c :: rest =>
      let n := N.lor (N.lor (N.shiftl (N_of_ascii a) 16) (N.shiftl (N_of_ascii b) 8)) (N_of_ascii c) in
      b64_char (N.land (N.shiftr n 18) 63) :: b64_char (N.land (N.shiftr n 12) 63) ::
      b64_char (N.land (N.shiftr n 6) 63) :: b64_char (N.land n 63) :: StdEncode rest
  end.

Definition byte_at (n : N) (shift : N) : ascii := ascii_of_N (N.land (N.shiftr n shift) 255).

(** [base64.RawStdEncoding.DecodeString] on a string without line breaks: no
    padding, and the unused low bits of the last character are ignored. *)
Fixpoint RawStdDecode (s : gostring) : option gostring :=
  match s with
  | [] => Some []
  | [_] => None
  | [a; b] =>
      match b64_val a, b64_val b with
      | Some x, Some y =>
          let n := N.lor (N.shiftl x 18) (N.shiftl y 12) in Some [byte_at n 16]
      | _, _ => None
      end
  | [a; b; c] =>
      match b64_val a, b64_val b, b64_val c with
      | Some x, Some y, Some z =>
          let n := N.lor (N.lor (N.shiftl x 18) (N.shiftl y 12)) (N.shiftl z 6) in
          Some [byte_at n 16; byte_at n 8]
      | _, _, _ => None
      end
  | a :: b :: c :: d :: rest =>
      match b64_val a, b64_val b, b64_val c, b64_val d, RawStdDecode rest with
      | Some x, Some y, Some z, Some w, Some r =>
          let n := N.lor (N.lor (N.shiftl x 18) (N.shiftl y 12)) (N.lor (N.shiftl z 6) w) in
          Some (byte_at n 16 :: byte_at n 8 :: byte_at n 0 :: r)
      | _, _, _, _, _ => None
      end
  end.

(** ** Ordering *)

(** Go compares strings byte by byte. *)
Fixpoint string_le (a b : gostring) : bool :=
  match a, b with
  | [], _ => true
  | _ :: _, [] => false
  | c :: a', d :: b' =>
      if char_eqb c d then string_le a' b' else char_le c d
  end.

Definition string_lt (a b : gostring) : bool := string_le a b && negb (bool_decide (a = b)).

Section Sort.
Context {A : Type} (key : A -> gostring).

(** Stable insertion sort by key: what [slices.SortFunc] and [sort.Strings]
    compute for a list with pairwise different keys, and, for lists of at
    most twelve elements, exactly the algorithm they run. *)
Fixpoint insert_by (x : A) (l : list A) : list A :=
  match l with
  | [] => [x]
  | y :: l' => if string_le (key x) (key y) then x :: l else y :: insert_by x l'
  end.

Fixpoint sort_by (l : list A) : list A :=
  match l with
  | [] => []
  | x :: l' => insert_by x (sort_by l')
  end.
End Sort.

(** ** net/http *)

(** [validHTTPToken]'s and textproto's token characters. *)
Definition is_token_char (c : ascii) : bool :=
  is_lower c || is_upper c || is_digit c || char_mem c "!#$%&'*+-.^_`|~".

Fixpoint canonical_key (upper : bool) (s : gostring) : gostring :=
  match s with
  | [] => []
  | c :: s' =>
      (if upper then upper_ascii c else lower_ascii c) :: canonical_key (char_eqb c "-") s'
  end.

(** [http.CanonicalHeaderKey]. *)
Definition CanonicalHeaderKey (s : gostring) : gostring :=
  if forallb is_token_char s then canonical_key true s else s.

(** ** Facts on the order and on sorting *)

Lemma char_eqb_eq c d : char_eqb c d = true <-> c = d.
Proof. apply Ascii.eqb_eq. Qed.

Lemma char_le_antisym c d : char_le c d = true -> char_le d c = true -> c = d.
Proof.
  unfold char_le. intros H1 H2. rewrite <- (ascii_N_embedding c), <- (ascii_N_embedding d).
  f_equal. lia.
Qed.

Lemma string_le_total a b : string_le a b = true \/ string_le b a = true.
Proof.
  revert b. induction a as [| c a IH]; intros [| d b]; cbn; auto.
  unfold char_eqb. rewrite (Ascii.eqb_sym d c). destruct (Ascii.eqb c d); [apply IH |].
  unfold char_le. lia.
Qed.

Lemma string_le_antisym a b : string_le a b = true -> string_le b a = true -> a = b.
Proof.
  revert b. induction a as [| c a IH]; intros [| d b]; cbn; try done.
  unfold char_eqb. rewrite (Ascii.eqb_sym d c). destruct (Ascii.eqb_spec c d) as [-> | Hne].
  - intros. f_equal. auto.
  - intros H1 H2. destruct Hne. by apply char_le_antisym.
Qed.

Lemma string_le_trans a b c : string_le a b = true -> string_le b c = true -> string_le a c = true.
Proof.
  revert b c. induction a as [| x a IH]; intros [| y b] [| z c]; cbn; try done.
  unfold char_eqb, char_le. destruct (Ascii.eqb_spec x y) as [-> | Hxy].
  - destruct (Ascii.eqb y z); [apply IH | done].
  - intros H1. destruct (Ascii.eqb_spec y z) as [-> | Hyz].
    + intros _. destruct (Ascii.eqb_spec x z); [done | done].
    + intros H2. destruct (Ascii.eqb_spec x z) as [-> |]; [| lia].
      destruct Hxy. apply char_le_antisym; done.
Qed.

Section SortFacts.
Context {A : Type} (key : A -> gostring).

Lemma insert_by_perm x l : insert_by key x l ≡ₚ x :: l.
Proof.
  induction l as [| y l IH]; [done |]. cbn [insert_by]. case_match; [done |].
  rewrite IH. apply Permutation_swap.
Qed.

Lemma sort_by_perm l : sort_by key l ≡ₚ l.
Proof. induction l as [| x l IH]; [done |]. cbn [sort_by]. by rewrite insert_by_perm, IH. Qed.

Lemma insert_by_comm x y l :
  key x <> key y -> insert_by key x (insert_by key y l) = insert_by key y (insert_by key x l).
Proof.
  intros Hxy.
  assert (forall a b, key a <> key b -> string_le (key a) (key b) = negb (string_le (key b) (key a)))
    as Hflip.
  { intros a b Hab. destruct (string_le (key a) (key b)) eqn:H1, (string_le (key b) (key a)) eqn:H2;
      try done.
    - by destruct (Hab (string_le_antisym _ _ H1 H2)).
    - destruct (string_le_total (key a) (key b)); congruence. }
  induction l as [| z l IH]; cbn [insert_by].
  { rewrite (Hflip x y Hxy). by destruct (string_le (key y) (key x)). }
  destruct (string_le (key y) (key z)) eqn:Hyz, (string_le (key x) (key z)) eqn:Hxz; cbn [insert_by];
    rewrite ?Hyz, ?Hxz.
  - rewrite (Hflip x y Hxy). by destruct (string_le (key y) (key x)).
  - destruct (string_le (key x) (key y)) eqn:H; [| done].
    by rewrite (string_le_trans _ _ _ H Hyz) in Hxz.
  - destruct (string_le (key y) (key x)) eqn:H; [| done].
    by rewrite (string_le_trans _ _ _ H Hxz) in Hyz.
  - by rewrite IH.
Qed.

(** Sorting forgets the order of a list with pairwise different keys. *)
Lemma sort_by_Permutation l k :
  NoDup (map key l) -> l ≡ₚ k -> sort_by key l = sort_by key k.
Proof.
  intros Hnd Hp. induction Hp as [| x l k Hp IH | x y l | l k m Hp1 IH1 Hp2 IH2]; [done | | |].
  - cbn [map] in Hnd. apply list.NoDup_cons in Hnd as [_ Hnd]. cbn [sort_by]. by rewrite IH.
  - cbn [sort_by map] in *. apply list.NoDup_cons in Hnd as [Hn _].
    apply insert_by_comm. intros Heq. apply Hn. rewrite Heq. apply list_elem_of_here.
  - rewrite IH1 by done. apply IH2. by rewrite <- (Permutation_map key Hp1).
Qed.
End SortFacts.
