(* ===== verification/Codecs.v ===== *)
(** * Codecs of the standard library, and their inverses

    [base64.RawStdEncoding] inverts [base64.StdEncoding] once the padding is
    trimmed, and reading the digits of [strconv.FormatInt] inverts it. *)

From S2P Require Import Prelude GoStrings.

(** ** Bits *)

Lemma testbit_above (w n i : N) : (n < 2 ^ w)%N -> (w <= i)%N -> N.testbit n i = false.
Proof. intros Hn Hi. rewrite <- (N.mod_small n (2 ^ w)) by done. by apply N.mod_pow2_bits_high. Qed.

(** Equality of two numbers from the bits below a bound. *)
Lemma bits_below (w n m : N) :
  (n < 2 ^ w)%N -> (m < 2 ^ w)%N ->
  (forall i, (i < w)%N -> N.testbit n i = N.testbit m i) -> n = m.
Proof.
  intros Hn Hm Hb. apply N.bits_inj. intros i. destruct (N.lt_ge_cases i w) as [Hi | Hi]; [by apply Hb |].
  by rewrite (testbit_above w n), (testbit_above w m).
Qed.

Lemma ascii_bound c : (N_of_ascii c < 2 ^ 8)%N.
Proof. apply N_ascii_bounded. Qed.

(** Case analysis on a bit position of a byte. *)
Lemma below_8 (P : N -> Prop) :
  P 0%N -> P 1%N -> P 2%N -> P 3%N -> P 4%N -> P 5%N -> P 6%N -> P 7%N ->
  forall i, (i < 8)%N -> P i.
Proof.
  intros ? ? ? ? ? ? ? ? i Hi. do 8 (destruct i as [| i] using N.peano_ind; [done |]; clear IHi). lia.
Qed.

Lemma land63_testbit n i : N.testbit (N.land n 63) i = N.testbit n i && (i <? 6)%N.
Proof.
  change 63%N with (N.ones 6). rewrite N.land_spec.
  destruct (N.ltb_spec i 6); [by rewrite N.ones_spec_low | by rewrite N.ones_spec_high].
Qed.

Lemma land255_testbit n i : N.testbit (N.land n 255) i = N.testbit n i && (i <? 8)%N.
Proof.
  change 255%N with (N.ones 8). rewrite N.land_spec.
  destruct (N.ltb_spec i 8); [by rewrite N.ones_spec_low | by rewrite N.ones_spec_high].
Qed.

Lemma shiftl_testbit n k i : N.testbit (N.shiftl n k) i = (k <=? i)%N && N.testbit n (i - k).
Proof.
  destruct (N.leb_spec k i); [by rewrite N.shiftl_spec_high' | by rewrite N.shiftl_spec_low].
Qed.

(** Compute a boolean expression on the bits of bytes at literal positions. *)
Ltac solve_bits :=
  repeat (rewrite N.lor_spec || rewrite land63_testbit || rewrite land255_testbit ||
          rewrite shiftl_testbit || rewrite N.shiftr_spec');
  cbv -[N.testbit N_of_ascii];
  repeat match goal with |- context [N.testbit (N_of_ascii ?c) ?i] =>
    rewrite (testbit_above 8 (N_of_ascii c) i (ascii_bound c)) by (cbv; discriminate) end;
  repeat match goal with |- context [N.testbit ?n ?i] => destruct (N.testbit n i) end; reflexivity.

(** A byte is what is cut out of a word at its position. *)
Lemma byte_at_eq n k c :
  (forall i, (i < 8)%N -> N.testbit n (i + k) = N.testbit (N_of_ascii c) i) -> byte_at n k = c.
Proof.
  intros Hb. unfold byte_at. rewrite <- (ascii_N_embedding c). f_equal.
  apply (bits_below 8); [| apply ascii_bound |].
  - change 255%N with (N.ones 8). rewrite N.land_ones. by apply N.mod_lt.
  - intros i Hi. rewrite land255_testbit, N.shiftr_spec', (proj2 (N.ltb_lt _ _) Hi), andb_true_r.
    by apply Hb.
Qed.

Ltac cut_byte := apply byte_at_eq, below_8; solve_bits.

(** ** base64 *)

Lemma b64_val_char n : (n < 64)%N -> b64_val (b64_char n) = Some n.
Proof.
  intros Hn. do 64 (destruct n as [| n] using N.peano_ind; [done |]; clear IHn). lia.
Qed.

Lemma sextet n : (N.land n 63 < 64)%N.
Proof. change 63%N with (N.ones 6). rewrite N.land_ones. by apply N.mod_lt. Qed.

Lemma decode_group a b c rest :
  RawStdDecode (StdEncode [a; b; c] ++ rest) = (fun r => a :: b :: c :: r) <$> RawStdDecode rest.
Proof.
  cbn [StdEncode app]. cbv zeta. cbn [RawStdDecode]. rewrite !b64_val_char by apply sextet.
  destruct (RawStdDecode rest) as [r |]; [| done]. cbv zeta. cbn [fmap option_fmap option_map].
  do 2 f_equal; [cut_byte | f_equal; [cut_byte | f_equal; cut_byte]].
Qed.

Lemma decode_two a b : RawStdDecode (take 3 (StdEncode [a; b])) = Some [a; b].
Proof.
  cbn [StdEncode take]. cbv zeta. cbn [RawStdDecode]. rewrite !b64_val_char by apply sextet.
  do 2 f_equal; [cut_byte | f_equal; cut_byte].
Qed.

Lemma decode_one a : RawStdDecode (take 2 (StdEncode [a])) = Some [a].
Proof.
  cbn [StdEncode take]. cbv zeta. cbn [RawStdDecode]. rewrite !b64_val_char by apply sextet.
  do 2 f_equal. cut_byte.
Qed.

(** The characters of the alphabet. *)
Definition b64_alphabet (c : ascii) : bool :=
  is_upper c || is_lower c || is_digit c || char_eqb c "+" || char_eqb c "/".

Lemma b64_char_alphabet n : (n < 64)%N -> b64_alphabet (b64_char n) = true.
Proof.
  intros Hn. do 64 (destruct n as [| n] using N.peano_ind; [done |]; clear IHn). lia.
Qed.

(** An encoding is a text over the alphabet, which decodes to the content, and
    at most two characters of padding. *)
Lemma StdEncode_split s :
  exists body pad, StdEncode s = body ++ pad /\ forallb b64_alphabet body = true /\
    forallb (fun c => char_eqb c "=") pad = true /\ RawStdDecode body = Some s.
Proof.
  induction s as [s IH] using (induction_ltof1 _ (@length ascii)). unfold ltof in IH.
  destruct s as [| a [| b [| c s]]].
  - by exists [], [].
  - exists (take 2 (StdEncode [a])), (str "=="). split; [done |]. split; [| split; [done |]].
    + cbn [StdEncode take forallb]. cbv zeta. by rewrite !b64_char_alphabet by apply sextet.
    + apply decode_one.
  - exists (take 3 (StdEncode [a; b])), (str "="). split; [done |]. split; [| split; [done |]].
    + cbn [StdEncode take forallb]. cbv zeta. by rewrite !b64_char_alphabet by apply sextet.
    + apply decode_two.
  - destruct (IH s) as (body & pad & He & Ha & Hp & Hd); [cbn; lia |].
    exists (StdEncode [a; b; c] ++ body), pad. split; [| split; [| split; [done |]]].
    + rewrite <- app_assoc, <- He. done.
    + rewrite forallb_app, Ha, andb_true_r. cbn [StdEncode forallb]. cbv zeta.
      by rewrite !b64_char_alphabet by apply sextet.
    + by rewrite decode_group, Hd.
Qed.

Lemma StdEncode_length s : (len (StdEncode s) <= 2 * len s + 4)%Z.
Proof.
  induction s as [s IH] using (induction_ltof1 _ (@length ascii)). unfold ltof in IH.
  destruct s as [| a [| b [| c s]]]; [done | done | done |].
  specialize (IH s ltac:(cbn; lia)). cbn [StdEncode]. rewrite !len_cons. lia.
Qed.

Lemma TrimLeft_all s set : forallb (fun c => char_mem c set) s = true -> TrimLeft s set = [].
Proof. induction s as [| c s IH]; [done |]. cbn. intros [-> H]%andb_true_iff. auto. Qed.

Lemma TrimLeft_app s k set :
  forallb (fun c => char_mem c set) s = true -> TrimLeft (s ++ k) set = TrimLeft k set.
Proof. induction s as [| c s IH]; [done |]. cbn. intros [-> H]%andb_true_iff. auto. Qed.

Lemma TrimLeft_none s set :
  match s with [] => True | c :: _ => char_mem c set = false end -> TrimLeft s set = s.
Proof. destruct s; [done |]. cbn. by intros ->. Qed.

(** [TrimRight] removes a suffix in the set after a character out of it. *)
Lemma TrimRight_app s pad set :
  forallb (fun c => negb (char_mem c set)) s = true ->
  forallb (fun c => char_mem c set) pad = true -> TrimRight (s ++ pad) set = s.
Proof.
  intros Hs Hp. unfold TrimRight. rewrite reverse_app, TrimLeft_app.
  - rewrite TrimLeft_none; [by rewrite reverse_involutive |].
    destruct s as [| c s _] using rev_ind; [done |]. rewrite reverse_snoc.
    rewrite forallb_app in Hs. apply andb_true_iff in Hs as [_ [Hc _]%andb_true_iff].
    by apply negb_true_iff in Hc.
  - rewrite forallb_forall in Hp. apply forallb_forall. intros c Hc%list_elem_of_In.
    by apply Hp, list_elem_of_In, elem_of_reverse.
Qed.

(** Decoding inverts encoding. *)
Lemma StdEncode_decode s :
  exists body, TrimRight (StdEncode s) "=" = body /\ RawStdDecode body = Some s /\
    forallb b64_alphabet body = true.
Proof.
  destruct (StdEncode_split s) as (body & pad & -> & Ha & Hp & Hd). exists body. split; [| done].
  apply TrimRight_app.
  - revert Ha. rewrite !forallb_forall. intros H c Hc. specialize (H c Hc). by all_ascii c.
  - revert Hp. rewrite !forallb_forall. intros H c Hc. specialize (H c Hc). by all_ascii c.
Qed.

(** ** Decimal numbers *)

Lemma digit_val_char n : (n < 10)%N -> digit_val (digit_char n) = n.
Proof. intros Hn. do 10 (destruct n as [| n] using N.peano_ind; [done |]; clear IHn). lia. Qed.

Lemma digits_value_cons acc c s : digits_value acc (c :: s) = digits_value (10 * acc + digit_val c) s.
Proof. done. Qed.

Lemma dec_digits_value fuel n acc :
  (n < 10 ^ N.of_nat (S fuel))%N ->
  digits_value 0 (dec_digits (S fuel) n acc) = digits_value n acc.
Proof.
  revert n acc. induction fuel as [| f IH]; intros n acc Hn.
  - cbn [dec_digits]. change (10 ^ N.of_nat 1)%N with 10%N in Hn. rewrite (proj2 (N.ltb_lt _ _) Hn).
    rewrite digits_value_cons, N.mod_small, digit_val_char by done. done.
  - change (dec_digits (S (S f)) n acc) with
      (let acc' := digit_char (n mod 10) :: acc in
       if (n <? 10)%N then acc' else dec_digits (S f) (n / 10) acc'). cbv zeta.
    assert (n mod 10 < 10)%N as Hm by (by apply N.mod_lt).
    destruct (N.ltb_spec n 10) as [Hlt | Hge].
    + rewrite digits_value_cons, digit_val_char, N.mod_small by done. done.
    + rewrite IH.
      * rewrite digits_value_cons, digit_val_char by done. f_equal.
        symmetry. apply N.div_mod. done.
      * apply N.Div0.div_lt_upper_bound. by rewrite <- N.pow_succ_r', <- Nnat.Nat2N.inj_succ.
Qed.

Lemma FormatUint_value n : digits_value 0 (FormatUint n) = n.
Proof.
  unfold FormatUint. rewrite dec_digits_value; [done |].
  assert (n < 2 ^ N.of_nat (S (N.size_nat n)))%N as Hn.
  { rewrite Nnat.Nat2N.inj_succ, N.pow_succ_r'. assert (N.of_nat (N.size_nat n) = N.size n) as ->.
    { destruct n as [| p]; [done |]. cbn [N.size_nat N.size].
      induction p as [p IH | p IH |]; cbn [Pos.size_nat Pos.size]; [lia | lia | done]. }
    pose proof (N.size_gt n). lia. }
  eapply N.lt_le_trans; [exact Hn |]. apply N.pow_le_mono_l. lia.
Qed.

Lemma dec_digits_length fuel n acc k :
  (n < 10 ^ N.of_nat (S k))%N -> (length (dec_digits fuel n acc) <= S k + length acc)%nat.
Proof.
  revert n acc k. induction fuel as [| f IH]; intros n acc k Hn; cbn [dec_digits]; [lia |].
  destruct (N.ltb_spec n 10) as [Hlt | Hge]; [cbn; lia |]. destruct k as [| k].
  { change (10 ^ N.of_nat 1)%N with 10%N in Hn. lia. }
  etrans; [apply (IH _ _ k) |]; [| cbn; lia].
  apply N.Div0.div_lt_upper_bound. by rewrite <- N.pow_succ_r', <- Nnat.Nat2N.inj_succ.
Qed.

Lemma dec_digits_nonempty fuel n acc : dec_digits (S fuel) n acc <> [].
Proof.
  revert n acc. induction fuel as [| f IH]; intros n acc; cbn [dec_digits]; [by case_match |].
  case_match; [done |]. apply IH.
Qed.

Lemma FormatUint_nonempty n : FormatUint n <> [].
Proof. apply dec_digits_nonempty. Qed.
