(* ===== verification/Errors.v ===== *)
(** * Error values

    The package's sentinel errors, the standard library's sentinels it tests
    for, and the trees [fmt.Errorf] builds with [%w].  [errors_Is] is Go's
    [errors.Is] for a sentinel target. *)

From S2P Require Import Prelude.

(** Every [var Err... = errors.New(...)] of the package. *)
Inductive sentinel : Set :=
| ErrInvalidSyntaxLimits | ErrSyntaxLimit
| ErrInvalidSignatureInput | ErrInvalidSignature | ErrInvalidAcceptSignature
| ErrInvalidDigestField | ErrUnsupportedDigestAlgorithm | ErrMissingDigest | ErrDigestMismatch
| ErrInvalidDigestPreferences
| ErrSignatureBase | ErrSignatureBaseLimit
| ErrUnsupportedSignatureAlgorithm | ErrIncompatibleKey | ErrInvalidSignatureValue
| ErrSignatureRandomness
| ErrReplayDetected | ErrReplayCapacity | ErrInvalidReplayRecord | ErrInvalidReplayConfig
| ErrInvalidSigningProfile | ErrSigningPolicy | ErrSigningKey | ErrSigningProvider
| ErrSigningBase | ErrSigningCryptographic | ErrInvalidSignedFields
| ErrInvalidVerificationProfile | ErrKeyNotFound | ErrKeyResolutionFailure
| ErrReplayBackendFailure
| errStructuredFieldParse | errStructuredFieldRFC8941
| ErrInvalidHTTPIntegration | ErrHTTPIntegrationSigning | ErrExistingSignatures
| ErrHTTPIntegrationVerification | ErrResponseBodyTooLarge | ErrAmbiguousProtectedField
| ErrInvalidBodyIntegration | ErrBodyTooLarge | ErrBodyRead | ErrExistingDigest
| Canceled | DeadlineExceeded | EOF | ErrBodyNotAllowed | ErrNotSupported.

#[export] Instance sentinel_eq_dec : EqDecision sentinel.
Proof. solve_decision. Defined.

(** [VerificationFailure] of verifier.go. *)
Inductive VerificationFailure : Set :=
| VerificationSelection | VerificationPolicy | VerificationTime | VerificationKeyResolution
| VerificationKey | VerificationAlgorithm | VerificationBase | VerificationCryptographic
| VerificationReplay.

#[export] Instance VerificationFailure_eq_dec : EqDecision VerificationFailure.
Proof. solve_decision. Defined.

(** A non-nil error: a sentinel, an [errors.New] made on the spot, the result
    of [fmt.Errorf] wrapping one or two errors, or a [*VerificationError]. *)
Inductive error : Type :=
| Sentinel (s : sentinel)
| New (text : gostring)
| Wrap (e : error)
| Wrap2 (e1 e2 : error)
| VerificationError (Failure : VerificationFailure) (cause : error).

Coercion Sentinel : sentinel >-> error.

#[export] Instance error_eq_dec : EqDecision error.
Proof. solve_decision. Defined.

(** [ErrSignatureBaseLimit] is declared as
    [fmt.Errorf("%w: resource limit exceeded", ErrSignatureBase)]. *)
Definition sentinel_is (s target : sentinel) : bool :=
  bool_decide (s = target) ||
  match s with
  | ErrSignatureBaseLimit => bool_decide (ErrSignatureBase = target)
  | _ => false
  end.

(** [errors.Is(err, target)] for a sentinel [target]. *)
Fixpoint errors_Is (err : error) (target : sentinel) : bool :=
  match err with
  | Sentinel s => sentinel_is s target
  | New _ => false
  | Wrap e => errors_Is e target
  | Wrap2 e1 e2 => errors_Is e1 target || errors_Is e2 target
  | VerificationError _ cause => errors_Is cause target
  end.

(** The package's results. *)
Abbreviation res := (result error).
