(* ===== verification/SyntaxLimits.v ===== *)
(** * Resource limits on structured fields (syntax_limits.go)

    [SyntaxLimits], its validation and the pre-parse check on the raw field
    lines, with the exact condition under which the check passes. *)

From S2P Require Import Prelude GoStrings Errors.
Open Scope Z_scope.

Record SyntaxLimits := mkSyntaxLimits {
  MaxFieldBytes : Z;
  MaxFieldLines : Z;
  MaxDictionaryMembers : Z;
  MaxComponentsPerSignature : Z;
  MaxParametersPerItem : Z;
  MaxBinaryBytes : Z
}.

Definition DefaultSyntaxLimits : SyntaxLimits := {|
  MaxFieldBytes := Z.shiftl 64 10;
  MaxFieldLines := 32;
  MaxDictionaryMembers := 1024;
  MaxComponentsPerSignature := 256;
  MaxParametersPerItem := 256;
  MaxBinaryBytes := Z.shiftl 16 10
|}.

(** [SyntaxLimits.Validate]. *)
Definition Validate (limits : SyntaxLimits) : option error :=
  if (limits.(MaxFieldLines) <=? 0) || (limits.(MaxDictionaryMembers) <=? 0)
     || (limits.(MaxComponentsPerSignature) <=? 0) || (limits.(MaxParametersPerItem) <=? 0)
     || (limits.(MaxBinaryBytes) <=? 0) || (limits.(MaxFieldBytes) <? limits.(MaxBinaryBytes))
  then Some (Sentinel ErrInvalidSyntaxLimits)
  else None.

(** The loop of [enforceRawSyntaxLimits] over [values], from [index] on. *)
Fixpoint enforce_lines (index : nat) (values : list gostring) (remaining : Z) : option error :=
  match values with
  | [] => None
  | value :: rest =>
      let take remaining :=
        if remaining <? len value then Some (Sentinel ErrSyntaxLimit)
        else enforce_lines (S index) rest (remaining - len value) in
      if 0 <? Z.of_nat index
      then if remaining <? 2 then Some (Sentinel ErrSyntaxLimit) else take (remaining - 2)
      else take remaining
  end.

Definition enforceRawSyntaxLimits (values : list gostring) (limits : SyntaxLimits)
  : option error :=
  match Validate limits with
  | Some err => Some err
  | None =>
      if (len values =? 0) || (limits.(MaxFieldLines) <? len values)
      then Some (Sentinel ErrSyntaxLimit)
      else enforce_lines 0 values limits.(MaxFieldBytes)
  end.

(** ** The check is exact *)

Lemma Validate_None limits :
  Validate limits = None <->
  0 < MaxFieldLines limits /\ 0 < MaxDictionaryMembers limits /\
  0 < MaxComponentsPerSignature limits /\ 0 < MaxParametersPerItem limits /\
  0 < MaxBinaryBytes limits <= MaxFieldBytes limits.
Proof.
  unfold Validate. match goal with |- context [if ?b then _ else _] => destruct b eqn:E end.
  - split; [discriminate | intros H].
    repeat (apply orb_true_iff in E as [E | E]); bool_to_prop; lia.
  - split; [intros _ | reflexivity]. bool_to_prop. lia.
Qed.

Lemma Validate_error limits e :
  Validate limits = Some e -> e = ErrInvalidSyntaxLimits.
Proof. unfold Validate. case_match; congruence. Qed.

(** The bytes of the logical field: the lines joined with a comma and a space. *)
Lemma len_Join_cons (x : gostring) (l : list gostring) :
  l <> [] -> len (Join (x :: l) ", ") = len x + 2 + len (Join l ", ").
Proof.
  intros H. destruct l as [| y l]; [done |].
  change (Join (x :: y :: l) ", ") with (x ++ str ", " ++ Join (y :: l) ", ").
  rewrite !len_app. change (len (str ", ")) with 2. lia.
Qed.

Lemma enforce_lines_later index values remaining :
  enforce_lines (S index) values remaining =
  match values with
  | [] => None
  | _ => if remaining <? 2 + len (Join values ", ") then Some (Sentinel ErrSyntaxLimit) else None
  end.
Proof.
  revert index remaining. induction values as [| x l IH]; intros index remaining; [done |].
  cbn [enforce_lines]. replace (0 <? Z.of_nat (S index)) with true by lia.
  cbn zeta beta iota. rewrite IH.
  pose proof (len_nonneg x). destruct l as [| y l].
  - cbn [Join]. repeat case_match; bool_to_prop; lia || done.
  - rewrite (len_Join_cons x (y :: l)) by done. pose proof (len_nonneg (Join (y :: l) ", ")).
    repeat case_match; bool_to_prop; lia || done.
Qed.

Lemma enforce_lines_first values remaining :
  0 <= remaining ->
  enforce_lines 0 values remaining =
  if remaining <? len (Join values ", ") then Some (Sentinel ErrSyntaxLimit) else None.
Proof.
  intros Hrem. destruct values as [| x l].
  { change (len (Join [] ", ")) with 0. cbn [enforce_lines]. case_match; lia || done. }
  cbn [enforce_lines]. replace (0 <? Z.of_nat 0) with false by lia.
  cbn zeta beta iota. rewrite enforce_lines_later.
  pose proof (len_nonneg x). destruct l as [| y l].
  - cbn [Join]. repeat case_match; bool_to_prop; lia || done.
  - rewrite (len_Join_cons x (y :: l)) by done. pose proof (len_nonneg (Join (y :: l) ", ")).
    repeat case_match; bool_to_prop; lia || done.
Qed.

(** The pre-parse check accepts the field lines exactly when the limits are
    valid, there is at least one line and at most [MaxFieldLines], and the
    combined field (lines joined with comma and space) has at most
    [MaxFieldBytes] bytes; a refusal for invalid limits is
    [ErrInvalidSyntaxLimits], any other is [ErrSyntaxLimit]. *)
Theorem enforceRawSyntaxLimits_exact values limits :
  enforceRawSyntaxLimits values limits =
  if negb (bool_decide (Validate limits = None)) then Some (Sentinel ErrInvalidSyntaxLimits)
  else if bool_decide (1 <= len values <= limits.(MaxFieldLines) /\
                       len (Join values ", ") <= limits.(MaxFieldBytes))
  then None else Some (Sentinel ErrSyntaxLimit).
Proof.
  unfold enforceRawSyntaxLimits. destruct (Validate limits) as [e |] eqn:HV.
  - apply Validate_error in HV as ->. done.
  - apply Validate_None in HV as HV'. cbn. rewrite enforce_lines_first by lia.
    pose proof (len_nonneg values).
    repeat case_match; bool_to_prop; try done; try lia.
Qed.
