(* ===== verification/Httpsfv.v ===== *)
(** * The Structured Fields dependency, as an interface

    github.com/dunglas/httpsfv is a third-party package: its parsers, its
    serializer and its two ordered maps are parameters of the development
    (class [Httpsfv]).  Class [HttpsfvLaws] states what RFC 8941 and the
    package's documentation promise of them: [Add] appends a new key and
    replaces the value of a known one, and [Marshal] is the serialization of
    RFC 8941, section 4.1.  [HttpsfvRef] shows that the laws are satisfiable. *)

From S2P Require Import Prelude GoStrings.

(** A Go [any]: the dynamic types the program distinguishes.  A [float64] is
    carried as its bit pattern, which the program never inspects; [AToken] is
    [httpsfv.Token] and [ASFToken] the package's own [SFToken]. *)
Inductive any : Type :=
| ANil
| ABool (b : bool)
| AString (s : gostring)
| AInt64 (z : Z)
| AFloat64 (bits : Z)
| ABytes (b : gostring)
| ASFToken (t : gostring)
| AToken (t : gostring)
| AOther (tag : gostring).

#[export] Instance any_eq_dec : EqDecision any.
Proof. solve_decision. Defined.

(** ** Ordered maps: [httpsfv.Params] and [httpsfv.Dictionary] *)

Class OrderedMap (M V : Type) := {
  om_New : M;
  om_Names : M -> list gostring;
  om_Get : M -> gostring -> option V;
  om_Add : M -> gostring -> V -> M
}.

Class OrderedMapLaws (M V : Type) `{OrderedMap M V} : Prop := {
  om_names_new : om_Names (om_New : M) = [];
  om_names_add m k (v : V) :
    om_Names (om_Add m k v) =
    if bool_decide (k ∈ om_Names m) then om_Names m else om_Names m ++ [k];
  om_get_add m k (v : V) k' :
    om_Get (om_Add m k v) k' = if bool_decide (k = k') then Some v else om_Get m k';
  om_names_get (m : M) k : k ∈ om_Names m <-> is_Some (om_Get m k);
  om_names_nodup (m : M) : NoDup (om_Names m)
}.

Section OrderedMapEntries.
Context {M V : Type} `{OrderedMap M V}.

(** The members in order. *)
Definition om_entries (m : M) : list (gostring * V) :=
  omap (fun k => (fun v => (k, v)) <$> om_Get m k) (om_Names m).

(** Adding the members of a list one after the other. *)
Definition om_add_all (m : M) (l : list (gostring * V)) : M :=
  fold_left (fun m '(k, v) => om_Add m k v) l m.
End OrderedMapEntries.

(** ** The data model *)

Record Item (P : Type) := mkItem { Value : any; ItemParams : option P }.
Arguments mkItem {P}.
Arguments Value {P}.
Arguments ItemParams {P}.

Record InnerList (P : Type) := mkInnerList { Items : list (Item P); ListParams : option P }.
Arguments mkInnerList {P}.
Arguments Items {P}.
Arguments ListParams {P}.

Inductive Member (P : Type) : Type :=
| MItem (i : Item P)
| MInnerList (l : InnerList P).
Arguments MItem {P}.
Arguments MInnerList {P}.

Inductive StructuredFieldValue (P D : Type) : Type :=
| SFItem (i : Item P)
| SFInnerList (l : InnerList P)
| SFList (l : list (Member P))
| SFDictionary (d : D).
Arguments SFItem {P D}.
Arguments SFInnerList {P D}.
Arguments SFList {P D}.
Arguments SFDictionary {P D}.

(** What a call of the dependency's parsers can do: some inputs have made it
    panic. *)
Inductive outcome (A : Type) : Type :=
| Returns (a : A)
| Fails
| Panics.
Arguments Returns {A}.
Arguments Fails {A}.
Arguments Panics {A}.

Class Httpsfv := {
  Params : Type;
  Dictionary : Type;
  params_map :: OrderedMap Params any;
  dictionary_map :: OrderedMap Dictionary (Member Params);
  UnmarshalDictionary : list gostring -> outcome Dictionary;
  UnmarshalList : list gostring -> outcome (list (Member Params));
  UnmarshalItem : list gostring -> outcome (Item Params);
  MarshalBareItem : any -> option gostring;
  Marshal : StructuredFieldValue Params Dictionary -> option gostring
}.

(** [httpsfv.NewItem]. *)
Definition NewItem `{Httpsfv} (v : any) : Item Params := mkItem v (Some om_New).

(** ** RFC 8941 serialization *)

Definition is_key_start (c : ascii) : bool := char_eqb c "*" || is_lower c.
Definition is_key_char (c : ascii) : bool :=
  is_key_start c || is_digit c || char_mem c "_-.".
Definition valid_key (k : gostring) : bool :=
  match k with [] => false | c :: k' => is_key_start c && forallb is_key_char k' end.

Definition is_printable (c : ascii) : bool := char_in " " "~" c.

Definition escape_char (c : ascii) : gostring :=
  if char_eqb c c_quote || char_eqb c c_backslash then [c_backslash; c] else [c].
Definition escape_string (s : gostring) : gostring := flat_map escape_char s.
Definition quote_string (s : gostring) : gostring := c_quote :: escape_string s ++ [c_quote].

(** A token: ALPHA or an asterisk, then token characters, colons and slashes. *)
Definition valid_token (t : gostring) : bool :=
  match t with
  | [] => false
  | c :: t' =>
      (is_lower c || is_upper c || char_eqb c "*") &&
      forallb (fun d => is_token_char d || char_mem d ":/") t'
  end.

Definition sf_integer_limit : Z := 999999999999999.

Section Serialization.
Context (bare : any -> option gostring).

Definition marshal_param (kv : gostring * any) : option gostring :=
  let '(k, v) := kv in
  if valid_key k then
    match v with
    | ABool true => Some (";"%char :: k)
    | _ => (fun s => ";"%char :: k ++ "="%char :: s) <$> bare v
    end
  else None.

Definition marshal_params (l : list (gostring * any)) : option gostring :=
  mjoin <$> mapM marshal_param l.

Definition marshal_item (v : any) (ps : list (gostring * any)) : option gostring :=
  match bare v, marshal_params ps with
  | Some s, Some p => Some (s ++ p)
  | _, _ => None
  end.

Definition marshal_inner_list (items : list (any * list (gostring * any)))
  (ps : list (gostring * any)) : option gostring :=
  match mapM (fun '(v, l) => marshal_item v l) items, marshal_params ps with
  | Some ss, Some p => Some ("("%char :: Join ss " " ++ ")"%char :: p)
  | _, _ => None
  end.
End Serialization.

(** The entries of an item's parameters; [None] is Go's nil map. *)
Definition param_entries `{Httpsfv} (p : option Params) : option (list (gostring * any)) :=
  om_entries <$> p.

Definition item_entries `{Httpsfv} (i : Item Params) : option (any * list (gostring * any)) :=
  (fun l => (Value i, l)) <$> param_entries (ItemParams i).

Definition marshal_item_value `{Httpsfv} (i : Item Params) : option gostring :=
  '(v, l) ← item_entries i; marshal_item MarshalBareItem v l.

Definition marshal_inner_list_value `{Httpsfv} (l : InnerList Params) : option gostring :=
  items ← mapM item_entries (Items l);
  ps ← param_entries (ListParams l);
  marshal_inner_list MarshalBareItem items ps.

Definition marshal_member_value `{Httpsfv} (m : Member Params) : option gostring :=
  match m with
  | MItem i => marshal_item_value i
  | MInnerList l => marshal_inner_list_value l
  end.

(** A dictionary member: [key=value], or the key and the parameters alone for
    the Boolean true. *)
Definition marshal_dictionary_member `{Httpsfv} (km : gostring * Member Params)
  : option gostring :=
  let '(k, m) := km in
  if valid_key k then
    match m with
    | MItem (mkItem (ABool true) p) =>
        l ← param_entries p; app k <$> marshal_params MarshalBareItem l
    | _ => (fun s => k ++ "="%char :: s) <$> marshal_member_value m
    end
  else None.

Definition marshal_dictionary_value `{Httpsfv} (d : Dictionary) : option gostring :=
  (fun l => Join l ", ") <$> mapM marshal_dictionary_member (om_entries d).

Class HttpsfvLaws `{Httpsfv} : Prop := {
  params_laws :: OrderedMapLaws Params any;
  dictionary_laws :: OrderedMapLaws Dictionary (Member Params);
  bare_string s :
    MarshalBareItem (AString s) = if forallb is_printable s then Some (quote_string s) else None;
  bare_integer z :
    MarshalBareItem (AInt64 z) =
    if (Z.abs z <=? sf_integer_limit)%Z then Some (FormatInt z) else None;
  bare_bool b : MarshalBareItem (ABool b) = Some (str (if b then "?1" else "?0"));
  bare_bytes b : MarshalBareItem (ABytes b) = Some (":"%char :: StdEncode b ++ [":"%char]);
  bare_token t : MarshalBareItem (AToken t) = if valid_token t then Some t else None;
  bare_decimal f s :
    MarshalBareItem (AFloat64 f) = Some s ->
    forallb (fun c => is_digit c || char_mem c "-.") s = true;
  Marshal_item i : is_Some (ItemParams i) -> Marshal (SFItem i) = marshal_item_value i;
  Marshal_inner_list l :
    is_Some (ListParams l) -> Forall (fun i => is_Some (ItemParams i)) (Items l) ->
    Marshal (SFInnerList l) = marshal_inner_list_value l;
  Marshal_dictionary d s : Marshal (SFDictionary d) = Some s -> marshal_dictionary_value d = Some s;
  Marshal_list l s :
    Marshal (SFList l) = Some s ->
    (fun ss => Join ss ", ") <$> mapM marshal_member_value l = Some s
}.
