(* ===== verification/HttpsfvRef.v ===== *)
(** * A reference implementation of the Structured Fields interface

    An executable RFC 8941 parser and serializer that satisfies [HttpsfvLaws].
    It is not the dependency's code: it shows that the laws the development
    assumes can hold, and lets the examples and witnesses run the program's
    definitions on concrete messages.  Decimals are carried in thousandths. *)

From S2P Require Import Prelude GoStrings Httpsfv.

(** ** Ordered maps as update histories *)

Section History.
Context {V : Type}.

Definition add_name (names : list gostring) (k : gostring) : list gostring :=
  if bool_decide (k ∈ names) then names else names ++ [k].

Definition hist_names (m : list (gostring * V)) : list gostring :=
  fold_left add_name (fst <$> m) [].

Definition hist_get (m : list (gostring * V)) (k : gostring) : option V :=
  fold_left (fun acc '(k', v) => if bool_decide (k' = k) then Some v else acc) m None.

#[export] Instance hist_map : OrderedMap (list (gostring * V)) V := {
  om_New := [];
  om_Names := hist_names;
  om_Get := hist_get;
  om_Add m k v := m ++ [(k, v)]
}.

Lemma hist_names_snoc m k v : hist_names (m ++ [(k, v)]) = add_name (hist_names m) k.
Proof. unfold hist_names. rewrite fmap_app, fold_left_app. done. Qed.

Lemma hist_get_snoc m k v k' :
  hist_get (m ++ [(k, v)]) k' = if bool_decide (k = k') then Some v else hist_get m k'.
Proof. unfold hist_get. rewrite fold_left_app. done. Qed.

#[export] Instance hist_laws : OrderedMapLaws (list (gostring * V)) V.
Proof.
  split.
  - done.
  - intros m k v. apply hist_names_snoc.
  - intros m k v k'. apply hist_get_snoc.
  - intros m k. cbn. induction m as [| [k' v] m IH] using rev_ind.
    { cbn. split; [set_solver | intros [? ?]; done]. }
    rewrite hist_names_snoc, hist_get_snoc. unfold add_name.
    destruct (bool_decide_reflect (k' = k)) as [-> | Hne].
    + split; [eauto | intros _]. case_bool_decide; [done |].
      apply elem_of_app. right. by apply list_elem_of_singleton.
    + rewrite <- IH. case_bool_decide; [done |].
      rewrite elem_of_app, list_elem_of_singleton. intuition congruence.
  - intros m. cbn. induction m as [| [k v] m IH] using rev_ind; [constructor |].
    rewrite hist_names_snoc. unfold add_name. case_bool_decide; [done |].
    apply list.NoDup_app. split; [done |]. split; [| apply NoDup_singleton].
    intros x Hx ->%list_elem_of_singleton. done.
Qed.
End History.

Abbreviation ref_params := (list (gostring * any)).
Abbreviation ref_dictionary := (list (gostring * Member ref_params)).

(** ** Parsing *)

Fixpoint span (p : ascii -> bool) (s : gostring) : gostring * gostring :=
  match s with
  | c :: s' => if p c then let '(a, b) := span p s' in (c :: a, b) else ([], s)
  | [] => ([], [])
  end.

Definition skip_sp (s : gostring) : gostring := snd (span (fun c => char_eqb c c_space) s).
Definition skip_ows (s : gostring) : gostring :=
  snd (span (fun c => char_eqb c c_space || char_eqb c c_tab) s).

Definition p_key (s : gostring) : option (gostring * gostring) :=
  match s with
  | c :: s' => if is_key_start c then let '(k, r) := span is_key_char s' in Some (c :: k, r) else None
  | [] => None
  end.

Fixpoint p_string (s : gostring) : option (gostring * gostring) :=
  match s with
  | [] => None
  | c :: s' =>
      if char_eqb c c_quote then Some ([], s')
      else if char_eqb c c_backslash then
        match s' with
        | d :: s'' =>
            if char_eqb d c_quote || char_eqb d c_backslash
            then '(t, r) ← p_string s''; Some (d :: t, r) else None
        | [] => None
        end
      else if is_printable c then '(t, r) ← p_string s'; Some (c :: t, r) else None
  end.

Definition thousandths (ip fp : gostring) : Z :=
  Z.of_N (digits_value 0 ip) * 1000 +
  Z.of_N (digits_value 0 (take 3 (fp ++ str "000"))).

Definition p_number (s : gostring) : option (any * gostring) :=
  let '(neg, s) := match s with c :: s' => if char_eqb c "-" then (true, s') else (false, s) | [] => (false, s) end in
  let '(ip, r) := span is_digit s in
  let sign (z : Z) := if neg : bool then (- z)%Z else z in
  match ip with
  | [] => None
  | _ =>
      match r with
      | c :: r' =>
          if char_eqb c "." then
            let '(fp, r'') := span is_digit r' in
            if (len ip <=? 12)%Z && (1 <=? len fp)%Z && (len fp <=? 3)%Z
            then Some (AFloat64 (sign (thousandths ip fp)), r'') else None
          else if (len ip <=? 15)%Z then Some (AInt64 (sign (Z.of_N (digits_value 0 ip))), r) else None
      | [] => if (len ip <=? 15)%Z then Some (AInt64 (sign (Z.of_N (digits_value 0 ip))), r) else None
      end
  end.

Definition p_bare (s : gostring) : option (any * gostring) :=
  match s with
  | [] => None
  | c :: s' =>
      if char_eqb c c_quote then '(t, r) ← p_string s'; Some (AString t, r)
      else if char_eqb c "?" then
        match s' with
        | d :: r => if char_eqb d "1" then Some (ABool true, r)
                    else if char_eqb d "0" then Some (ABool false, r) else None
        | [] => None
        end
      else if char_eqb c ":" then
        i ← IndexByte s' ":";
        b ← RawStdDecode (TrimRight (take i s') "=");
        Some (ABytes b, drop (S i) s')
      else if is_lower c || is_upper c || char_eqb c "*" then
        let '(t, r) := span (fun d => is_token_char d || char_mem d ":/") s' in
        Some (AToken (c :: t), r)
      else p_number s
  end.

Fixpoint p_params (fuel : nat) (acc : ref_params) (s : gostring) : option (ref_params * gostring) :=
  match fuel with
  | O => None
  | S f =>
      match s with
      | c :: s' =>
          if char_eqb c ";" then
            '(k, r) ← p_key (skip_sp s');
            match r with
            | d :: r' =>
                if char_eqb d "=" then '(v, r'') ← p_bare r'; p_params f (om_Add acc k v) r''
                else p_params f (om_Add acc k (ABool true)) r
            | [] => p_params f (om_Add acc k (ABool true)) r
            end
          else Some (acc, s)
      | [] => Some (acc, s)
      end
  end.

Definition p_item (s : gostring) : option (Item ref_params * gostring) :=
  '(v, r) ← p_bare s;
  '(ps, r) ← p_params (S (length r)) [] r;
  Some (mkItem v (Some ps), r).

Fixpoint p_items (fuel : nat) (s : gostring) : option (list (Item ref_params) * gostring) :=
  match fuel with
  | O => None
  | S f =>
      match skip_sp s with
      | [] => None
      | c :: r =>
          if char_eqb c ")" then Some ([], r)
          else
            '(i, r) ← p_item (c :: r);
            match r with
            | d :: _ =>
                if char_eqb d c_space || char_eqb d ")"
                then '(its, r) ← p_items f r; Some (i :: its, r) else None
            | [] => None
            end
      end
  end.

Definition p_member (s : gostring) : option (Member ref_params * gostring) :=
  match s with
  | c :: s' =>
      if char_eqb c "(" then
        '(its, r) ← p_items (S (length s')) s';
        '(ps, r) ← p_params (S (length r)) [] r;
        Some (MInnerList (mkInnerList its (Some ps)), r)
      else '(i, r) ← p_item s; Some (MItem i, r)
  | [] => None
  end.

Definition p_dictionary_member (s : gostring) : option (gostring * Member ref_params * gostring) :=
  '(k, r) ← p_key s;
  match r with
  | c :: r' =>
      if char_eqb c "=" then '(m, r) ← p_member r'; Some (k, m, r)
      else '(ps, r) ← p_params (S (length r)) [] r; Some (k, MItem (mkItem (ABool true) (Some ps)), r)
  | [] => Some (k, MItem (mkItem (ABool true) (Some [])), r)
  end.

(** After a member: the end, or a comma and the next member. *)
Definition p_separator (s : gostring) : option (option gostring) :=
  match skip_ows s with
  | [] => Some None
  | c :: r => if char_eqb c "," then match skip_ows r with [] => None | r => Some (Some r) end else None
  end.

Fixpoint p_dictionary (fuel : nat) (acc : ref_dictionary) (s : gostring) : option ref_dictionary :=
  match fuel with
  | O => None
  | S f =>
      '(k, m, r) ← p_dictionary_member s;
      next ← p_separator r;
      match next with
      | None => Some (om_Add acc k m)
      | Some r => p_dictionary f (om_Add acc k m) r
      end
  end.

Fixpoint p_list (fuel : nat) (s : gostring) : option (list (Member ref_params)) :=
  match fuel with
  | O => None
  | S f =>
      '(m, r) ← p_member s;
      next ← p_separator r;
      match next with
      | None => Some [m]
      | Some r => ms ← p_list f r; Some (m :: ms)
      end
  end.

Definition of_option {A} (o : option A) : outcome A :=
  match o with Some a => Returns a | None => Fails end.

Definition field_text (values : list gostring) : gostring := Trim (Join values ",") [c_space].

Definition ref_dictionary_of (values : list gostring) : outcome ref_dictionary :=
  let s := field_text values in
  match s with [] => Returns [] | _ => of_option (p_dictionary (S (length s)) [] s) end.
Definition ref_list_of (values : list gostring) : outcome (list (Member ref_params)) :=
  let s := field_text values in
  match s with [] => Returns [] | _ => of_option (p_list (S (length s)) s) end.
Definition ref_item_of (values : list gostring) : outcome (Item ref_params) :=
  let s := field_text values in
  of_option ('(i, r) ← p_item s; match r with [] => Some i | _ => None end).

(** ** Serialization *)

Definition ref_decimal (f : Z) : gostring :=
  let n := Z.to_N (Z.abs f) in
  (if (f <? 0)%Z then ["-"%char] else []) ++
  FormatUint (n / 1000) ++ "."%char ::
  [digit_char (n / 100 mod 10); digit_char (n / 10 mod 10); digit_char (n mod 10)].

Definition ref_bare (v : any) : option gostring :=
  match v with
  | ABool b => Some (str (if b then "?1" else "?0"))
  | AString s => if forallb is_printable s then Some (quote_string s) else None
  | AInt64 z => if (Z.abs z <=? sf_integer_limit)%Z then Some (FormatInt z) else None
  | AFloat64 f => let s := ref_decimal f in
      if forallb (fun c => is_digit c || char_mem c "-.") s then Some s else None
  | ABytes b => Some (":"%char :: StdEncode b ++ [":"%char])
  | AToken t => if valid_token t then Some t else None
  | _ => None
  end.

(** The interface with a placeholder serializer, to write the serializer on. *)
Definition ref_sfv_base : Httpsfv := {|
  Params := ref_params;
  Dictionary := ref_dictionary;
  params_map := hist_map;
  dictionary_map := hist_map;
  UnmarshalDictionary := ref_dictionary_of;
  UnmarshalList := ref_list_of;
  UnmarshalItem := ref_item_of;
  MarshalBareItem := ref_bare;
  Marshal := fun _ => None
|}.

Definition ref_marshal (v : StructuredFieldValue ref_params ref_dictionary) : option gostring :=
  match v with
  | SFItem i => @marshal_item_value ref_sfv_base i
  | SFInnerList l => @marshal_inner_list_value ref_sfv_base l
  | SFList l => (fun ss => Join ss ", ") <$> mapM (@marshal_member_value ref_sfv_base) l
  | SFDictionary d => @marshal_dictionary_value ref_sfv_base d
  end.

Definition ref_sfv : Httpsfv := {|
  Params := ref_params;
  Dictionary := ref_dictionary;
  params_map := hist_map;
  dictionary_map := hist_map;
  UnmarshalDictionary := ref_dictionary_of;
  UnmarshalList := ref_list_of;
  UnmarshalItem := ref_item_of;
  MarshalBareItem := ref_bare;
  Marshal := ref_marshal
|}.

(** The laws are satisfiable. *)
Lemma ref_sfv_laws : @HttpsfvLaws ref_sfv.
Proof.
  split; try done.
  - exact hist_laws.
  - exact hist_laws.
  - intros f s. cbn -[ref_decimal forallb]. case_match; [intros [= <-]; done | done].
Qed.
