(* ===== verification/StructuredFieldSafe.v ===== *)
(** * The RFC 8941 boundary around the dependency (structured_field_safe.go)

    Panic containment, line combination, the byte-sequence and decimal repair
    scanners, the RFC 8941 type guard of message.go and the tab normalisation
    of signature_fields.go, with their functional theorems. *)

From S2P Require Import Prelude GoStrings Errors Httpsfv.

(** ** Tabs around commas *)

(** The loop of [normalizeStructuredFieldOWS] on one buffer: [before] is the
    part already scanned (and already modified), reversed. *)
Fixpoint ows_loop (before rest : gostring) : gostring :=
  match rest with
  | [] => []
  | character :: rest' =>
      let character' :=
        if char_eqb character c_tab &&
           (HasPrefix (TrimLeft before [c_space; c_tab]) "," ||
            HasPrefix (TrimLeft rest' [c_space; c_tab]) ",")
        then c_space else character in
      character' :: ows_loop (character' :: before) rest'
  end.

Definition normalizeStructuredFieldOWS (values : list gostring) : list gostring :=
  map (ows_loop []) values.

(** ** Combining field lines *)

Definition combineStructuredFieldLines (values : list gostring) : list gostring :=
  match values with
  | [] => values
  | [_] => values
  | _ => [Join values ", "]
  end.

(** ** Byte sequences *)

Definition validRFC8941Base64Alphabet (value : gostring) : bool :=
  forallb (fun c => is_upper c || is_lower c || is_digit c || char_eqb c "+" || char_eqb c "/") value.

(** [isRFC8941BareItemBoundary(value, index)]: [prev] is [value[index-1]], if any. *)
Definition isRFC8941BareItemBoundary (prev : option ascii) : bool :=
  match prev with
  | None => true
  | Some c => char_mem c [c_space; c_tab; "="%char; "("%char; ","%char]
  end.

(** The replacement text for the bytes between two colons. *)
Definition canonical_base64 (encoded : gostring) : gostring :=
  let unpadded := TrimRight encoded "=" in
  if negb (ContainsByte unpadded "=") && validRFC8941Base64Alphabet unpadded then
    match RawStdDecode unpadded with
    | Some decoded =>
        let canonical := StdEncode decoded in
        if (len encoded <=? len canonical)%Z && (canonical <>s encoded) then canonical else encoded
    | None => encoded
    end
  else encoded.

(** The scanner of [normalizeRFC8941BinaryValue].  [skip] counts the bytes of
    a byte sequence that was already written, closing colon included (the
    source sets [index = closing]); [prev] is the byte before [rest]. *)
Fixpoint binary_scan (skip : nat) (quoted escaped : bool) (prev : option ascii)
  (rest : gostring) : gostring :=
  match rest with
  | [] => []
  | c :: rest' =>
      match skip with
      | S skip' => binary_scan skip' quoted escaped (Some c) rest'
      | O =>
          if quoted then
            c :: (if escaped then binary_scan 0 true false (Some c) rest'
                  else if char_eqb c c_backslash then binary_scan 0 true true (Some c) rest'
                  else if char_eqb c c_quote then binary_scan 0 false false (Some c) rest'
                  else binary_scan 0 true false (Some c) rest')
          else if char_eqb c c_quote then c :: binary_scan 0 true escaped (Some c) rest'
          else if char_eqb c ":" && isRFC8941BareItemBoundary prev then
            match IndexByte rest' ":" with
            | None => c :: binary_scan 0 false escaped (Some c) rest'
            | Some closingOffset =>
                c :: canonical_base64 (take closingOffset rest') ++
                ":"%char :: binary_scan (S closingOffset) false escaped (Some c) rest'
            end
          else c :: binary_scan 0 false escaped (Some c) rest'
      end
  end.

Definition normalizeRFC8941BinaryValue (value : gostring) : gostring :=
  binary_scan 0 false false None value.

Definition normalizeRFC8941BinaryValues (values : list gostring) : list gostring :=
  map normalizeRFC8941BinaryValue values.

(** ** Integral decimals *)

Fixpoint drop_digits (s : gostring) : gostring :=
  match s with
  | c :: s' => if is_digit c then drop_digits s' else s
  | [] => []
  end.

(** [isEmptyRFC8941DecimalFraction(value, decimalPoint)]: [left] is
    [value[:decimalPoint]] reversed and [right] is [value[decimalPoint+1:]]. *)
Definition isEmptyRFC8941DecimalFraction (left right : gostring) : bool :=
  match left with
  | [] => false
  | d :: _ =>
      if negb (is_digit d) then false
      else if match right with c :: _ => negb (char_mem c "; ,)") | [] => false end then false
      else
        let start := drop_digits left in
        let start := match start with c :: s => if char_eqb c "-" then s else start | [] => [] end in
        match start with
        | [] => true
        | c :: _ => char_mem c "=(, "
        end
  end.

Fixpoint restore_scan (quoted escaped : bool) (left rest : gostring) : gostring :=
  match rest with
  | [] => []
  | c :: rest' =>
      if quoted then
        c :: (if escaped then restore_scan true false (c :: left) rest'
              else if char_eqb c c_backslash then restore_scan true true (c :: left) rest'
              else if char_eqb c c_quote then restore_scan false false (c :: left) rest'
              else restore_scan true false (c :: left) rest')
      else if char_eqb c c_quote then c :: restore_scan true escaped (c :: left) rest'
      else if char_eqb c "." && isEmptyRFC8941DecimalFraction left rest'
      then c :: "0"%char :: restore_scan false escaped (c :: left) rest'
      else c :: restore_scan false escaped (c :: left) rest'
  end.

Definition restoreRFC8941IntegralDecimals (serialized : gostring) : gostring :=
  restore_scan false false [] serialized.

(** ** Parsing and serializing through the dependency *)

Section Boundary.
Context `{SFV : Httpsfv}.

(** [unmarshalStructuredField]: a panic of [parse] is turned into
    [errStructuredFieldParse]. *)
Definition unmarshalStructuredField {T} (values : list gostring)
  (parse : list gostring -> outcome T) : res T :=
  let combined := normalizeStructuredFieldOWS (combineStructuredFieldLines values) in
  match parse (normalizeRFC8941BinaryValues combined) with
  | Returns value => Ok value
  | Fails => Err (New "httpsfv")
  | Panics => Err (Sentinel errStructuredFieldParse)
  end.

Definition unmarshalStructuredDictionary (values : list gostring) : res Dictionary :=
  unmarshalStructuredField values UnmarshalDictionary.
Definition unmarshalStructuredList (values : list gostring) : res (list (Member Params)) :=
  unmarshalStructuredField values UnmarshalList.
Definition unmarshalStructuredItem (values : list gostring) : res (Item Params) :=
  unmarshalStructuredField values UnmarshalItem.

(** The RFC 8941 type guard of message.go. *)
Definition isRFC8941BareItem (value : any) : bool :=
  match value with
  | ABool _ | AString _ | AInt64 _ | AFloat64 _ | ABytes _ | AToken _ => true
  | _ => false
  end.

(** [parameters.Get(name)] of a listed name; a missing key would give nil. *)
Definition get_any (p : Params) (name : gostring) : any := default ANil (om_Get p name).

Definition isRFC8941Parameters (parameters : option Params) : bool :=
  match parameters with
  | None => false
  | Some p => forallb (fun name => isRFC8941BareItem (get_any p name)) (om_Names p)
  end.

Definition isRFC8941Item (item : Item Params) : bool :=
  isRFC8941BareItem (Value item) && isRFC8941Parameters (ItemParams item).

Definition isRFC8941Member (member : Member Params) : bool :=
  match member with
  | MItem value => isRFC8941Item value
  | MInnerList value =>
      if negb (isRFC8941Parameters (ListParams value)) then false
      else forallb isRFC8941Item (Items value)
  end.

Definition isRFC8941StructuredField (value : StructuredFieldValue Params Dictionary) : bool :=
  match value with
  | SFItem field => isRFC8941Item field
  | SFInnerList field => isRFC8941Member (MInnerList field)
  | SFList field => forallb isRFC8941Member field
  | SFDictionary field =>
      forallb (fun name =>
        match om_Get field name with Some member => isRFC8941Member member | None => false end)
        (om_Names field)
  end.

Definition marshalRFC8941 (value : StructuredFieldValue Params Dictionary) : res gostring :=
  if negb (isRFC8941StructuredField value) then Err (Sentinel errStructuredFieldRFC8941)
  else match Marshal value with
       | None => Err (New "httpsfv")
       | Some serialized => Ok (restoreRFC8941IntegralDecimals serialized)
       end.
End Boundary.
