(* ===== verification/SignatureFields.v ===== *)
(** * Signature-Input, Signature and Accept-Signature fields (signature_fields.go)

    The typed model of the three fields, their semantic validation, the
    duplicate-label scanner that runs before the dependency's parser, and the
    conversion from and to the dependency's maps. *)

From S2P Require Import Prelude GoStrings Errors SyntaxLimits Httpsfv StructuredFieldSafe.

(** ** Data *)

Record Param := mkParam { ParamName : gostring; ParamValue : any }.

Record ComponentIdentifier := mkComponent {
  ComponentName : gostring;
  ComponentParams : list Param
}.

Record SignatureInput := mkSignatureInput {
  InputLabel : gostring;
  Components : list ComponentIdentifier;
  InputParameters : list Param
}.

(** The [entries] of [SignatureInputs] and of [AcceptSignatures]. *)
Definition SignatureInputs := list SignatureInput.
Definition AcceptSignatures := list SignatureInput.

Record SignatureValue := mkSignatureValue {
  SignatureLabel : gostring;
  SignatureBytes : gostring;
  SignatureParameters : list Param
}.

Definition Signatures := list SignatureValue.

#[export] Instance Param_eq_dec : EqDecision Param.
Proof. solve_decision. Defined.
#[export] Instance ComponentIdentifier_eq_dec : EqDecision ComponentIdentifier.
Proof. solve_decision. Defined.
#[export] Instance SignatureInput_eq_dec : EqDecision SignatureInput.
Proof. solve_decision. Defined.
#[export] Instance SignatureValue_eq_dec : EqDecision SignatureValue.
Proof. solve_decision. Defined.

(** ** Copies and lookups

    Values of the model are immutable, so the deep copies of the source are
    the identity on the value they copy; they are kept so that each operation
    reads like its source. *)

Definition cloneParameterValue (value : any) : any :=
  match value with
  | ABytes binary => ABytes ([] ++ binary)
  | _ => value
  end.

Definition cloneParameters (parameters : list Param) : list Param :=
  map (fun p => mkParam (ParamName p) (cloneParameterValue (ParamValue p))) parameters.

Definition cloneSignatureInput (input : SignatureInput) : SignatureInput :=
  mkSignatureInput (InputLabel input)
    (map (fun c => mkComponent (ComponentName c) (cloneParameters (ComponentParams c)))
       (Components input))
    (cloneParameters (InputParameters input)).

(** [parameter(parameters, name)]: the first one of that name. *)
Fixpoint parameter (parameters : list Param) (name : gostring) : option any :=
  match parameters with
  | [] => None
  | current :: rest =>
      if ParamName current =s name then Some (cloneParameterValue (ParamValue current))
      else parameter rest name
  end.

Definition SignatureInput_Parameter (input : SignatureInput) (name : gostring) : option any :=
  parameter (InputParameters input) name.

Definition SignatureInputs_Entries (inputs : SignatureInputs) : list SignatureInput :=
  map cloneSignatureInput inputs.

Definition AcceptSignatures_Entries (requests : AcceptSignatures) : list SignatureInput :=
  map cloneSignatureInput requests.

Definition Signatures_Entries (signatures : Signatures) : list SignatureValue :=
  map (fun entry => mkSignatureValue (SignatureLabel entry) ([] ++ SignatureBytes entry)
                      (cloneParameters (SignatureParameters entry))) signatures.

(** ** Names and values *)

Definition isKeyStart (c : ascii) : bool := char_eqb c "*" || char_in "a" "z" c.
Definition isKeyCharacter (c : ascii) : bool :=
  isKeyStart c || char_in "0" "9" c || char_eqb c "_" || char_eqb c "-" || char_eqb c ".".

Definition isLowerFieldNameCharacter (c : ascii) : bool :=
  char_in "a" "z" c || char_in "0" "9" c || char_mem c "!#$%&'*+-.^_`|~".

Definition validComponentName (name : gostring) : bool :=
  match name with
  | [] => false
  | c :: rest =>
      if char_eqb c "@" then
        match rest with
        | [] => false
        | _ => forallb (fun c => char_in "a" "z" c || char_in "0" "9" c || char_eqb c "-") rest
        end
      else forallb isLowerFieldNameCharacter name
  end.

Definition validSFStringValue (value : gostring) : bool := forallb (char_in " " "~") value.

Definition is_int64 (v : any) : bool := match v with AInt64 _ => true | _ => false end.
Definition is_string (v : any) : bool := match v with AString _ => true | _ => false end.
Definition is_true (v : any) : bool := match v with ABool b => b | _ => false end.

Definition name_in (name : gostring) (names : list gostring) : bool :=
  bool_decide (name ∈ names).

Definition validSignatureParameters (parameters : list Param) : bool :=
  forallb (fun p =>
    if name_in (ParamName p) [str "created"; str "expires"] then is_int64 (ParamValue p)
    else if name_in (ParamName p) [str "nonce"; str "alg"; str "keyid"; str "tag"]
    then is_string (ParamValue p)
    else true) parameters.

Definition validAcceptSignatureParameters (parameters : list Param) : bool :=
  forallb (fun p =>
    if name_in (ParamName p) [str "created"; str "expires"] then is_true (ParamValue p)
    else if name_in (ParamName p) [str "nonce"; str "alg"; str "keyid"; str "tag"]
    then is_string (ParamValue p)
    else true) parameters.

Definition validComponentParameters (parameters : list Param) : bool :=
  forallb (fun p =>
    if name_in (ParamName p) [str "sf"; str "bs"; str "tr"; str "req"]
    then is_true (ParamValue p)
    else if name_in (ParamName p) [str "key"; str "name"] then is_string (ParamValue p)
    else true) parameters.

(** [validParametersForSerialization] of message.go. *)
Definition validParameterForSerialization (p : Param) : bool :=
  match ParamName p with
  | [] => false
  | c :: rest =>
      isKeyStart c && forallb isKeyCharacter rest &&
      match ParamValue p with
      | ABool _ | AString _ | AInt64 _ | AFloat64 _ | ABytes _ | ASFToken _ => true
      | _ => false
      end
  end.
Definition validParametersForSerialization (parameters : list Param) : bool :=
  forallb validParameterForSerialization parameters.

(** ** Duplicate labels, before parsing *)

(** The loop of [splitDictionaryMembers]: [current] is [value[start:index]]
    reversed. *)
Fixpoint split_members (parentheses : Z) (quoted escaped : bool) (current value : gostring)
  : res (list gostring) :=
  match value with
  | [] =>
      if quoted || escaped || negb (parentheses =? 0)%Z
      then Err (New "unterminated dictionary member")
      else Ok [TrimSpace (reverse current)]
  | c :: rest =>
      if escaped then split_members parentheses quoted false (c :: current) rest
      else if quoted && char_eqb c c_backslash
      then split_members parentheses quoted true (c :: current) rest
      else if char_eqb c c_quote
      then split_members parentheses (negb quoted) false (c :: current) rest
      else if quoted then split_members parentheses quoted false (c :: current) rest
      else if char_eqb c "("
      then split_members (parentheses + 1) quoted false (c :: current) rest
      else if char_eqb c ")" then
        if (parentheses - 1 <? 0)%Z then Err (New "unbalanced inner list")
        else split_members (parentheses - 1) quoted false (c :: current) rest
      else if char_eqb c "," && (parentheses =? 0)%Z then
        let? members := split_members parentheses quoted false [] rest in
        Ok (TrimSpace (reverse current) :: members)
      else split_members parentheses quoted false (c :: current) rest
  end.

Definition splitDictionaryMembers (value : gostring) : res (list gostring) :=
  split_members 0 false false [] value.

Fixpoint take_while (p : ascii -> bool) (s : gostring) : gostring :=
  match s with
  | c :: s' => if p c then c :: take_while p s' else []
  | [] => []
  end.

Definition dictionaryMemberKey (member : gostring) : gostring :=
  match TrimLeft member [c_space; c_tab] with
  | [] => []
  | c :: rest => if isKeyStart c then c :: take_while isKeyCharacter rest else []
  end.

(** The loop of [rejectDuplicateDictionaryKeys]: [None] is the nil error. *)
Fixpoint reject_duplicates (seen : gset gostring) (members : list gostring) : option error :=
  match members with
  | [] => None
  | member :: rest =>
      let label := dictionaryMemberKey member in
      if label =s [] then Some (New "invalid dictionary member")
      else if bool_decide (label ∈ seen) then Some (New "duplicate dictionary key")
      else reject_duplicates ({[label]} ∪ seen) rest
  end.

Definition rejectDuplicateDictionaryKeys (values : list gostring) : option error :=
  match splitDictionaryMembers (Join values ",") with
  | Err err => Some err
  | Ok members => reject_duplicates ∅ members
  end.

(** [validSignatureLabel] of signer.go. *)
Definition validSignatureLabel (label : gostring) : bool :=
  (label <>s []) && (dictionaryMemberKey label =s label).

(** ** Conversion from and to the dependency's values *)

Definition fromStructuredValue (value : any) : option any :=
  match value with
  | ABool _ | AString _ | AInt64 _ | AFloat64 _ => Some value
  | ABytes typed => Some (ABytes ([] ++ typed))
  | AToken typed => Some (ASFToken typed)
  | _ => None
  end.

Definition toStructuredValue (value : any) : any :=
  match value with
  | ASFToken token => AToken token
  | ABytes binary => ABytes ([] ++ binary)
  | _ => value
  end.

Section Fields.
Context `{SFV : Httpsfv}.

Fixpoint copy_names (p : Params) (names : list gostring) : res (list Param) :=
  match names with
  | [] => Ok []
  | name :: rest =>
      match fromStructuredValue (get_any p name) with
      | None => Err (New "RFC 9651-only parameter value")
      | Some converted =>
          let? result := copy_names p rest in Ok (mkParam name converted :: result)
      end
  end.

Definition copyParameters (parameters : option Params) : res (list Param) :=
  match parameters with
  | None => Err (New "missing parameters")
  | Some p => copy_names p (om_Names p)
  end.

Definition addParameters (target : Params) (parameters : list Param) : Params :=
  fold_left (fun t p => om_Add t (ParamName p) (toStructuredValue (ParamValue p))) parameters target.

(** [httpsfv.NewItem(name)] with the parameters added. *)
Definition component_item (component : ComponentIdentifier) : Item Params :=
  mkItem (AString (ComponentName component))
    (Some (addParameters om_New (ComponentParams component))).

(** [serializeComponentIdentifier] of message.go. *)
Definition serializeComponentIdentifier (component : ComponentIdentifier) : res gostring :=
  if negb (validComponentName (ComponentName component))
  then Err (New "invalid component identifier")
  else if negb (validParametersForSerialization (ComponentParams component))
  then Err (New "invalid component identifier")
  else marshalRFC8941 (SFItem (component_item component)).

Definition componentComparisonKey (component : ComponentIdentifier) : res gostring :=
  serializeComponentIdentifier
    (mkComponent (ComponentName component)
       (sort_by ParamName (cloneParameters (ComponentParams component)))).

(** [key, _ := componentComparisonKey(component)]: the empty string on error. *)
Definition comparison_key (component : ComponentIdentifier) : gostring :=
  match componentComparisonKey component with Ok k => k | Err _ => [] end.

(** The checks of [serializeSignatureParameters] (message.go) on each component. *)
Definition serializable_component (component : ComponentIdentifier) : bool :=
  validComponentName (ComponentName component) &&
  validParametersForSerialization (ComponentParams component).

Definition input_inner_list (input : SignatureInput) : InnerList Params :=
  mkInnerList (map component_item (Components input))
    (Some (addParameters om_New (InputParameters input))).

Definition serializeSignatureParameters (input : SignatureInput) : res gostring :=
  if negb (validParametersForSerialization (InputParameters input))
  then Err (New "invalid signature parameters")
  else if negb (forallb serializable_component (Components input))
  then Err (New "invalid component identifier")
  else marshalRFC8941 (SFInnerList (input_inner_list input)).

(** ** Serialization of whole fields.  [None] is the source's panic. *)

Definition SignatureInputs_String (inputs : SignatureInputs) : option gostring :=
  let dictionary :=
    fold_left (fun d entry => om_Add d (InputLabel entry) (MInnerList (input_inner_list entry)))
      inputs (om_New : Dictionary) in
  match marshalRFC8941 (SFDictionary dictionary) with Ok value => Some value | Err _ => None end.

Definition AcceptSignatures_String (requests : AcceptSignatures) : option gostring :=
  SignatureInputs_String (requests : SignatureInputs).

Definition signature_item (entry : SignatureValue) : Item Params :=
  mkItem (ABytes ([] ++ SignatureBytes entry))
    (Some (addParameters om_New (SignatureParameters entry))).

Definition Signatures_String (signatures : Signatures) : option gostring :=
  let dictionary :=
    fold_left (fun d entry => om_Add d (SignatureLabel entry) (MItem (signature_item entry)))
      signatures (om_New : Dictionary) in
  match marshalRFC8941 (SFDictionary dictionary) with Ok value => Some value | Err _ => None end.

(** ** Parsing *)

(** The steps every field parser starts with: raw limits, duplicate labels,
    the dependency's parser, an empty dictionary, the member count. *)
Definition parse_dictionary (values : list gostring) (limits : SyntaxLimits)
  (invalidError : sentinel) (malformed : error) : res Dictionary :=
  match enforceRawSyntaxLimits values limits with
  | Some err =>
      if errors_Is err ErrInvalidSyntaxLimits then Err err
      else Err (Wrap2 invalidError ErrSyntaxLimit)
  | None =>
      match rejectDuplicateDictionaryKeys values with
      | Some _ => Err (Wrap invalidError)
      | None =>
          match unmarshalStructuredDictionary (normalizeStructuredFieldOWS values) with
          | Err _ => Err malformed
          | Ok dictionary =>
              if (len (om_Names dictionary) =? 0)%Z then Err malformed
              else if (limits.(MaxDictionaryMembers) <? len (om_Names dictionary))%Z
              then Err (Wrap2 invalidError ErrSyntaxLimit)
              else Ok dictionary
          end
      end
  end.

(** The loop over the items of one inner list. *)
Fixpoint parse_components (limits : SyntaxLimits) (invalidError : sentinel)
  (seen : gset gostring) (items : list (Item Params)) : res (list ComponentIdentifier) :=
  match items with
  | [] => Ok []
  | item :: rest =>
      match Value item with
      | AString name =>
          if negb (validComponentName name) then Err (Wrap invalidError)
          else
            let copied := copyParameters (ItemParams item) in
            if match ItemParams item with
               | Some p => (limits.(MaxParametersPerItem) <? len (om_Names p))%Z
               | None => false
               end
            then Err (Wrap2 invalidError ErrSyntaxLimit)
            else match copied with
                 | Err _ => Err (Wrap invalidError)
                 | Ok parameters =>
                     if negb (validComponentParameters parameters) then Err (Wrap invalidError)
                     else
                       let component := mkComponent name parameters in
                       let comparisonKey := comparison_key component in
                       if bool_decide (comparisonKey ∈ seen) then Err (Wrap invalidError)
                       else
                         let? components :=
                           parse_components limits invalidError ({[comparisonKey]} ∪ seen) rest in
                         Ok (component :: components)
                 end
      | _ => Err (Wrap invalidError)
      end
  end.

(** The body of the loop of [parseSignatureMetadata] for one label.  The code
    dereferences the parameters of the inner list without a check; what the
    parser returns always has some, so the [None] branch is not reached. *)
Definition parse_metadata_member (limits : SyntaxLimits) (invalidError : sentinel)
  (validateParameters : list Param -> bool) (label : gostring) (member : option (Member Params))
  : res SignatureInput :=
  match member with
  | Some (MInnerList innerList) =>
      match ListParams innerList with
      | None => Err (Wrap invalidError)
      | Some p =>
          if (limits.(MaxComponentsPerSignature) <? len (Items innerList))%Z ||
             (limits.(MaxParametersPerItem) <? len (om_Names p))%Z
          then Err (Wrap2 invalidError ErrSyntaxLimit)
          else
            let? components := parse_components limits invalidError ∅ (Items innerList) in
            match copyParameters (Some p) with
            | Err _ => Err (Wrap invalidError)
            | Ok parameters =>
                if negb (validateParameters parameters) then Err (Wrap invalidError)
                else Ok (mkSignatureInput label components parameters)
            end
      end
  | _ => Err (Wrap invalidError)
  end.

Fixpoint parse_metadata_members (limits : SyntaxLimits) (invalidError : sentinel)
  (validateParameters : list Param -> bool) (dictionary : Dictionary) (labels : list gostring)
  : res (list SignatureInput) :=
  match labels with
  | [] => Ok []
  | label :: rest =>
      let? entry :=
        parse_metadata_member limits invalidError validateParameters label
          (om_Get dictionary label) in
      let? entries :=
        parse_metadata_members limits invalidError validateParameters dictionary rest in
      Ok (entry :: entries)
  end.

Definition parseSignatureMetadata (values : list gostring) (limits : SyntaxLimits)
  (invalidError : sentinel) (validateParameters : list Param -> bool)
  : res (list SignatureInput) :=
  let? dictionary := parse_dictionary values limits invalidError (Wrap invalidError) in
  parse_metadata_members limits invalidError validateParameters dictionary (om_Names dictionary).

Definition ParseSignatureInputsWithLimits (values : list gostring) (limits : SyntaxLimits)
  : res SignatureInputs :=
  parseSignatureMetadata values limits ErrInvalidSignatureInput validSignatureParameters.

Definition ParseSignatureInputs (values : list gostring) : res SignatureInputs :=
  ParseSignatureInputsWithLimits values DefaultSyntaxLimits.

Definition ParseAcceptSignaturesWithLimits (values : list gostring) (limits : SyntaxLimits)
  : res AcceptSignatures :=
  parseSignatureMetadata values limits ErrInvalidAcceptSignature validAcceptSignatureParameters.

Definition ParseAcceptSignatures (values : list gostring) : res AcceptSignatures :=
  ParseAcceptSignaturesWithLimits values DefaultSyntaxLimits.

Definition parse_signature_member (limits : SyntaxLimits) (label : gostring)
  (member : option (Member Params)) : res SignatureValue :=
  match member with
  | Some (MItem item) =>
      match Value item with
      | ABytes value =>
          match copyParameters (ItemParams item) with
          | Err _ => Err (Wrap ErrInvalidSignature)
          | Ok parameters =>
              if (limits.(MaxBinaryBytes) <? len value)%Z ||
                 (limits.(MaxParametersPerItem) <? len parameters)%Z
              then Err (Wrap2 ErrInvalidSignature ErrSyntaxLimit)
              else Ok (mkSignatureValue label ([] ++ value) parameters)
          end
      | _ => Err (Wrap ErrInvalidSignature)
      end
  | _ => Err (Wrap ErrInvalidSignature)
  end.

Fixpoint parse_signature_members (limits : SyntaxLimits) (dictionary : Dictionary)
  (labels : list gostring) : res (list SignatureValue) :=
  match labels with
  | [] => Ok []
  | label :: rest =>
      let? entry := parse_signature_member limits label (om_Get dictionary label) in
      let? entries := parse_signature_members limits dictionary rest in
      Ok (entry :: entries)
  end.

Definition ParseSignaturesWithLimits (values : list gostring) (limits : SyntaxLimits)
  : res Signatures :=
  let? dictionary := parse_dictionary values limits ErrInvalidSignature (Wrap ErrInvalidSignature) in
  parse_signature_members limits dictionary (om_Names dictionary).

Definition ParseSignatures (values : list gostring) : res Signatures :=
  ParseSignaturesWithLimits values DefaultSyntaxLimits.
End Fields.
