(* ===== verification/SerializationFacts.v ===== *)
(** * Facts on serialized structured fields

    Whatever the program serializes through the dependency is printable ASCII,
    the repair of integral decimals included; in particular it holds no line
    break. *)

From S2P Require Import Prelude GoStrings Errors Httpsfv StructuredFieldSafe SignatureFields.
Open Scope Z_scope.

Abbreviation printable := (forallb is_printable).

(** ** Building blocks *)

Lemma forallb_weaken {A} (p q : A -> bool) l :
  (forall x, p x = true -> q x = true) -> forallb p l = true -> forallb q l = true.
Proof. rewrite !forallb_forall. auto. Qed.

Lemma Join_forallb (p : ascii -> bool) l sep :
  Forall (fun s => forallb p s = true) l -> forallb p sep = true -> forallb p (Join l sep) = true.
Proof.
  intros Hl Hsep. induction l as [| x l IH]; [done |]. apply Forall_cons_1 in Hl as [Hx Hl].
  destruct l as [| y l]; [done |].
  change (Join (x :: y :: l) sep) with (x ++ sep ++ Join (y :: l) sep).
  rewrite !forallb_app, Hx, Hsep, IH by done. done.
Qed.

Lemma mjoin_forallb (p : ascii -> bool) (l : list gostring) :
  Forall (fun s => forallb p s = true) l -> forallb p (mjoin l) = true.
Proof.
  induction 1 as [| s l Hs _ IH]; [done |].
  change (mjoin (s :: l)) with (s ++ mjoin l). by rewrite forallb_app, Hs, IH.
Qed.

Lemma escape_printable s : printable s = true -> printable (escape_string s) = true.
Proof.
  induction s as [| c s IH]; [done |]. cbn [forallb escape_string flat_map].
  intros [Hc Hs]%andb_true_iff. fold (escape_string s).
  rewrite forallb_app, IH, andb_true_r by done. unfold escape_char.
  destruct (_ || _); cbn [forallb]; by rewrite Hc.
Qed.

Lemma quote_printable s : printable s = true -> printable (quote_string s) = true.
Proof.
  intros Hs. unfold quote_string. cbn [forallb]. rewrite forallb_app, escape_printable by done. done.
Qed.

Lemma digit_printable n : (n < 10)%N -> is_printable (digit_char n) = true.
Proof. intros Hn. do 10 (destruct n as [| n] using N.peano_ind; [done |]; clear IHn). lia. Qed.

Lemma dec_digits_printable fuel n acc : printable acc = true -> printable (dec_digits fuel n acc) = true.
Proof.
  revert n acc. induction fuel as [| f IH]; intros n acc Hacc; cbn [dec_digits]; [done |].
  assert (printable (digit_char (n mod 10) :: acc) = true) as Hd.
  { cbn [forallb]. rewrite digit_printable by (apply N.mod_lt; lia). done. }
  case_match; [done | by apply IH].
Qed.

Lemma FormatInt_printable z : printable (FormatInt z) = true.
Proof.
  destruct z; [done | |]; cbn [FormatInt]; unfold FormatUint; [by apply dec_digits_printable |].
  cbn [forallb]. by rewrite dec_digits_printable.
Qed.

Lemma b64_char_printable n : (n < 64)%N -> is_printable (b64_char n) = true.
Proof.
  intros Hn. do 64 (destruct n as [| n] using N.peano_ind; [done |]; clear IHn). lia.
Qed.

Lemma land63 n : (N.land n 63 < 64)%N.
Proof. change 63%N with (N.ones 6). rewrite N.land_ones. apply N.mod_lt. done. Qed.

Lemma StdEncode_printable s : printable (StdEncode s) = true.
Proof.
  induction s as [s IH] using (induction_ltof1 _ (@length ascii)). unfold ltof in IH.
  destruct s as [| a [| b [| c s]]]; [done | | |]; cbn [StdEncode forallb];
    rewrite !b64_char_printable by apply land63; [done | done |].
  cbn [andb]. apply IH. cbn. lia.
Qed.

Lemma wrap_printable b : printable (":"%char :: StdEncode b ++ [":"%char]) = true.
Proof. cbn [forallb]. rewrite forallb_app, StdEncode_printable. done. Qed.

Lemma key_printable k : valid_key k = true -> printable k = true.
Proof.
  destruct k as [| c k]; [done |]. cbn [valid_key forallb]. intros [Hc Hk]%andb_true_iff.
  apply andb_true_iff. split; [by all_ascii c |].
  revert Hk. apply forallb_weaken. intros d. by all_ascii d.
Qed.

Lemma token_printable t : valid_token t = true -> printable t = true.
Proof.
  destruct t as [| c t]; [done |]. cbn [valid_token forallb]. intros [Hc Ht]%andb_true_iff.
  apply andb_true_iff. split; [by all_ascii c |].
  revert Ht. apply forallb_weaken. intros d. by all_ascii d.
Qed.

(** The repair of decimals only inserts the digit 0. *)
Lemma restore_scan_forallb p quoted escaped left rest :
  p "0"%char = true -> forallb p rest = true -> forallb p (restore_scan quoted escaped left rest) = true.
Proof.
  intros H0. revert quoted escaped left.
  induction rest as [| c rest IH]; intros quoted escaped left; [done |].
  cbn [forallb restore_scan]. intros [Hc Hr]%andb_true_iff.
  destruct quoted.
  - cbn [forallb]. rewrite Hc. repeat case_match; by apply IH.
  - repeat case_match; cbn [forallb]; rewrite Hc, ?H0; by apply IH.
Qed.

(** ** Whole values *)

Section Printable.
Context `{SFV : Httpsfv} `{HL : !HttpsfvLaws}.

Lemma bare_printable v s :
  isRFC8941BareItem v = true -> MarshalBareItem v = Some s -> printable s = true.
Proof.
  destruct v as [| b | t | z | f | b | t | t | t]; try done; intros _.
  - rewrite bare_bool. intros [= <-]. by destruct b.
  - rewrite bare_string. destruct (printable t) eqn:Ht; [| done]. intros [= <-].
    by apply quote_printable.
  - rewrite bare_integer. case_match; [| done]. intros [= <-]. apply FormatInt_printable.
  - intros Hs%bare_decimal. revert Hs. apply forallb_weaken. intros c. by all_ascii c.
  - rewrite bare_bytes. intros [= <-]. apply wrap_printable.
  - rewrite bare_token. destruct (valid_token t) eqn:Ht; [| done]. intros [= <-].
    by apply token_printable.
Qed.

Lemma marshal_param_printable k v s :
  isRFC8941BareItem v = true -> marshal_param MarshalBareItem (k, v) = Some s -> printable s = true.
Proof.
  intros Hv. cbn [marshal_param]. destruct (valid_key k) eqn:Hk; [| done].
  apply key_printable in Hk.
  assert (forall s', MarshalBareItem v = Some s' -> printable (";"%char :: k ++ "="%char :: s') = true)
    as Hgen.
  { intros s' Hs'. cbn [forallb]. rewrite forallb_app, Hk. cbn [forallb].
    by rewrite (bare_printable v). }
  destruct v as [| [] | | | | | | |]; try done;
    try (intros (s' & Hs' & ->)%fmap_Some; by apply Hgen).
  intros [= <-]. cbn [forallb]. by rewrite Hk.
Qed.

Lemma mapM_printable {A} (f : A -> option gostring) l ss :
  mapM f l = Some ss -> (forall x s, x ∈ l -> f x = Some s -> printable s = true) ->
  Forall (fun s => printable s = true) ss.
Proof.
  intros H%mapM_Some Hf. apply list.Forall_forall. intros s Hs.
  apply list_elem_of_lookup in Hs as [i Hi].
  destruct (Forall2_lookup_r _ _ _ _ _ H Hi) as (x & Hx & Hfx).
  apply (Hf x s); [by eapply list_elem_of_lookup_2 | done].
Qed.

Lemma om_entries_elem (p : Params) k v :
  (k, v) ∈ om_entries p -> k ∈ om_Names p /\ om_Get p k = Some v.
Proof.
  unfold om_entries. intros (k' & Hk' & H)%list_elem_of_omap.
  apply fmap_Some in H as (v' & Hv' & [= <- <-]). done.
Qed.

Lemma marshal_params_printable p s :
  isRFC8941Parameters (Some p) = true ->
  marshal_params MarshalBareItem (om_entries p) = Some s -> printable s = true.
Proof.
  intros Hp (ss & Hss & ->)%fmap_Some. apply mjoin_forallb.
  apply (mapM_printable _ _ _ Hss). intros [k v] s Hin Hs.
  apply om_entries_elem in Hin as [Hk Hv].
  apply (marshal_param_printable k v); [| done].
  cbn in Hp. rewrite forallb_forall in Hp. specialize (Hp k (proj1 (list_elem_of_In _ _) Hk)).
  unfold get_any in Hp. by rewrite Hv in Hp.
Qed.

Lemma item_printable i s :
  isRFC8941Item i = true -> marshal_item_value i = Some s -> printable s = true.
Proof.
  unfold isRFC8941Item. intros [Hv Hp]%andb_true_iff. destruct i as [v [p |]]; [| done].
  cbn in *. unfold marshal_item. destruct (MarshalBareItem v) as [a |] eqn:Ha; [| done].
  destruct (marshal_params _ _) as [b |] eqn:Hb; [| done]. intros [= <-].
  rewrite forallb_app, (bare_printable v) by done. by apply (marshal_params_printable p).
Qed.

Lemma inner_list_printable l s :
  isRFC8941Member (MInnerList l) = true -> marshal_inner_list_value l = Some s -> printable s = true.
Proof.
  destruct l as [items [p |]]; [| done]. cbn -[isRFC8941Parameters].
  destruct (isRFC8941Parameters (Some p)) eqn:Hp; [| done]. cbn [negb]. intros Hi.
  intros (es & Hes & H)%bind_Some. cbn in H.
  unfold marshal_inner_list in H. destruct (mapM _ es) as [ss |] eqn:Hss; [| done].
  destruct (marshal_params _ _) as [b |] eqn:Hb; [| done]. injection H as <-.
  cbn [forallb]. rewrite forallb_app, Join_forallb; [| | done].
  - cbn [forallb]. by rewrite (marshal_params_printable p).
  - apply (mapM_printable _ _ _ Hss). intros [v e] s Hin Hs.
    apply mapM_Some in Hes. apply list_elem_of_lookup in Hin as [n Hn].
    destruct (Forall2_lookup_r _ _ _ _ _ Hes Hn) as (i & Hin & Hie).
    rewrite forallb_forall in Hi.
    assert (isRFC8941Item i = true) as Hit.
    { apply Hi, list_elem_of_In. by eapply list_elem_of_lookup_2. }
    apply (item_printable i); [done |]. unfold marshal_item_value. by rewrite Hie.
Qed.

Lemma member_printable m s :
  isRFC8941Member m = true -> marshal_member_value m = Some s -> printable s = true.
Proof. destruct m; [apply item_printable | apply inner_list_printable]. Qed.

Lemma dictionary_member_printable k m s :
  isRFC8941Member m = true -> marshal_dictionary_member (k, m) = Some s -> printable s = true.
Proof.
  intros Hm. cbn [marshal_dictionary_member]. destruct (valid_key k) eqn:Hk; [| done].
  apply key_printable in Hk.
  assert (forall s', marshal_member_value m = Some s' -> printable (k ++ "="%char :: s') = true) as Hgen.
  { intros s' Hs'. rewrite forallb_app, Hk. cbn [forallb]. by rewrite (member_printable m). }
  destruct m as [[v p] | l]; [| intros (s' & Hs' & ->)%fmap_Some; by apply Hgen].
  destruct v as [| [] | | | | | | |]; try (intros (s' & Hs' & ->)%fmap_Some; by apply Hgen).
  intros (l & Hl & (s' & Hs' & ->)%fmap_Some)%bind_Some.
  rewrite forallb_app, Hk. destruct p as [p |]; [| done]. injection Hl as <-.
  apply andb_true_iff in Hm as [_ Hp]. by apply (marshal_params_printable p).
Qed.

(** Everything serialized with [marshalRFC8941] is printable ASCII. *)
Lemma marshalRFC8941_printable value s :
  marshalRFC8941 value = Ok s -> printable s = true.
Proof.
  unfold marshalRFC8941. destruct (isRFC8941StructuredField value) eqn:Hg; [| done]. cbn [negb].
  destruct (Marshal value) as [t |] eqn:Ht; [| done]. intros [= <-].
  apply restore_scan_forallb; [done |]. destruct value as [i | l | l | d]; cbn in Hg.
  - rewrite Marshal_item in Ht; [by apply (item_printable i) |].
    destruct i as [v [p |]]; [by eexists |]. by apply andb_true_iff in Hg as [_ Hg].
  - assert (isRFC8941Member (MInnerList l) = true) as Hm by done.
    destruct l as [items [p |]]; [| done].
    rewrite Marshal_inner_list in Ht; [by apply (inner_list_printable _ _ Hm) | by eexists |].
    cbn -[isRFC8941Parameters] in Hm. destruct (isRFC8941Parameters (Some p)); [| done].
    cbn in Hm. apply list.Forall_forall. intros i Hi. rewrite forallb_forall in Hm.
    specialize (Hm i (proj1 (list_elem_of_In _ _) Hi)). destruct i as [v [q |]]; [by eexists |].
    unfold isRFC8941Item in Hm. by rewrite andb_false_r in Hm.
  - apply Marshal_list in Ht as (ss & Hss & ->)%fmap_Some_1. apply Join_forallb; [| done].
    apply (mapM_printable _ _ _ Hss). intros m s Hm Hs. rewrite forallb_forall in Hg.
    apply (member_printable m); [| done]. by apply Hg, list_elem_of_In.
  - apply Marshal_dictionary in Ht. apply fmap_Some in Ht as (ss & Hss & ->). apply Join_forallb; [| done].
    apply (mapM_printable _ _ _ Hss). intros [k m] s Hin Hs.
    unfold om_entries in Hin. apply list_elem_of_omap in Hin as (k' & Hk' & Hin).
    apply fmap_Some in Hin as (m' & Hm' & [= <- <-]). rewrite forallb_forall in Hg.
    specialize (Hg k (proj1 (list_elem_of_In _ _) Hk')). rewrite Hm' in Hg.
    by apply (dictionary_member_printable k m).
Qed.
End Printable.
