(* ===== verification/SignatureFacts.v ===== *)
(** * Correctness of the signature field parsers

    The identity of a component does not depend on the order of its
    parameters; labels are valid keys and never repeated; and every value the
    parsers return is well formed and inside the limits. *)

From S2P Require Import Prelude GoStrings Errors SyntaxLimits Httpsfv StructuredFieldSafe.
From S2P Require Import SignatureFields.
Open Scope Z_scope.

(** ** Labels *)

Lemma take_while_all p s : take_while p s = s <-> forallb p s = true.
Proof.
  induction s as [| c s IH]; [done |]. cbn [take_while forallb]. destruct (p c); cbn [andb].
  - rewrite <- IH. split; [by intros [= ->] | by intros ->].
  - done.
Qed.

Lemma isKeyStart_valid c : isKeyStart c = is_key_start c.
Proof. reflexivity. Qed.

Lemma isKeyCharacter_valid c : isKeyCharacter c = is_key_char c.
Proof. by all_ascii c. Qed.

Lemma not_ows_of_key_start c : isKeyStart c = true -> char_mem c [c_space; c_tab] = false.
Proof. by all_ascii c. Qed.

Lemma isKeyCharacter_forallb s : forallb isKeyCharacter s = forallb is_key_char s.
Proof. induction s as [| c s IH]; [done |]. cbn [forallb]. by rewrite isKeyCharacter_valid, IH. Qed.

(** [validSignatureLabel], which runs the scanner of raw dictionary
    members, accepts exactly the keys of RFC 8941 - the strings the serializer
    accepts as dictionary keys. *)
Theorem validSignatureLabel_key label : validSignatureLabel label = valid_key label.
Proof.
  unfold validSignatureLabel, valid_key, dictionaryMemberKey.
  destruct label as [| c s]; [done |].
  rewrite bool_decide_eq_false_2 by done. cbn [negb andb TrimLeft].
  destruct (isKeyStart c) eqn:Hc.
  - rewrite not_ows_of_key_start, Hc by done. rewrite <- isKeyStart_valid, Hc. cbn [andb].
    rewrite <- isKeyCharacter_forallb.
    destruct (forallb isKeyCharacter s) eqn:Hs.
    + apply bool_decide_eq_true_2. f_equal. by apply take_while_all.
    + apply bool_decide_eq_false_2. intros [= H]. apply take_while_all in H. congruence.
  - rewrite <- isKeyStart_valid, Hc. cbn [andb].
    apply bool_decide_eq_false_2.
    destruct (char_mem c [c_space; c_tab]) eqn:Hm; [| by rewrite Hc].
    destruct (TrimLeft s [c_space; c_tab]) as [| d r]; [done |].
    destruct (isKeyStart d) eqn:Hd; [| done]. intros [= -> _]. congruence.
Qed.

(** ** Duplicate labels *)

Lemma reject_duplicates_None seen members :
  reject_duplicates seen members = None <->
  Forall (fun m => dictionaryMemberKey m <> []) members /\
  NoDup (map dictionaryMemberKey members) /\
  (forall m, m ∈ members -> dictionaryMemberKey m ∉ seen).
Proof.
  revert seen. induction members as [| m l IH]; intros seen; cbn [reject_duplicates map].
  { split; [| done]. intros _. split; [done |]. split; [constructor |].
    intros m Hm. by apply elem_of_nil in Hm. }
  rewrite list.Forall_cons, list.NoDup_cons. case_bool_decide as Hne.
  { split; [done |]. by intros ([? _] & _). }
  case_bool_decide as Hin.
  { split; [done |]. intros (_ & _ & Hn). by destruct (Hn m (list_elem_of_here _ _)). }
  rewrite IH. split.
  - intros (Hf & Hnd & Hn). split; [done |]. split; [split; [| done] |].
    + intros (m' & Heq & Hm')%list_elem_of_In%in_map_iff. apply list_elem_of_In in Hm'.
      specialize (Hn m' Hm'). rewrite Heq in Hn. set_solver.
    + intros m' [-> | Hm']%elem_of_cons; [done |]. specialize (Hn m' Hm'). set_solver.
  - intros ([_ Hf] & [Hnew Hnd] & Hn). split; [done |]. split; [done |].
    intros m' Hm' Hx. apply elem_of_union in Hx as [Heq%elem_of_singleton | Hx].
    + apply Hnew. rewrite <- Heq. apply list_elem_of_In, in_map, list_elem_of_In, Hm'.
    + by apply (Hn m' (list_elem_of_further _ _ _ Hm')).
Qed.

(** The scan before parsing passes exactly when the combined field lines
    split into members that all start with a key, no key twice - on whatever
    lines the members are. *)
Theorem rejectDuplicateDictionaryKeys_exact values :
  rejectDuplicateDictionaryKeys values = None <->
  exists members, splitDictionaryMembers (Join values ",") = Ok members /\
    Forall (fun m => dictionaryMemberKey m <> []) members /\
    NoDup (map dictionaryMemberKey members).
Proof.
  unfold rejectDuplicateDictionaryKeys.
  destruct (splitDictionaryMembers _) as [members | e].
  - rewrite reject_duplicates_None. split.
    + intros (? & ? & _). eauto.
    + intros (? & [= <-] & ? & ?). split; [done |]. split; [done |]. set_solver.
  - split; [done |]. intros (? & ? & _). done.
Qed.

Section Parsers.
Context `{SFV : Httpsfv}.

(** ** Identity of a component *)

(** RFC 9421 identifies a component by its name and its set of
    parameters: permuting parameters with different names does not change
    the key under which covered, required and repeated components are
    compared. *)
Theorem componentComparisonKey_permutation name parameters parameters' :
  NoDup (map ParamName parameters) -> parameters ≡ₚ parameters' ->
  componentComparisonKey (mkComponent name parameters) =
  componentComparisonKey (mkComponent name parameters').
Proof.
  intros Hnd Hp. unfold componentComparisonKey. cbn [ComponentName ComponentParams].
  do 2 f_equal.
  assert (forall l, map ParamName (cloneParameters l) = map ParamName l) as Hnames.
  { intros l. unfold cloneParameters. rewrite map_map. done. }
  apply sort_by_Permutation; [by rewrite Hnames |].
  unfold cloneParameters. by apply Permutation_map.
Qed.

(** ** What the parsers return *)

Context `{HL : !HttpsfvLaws}.

Lemma copy_names_Ok p names parameters :
  copy_names p names = Ok parameters -> map ParamName parameters = names.
Proof.
  revert parameters. induction names as [| n l IH]; intros parameters; cbn [copy_names].
  { by intros [= <-]. }
  destruct (fromStructuredValue _); [| done]. intros (ps & Hps & [= <-])%rbind_Ok.
  cbn. f_equal. auto.
Qed.

Lemma copyParameters_Ok p parameters :
  copyParameters (Some p) = Ok parameters ->
  len parameters = len (om_Names p) /\ NoDup (map ParamName parameters).
Proof.
  cbn. intros H%copy_names_Ok. rewrite H. split; [| apply om_names_nodup].
  unfold len. by rewrite <- H, length_map.
Qed.

(** A well-formed list of parameters. *)
Definition parameters_wf (limits : SyntaxLimits) (parameters : list Param) : Prop :=
  len parameters <= MaxParametersPerItem limits /\ NoDup (map ParamName parameters).

Definition component_wf (limits : SyntaxLimits) (component : ComponentIdentifier) : Prop :=
  validComponentName (ComponentName component) = true /\
  validComponentParameters (ComponentParams component) = true /\
  parameters_wf limits (ComponentParams component).

Record input_wf (limits : SyntaxLimits) (validate : list Param -> bool) (input : SignatureInput)
  : Prop := {
  wf_components : Forall (component_wf limits) (Components input);
  wf_distinct : NoDup (map comparison_key (Components input));
  wf_count : len (Components input) <= MaxComponentsPerSignature limits;
  wf_parameters : parameters_wf limits (InputParameters input);
  wf_valid : validate (InputParameters input) = true
}.

Lemma parse_components_Ok limits invalid seen items components :
  parse_components limits invalid seen items = Ok components ->
  Forall (component_wf limits) components /\ NoDup (map comparison_key components) /\
  (forall c, c ∈ components -> comparison_key c ∉ seen) /\ len components = len items.
Proof.
  revert seen components. induction items as [| item l IH]; intros seen components; cbn [parse_components].
  { intros [= <-]. split; [done |]. split; [constructor |]. split; [| done].
    intros c Hc. by apply elem_of_nil in Hc. }
  destruct (Value item) as [| | name | | | | | |]; try done.
  destruct (validComponentName name) eqn:Hname; cbn [negb]; [| done].
  destruct (ItemParams item) as [p |]; [| done].
  destruct (MaxParametersPerItem limits <? len (om_Names p)) eqn:Hmax; [done |].
  destruct (copyParameters (Some p)) as [ps |] eqn:Hps; [| done].
  destruct (validComponentParameters ps) eqn:Hv; cbn [negb]; [| done]. cbv zeta.
  case_bool_decide as Hin; [done |]. intros (cs & Hcs & [= <-])%rbind_Ok.
  destruct (IH _ _ Hcs) as (Hf & Hnd & Hn & Hl). destruct (copyParameters_Ok _ _ Hps) as [Hlen Hndp].
  cbn [map]. rewrite list.Forall_cons, list.NoDup_cons, !len_cons.
  split; [split; [split; [done |]; split; [done |]; split; [cbn; lia | done] | done] |].
  split; [split; [| done] |]; [| split; [| lia]].
  - intros (c' & Heq & Hc')%list_elem_of_In%in_map_iff. apply list_elem_of_In in Hc'.
    specialize (Hn c' Hc'). rewrite Heq in Hn. set_solver.
  - intros c' Hc'. apply elem_of_cons in Hc' as [-> | Hc']; [done |].
    specialize (Hn c' Hc'). set_solver.
Qed.

Lemma parse_metadata_member_Ok limits invalid validate label member input :
  parse_metadata_member limits invalid validate label member = Ok input ->
  InputLabel input = label /\ input_wf limits validate input.
Proof.
  unfold parse_metadata_member. destruct member as [[| l] |]; try done.
  destruct (ListParams l) as [p |]; [| done].
  destruct ((_ <? _) || _) eqn:Hl; [done |]. apply orb_false_iff in Hl as [Hl1 Hl2].
  intros (cs & Hcs & H)%rbind_Ok.
  destruct (copyParameters (Some p)) as [ps |] eqn:Hps; [| done].
  destruct (validate ps) eqn:Hv; cbn [negb] in H; [| done]. injection H as <-.
  destruct (parse_components_Ok _ _ _ _ _ Hcs) as (Hf & Hnd & _ & Hlen).
  destruct (copyParameters_Ok _ _ Hps) as [Hlp Hndp].
  split; [done |]. split; cbn; [done | done | lia | split; [lia | done] | done].
Qed.

Lemma parse_metadata_members_Ok limits invalid validate dictionary labels inputs :
  parse_metadata_members limits invalid validate dictionary labels = Ok inputs ->
  map InputLabel inputs = labels /\ Forall (input_wf limits validate) inputs.
Proof.
  revert inputs. induction labels as [| label l IH]; intros inputs; cbn [parse_metadata_members].
  { by intros [= <-]. }
  intros (i & Hi & (is' & His & [= <-])%rbind_Ok)%rbind_Ok.
  apply parse_metadata_member_Ok in Hi as [<- Hwf]. apply IH in His as [<- Hf]. split; [done | by constructor].
Qed.

(** The raw field is inside the limits, and so is the dictionary. *)
Lemma parse_dictionary_Ok values limits invalid malformed dictionary :
  parse_dictionary values limits invalid malformed = Ok dictionary ->
  rejectDuplicateDictionaryKeys values = None /\
  1 <= len values <= MaxFieldLines limits /\ len (Join values ", ") <= MaxFieldBytes limits /\
  1 <= len (om_Names dictionary) <= MaxDictionaryMembers limits.
Proof.
  unfold parse_dictionary, enforceRawSyntaxLimits.
  destruct (Validate limits) as [e |] eqn:HV; [by destruct (errors_Is _ _) |].
  destruct ((len values =? 0) || (MaxFieldLines limits <? len values)) eqn:Hn.
  { by destruct (errors_Is _ _). }
  apply Validate_None in HV as HV'. rewrite enforce_lines_first by lia.
  destruct (MaxFieldBytes limits <? len (Join values ", ")) eqn:Hb; [by destruct (errors_Is _ _) |].
  destruct (rejectDuplicateDictionaryKeys values) eqn:Hd; [done |].
  destruct (unmarshalStructuredDictionary _) as [d |]; [| done].
  destruct (len (om_Names d) =? 0) eqn:H0; [done |].
  destruct (MaxDictionaryMembers limits <? len (om_Names d)) eqn:Hm; [done |]. intros [= <-].
  pose proof (len_nonneg (om_Names d)). pose proof (len_nonneg values).
  split; [done |]. lia.
Qed.

(** Everything the typed parsers guarantee about a parsed field. *)
Record metadata_wf (limits : SyntaxLimits) (validate : list Param -> bool)
  (values : list gostring) (inputs : list SignatureInput) : Prop := {
  wf_lines : 1 <= len values <= MaxFieldLines limits;
  wf_bytes : len (Join values ", ") <= MaxFieldBytes limits;
  wf_members : 1 <= len inputs <= MaxDictionaryMembers limits;
  wf_labels : NoDup (map InputLabel inputs);
  wf_unique : rejectDuplicateDictionaryKeys values = None;
  wf_inputs : Forall (input_wf limits validate) inputs
}.

Lemma parseSignatureMetadata_Ok values limits invalid validate inputs :
  parseSignatureMetadata values limits invalid validate = Ok inputs ->
  metadata_wf limits validate values inputs.
Proof.
  intros (d & Hd & H)%rbind_Ok. apply parse_dictionary_Ok in Hd as (? & ? & ? & Hm).
  apply parse_metadata_members_Ok in H as [Hl Hf].
  split; try done; [| rewrite Hl; apply om_names_nodup].
  rewrite <- Hl in Hm. unfold len in *. by rewrite length_map in Hm.
Qed.

(** C40: what [ParseSignatureInputsWithLimits] returns is well formed: the raw
    lines and the dictionary are inside the limits, labels are pairwise
    different, every component has a valid name, valid parameters of
    different names, no component is covered twice up to the order of
    parameters, and created and expires are integers while nonce, alg,
    keyid and tag are strings. *)
Theorem ParseSignatureInputs_wf values limits inputs :
  ParseSignatureInputsWithLimits values limits = Ok inputs ->
  metadata_wf limits validSignatureParameters values inputs.
Proof. apply parseSignatureMetadata_Ok. Qed.

(** The same for requested signatures, where created and expires are the
    Boolean true. *)
Theorem ParseAcceptSignatures_wf values limits requests :
  ParseAcceptSignaturesWithLimits values limits = Ok requests ->
  metadata_wf limits validAcceptSignatureParameters values requests.
Proof. apply parseSignatureMetadata_Ok. Qed.

Lemma parse_signature_members_Ok limits dictionary labels values :
  parse_signature_members limits dictionary labels = Ok values ->
  map SignatureLabel values = labels /\
  Forall (fun v => len (SignatureBytes v) <= MaxBinaryBytes limits /\
                   parameters_wf limits (SignatureParameters v)) values.
Proof.
  revert values. induction labels as [| label l IH]; intros values; cbn [parse_signature_members].
  { by intros [= <-]. }
  intros (v & Hv & (vs & Hvs & [= <-])%rbind_Ok)%rbind_Ok. apply IH in Hvs as [<- Hf].
  unfold parse_signature_member in Hv.
  destruct (om_Get dictionary label) as [[i |] |]; try done.
  destruct (Value i) as [| | | | | b | | |]; try done.
  destruct (ItemParams i) as [p |]; [| done].
  destruct (copyParameters (Some p)) as [ps |] eqn:Hps; [| done].
  destruct ((_ <? _) || _) eqn:Hl; [done |]. apply orb_false_iff in Hl as [Hl1 Hl2]. injection Hv as <-.
  destruct (copyParameters_Ok _ _ Hps) as [_ Hnd]. split; [done |].
  constructor; [| done]. cbn. split; [lia |]. split; [lia | done].
Qed.

(** What [ParseSignaturesWithLimits] returns: pairwise different labels,
    binary values and parameters inside the limits, on raw lines inside the
    limits. *)
Theorem ParseSignatures_wf values limits signatures :
  ParseSignaturesWithLimits values limits = Ok signatures ->
  1 <= len values <= MaxFieldLines limits /\ len (Join values ", ") <= MaxFieldBytes limits /\
  1 <= len signatures <= MaxDictionaryMembers limits /\
  NoDup (map SignatureLabel signatures) /\
  Forall (fun v => len (SignatureBytes v) <= MaxBinaryBytes limits /\
                   parameters_wf limits (SignatureParameters v)) signatures.
Proof.
  intros (d & Hd & H)%rbind_Ok. apply parse_dictionary_Ok in Hd as (? & ? & ? & Hm).
  apply parse_signature_members_Ok in H as [Hl Hf].
  repeat (split; [done |]). split; [| split; [rewrite Hl; apply om_names_nodup | done]].
  rewrite <- Hl in Hm. unfold len in *. by rewrite length_map in Hm.
Qed.
End Parsers.
