(* ===== verification/HttpTypes.v ===== *)
(** * net/http and net/url data

    The fields of [http.Request], [http.Response], [http.Header] and [url.URL]
    that the program reads or writes.  A header is a finite map from the key
    as stored to its values; the source never distinguishes a nil header from
    an empty one.  A pointer to a request is a record with an identity, so
    that pointer comparisons of the source can be written.  The URL parser is
    a parameter (class [NetURL]); [Hostname] and [Port] are defined. *)

From S2P Require Import Prelude GoStrings.

Abbreviation Header := (gmap gostring (list gostring)).

(** [Header.Values] and [Header.Get]'s lookup: by canonical key. *)
Definition Header_Values (h : Header) (name : gostring) : list gostring :=
  default [] (h !! CanonicalHeaderKey name).

(** [Header.Set]. *)
Definition Header_Set (h : Header) (name value : gostring) : Header :=
  <[CanonicalHeaderKey name := [value]]> h.

Record URL := mkURL {
  URLScheme : gostring;
  Opaque : gostring;
  HasUser : bool;
  URLHost : gostring;
  URLPath : gostring;
  RawPath : gostring;
  ForceQuery : bool;
  RawQuery : gostring;
  Fragment : gostring
}.

(** [&url.URL{}]. *)
Definition emptyURL : URL := mkURL [] [] false [] [] [] false [] [].

(** net/url's parsers and printers; [None] is a non-nil error. *)
Class NetURL := {
  url_Parse : gostring -> option URL;
  url_ParseRequestURI : gostring -> option URL;
  EscapedPath : URL -> gostring;
  RequestURI_of : URL -> gostring
}.

(** net/url's [stripPort], [portOnly] and [validOptionalPort] as [Hostname] and
    [Port] use them ([splitHostPort]). *)
Definition validOptionalPort (port : gostring) : bool :=
  match port with
  | [] => true
  | c :: rest => char_eqb c ":" && forallb is_digit rest
  end.

Definition splitHostPort (hostPort : gostring) : gostring * gostring :=
  let '(host, port) :=
    match LastIndexByte hostPort ":" with
    | Some colon =>
        if validOptionalPort (drop colon hostPort)
        then (take colon hostPort, drop (S colon) hostPort)
        else (hostPort, [])
    | None => (hostPort, [])
    end in
  if HasPrefix host "[" && HasSuffix host "]"
  then (take (length host - 2) (drop 1 host), port)
  else (host, port).

Definition Hostname (u : URL) : gostring := fst (splitHostPort (URLHost u)).
Definition Port (u : URL) : gostring := snd (splitHostPort (URLHost u)).

(** A request body: nil, [http.NoBody], or some other reader. *)
Inductive Body : Type :=
| BodyNil
| NoBody
| BodyReader (stream : nat).

#[export] Instance Body_eq_dec : EqDecision Body.
Proof. solve_decision. Defined.

Record Request := mkRequest {
  RequestPtr : nat;
  Method : gostring;
  RequestURL : option URL;
  RequestProtoMajor : Z;
  RequestProtoMinor : Z;
  RequestHeader : Header;
  RequestBody : Body;
  RequestContentLength : Z;
  RequestTransferEncoding : list gostring;
  RequestClose : bool;
  Host : gostring;
  RequestTrailer : Header;
  RequestURI : gostring;
  RequestTLS : bool
}.

Record Response := mkResponse {
  StatusCode : Z;
  ResponseProtoMajor : Z;
  ResponseProtoMinor : Z;
  ResponseHeader : Header;
  ResponseBody : Body;
  ResponseContentLength : Z;
  ResponseTransferEncoding : list gostring;
  ResponseClose : bool;
  Uncompressed : bool;
  ResponseTrailer : Header;
  ResponseRequest : option Request
}.

(** [Response.ProtoAtLeast]. *)
Definition ProtoAtLeast (r : Response) (major minor : Z) : bool :=
  (major <? ResponseProtoMajor r)%Z ||
  (ResponseProtoMajor r =? major)%Z && (minor <=? ResponseProtoMinor r)%Z.

(** Equality of request pointers. *)
Definition same_request (a b : option Request) : bool :=
  match a, b with
  | None, None => true
  | Some r, Some s => Nat.eqb (RequestPtr r) (RequestPtr s)
  | _, _ => false
  end.

(** message.go *)
Record ExternalRequestContext := mkExternal {
  ExternalScheme : gostring;
  ExternalAuthority : gostring;
  ExternalRequestTarget : gostring
}.

Inductive StructuredFieldType : Set :=
| StructuredFieldDictionary
| StructuredFieldList
| StructuredFieldItem
| StructuredFieldUnknown.

Inductive ResponseTransportMode : Set :=
| ResponseTransportUnspecified
| ResponseTransportReceived
| ResponseTransportWrite
| ResponseTransportInvalid.

#[export] Instance ResponseTransportMode_eq_dec : EqDecision ResponseTransportMode.
Proof. solve_decision. Defined.

Record MessageContext := mkMessage {
  MessageRequest : option Request;
  MessageResponse : option Response;
  RelatedRequest : option Request;
  ExternalRequest : option ExternalRequestContext;
  StructuredFields : gmap gostring StructuredFieldType;
  ResponseTransport : ResponseTransportMode;
  MaxSignatureBaseBytes : Z
}.
