(* ===== verification/MessageLimits.v ===== *)
(** * Size estimates and saturating arithmetic (message_limits.go)

    Go's [int] is 64 bits wide.  The size helpers saturate at [math.MaxInt];
    the estimates that use them are upper bounds of what the serializer
    writes, which is what makes the pre-allocation checks of the signature
    base sound. *)

From S2P Require Import Prelude GoStrings Errors Httpsfv StructuredFieldSafe SignatureFields.
From S2P Require Import HttpTypes.
Open Scope Z_scope.

(** ** Arithmetic *)

Definition safeSizeAdd (left right : Z) : Z * bool :=
  if (left <? 0) || (right <? 0) || (MaxInt - right <? left) then (0, false)
  else (left + right, true).

Definition safeSizeMultiply (value multiplier : Z) : Z * bool :=
  if (value <? 0) || (multiplier <? 0) ||
     (negb (multiplier =? 0)) && (Z.quot MaxInt multiplier <? value)
  then (0, false)
  else (value * multiplier, true).

Definition saturatingSizeAdd (left right : Z) : Z :=
  let '(value, ok) := safeSizeAdd left right in if negb ok then MaxInt else value.

Definition saturatingSizeMultiply (value multiplier : Z) : Z :=
  let '(result, ok) := safeSizeMultiply value multiplier in if negb ok then MaxInt else result.

Definition base64EncodedLength (size : Z) : Z :=
  let groups := Z.quot (saturatingSizeAdd size 2) 3 in saturatingSizeMultiply groups 4.

(** [consumeSize(&remaining, size)]: the new value of [remaining], or [false]. *)
Definition consumeSize (remaining size : Z) : option Z :=
  if (size <? 0) || (remaining <? size) then None else Some (remaining - size).

(** ** Estimates *)

Fixpoint escaped_extra (value : gostring) (size : Z) : Z :=
  match value with
  | [] => size
  | c :: rest =>
      escaped_extra rest
        (if char_eqb c c_quote || char_eqb c c_backslash then saturatingSizeAdd size 1 else size)
  end.
Definition escapedStringLength (value : gostring) : Z := escaped_extra value (len value).

Definition decimalIntegerLength (value : Z) : Z := len (FormatInt value).

Section Estimates.
Context `{SFV : Httpsfv}.

Definition parameterUpperBound (parameter : Param) : Z :=
  let size := saturatingSizeAdd 1 (len (ParamName parameter)) in
  let valueBytes :=
    match ParamValue parameter with
    | ABool value => if negb value then 3 else 0
    | AString value => saturatingSizeAdd 3 (escapedStringLength value)
    | AInt64 value => 1 + decimalIntegerLength value
    | AFloat64 value =>
        match marshalRFC8941 (SFItem (NewItem (AFloat64 value))) with
        | Ok serialized => saturatingSizeAdd 1 (len serialized)
        | Err _ => 1
        end
    | ABytes value => saturatingSizeAdd 3 (base64EncodedLength (len value))
    | ASFToken value => saturatingSizeAdd 1 (len value)
    | _ => 1
    end in
  saturatingSizeAdd size valueBytes.

Definition structuredItemUpperBound (name : gostring) (parameters : list Param) : Z :=
  fold_left (fun size parameter => saturatingSizeAdd size (parameterUpperBound parameter))
    parameters (saturatingSizeAdd 2 (len name)).

Definition structuredItemFits (name : gostring) (parameters : list Param) (budget : Z) : bool :=
  structuredItemUpperBound name parameters <=? budget.

Fixpoint consume_components (index : nat) (components : list ComponentIdentifier)
  (remaining : Z) : option Z :=
  match components with
  | [] => Some remaining
  | component :: rest =>
      let componentSize :=
        structuredItemUpperBound (ComponentName component) (ComponentParams component) in
      let componentSize :=
        match index with O => componentSize | _ => saturatingSizeAdd componentSize 1 end in
      remaining ← consumeSize remaining componentSize;
      consume_components (S index) rest remaining
  end.

Fixpoint consume_parameters (parameters : list Param) (remaining : Z) : option Z :=
  match parameters with
  | [] => Some remaining
  | parameter :: rest =>
      remaining ← consumeSize remaining (parameterUpperBound parameter);
      consume_parameters rest remaining
  end.

Definition signatureParametersFit (input : SignatureInput) (budget : Z) : bool :=
  match
    remaining ← consumeSize budget 2;
    remaining ← consume_components 0 (Components input) remaining;
    consume_parameters (InputParameters input) remaining
  with
  | Some _ => true
  | None => false
  end.
End Estimates.

Fixpoint field_values_fit (index : nat) (values : list gostring) (binary : bool) (remaining : Z)
  : bool :=
  match values with
  | [] => true
  | value :: rest =>
      let take remaining :=
        let valueSize := len value in
        let valueSize :=
          if binary then saturatingSizeAdd (base64EncodedLength valueSize) 2 else valueSize in
        match consumeSize remaining valueSize with
        | None => false
        | Some remaining => field_values_fit (S index) rest binary remaining
        end in
      match index with
      | O => take remaining
      | S _ =>
          match consumeSize remaining 2 with
          | None => false
          | Some remaining => take remaining
          end
      end
  end.

Definition fieldValuesFit (values : list gostring) (binary : bool) (budget : Z) : bool :=
  if budget <? 0 then false else field_values_fit 0 values binary budget.

Definition derivedSourceFits (request : option Request) (external : option ExternalRequestContext)
  (name : gostring) (budget : Z) : bool :=
  match request with
  | None => true
  | Some request =>
  match RequestURL request with
  | None => true
  | Some url =>
  if budget <? 0 then true
  else
    let scheme := URLScheme url in
    let authority := if Host request =s [] then URLHost url else Host request in
    let targetBytes := len (RequestURI request) in
    let targetBytes :=
      if targetBytes =? 0 then
        let pathBytes := saturatingSizeMultiply (len (URLPath url)) 3 in
        let targetBytes := saturatingSizeAdd pathBytes (len (RawPath url)) in
        let queryBytes := saturatingSizeMultiply (len (RawQuery url)) 3 in
        let targetBytes := saturatingSizeAdd targetBytes queryBytes in
        let targetBytes := saturatingSizeAdd targetBytes 2 in
        if Opaque url <>s [] then
          let opaqueBytes := saturatingSizeAdd (len (Opaque url)) (len (URLScheme url)) in
          let opaqueBytes := saturatingSizeAdd opaqueBytes 2 in
          let opaqueBytes := saturatingSizeAdd opaqueBytes queryBytes in
          Z.max targetBytes opaqueBytes
        else targetBytes
      else targetBytes in
    let '(scheme, authority, targetBytes) :=
      match external with
      | Some external =>
          (ExternalScheme external, ExternalAuthority external, len (ExternalRequestTarget external))
      | None => (scheme, authority, targetBytes)
      end in
    let scheme :=
      if scheme =s [] then (if RequestTLS request then str "https" else str "http") else scheme in
    if (budget <? len scheme) || (budget <? len authority) || (budget <? targetBytes) then false
    else if name =s "@scheme" then len scheme <=? budget
    else if name =s "@authority" then len authority <=? budget
    else if name =s "@query-param" then targetBytes <=? Z.quot budget 3
    else if (name =s "@request-target") || (name =s "@path") || (name =s "@query")
    then targetBytes <=? budget
    else if name =s "@target-uri" then
      let size := saturatingSizeAdd (len scheme) 3 in
      let size := saturatingSizeAdd size (len authority) in
      let size := saturatingSizeAdd size targetBytes in
      size <=? budget
    else true
  end
  end.

(** ** Saturation *)

(** On sizes (non-negative [int]s), the helpers compute the mathematical result
    capped at [math.MaxInt]: they never wrap around. *)
Lemma saturatingSizeAdd_min left right :
  0 <= left <= MaxInt -> 0 <= right <= MaxInt ->
  saturatingSizeAdd left right = Z.min MaxInt (left + right).
Proof. intros ? ?. unfold saturatingSizeAdd, safeSizeAdd. repeat case_match; simplify_eq; lia. Qed.

Lemma saturatingSizeMultiply_min value multiplier :
  0 <= value <= MaxInt -> 0 <= multiplier <= MaxInt ->
  saturatingSizeMultiply value multiplier = Z.min MaxInt (value * multiplier).
Proof.
  intros Hv Hm. unfold saturatingSizeMultiply, safeSizeMultiply.
  destruct (Z.eq_dec multiplier 0) as [-> | Hne].
  { repeat case_match; simplify_eq; lia. }
  pose proof (Z.quot_rem' MaxInt multiplier) as HQ.
  pose proof (Z.rem_bound_pos MaxInt multiplier ltac:(lia) ltac:(lia)) as HR.
  assert (0 <= MaxInt ÷ multiplier) by (apply Z.quot_pos; lia).
  repeat case_match; simplify_eq; nia.
Qed.
