(* ===== verification/SizeFacts.v ===== *)
(** * The size estimates are upper bounds (message_limits.go)

    The signature base is limited by estimates made before serialization.
    This file shows that they are sound: the repair of integral decimals
    inserts nothing outside decimals, so a serialized item, inner list or
    parameter is never longer than [structuredItemUpperBound],
    [signatureParametersFit] and [parameterUpperBound] allow. *)

From S2P Require Import Prelude GoStrings Errors Httpsfv StructuredFieldSafe SignatureFields.
From S2P Require Import SerializationFacts HttpTypes MessageLimits.
Open Scope Z_scope.

(** ** Where the decimal repair inserts nothing *)

(** The scan copies [s] unchanged, whatever surrounds it. *)
Definition steady (s : gostring) : Prop := forall left right,
  restore_scan false false left (s ++ right) = s ++ restore_scan false false (rev s ++ left) right.

Lemma steady_nil : steady [].
Proof. done. Qed.

Lemma steady_app a b : steady a -> steady b -> steady (a ++ b).
Proof.
  intros Ha Hb left right. rewrite <- !app_assoc, Ha, Hb. f_equal. f_equal. f_equal.
  by rewrite rev_app_distr, <- app_assoc.
Qed.

Lemma steady_cons c s : char_eqb c "." = false -> char_eqb c c_quote = false -> steady s -> steady (c :: s).
Proof.
  intros Hd Hq Hs left right. cbn [app restore_scan rev]. rewrite Hd, Hq. cbn [andb]. f_equal.
  rewrite Hs. f_equal. f_equal. by rewrite <- app_assoc.
Qed.

Lemma steady_plain s :
  forallb (fun c => negb (char_eqb c ".") && negb (char_eqb c c_quote)) s = true -> steady s.
Proof.
  induction s as [| c s IH]; [done |]. cbn [forallb]. intros [[Hd Hq]%andb_true_iff Hs]%andb_true_iff.
  apply steady_cons; [by apply negb_true_iff | by apply negb_true_iff | auto].
Qed.

(** A quoted string: the scanner skips it, dots and escapes included. *)
Lemma restore_escape s left right :
  restore_scan true false left (escape_string s ++ c_quote :: right) =
  escape_string s ++ c_quote :: restore_scan false false (c_quote :: rev (escape_string s) ++ left) right.
Proof.
  revert left. induction s as [| c s IH]; intros left; [done |].
  cbn [escape_string flat_map]. fold (escape_string s). unfold escape_char.
  destruct (char_eqb c c_quote || char_eqb c c_backslash) eqn:Hc; cbn [app restore_scan rev].
  - change (char_eqb c_backslash c_backslash) with true. cbn iota.
    rewrite IH. by rewrite <- !app_assoc.
  - apply orb_false_iff in Hc as [-> ->]. rewrite IH. by rewrite <- !app_assoc.
Qed.

Lemma steady_quote s : steady (quote_string s).
Proof.
  intros left right. unfold quote_string. cbn [app restore_scan rev].
  change (char_eqb c_quote c_quote) with true. cbn iota. rewrite <- app_assoc. cbn [app].
  rewrite restore_escape, rev_app_distr. cbn. by rewrite <- !app_assoc.
Qed.

(** Keys and tokens: a dot in one is never preceded by a number of its own. *)
Definition name_start (c : ascii) : bool := is_lower c || is_upper c || char_eqb c "*".
Definition name_char (c : ascii) : bool := is_token_char c || char_mem c ":/".

Lemma drop_digits_name c p left :
  name_start c = true -> forallb name_char p = true ->
  exists q d, drop_digits (rev p ++ c :: left) = d :: q ++ left /\ is_digit d = false /\
    ((d = c /\ q = []) \/ (name_char d = true /\ exists d' q', q = d' :: q' /\ (name_char d' || name_start d') = true)).
Proof.
  intros Hc. induction p as [| x p IH] using rev_ind; intros Hp.
  { cbn. assert (is_digit c = false) as -> by (by all_ascii c). exists [], c.
    split; [done |]. split; [by all_ascii c |]. by left. }
  rewrite forallb_app in Hp. apply andb_true_iff in Hp as [Hp [Hx _]%andb_true_iff].
  rewrite rev_unit. cbn [app drop_digits]. destruct (is_digit x) eqn:Hd; [by apply IH |].
  exists (rev p ++ [c]), x. split; [by rewrite <- app_assoc |]. split; [done |]. right. split; [done |].
  destruct p as [| y p _] using rev_ind.
  - exists c, []. split; [done |]. by rewrite Hc, orb_true_r.
  - rewrite rev_unit. exists y, (rev p ++ [c]). split; [done |].
    rewrite forallb_app in Hp. apply andb_true_iff in Hp as [_ [Hy _]%andb_true_iff]. by rewrite Hy.
Qed.

Lemma name_dot c p left right :
  name_start c = true -> forallb name_char p = true ->
  isEmptyRFC8941DecimalFraction (rev p ++ c :: left) right = false.
Proof.
  intros Hc Hp. unfold isEmptyRFC8941DecimalFraction.
  destruct (rev p ++ c :: left) as [| d l] eqn:Hl; [done |].
  destruct (negb (is_digit d)); [done |].
  destruct (match right with [] => false | r :: _ => negb (char_mem r "; ,)") end); [done |].
  rewrite <- Hl. destruct (drop_digits_name c p left Hc Hp) as (q & e & -> & Hed & Hcase).
  assert (forall x, (name_char x || name_start x) = true -> char_mem x "=(, " = false) as Hno.
  { intros x. by all_ascii x. }
  destruct Hcase as [[-> ->] | [He (e' & q' & -> & He')]].
  - assert (char_eqb c "-" = false) as -> by (by all_ascii c). apply Hno. by rewrite Hc, orb_true_r.
  - destruct (char_eqb e "-"); [by apply Hno |]. apply Hno. by rewrite He.
Qed.

Lemma steady_name c s : name_start c = true -> forallb name_char s = true -> steady (c :: s).
Proof.
  intros Hc Hs left right. cbn [app restore_scan].
  assert (char_eqb c c_quote = false) as -> by (by all_ascii c).
  assert (char_eqb c "." = false) as -> by (by all_ascii c). cbn [andb]. f_equal.
  assert (forall p rest, forallb name_char p = true -> forallb name_char rest = true ->
    restore_scan false false (rev p ++ c :: left) (rest ++ right) =
    rest ++ restore_scan false false (rev (p ++ rest) ++ c :: left) right) as Hgen.
  { intros p rest. revert p. induction rest as [| x rest IH]; intros p Hp Hr; cbn [app].
    { by rewrite app_nil_r. }
    cbn [forallb] in Hr. apply andb_true_iff in Hr as [Hx Hr]. cbn [restore_scan].
    assert (char_eqb x c_quote = false) as -> by (by all_ascii x).
    rewrite name_dot, andb_false_r by done. cbn [app]. f_equal.
    specialize (IH (p ++ [x])). rewrite rev_unit, <- app_assoc in IH. apply IH; [| done].
    rewrite forallb_app, Hp. cbn [forallb]. by rewrite Hx. }
  pose proof (Hgen [] s eq_refl Hs) as Hr. cbn [rev app] in Hr. rewrite Hr. cbn [rev].
  by rewrite <- app_assoc.
Qed.

Lemma steady_key k : valid_key k = true -> steady k.
Proof.
  destruct k as [| c k]; [done |]. cbn [valid_key]. intros [Hc Hk]%andb_true_iff.
  apply steady_name; [by all_ascii c |]. revert Hk. apply forallb_weaken. intros x. by all_ascii x.
Qed.

Lemma steady_token t : valid_token t = true -> steady t.
Proof.
  destruct t as [| c t]; [done |]. cbn [valid_token]. intros [Hc Ht]%andb_true_iff.
  by apply steady_name.
Qed.

Lemma digits_plain s : forallb (fun c => is_digit c || char_eqb c "-") s = true -> steady s.
Proof. intros Hs. apply steady_plain. revert Hs. apply forallb_weaken. intros c. by all_ascii c. Qed.

Lemma dec_digits_digits fuel n acc :
  forallb is_digit acc = true -> forallb is_digit (dec_digits fuel n acc) = true.
Proof.
  revert n acc. induction fuel as [| f IH]; intros n acc Hacc; cbn [dec_digits]; [done |].
  assert (is_digit (digit_char (n mod 10)) = true) as Hd.
  { assert (n mod 10 < 10)%N by (by apply N.mod_lt).
    generalize dependent (n mod 10)%N. intros m Hm.
    do 10 (destruct m as [| m] using N.peano_ind; [done |]; clear IHm). lia. }
  assert (forallb is_digit (digit_char (n mod 10) :: acc) = true) by (cbn [forallb]; by rewrite Hd).
  case_match; [done | by apply IH].
Qed.

Lemma steady_integer z : steady (FormatInt z).
Proof.
  assert (forall n, forallb is_digit (FormatUint n) = true) as Hn.
  { intros n. by apply dec_digits_digits. }
  apply digits_plain. destruct z as [| p | p]; [done | |]; cbn [FormatInt forallb];
    (eapply forallb_weaken; [| apply Hn]); intros c ->; done.
Qed.

Lemma steady_bytes b : steady (":"%char :: StdEncode b ++ [":"%char]).
Proof.
  apply steady_plain. cbn [forallb]. rewrite forallb_app. cbn [forallb].
  assert (forall n, (n < 64)%N -> negb (char_eqb (b64_char n) ".") && negb (char_eqb (b64_char n) c_quote) = true)
    as Hc.
  { intros n Hn. do 64 (destruct n as [| n] using N.peano_ind; [done |]; clear IHn). lia. }
  replace (forallb _ (StdEncode b)) with true; [done |]. symmetry.
  induction b as [b IH] using (induction_ltof1 _ (@length ascii)). unfold ltof in IH.
  destruct b as [| a1 [| a2 [| a3 b]]]; [done | | |]; cbn [StdEncode forallb];
    rewrite !Hc by apply land63; [done | done |]. cbn [andb]. apply IH. cbn. lia.
Qed.

(** ** Decimals *)

(** What may follow a serialized parameter. *)
Definition follows (right : gostring) : Prop :=
  match right with [] => True | c :: _ => char_mem c "; ,)" = true end.

Definition decimal_char (c : ascii) : bool := is_digit c || char_mem c "-.".

Lemma drop_digits_context p l :
  drop_digits (p ++ "="%char :: l) = drop_digits p ++ "="%char :: l.
Proof. induction p as [| c p IH]; [done |]. cbn. by destruct (is_digit c). Qed.

(** The repair of a decimal is the same after an equals sign as on its own. *)
Lemma empty_fraction_context p rest l right :
  forallb decimal_char p = true -> follows right ->
  isEmptyRFC8941DecimalFraction (p ++ "="%char :: l) (rest ++ right) =
  isEmptyRFC8941DecimalFraction p rest.
Proof.
  intros Hp Hf. unfold isEmptyRFC8941DecimalFraction. rewrite drop_digits_context.
  destruct p as [| d p]; [done |]. cbn [app].
  destruct (negb (is_digit d)); [done |].
  assert (match rest ++ right with [] => false | c :: _ => negb (char_mem c "; ,)") end =
          match rest with [] => false | c :: _ => negb (char_mem c "; ,)") end) as ->.
  { destruct rest as [| c rest]; [| done]. cbn. destruct right as [| c right]; [done |]. cbn in Hf.
    by rewrite Hf. }
  destruct (match rest with [] => false | c :: _ => negb (char_mem c "; ,)") end); [done |].
  destruct (drop_digits (d :: p)) as [| e q]; [done |]. cbn [app].
  destruct (char_eqb e "-"); [| done]. by destruct q.
Qed.

Lemma restore_decimal f l right :
  forallb decimal_char f = true -> follows right ->
  exists left', restore_scan false false ("="%char :: l) (f ++ right) =
    restoreRFC8941IntegralDecimals f ++ restore_scan false false left' right.
Proof.
  intros Hf Hr. exists (rev f ++ "="%char :: l). unfold restoreRFC8941IntegralDecimals.
  assert (forall p rest, forallb decimal_char p = true -> forallb decimal_char rest = true ->
    restore_scan false false (p ++ "="%char :: l) (rest ++ right) =
    restore_scan false false p rest ++ restore_scan false false (rev rest ++ p ++ "="%char :: l) right)
    as Hgen.
  { intros p rest. revert p. induction rest as [| c rest IH]; intros p Hp Hrest; [done |].
    cbn [forallb] in Hrest. apply andb_true_iff in Hrest as [Hc Hrest]. cbn [app restore_scan rev].
    assert (char_eqb c c_quote = false) as -> by (by all_ascii c).
    rewrite empty_fraction_context by done.
    assert (forallb decimal_char (c :: p) = true) as Hp' by (cbn [forallb]; by rewrite Hc).
    specialize (IH (c :: p) Hp' Hrest). cbn [app] in IH. rewrite IH, <- app_assoc. cbn [app].
    by destruct (_ && _). }
  apply (Hgen [] f); done.
Qed.

(** ** Bounds of serialized values *)

(** After the repair, [s] occupies at most [n] bytes. *)
Definition measured (s : gostring) (n : Z) : Prop := forall left right, follows right ->
  exists left', len (restore_scan false false left (s ++ right)) <=
    n + len (restore_scan false false left' right).

Lemma steady_measured s : steady s -> measured s (len s).
Proof. intros Hs left right _. exists (rev s ++ left). rewrite Hs, len_app. lia. Qed.

Lemma measured_weaken s n m : measured s n -> n <= m -> measured s m.
Proof. intros Hs Hle left right Hr. destruct (Hs left right Hr) as [l H]. exists l. lia. Qed.

Lemma measured_app a b n m :
  measured a n -> measured b m -> (forall right, follows right -> follows (b ++ right)) ->
  measured (a ++ b) (n + m).
Proof.
  intros Ha Hb Hf left right Hr. rewrite <- app_assoc.
  destruct (Ha left (b ++ right) (Hf right Hr)) as [l H1]. destruct (Hb l right Hr) as [l' H2].
  exists l'. lia.
Qed.

Lemma steady_then a b n : steady a -> measured b n -> measured (a ++ b) (len a + n).
Proof.
  intros Ha Hb left right Hr. rewrite <- app_assoc, Ha, len_app.
  destruct (Hb (rev a ++ left) right Hr) as [l H]. exists l. lia.
Qed.

Lemma measured_len s n : measured s n -> len (restoreRFC8941IntegralDecimals s) <= n.
Proof.
  intros Hs. destruct (Hs [] [] I) as [l H]. rewrite app_nil_r in H. cbn in H.
  change (len (@nil ascii)) with 0 in H. unfold restoreRFC8941IntegralDecimals. lia.
Qed.

Section Bounds.
Context `{SFV : Httpsfv} `{HL : !HttpsfvLaws}.

(** The bytes a parameter value takes, its equals sign included. *)
Definition value_bound (v : any) : Z :=
  match v with
  | ABool b => if b then 0 else 3
  | AString s => 3 + len (escape_string s)
  | AInt64 z => 1 + len (FormatInt z)
  | AFloat64 f =>
      match MarshalBareItem (AFloat64 f) with
      | Some s => 1 + len (restoreRFC8941IntegralDecimals s)
      | None => 1
      end
  | ABytes b => 3 + len (StdEncode b)
  | AToken t => 1 + len t
  | _ => 1
  end.

Definition param_bound (kv : gostring * any) : Z := 1 + len (fst kv) + value_bound (snd kv).

Lemma value_bound_nonneg v : 0 <= value_bound v.
Proof. destruct v as [| [] | | | | | | |]; cbn; try case_match; len_lia. Qed.

Lemma param_bound_nonneg kv : 0 <= param_bound kv.
Proof. unfold param_bound. pose proof (value_bound_nonneg (snd kv)). len_lia. Qed.

Lemma equals_measured left v s :
  isRFC8941BareItem v = true -> v <> ABool true -> MarshalBareItem v = Some s ->
  forall right, follows right -> exists left',
    len (restore_scan false false left ("="%char :: s ++ right)) <=
    value_bound v + len (restore_scan false false left' right).
Proof.
  intros Hv Hne Hs right Hr. cbn [restore_scan]. change (char_eqb "=" c_quote) with false.
  change (char_eqb "=" ".") with false. cbn [andb]. rewrite len_cons.
  assert (forall n, steady s -> len s = n -> exists left',
    1 + len (restore_scan false false ("="%char :: left) (s ++ right)) <=
    1 + n + len (restore_scan false false left' right)) as Hsteady.
  { intros n Hst <-. exists (rev s ++ "="%char :: left). rewrite Hst, len_app. lia. }
  destruct v as [| b | t | z | f | b | t | t | t]; try done.
  - rewrite bare_bool in Hs. destruct b; [done |]. injection Hs as <-.
    apply (Hsteady 2); [by apply steady_plain | done].
  - rewrite bare_string in Hs. destruct (printable t); [| done]. injection Hs as <-.
    destruct (Hsteady (2 + len (escape_string t))) as [l H]; [apply steady_quote | |].
    { unfold quote_string. rewrite len_cons, len_app. change (len [c_quote]) with 1. lia. }
    exists l. cbn [value_bound]. lia.
  - rewrite bare_integer in Hs. case_match; [| done]. injection Hs as <-.
    apply Hsteady; [apply steady_integer | done].
  - cbn [value_bound]. rewrite Hs. apply bare_decimal in Hs.
    destruct (restore_decimal s left right Hs Hr) as [l H]. exists l. rewrite H, len_app. lia.
  - rewrite bare_bytes in Hs. injection Hs as <-.
    destruct (Hsteady (2 + len (StdEncode b))) as [l H]; [apply steady_bytes | |].
    { rewrite len_cons, len_app. change (len [":"%char]) with 1. lia. }
    exists l. cbn [value_bound]. lia.
  - rewrite bare_token in Hs. destruct (valid_token t) eqn:Ht; [| done]. injection Hs as <-.
    apply Hsteady; [by apply steady_token | done].
Qed.

Lemma marshal_param_measured kv s :
  isRFC8941BareItem (snd kv) = true -> marshal_param MarshalBareItem kv = Some s ->
  measured s (param_bound kv) /\ exists t, s = ";"%char :: t.
Proof.
  destruct kv as [k v]. cbn [snd marshal_param]. intros Hv.
  destruct (valid_key k) eqn:Hk; [| done].
  assert (steady (";"%char :: k)) as Hsk by (by apply steady_cons, steady_key).
  unfold param_bound. cbn [fst snd].
  destruct (decide (v = ABool true)) as [-> | Hne].
  { intros [= <-]. split; [| eauto]. apply (measured_weaken _ (len (";"%char :: k))).
    - by apply steady_measured.
    - cbn [value_bound]. len_lia. }
  intros H.
  assert (exists s', MarshalBareItem v = Some s' /\ s = (";"%char :: k) ++ "="%char :: s')
    as (s' & Hs' & ->).
  { destruct v as [| [] | | | | | | |]; try done; apply fmap_Some in H as (s' & ? & ->); eauto. }
  split; [| cbn [app]; eauto].
  replace (1 + len k + value_bound v) with (len (";"%char :: k) + value_bound v) by len_lia.
  apply steady_then; [done |]. intros left right Hr. cbn [app]. by apply equals_measured.
Qed.

Lemma mjoin_follows (ss : list gostring) right :
  Forall (fun s => exists t, s = ";"%char :: t) ss -> follows right -> follows (mjoin ss ++ right).
Proof. intros [| s l [t ->] _] Hr; done. Qed.

Lemma params_measured l ss :
  Forall (fun kv => isRFC8941BareItem (snd kv) = true) l ->
  mapM (marshal_param MarshalBareItem) l = Some ss ->
  measured (mjoin ss) (foldr (fun kv n => param_bound kv + n) 0 l) /\
  Forall (fun s => exists t, s = ";"%char :: t) ss.
Proof.
  intros Hv Hss%mapM_Some. induction Hss as [| kv s l ss Hs _ IH]; cbn [foldr].
  { split; [| constructor]. intros left right _. exists left. cbn. lia. }
  apply list.Forall_cons in Hv as [Hv Hl]. destruct (IH Hl) as [Hm Hf].
  destruct (marshal_param_measured kv s Hv Hs) as [Hk Ht]. split; [| by constructor].
  change (mjoin (s :: ss)) with (s ++ mjoin ss). apply measured_app; [done | done |].
  intros right Hr. by apply mjoin_follows.
Qed.

(** ** The parameters of an item *)

Definition bounds (l : list (gostring * any)) : Z := foldr (fun kv n => param_bound kv + n) 0 l.

Lemma bounds_nonneg l : 0 <= bounds l.
Proof.
  induction l as [| kv l IH]; cbn [bounds foldr]; [lia |].
  pose proof (param_bound_nonneg kv). fold (bounds l). lia.
Qed.

(** Redefining a function at one name moves the sum by at most one bound. *)
Lemma bounds_redefine (get get' : gostring -> option any) k v names :
  NoDup names -> (forall k', get' k' = if bool_decide (k = k') then Some v else get k') ->
  bounds (omap (fun k => (fun v => (k, v)) <$> get' k) names) <=
  bounds (omap (fun k => (fun v => (k, v)) <$> get k) names) +
  (if bool_decide (k ∈ names) then param_bound (k, v) else 0).
Proof.
  intros Hnd Hget. induction Hnd as [| x names Hx Hnd IH]; [done |].
  cbn [omap list_omap]. rewrite Hget. destruct (decide (k = x)) as [<- | Hne].
  - rewrite bool_decide_eq_true_2 by done. cbn [fmap option_fmap option_map bounds foldr].
    rewrite bool_decide_eq_false_2 in IH by done.
    rewrite (bool_decide_eq_true_2 (k ∈ k :: names)) by apply list_elem_of_here.
    fold (bounds (omap (fun k => (fun v => (k, v)) <$> get' k) names)).
    destruct (get k) as [v' |]; cbn [fmap option_fmap option_map bounds foldr];
      [pose proof (param_bound_nonneg (k, v')) |]; unfold bounds in *; lia.
  - rewrite bool_decide_eq_false_2 by done.
    assert (bool_decide (k ∈ x :: names) = bool_decide (k ∈ names)) as ->.
    { apply bool_decide_ext. rewrite elem_of_cons. naive_solver. }
    destruct (get x) as [v' |]; cbn [fmap option_fmap option_map bounds foldr]; unfold bounds in *; lia.
Qed.

Lemma bounds_add (p : Params) k v :
  bounds (om_entries (om_Add p k v)) <= bounds (om_entries p) + param_bound (k, v).
Proof.
  pose proof params_laws. unfold om_entries. rewrite om_names_add.
  pose proof (bounds_redefine (om_Get p) (om_Get (om_Add p k v)) k v (om_Names p)
    (om_names_nodup p) (om_get_add p k v)) as Hr.
  case_bool_decide as Hin; [lia |]. rewrite omap_app.
  assert (forall l m, bounds (l ++ m) = bounds l + bounds m) as ->.
  { intros l m. induction l as [| kv l IH]; [done |]. cbn [app bounds foldr].
    fold (bounds (l ++ m)) (bounds l). lia. }
  cbn [omap list_omap]. rewrite om_get_add, bool_decide_eq_true_2 by done.
  cbn [fmap option_fmap option_map bounds foldr]. unfold bounds in *. lia.
Qed.

(** The pairs that are added for a list of parameters. *)
Definition structured (ps : list Param) : list (gostring * any) :=
  map (fun p => (ParamName p, toStructuredValue (ParamValue p))) ps.

Lemma bounds_addParameters ps :
  bounds (om_entries (addParameters om_New ps)) <= bounds (structured ps).
Proof.
  assert (forall p, bounds (om_entries (addParameters p ps)) <=
    bounds (om_entries p) + bounds (structured ps)) as Hgen.
  { unfold addParameters. induction ps as [| q ps IH]; intros p; [cbn; lia |]. cbn [fold_left].
    pose proof (IH (om_Add p (ParamName q) (toStructuredValue (ParamValue q)))) as H1.
    pose proof (bounds_add p (ParamName q) (toStructuredValue (ParamValue q))) as H2.
    cbn [structured map bounds foldr] in *. fold (structured ps) (bounds (structured ps)) in *. lia. }
  pose proof params_laws. specialize (Hgen om_New). unfold om_entries in Hgen at 2.
  rewrite om_names_new in Hgen. cbn [omap list_omap] in Hgen. cbn in Hgen. lia.
Qed.

Lemma parameters_measured (p : Params) s :
  isRFC8941Parameters (Some p) = true -> marshal_params MarshalBareItem (om_entries p) = Some s ->
  measured s (bounds (om_entries p)) /\ (forall right, follows right -> follows (s ++ right)).
Proof.
  intros Hp (ss & Hss & ->)%fmap_Some.
  destruct (params_measured (om_entries p) ss) as [Hm Hf]; [| done |].
  - apply list.Forall_forall. intros [k v] [Hk Hv]%om_entries_elem. cbn [snd].
    cbn in Hp. rewrite forallb_forall in Hp. specialize (Hp k (proj1 (list_elem_of_In _ _) Hk)).
    unfold get_any in Hp. by rewrite Hv in Hp.
  - split; [done |]. intros right. by apply mjoin_follows.
Qed.

(** ** Items and inner lists *)

Definition item_bound (name : gostring) (ps : list Param) : Z := 2 + len name + bounds (structured ps).

Lemma name_unescaped name : validComponentName name = true -> escape_string name = name.
Proof.
  intros Hv.
  assert (forallb (fun c => negb (char_eqb c c_quote) && negb (char_eqb c c_backslash)) name = true) as Hn.
  { destruct name as [| c name]; [done |]. cbn [validComponentName] in Hv.
    destruct (char_eqb c "@") eqn:Hc.
    - apply char_eqb_eq in Hc as ->. destruct name as [| d name]; [done |].
      change (forallb ?p ("@"%char :: ?l)) with (p "@"%char && forallb p l).
      apply andb_true_iff. split; [done |]. revert Hv. apply forallb_weaken. intros x. by all_ascii x.
    - revert Hv. apply forallb_weaken. intros x. by all_ascii x. }
  clear Hv. induction name as [| c name IH]; [done |]. cbn [forallb] in Hn.
  apply andb_true_iff in Hn as [[Hq Hb]%andb_true_iff Hn]. cbn [escape_string flat_map].
  fold (escape_string name). rewrite IH by done. unfold escape_char.
  apply negb_true_iff in Hq as ->. by apply negb_true_iff in Hb as ->.
Qed.

Lemma component_measured c s :
  validComponentName (ComponentName c) = true -> isRFC8941Item (component_item c) = true ->
  marshal_item_value (component_item c) = Some s ->
  measured s (item_bound (ComponentName c) (ComponentParams c)).
Proof.
  intros Hn Hi. unfold marshal_item_value, item_entries, component_item.
  cbn [ItemParams Value param_entries fmap option_fmap option_map mbind option_bind].
  unfold marshal_item. rewrite bare_string.
  destruct (printable (ComponentName c)); [| done].
  destruct (marshal_params _ _) as [p |] eqn:Hp; [| done]. intros [= <-].
  unfold isRFC8941Item in Hi. apply andb_true_iff in Hi as [_ Hi].
  destruct (parameters_measured _ _ Hi Hp) as [Hm _].
  apply (measured_weaken _ (len (quote_string (ComponentName c)) +
    bounds (om_entries (addParameters om_New (ComponentParams c))))).
  { apply (steady_then (quote_string (ComponentName c)) p); [apply steady_quote | done]. }
  pose proof (bounds_addParameters (ComponentParams c)). unfold item_bound, quote_string.
  rewrite name_unescaped by done. rewrite len_cons, len_app. change (len [c_quote]) with 1. lia.
Qed.

(** Items separated by single spaces. *)
Lemma items_measured (components : list ComponentIdentifier) ss n :
  Forall2 (fun c s => measured s (item_bound (ComponentName c) (ComponentParams c))) components ss ->
  n = foldr (fun c n => item_bound (ComponentName c) (ComponentParams c) + 1 + n) (-1) components ->
  components <> [] -> measured (Join ss " ") n.
Proof.
  intros H. revert n. induction H as [| c s l ss Hs H IH]; intros n -> Hne; [done |]. cbn [foldr].
  destruct H as [| d t l ss Ht H].
  { cbn [Join foldr]. apply (measured_weaken _ _ _ Hs). lia. }
  change (Join (s :: t :: ss) " ") with (s ++ (str " " ++ Join (t :: ss) " ")).
  set (m := foldr _ _ (d :: l)).
  replace (_ + 1 + m) with (item_bound (ComponentName c) (ComponentParams c) + (len (str " ") + m))
    by (change (len (str " ")) with 1; lia).
  apply measured_app; [done | | by intros].
  apply steady_then; [by apply steady_plain | by apply IH].
Qed.

(** What the components and the parameters of an input may take. *)
Definition components_bound (components : list ComponentIdentifier) : Z :=
  match components with
  | [] => 0
  | _ => foldr (fun c n => item_bound (ComponentName c) (ComponentParams c) + 1 + n) (-1) components
  end.
Definition input_bound (input : SignatureInput) : Z :=
  2 + components_bound (Components input) + bounds (structured (InputParameters input)).

Lemma input_measured input s :
  Forall (fun c => validComponentName (ComponentName c) = true) (Components input) ->
  isRFC8941Member (MInnerList (input_inner_list input)) = true ->
  marshal_inner_list_value (input_inner_list input) = Some s ->
  measured s (input_bound input).
Proof.
  intros Hn Hm. unfold marshal_inner_list_value, input_inner_list in *. cbn [Items ListParams] in *.
  intros (es & Hes & H)%bind_Some. cbn [param_entries fmap option_fmap option_map mbind option_bind] in H.
  unfold marshal_inner_list in H. destruct (mapM _ es) as [ss |] eqn:Hss; [| done].
  destruct (marshal_params _ _) as [p |] eqn:Hp; [| done]. injection H as <-.
  cbn -[isRFC8941Parameters] in Hm.
  destruct (isRFC8941Parameters (Some _)) eqn:Hip; [| done]. cbn [negb] in Hm.
  destruct (parameters_measured _ _ Hip Hp) as [Hpm Hpf].
  assert (Forall2 (fun c s => measured s (item_bound (ComponentName c) (ComponentParams c)))
            (Components input) ss) as Hcs.
  { apply mapM_Some in Hes, Hss. apply Forall2_fmap_l in Hes.
    rewrite forallb_forall in Hm. clear Hp Hpm Hpf Hip. revert ss Hss Hm Hn.
    induction Hes as [| c [v e] l es He _ IH]; intros ss Hss Hm Hn; inversion Hss; subst; constructor.
    - apply component_measured.
      + by apply list.Forall_cons in Hn as [? _].
      + apply Hm. by left.
      + unfold marshal_item_value. by rewrite He.
    - apply IH; [done | | by apply list.Forall_cons in Hn as [_ ?]]. intros x Hx. apply Hm. by right. }
  apply (measured_weaken _ (len (str "(") + (components_bound (Components input) +
    (len (str ")") + bounds (om_entries (addParameters om_New (InputParameters input))))))).
  2: { pose proof (bounds_addParameters (InputParameters input)). unfold input_bound.
       change (len (str "(")) with 1. change (len (str ")")) with 1. lia. }
  change ("("%char :: Join ss " " ++ ")"%char :: p) with (str "(" ++ (Join ss " " ++ (str ")" ++ p))).
  apply steady_then; [by apply steady_plain |]. apply measured_app.
  - destruct (Components input) as [| c l] eqn:Hc.
    + inversion Hcs; subst. intros left right _. exists left. cbn. lia.
    + by apply (items_measured (c :: l)).
  - apply steady_then; [by apply steady_plain | done].
  - intros right _. reflexivity.
Qed.

(** ** The estimates *)

Lemma saturating_add left right :
  0 <= left -> 0 <= right -> saturatingSizeAdd left right = Z.min MaxInt (left + right).
Proof. intros ? ?. unfold saturatingSizeAdd, safeSizeAdd. repeat case_match; simplify_eq; lia. Qed.

Lemma saturating_nonneg left right : 0 <= left -> 0 <= right -> 0 <= saturatingSizeAdd left right.
Proof. intros. rewrite saturating_add by done. unfold MaxInt. lia. Qed.

Lemma escaped_extra_spec v size :
  0 <= size -> Z.min MaxInt (size + (len (escape_string v) - len v)) <= escaped_extra v size.
Proof.
  revert size. induction v as [| c v IH]; intros size H0.
  { cbn. change (len (@nil ascii)) with 0. lia. }
  assert (forall n : gostring, len v <= len (escape_string v)) as Hge.
  { intros _. clear. induction v as [| c v IH]; [done |]. cbn [escape_string flat_map].
    fold (escape_string v). unfold escape_char. case_match; len_lia. }
  specialize (Hge []). cbn [escaped_extra escape_string flat_map]. fold (escape_string v).
  unfold escape_char. rewrite len_app, len_cons.
  destruct (_ || _).
  - change (len [c_backslash; c]) with 2.
    specialize (IH (saturatingSizeAdd size 1) ltac:(by apply saturating_nonneg)).
    rewrite saturating_add in * by lia. lia.
  - change (len [c]) with 1. specialize (IH size H0). lia.
Qed.

Lemma escapedStringLength_bound v :
  Z.min MaxInt (len (escape_string v)) <= escapedStringLength v.
Proof.
  unfold escapedStringLength. pose proof (escaped_extra_spec v (len v) (len_nonneg v)). lia.
Qed.

Lemma StdEncode_len b : len (StdEncode b) = 4 * ((len b + 2) / 3).
Proof.
  induction b as [b IH] using (induction_ltof1 _ (@length ascii)). unfold ltof in IH.
  destruct b as [| a1 [| a2 [| a3 b]]]; [done | done | done |]. cbn [StdEncode].
  rewrite !len_cons, IH by (cbn; lia).
  replace (1 + (1 + (1 + len b)) + 2) with (len b + 2 + 1 * 3) by lia.
  rewrite Z.div_add by lia. lia.
Qed.

Lemma base64EncodedLength_bound b :
  Z.min MaxInt (len (StdEncode b)) <= base64EncodedLength (len b) <= MaxInt.
Proof.
  unfold base64EncodedLength. pose proof (len_nonneg b). rewrite saturating_add, StdEncode_len by lia.
  rewrite Z.quot_div_nonneg by (unfold MaxInt; lia).
  pose proof (Z.div_le_mono (Z.min MaxInt (len b + 2)) MaxInt 3 ltac:(lia) ltac:(lia)).
  assert (0 <= Z.min MaxInt (len b + 2) / 3) by (apply Z.div_pos; unfold MaxInt; lia).
  assert (MaxInt / 3 <= MaxInt) by (vm_compute; discriminate). assert (4 <= MaxInt) by done.
  rewrite saturatingSizeMultiply_min by lia.
  destruct (Z.le_gt_cases (len b + 2) MaxInt).
  - rewrite (Z.min_r MaxInt (len b + 2)) by done. lia.
  - rewrite (Z.min_l MaxInt (len b + 2)) by lia.
    assert (MaxInt <= MaxInt / 3 * 4) by (vm_compute; discriminate). lia.
Qed.

Lemma parameterUpperBound_sound p :
  validParameterForSerialization p = true ->
  Z.min MaxInt (param_bound (ParamName p, toStructuredValue (ParamValue p))) <= parameterUpperBound p.
Proof.
  unfold validParameterForSerialization. destruct p as [[| k n] v]; [done |]. cbn [ParamName ParamValue].
  intros [_ Hv]%andb_true_iff. unfold parameterUpperBound, param_bound. cbn [fst snd ParamName ParamValue].
  set (name := k :: n). pose proof (len_nonneg name).
  assert (0 <= MaxInt) as Hpos by done.
  pose proof (saturating_nonneg 1 (len name) ltac:(lia) ltac:(lia)).
  destruct v as [| b | t | z | f | b | t | t | t]; try done; cbn [toStructuredValue value_bound app].
  - destruct b; cbn [negb]; rewrite !saturating_add by (rewrite ?saturating_add; lia); lia.
  - pose proof (escapedStringLength_bound t). pose proof (len_nonneg (escape_string t)).
    rewrite !saturating_add by (rewrite ?saturating_add; lia). lia.
  - unfold decimalIntegerLength. pose proof (len_nonneg (FormatInt z)).
    rewrite !saturating_add by (rewrite ?saturating_add; lia). lia.
  - unfold marshalRFC8941. cbn [isRFC8941StructuredField].
    assert (isRFC8941Item (NewItem (AFloat64 f)) = true) as ->.
    { unfold isRFC8941Item, NewItem. cbn. pose proof params_laws. by rewrite om_names_new. }
    cbn [negb]. rewrite Marshal_item by by eexists.
    assert (marshal_item_value (NewItem (AFloat64 f)) = MarshalBareItem (AFloat64 f)) as ->.
    { unfold marshal_item_value, item_entries, NewItem. cbn. unfold om_entries. pose proof params_laws.
      rewrite om_names_new. cbn. unfold marshal_item. cbn. destruct (MarshalBareItem _); [| done].
      by rewrite app_nil_r. }
    destruct (MarshalBareItem (AFloat64 f)) as [s |].
    + pose proof (len_nonneg (restoreRFC8941IntegralDecimals s)).
      rewrite !saturating_add by (rewrite ?saturating_add; lia). lia.
    + rewrite !saturating_add by (rewrite ?saturating_add; lia). lia.
  - pose proof (base64EncodedLength_bound b). pose proof (len_nonneg (StdEncode b)).
    rewrite !saturating_add by (rewrite ?saturating_add; lia). lia.
  - pose proof (len_nonneg t). rewrite !saturating_add by (rewrite ?saturating_add; lia). lia.
Qed.

Lemma structuredItemUpperBound_sound name ps :
  validParametersForSerialization ps = true ->
  Z.min MaxInt (item_bound name ps) <= structuredItemUpperBound name ps.
Proof.
  unfold structuredItemUpperBound, item_bound. intros Hv.
  assert (forall size m, 0 <= size -> Z.min MaxInt m <= size ->
    Z.min MaxInt (m + bounds (structured ps)) <=
    fold_left (fun size p => saturatingSizeAdd size (parameterUpperBound p)) ps size) as Hgen.
  { induction ps as [| p ps IH]; intros size m H0 Hm; [cbn; lia |].
    cbn [validParametersForSerialization forallb] in Hv. apply andb_true_iff in Hv as [Hp Hv].
    pose proof (parameterUpperBound_sound p Hp) as Hb.
    pose proof (param_bound_nonneg (ParamName p, toStructuredValue (ParamValue p))).
    cbn [fold_left structured map bounds foldr]. fold (structured ps) (bounds (structured ps)).
    rewrite Z.add_assoc. apply IH; [done | |].
    - apply saturating_nonneg; unfold MaxInt in *; lia.
    - rewrite saturating_add by (unfold MaxInt in *; lia). lia. }
  apply Hgen; [apply saturating_nonneg; len_lia |]. rewrite saturating_add by len_lia. lia.
Qed.

Lemma consumeSize_Some remaining size r :
  consumeSize remaining size = Some r -> 0 <= size <= remaining /\ r = remaining - size.
Proof. unfold consumeSize. case_match; [done |]. intros [= <-]. lia. Qed.

Lemma consume_components_sound index components remaining r :
  remaining < MaxInt -> Forall (fun c => serializable_component c = true) components ->
  consume_components index components remaining = Some r ->
  foldr (fun c n => item_bound (ComponentName c) (ComponentParams c) + 1 + n)
    (match index with O => match components with [] => 0 | _ => -1 end | S _ => 0 end) components
    <= remaining - r /\ r <= remaining /\ (0 <= remaining -> 0 <= r).
Proof.
  revert index remaining. induction components as [| c l IH]; intros index remaining Hmax Hs;
    cbn [consume_components foldr].
  { intros [= ->]. destruct index; lia. }
  apply list.Forall_cons in Hs as [[_ Hp]%andb_true_iff Hs].
  pose proof (structuredItemUpperBound_sound (ComponentName c) (ComponentParams c) Hp) as Hb.
  assert (0 <= structuredItemUpperBound (ComponentName c) (ComponentParams c)) as Hub.
  { pose proof (bounds_nonneg (structured (ComponentParams c))).
    unfold item_bound in Hb. pose proof (len_nonneg (ComponentName c)). unfold MaxInt in *; lia. }
  intros (m & [Hm ->]%consumeSize_Some & Hr)%bind_Some.
  apply IH in Hr; [| lia | done]. destruct Hr as (Hr & Hle & Hnn).
  assert (forall n, foldr (fun c n => item_bound (ComponentName c) (ComponentParams c) + 1 + n) n l =
    n + foldr (fun c n => item_bound (ComponentName c) (ComponentParams c) + 1 + n) 0 l) as Hsh.
  { intros n. clear. induction l as [| d l IH]; cbn [foldr]; lia. }
  rewrite Hsh. destruct index as [| index]; cbv zeta in Hm, Hr, Hle, Hnn |- *.
  - lia.
  - rewrite saturating_add in * by lia. lia.
Qed.

Lemma consume_parameters_sound ps remaining r :
  remaining < MaxInt -> validParametersForSerialization ps = true ->
  consume_parameters ps remaining = Some r ->
  bounds (structured ps) <= remaining - r /\ (0 <= remaining -> 0 <= r).
Proof.
  revert remaining. induction ps as [| p ps IH]; intros remaining Hmax Hv; cbn [consume_parameters].
  { intros [= ->]. cbn. lia. }
  cbn [validParametersForSerialization forallb] in Hv. apply andb_true_iff in Hv as [Hp Hv].
  pose proof (parameterUpperBound_sound p Hp) as Hb.
  intros (m & [Hm ->]%consumeSize_Some & Hr)%bind_Some. apply IH in Hr as [Hr Hnn]; [| lia | done].
  cbn [structured map bounds foldr]. fold (structured ps) (bounds (structured ps)). lia.
Qed.

(** The estimate of the parameter line bounds what is written. *)
Lemma signatureParametersFit_sound input budget s :
  budget < MaxInt -> signatureParametersFit input budget = true ->
  serializeSignatureParameters input = Ok s -> len s <= budget.
Proof.
  unfold serializeSignatureParameters, signatureParametersFit. intros Hmax Hf.
  destruct (validParametersForSerialization (InputParameters input)) eqn:Hps; cbn [negb]; [| done].
  destruct (forallb serializable_component (Components input)) eqn:Hcs; cbn [negb]; [| done].
  destruct (_ ≫= _) as [r |] eqn:Hr; [| done]. clear Hf.
  assert (Forall (fun c => serializable_component c = true) (Components input)) as Hser.
  { apply list.Forall_forall. intros c Hc%list_elem_of_In. rewrite forallb_forall in Hcs. auto. }
  apply bind_Some in Hr as (m1 & [Hm1 ->]%consumeSize_Some & Hr).
  apply bind_Some in Hr as (m2 & Hm2 & Hr).
  apply consume_components_sound in Hm2 as (Hm2 & Hle & Hnn); [| lia | done].
  apply consume_parameters_sound in Hr as [Hr Hnn']; [| lia | done].
  unfold marshalRFC8941. destruct (isRFC8941StructuredField _) eqn:Hg; cbn [negb]; [| done].
  destruct (Marshal _) as [t |] eqn:Ht; [| done]. intros [= <-].
  apply (Z.le_trans _ (input_bound input)).
  - apply measured_len. apply input_measured; [| done |].
    + apply (List.Forall_impl _ (P := fun c => serializable_component c = true)); [| done].
      by intros c [? _]%andb_true_iff.
    + rewrite Marshal_inner_list in Ht; [done | by eexists |].
      apply Forall_fmap, list.Forall_forall. intros c _. by eexists.
  - unfold input_bound, components_bound.
    destruct (Components input) as [| c l]; cbn iota in Hm2 |- *; cbn [foldr] in *; lia.
Qed.
End Bounds.
