(* ===== verification/FieldText.v ===== *)
(** * The text of a serialized dictionary under the package's scanners

    Three scanners of the package read or rewrite raw field text beside the
    dependency's parser: the splitter of dictionary members, the repair of
    byte sequences and the repair of decimals.  On the text that RFC 8941
    prescribes for a dictionary without decimals the first finds exactly the
    members and their keys, and the other two change nothing. *)

From S2P Require Import Prelude GoStrings Codecs Errors Httpsfv StructuredFieldSafe SignatureFields.
From S2P Require Import SerializationFacts SignatureFacts SizeFacts.
Open Scope Z_scope.

(** ** The data of a dictionary *)

Abbreviation entries := (list (gostring * any)).

(** A member with its parameters as entries. *)
Inductive member_data :=
| DItem (v : any) (ps : entries)
| DList (items : list (any * entries)) (ps : entries).

Definition member_entries `{Httpsfv} (m : Member Params) : option member_data :=
  match m with
  | MItem i => '(v, ps) ← item_entries i; Some (DItem v ps)
  | MInnerList l =>
      items ← mapM item_entries (Items l); ps ← param_entries (ListParams l); Some (DList items ps)
  end.

Definition dictionary_entries `{Httpsfv} (d : Dictionary) : option (list (gostring * member_data)) :=
  mapM (fun '(k, m) => pair k <$> member_entries m) (om_entries d).

(** The text of a member, and of a dictionary, from the data. *)
Definition print_member (bare : any -> option gostring) (entry : gostring * member_data)
  : option gostring :=
  let '(k, data) := entry in
  if valid_key k then
    match data with
    | DItem (ABool true) ps => app k <$> marshal_params bare ps
    | DItem v ps => (fun s => k ++ "="%char :: s) <$> marshal_item bare v ps
    | DList items ps => (fun s => k ++ "="%char :: s) <$> marshal_inner_list bare items ps
    end
  else None.

Definition print_dictionary (bare : any -> option gostring) (l : list (gostring * member_data))
  : option gostring :=
  (fun ss => Join ss ", ") <$> mapM (print_member bare) l.

(** Values without decimals; the items of an inner list are strings. *)
Definition plain_value (v : any) : bool :=
  match v with
  | ABool _ | AString _ | AInt64 _ | ABytes _ | AToken _ => true
  | _ => false
  end.
Definition plain_entries (ps : entries) : bool := forallb (fun '(_, v) => plain_value v) ps.
Definition plain_data (data : member_data) : bool :=
  match data with
  | DItem v ps => plain_value v && plain_entries ps
  | DList items ps => forallb (fun '(v, l) => is_string v && plain_entries l) items && plain_entries ps
  end.

Section Print.
Context `{SFV : Httpsfv}.

Lemma marshal_member_print k m data :
  member_entries m = Some data ->
  marshal_dictionary_member (k, m) = print_member MarshalBareItem (k, data).
Proof.
  destruct m as [[v p] | [items p]]; cbn [member_entries marshal_dictionary_member print_member].
  - unfold marshal_member_value, marshal_item_value, item_entries. cbn [ItemParams Value].
    destruct (param_entries p) as [ps |]; cbn; [| done]. intros [= <-].
    by destruct v as [| [] | | | | | | |].
  - unfold marshal_member_value, marshal_inner_list_value. cbn [ListParams Items].
    destruct (mapM item_entries items) as [l |]; cbn; [| done].
    destruct (param_entries p) as [ps |]; cbn; [| done]. by intros [= <-].
Qed.

Lemma marshal_dictionary_print d l :
  dictionary_entries d = Some l ->
  marshal_dictionary_value d = print_dictionary MarshalBareItem l.
Proof.
  unfold dictionary_entries, marshal_dictionary_value, print_dictionary. intros Hl. f_equal.
  revert l Hl. induction (om_entries d) as [| [k m] es IH]; intros l; cbn [mapM].
  { by intros [= <-]. }
  destruct (member_entries m) as [data |] eqn:Hm; [| done].
  destruct (mapM (fun '(k, m) => _) es) as [l' |]; [| done].
  cbn [fmap option_fmap option_map mbind option_bind]. intros [= <-]. cbn [mapM].
  by rewrite (marshal_member_print k m data), (IH l').
Qed.
End Print.

(** ** Splitting into members *)

(** The splitter passes over [t] at a nesting of parentheses. *)
Definition passes (parentheses : Z) (t : gostring) : Prop := forall current rest,
  split_members parentheses false false current (t ++ rest) =
  split_members parentheses false false (rev t ++ current) rest.

Lemma passes_nil p : passes p [].
Proof. done. Qed.

Lemma passes_app p a b : passes p a -> passes p b -> passes p (a ++ b).
Proof.
  intros Ha Hb current rest. rewrite <- app_assoc, Ha, Hb. by rewrite rev_app_distr, <- app_assoc.
Qed.

Definition unstructured (c : ascii) : bool :=
  negb (char_eqb c c_quote || char_eqb c "(" || char_eqb c ")" || char_eqb c ",").

Lemma passes_cons p c t : unstructured c = true -> passes p t -> passes p (c :: t).
Proof.
  unfold unstructured. intros Hc Ht current rest. apply negb_true_iff in Hc.
  apply orb_false_iff in Hc as [[[H1 H2]%orb_false_iff H3]%orb_false_iff H4].
  cbn [app split_members]. rewrite H1, H2, H3, H4. cbn [andb]. rewrite Ht. cbn [rev].
  by rewrite <- app_assoc.
Qed.

Lemma passes_plain p t : forallb unstructured t = true -> passes p t.
Proof.
  induction t as [| c t IH]; [done |]. cbn [forallb]. intros [Hc Ht]%andb_true_iff.
  apply passes_cons; auto.
Qed.

Lemma split_escape p s current rest :
  split_members p true false current (escape_string s ++ c_quote :: rest) =
  split_members p false false (c_quote :: rev (escape_string s) ++ current) rest.
Proof.
  revert current. induction s as [| c s IH]; intros current; [done |].
  cbn [escape_string flat_map]. fold (escape_string s). unfold escape_char.
  destruct (char_eqb c c_quote || char_eqb c c_backslash) eqn:Hc; cbn [app split_members rev].
  - change (char_eqb c_backslash c_backslash) with true. cbn [andb].
    rewrite IH. by rewrite <- !app_assoc.
  - apply orb_false_iff in Hc as [-> ->]. cbn [andb]. rewrite IH. by rewrite <- !app_assoc.
Qed.

Lemma passes_quote p s : passes p (quote_string s).
Proof.
  intros current rest. unfold quote_string. cbn [app split_members rev andb].
  change (char_eqb c_quote c_quote) with true. cbn [negb]. rewrite <- app_assoc. cbn [app].
  rewrite split_escape, rev_app_distr. cbn. by rewrite <- !app_assoc.
Qed.

Lemma passes_inner p t : 0 <= p -> passes (p + 1) t -> passes p ("("%char :: t ++ [")"%char]).
Proof.
  intros Hp Ht current rest. cbn [app split_members andb].
  change (char_eqb "(" c_quote) with false. change (char_eqb "(" "(") with true. cbn iota.
  rewrite <- app_assoc, Ht. cbn [app split_members andb].
  change (char_eqb ")" c_quote) with false. change (char_eqb ")" "(") with false.
  change (char_eqb ")" ")") with true. cbn iota. replace (p + 1 - 1) with p by lia.
  rewrite (proj2 (Z.ltb_ge _ _) Hp). cbn [rev]. rewrite rev_app_distr. cbn. by rewrite <- !app_assoc.
Qed.

(** ** The repair of byte sequences *)

(** The byte before the rest of a text. *)
Definition after (prev : option ascii) (t : gostring) : option ascii :=
  fold_left (fun _ c => Some c) t prev.

(** The repair copies [t] unchanged, whatever surrounds it. *)
Definition untouched (t : gostring) : Prop := forall prev rest,
  binary_scan 0 false false prev (t ++ rest) = t ++ binary_scan 0 false false (after prev t) rest.

Lemma untouched_nil : untouched [].
Proof. done. Qed.

Lemma untouched_app a b : untouched a -> untouched b -> untouched (a ++ b).
Proof.
  intros Ha Hb prev rest. rewrite <- !app_assoc, Ha, Hb. unfold after. by rewrite fold_left_app.
Qed.

Lemma untouched_cons c t :
  char_eqb c c_quote || char_eqb c ":" = false -> untouched t -> untouched (c :: t).
Proof.
  intros [Hq Hc]%orb_false_iff Ht prev rest. cbn [app binary_scan]. rewrite Hq, Hc. cbn [andb].
  by rewrite Ht.
Qed.

Lemma untouched_plain t :
  forallb (fun c => negb (char_eqb c c_quote || char_eqb c ":")) t = true -> untouched t.
Proof.
  induction t as [| c t IH]; [done |]. cbn [forallb]. intros [Hc Ht]%andb_true_iff.
  apply untouched_cons; [by apply negb_true_iff | auto].
Qed.

Lemma binary_escape s prev rest :
  binary_scan 0 true false prev (escape_string s ++ c_quote :: rest) =
  escape_string s ++ c_quote :: binary_scan 0 false false (Some c_quote) rest.
Proof.
  revert prev. induction s as [| c s IH]; intros prev; [done |].
  cbn [escape_string flat_map]. fold (escape_string s). unfold escape_char.
  destruct (char_eqb c c_quote || char_eqb c c_backslash) eqn:Hc; cbn [app binary_scan].
  - change (char_eqb c_backslash c_backslash) with true. cbn iota. by rewrite IH.
  - apply orb_false_iff in Hc as [-> ->]. by rewrite IH.
Qed.

Lemma after_snoc prev t c : after prev (t ++ [c]) = Some c.
Proof. unfold after. by rewrite fold_left_app. Qed.

Lemma untouched_quote s : untouched (quote_string s).
Proof.
  intros prev rest. unfold quote_string. rewrite app_comm_cons, after_snoc. cbn [app binary_scan].
  change (char_eqb c_quote c_quote) with true. cbn iota.
  rewrite <- !app_assoc. cbn [app]. by rewrite binary_escape.
Qed.

Lemma name_boundary d : name_char d || name_start d = true -> isRFC8941BareItemBoundary (Some d) = false.
Proof. by all_ascii d. Qed.

Lemma untouched_name c s : name_start c = true -> forallb name_char s = true -> untouched (c :: s).
Proof.
  intros Hc Hs prev rest. cbn [app binary_scan].
  assert (char_eqb c c_quote = false) as -> by (by all_ascii c).
  assert (char_eqb c ":" = false) as -> by (by all_ascii c). cbn [andb]. f_equal.
  change (after prev (c :: s)) with (after (Some c) s).
  assert (name_char c || name_start c = true) as Hn by (rewrite Hc; apply orb_true_r).
  clear Hc prev. revert c Hn. induction s as [| d s IH]; intros c Hn; [done |].
  cbn [forallb] in Hs. apply andb_true_iff in Hs as [Hd Hs]. cbn [app binary_scan].
  assert (char_eqb d c_quote = false) as -> by (by all_ascii d).
  rewrite name_boundary, andb_false_r by done. f_equal. apply IH; [done | by rewrite Hd].
Qed.

Lemma binary_skip t quoted escaped prev rest :
  binary_scan (length t) quoted escaped prev (t ++ rest) =
  binary_scan 0 quoted escaped (after prev t) rest.
Proof. revert prev. induction t as [| c t IH]; intros prev; [done |]. cbn. apply IH. Qed.

Lemma IndexByte_app s c rest :
  forallb (fun d => negb (char_eqb d c)) s = true -> IndexByte (s ++ c :: rest) c = Some (length s).
Proof.
  induction s as [| d s IH]; cbn [forallb app IndexByte length].
  - intros _. unfold char_eqb. by rewrite Ascii.eqb_refl.
  - intros [Hd Hs]%andb_true_iff. apply negb_true_iff in Hd. rewrite Hd, IH by done. done.
Qed.

(** The encoder's output is canonical. *)
Lemma canonical_StdEncode b : canonical_base64 (StdEncode b) = StdEncode b.
Proof.
  unfold canonical_base64. destruct (StdEncode_decode b) as (body & -> & -> & _).
  by repeat case_match.
Qed.

Lemma StdEncode_no_colon b : forallb (fun d => negb (char_eqb d ":")) (StdEncode b) = true.
Proof.
  destruct (StdEncode_split b) as (body & pad & -> & Ha & Hp & _). rewrite forallb_app.
  apply andb_true_iff. split; (eapply forallb_weaken; [| eassumption]); intros c; by all_ascii c.
Qed.

Definition byte_sequence (b : gostring) : gostring := ":"%char :: StdEncode b ++ [":"%char].

Lemma untouched_bytes b : untouched ("="%char :: byte_sequence b).
Proof.
  intros prev rest. unfold byte_sequence. rewrite !app_comm_cons, after_snoc.
  cbn [app binary_scan]. change (char_eqb "=" c_quote) with false.
  change (char_eqb "=" ":") with false. change (char_eqb ":" c_quote) with false.
  change (char_eqb ":" ":" && isRFC8941BareItemBoundary (Some "="%char)) with true. cbn [andb].
  rewrite <- app_assoc. cbn [app]. rewrite IndexByte_app by apply StdEncode_no_colon.
  rewrite take_app_length, canonical_StdEncode.
  assert (binary_scan (S (length (StdEncode b))) false false (Some ":"%char)
            (StdEncode b ++ ":"%char :: rest) = binary_scan 0 false false (Some ":"%char) rest) as ->.
  { replace (S (length (StdEncode b))) with (length (StdEncode b ++ [":"%char])).
    - change (StdEncode b ++ ":"%char :: rest) with (StdEncode b ++ [":"%char] ++ rest).
      by rewrite app_assoc, binary_skip, after_snoc.
    - rewrite length_app. cbn. lia. }
  by rewrite <- app_assoc.
Qed.

(** ** Text that all three scanners pass over *)

Record clean (parentheses : Z) (t : gostring) : Prop := {
  clean_passes : passes parentheses t;
  clean_untouched : untouched t;
  clean_steady : steady t
}.

Lemma clean_nil p : clean p [].
Proof. split; [apply passes_nil | apply untouched_nil | apply steady_nil]. Qed.

Lemma clean_app p a b : clean p a -> clean p b -> clean p (a ++ b).
Proof.
  intros [] []. split; [by apply passes_app | by apply untouched_app | by apply steady_app].
Qed.

Definition plain_char (c : ascii) : bool :=
  unstructured c && negb (char_eqb c ":") && negb (char_eqb c ".").

Lemma clean_plain p t : forallb plain_char t = true -> clean p t.
Proof.
  intros Ht. split.
  - apply passes_plain. revert Ht. apply forallb_weaken. intros c. by all_ascii c.
  - apply untouched_plain. revert Ht. apply forallb_weaken. intros c. by all_ascii c.
  - apply steady_plain. revert Ht. apply forallb_weaken. intros c. by all_ascii c.
Qed.

Lemma clean_cons p c t : plain_char c = true -> clean p t -> clean p (c :: t).
Proof. intros Hc Ht. apply (clean_app p [c]); [by apply clean_plain; cbn; rewrite Hc | done]. Qed.

Lemma clean_quote p s : clean p (quote_string s).
Proof. split; [apply passes_quote | apply untouched_quote | apply steady_quote]. Qed.

Lemma clean_name p c s : name_start c = true -> forallb name_char s = true -> clean p (c :: s).
Proof.
  intros Hc Hs. split; [| by apply untouched_name | by apply steady_name].
  apply passes_plain. cbn [forallb]. apply andb_true_iff. split; [by all_ascii c |].
  revert Hs. apply forallb_weaken. intros d. by all_ascii d.
Qed.

Lemma clean_key p k : valid_key k = true -> clean p k.
Proof.
  destruct k as [| c k]; [done |]. cbn [valid_key]. intros [Hc Hk]%andb_true_iff.
  apply clean_name; [by all_ascii c |]. revert Hk. apply forallb_weaken. intros d. by all_ascii d.
Qed.

Lemma clean_token p t : valid_token t = true -> clean p t.
Proof.
  destruct t as [| c t]; [done |]. cbn [valid_token]. intros [Hc Ht]%andb_true_iff. by apply clean_name.
Qed.

Lemma FormatInt_decimal z : forallb (fun c => is_digit c || char_eqb c "-") (FormatInt z) = true.
Proof.
  assert (forall n, forallb (fun c => is_digit c || char_eqb c "-") (FormatUint n) = true) as Hn.
  { intros n. eapply forallb_weaken; [| by apply (dec_digits_digits (S (N.size_nat n)) n [])].
    by intros c ->. }
  destruct z; [apply Hn | apply Hn |]. cbn [FormatInt forallb]. by rewrite Hn.
Qed.

Lemma clean_integer p z : clean p (FormatInt z).
Proof.
  apply clean_plain. eapply forallb_weaken; [| apply FormatInt_decimal]. intros c. by all_ascii c.
Qed.

Lemma clean_bytes p b : clean p ("="%char :: byte_sequence b).
Proof.
  assert (forallb unstructured (StdEncode b) = true) as Hb.
  { destruct (StdEncode_split b) as (body & pad & -> & Ha & Hp & _). rewrite forallb_app.
    apply andb_true_iff. split; (eapply forallb_weaken; [| eassumption]); intros c; by all_ascii c. }
  split; [| apply untouched_bytes |].
  - apply passes_plain. unfold byte_sequence. cbn [forallb]. rewrite forallb_app, Hb. done.
  - apply steady_cons; [done | done | apply steady_bytes].
Qed.

Lemma clean_inner p t : 0 <= p -> clean (p + 1) t -> clean p ("("%char :: t ++ [")"%char]).
Proof.
  intros Hp [H1 H2 H3]. split; [by apply passes_inner | |].
  - apply untouched_cons; [done |]. apply untouched_app; [done |]. by apply untouched_plain.
  - apply steady_cons; [done | done |]. apply steady_app; [done |]. by apply steady_plain.
Qed.

(** ** Ends of a text *)

Definition graphic (c : ascii) : bool := char_in "!" "~" c.

(** The text ends in a visible character. *)
Definition solid (t : gostring) : Prop := exists t' c, t = t' ++ [c] /\ graphic c = true.

Lemma solid_app a b : solid b -> solid (a ++ b).
Proof. intros (t & c & -> & Hc). exists (a ++ t), c. by rewrite app_assoc. Qed.

Lemma solid_cons c b : solid b -> solid (c :: b).
Proof. apply (solid_app [c]). Qed.

Lemma solid_all t : forallb graphic t = true -> t <> [] -> solid t.
Proof.
  destruct t as [| c t _] using rev_ind; [done |]. rewrite forallb_app. cbn [forallb].
  intros [_ [Hc _]%andb_true_iff]%andb_true_iff _. by exists t, c.
Qed.

Lemma solid_snoc t c : graphic c = true -> solid (t ++ [c]).
Proof. by exists t, c. Qed.

Lemma cut_any_graphic c t :
  graphic c = true ->
  cut_any (c :: t) (white_space ++ white_space_multi) = None /\
  cut_any (c :: t) (reverse <$> (white_space ++ white_space_multi)) = None.
Proof. all_ascii c; intros Hc; try discriminate Hc; split; vm_compute; reflexivity. Qed.

Lemma trim_prefixes_none fuel ps t : cut_any t ps = None -> trim_prefixes fuel ps t = t.
Proof. destruct fuel; cbn [trim_prefixes]; [done |]. by intros ->. Qed.

(** A text that starts and ends visibly is trimmed, after a space too. *)
Lemma TrimSpace_solid c t :
  graphic c = true -> solid (c :: t) ->
  TrimSpace (c :: t) = c :: t /\ TrimSpace (c_space :: c :: t) = c :: t.
Proof.
  intros Hc (t' & d & Ht & Hd). unfold TrimSpace. cbv zeta.
  set (ps := white_space ++ white_space_multi).
  assert (reverse (trim_prefixes (length (c :: t)) (reverse <$> ps) (reverse (c :: t))) = c :: t) as Hback.
  { rewrite Ht, reverse_snoc, trim_prefixes_none by apply (proj2 (cut_any_graphic d _ Hd)).
    cbn [reverse]. by rewrite <- reverse_snoc, reverse_involutive. }
  assert (forall fuel, trim_prefixes fuel ps (c :: t) = c :: t) as Hfront.
  { intros fuel. apply trim_prefixes_none, (proj1 (cut_any_graphic c t Hc)). }
  split; [by rewrite Hfront |].
  change (length (c_space :: c :: t)) with (S (length (c :: t))). cbn [trim_prefixes].
  change (cut_any (c_space :: c :: t) ps) with (Some (c :: t)). cbn iota. by rewrite Hfront.
Qed.

(** ** Members *)

Section Members.
Context `{SFV : Httpsfv} `{HL : !HttpsfvLaws}.

Lemma clean_value p v s :
  plain_value v = true -> MarshalBareItem v = Some s ->
  clean p ("="%char :: s) /\ printable s = true /\ solid s.
Proof.
  intros Hv Hs. assert (printable s = true) as Hp.
  { apply (bare_printable v); [| done]. by destruct v. }
  revert Hs. destruct v as [| b | t | z | | b | | t |]; try done.
  - rewrite bare_bool. intros [= <-]. split; [| split; [done |]].
    + by apply clean_plain; destruct b.
    + by destruct b; apply solid_all.
  - rewrite bare_string. destruct (forallb is_printable t); [| done]. intros [= <-].
    split; [apply clean_cons, clean_quote; done | split; [done |]].
    apply solid_cons. by apply solid_snoc.
  - rewrite bare_integer. case_match; [| done]. intros [= <-].
    split; [apply clean_cons, clean_integer; done | split; [done |]].
    apply solid_all; [eapply forallb_weaken; [| apply FormatInt_decimal]; intros c; by all_ascii c |].
    destruct z; [done | apply FormatUint_nonempty | done].
  - rewrite bare_bytes. intros [= <-]. split; [apply clean_bytes | split; [done |]].
    apply solid_cons. by apply solid_snoc.
  - rewrite bare_token. destruct (valid_token t) eqn:Ht; [| done]. intros [= <-].
    split; [apply clean_cons; [done | by apply clean_token] | split; [done |]].
    destruct t as [| c t]; [done |]. cbn [valid_token] in Ht. apply andb_true_iff in Ht as [Hc Ht].
    apply solid_all; [| done]. cbn [forallb]. apply andb_true_iff. split; [by all_ascii c |].
    revert Ht. apply forallb_weaken. intros d. by all_ascii d.
Qed.

Lemma solid_key k : valid_key k = true -> solid k.
Proof.
  destruct k as [| c k]; [done |]. cbn [valid_key]. intros [Hc Hk]%andb_true_iff.
  apply solid_all; [| done]. cbn [forallb]. apply andb_true_iff. split; [by all_ascii c |].
  revert Hk. apply forallb_weaken. intros d. by all_ascii d.
Qed.

(** A piece of text that may follow a key. *)
Definition suffix_of_key (t : gostring) : Prop :=
  match t with [] => True | c :: _ => char_mem c ";=" = true end.

(** What is known of a piece that ends a member. *)
Record piece (p : Z) (t : gostring) : Prop := {
  piece_clean : clean p t;
  piece_printable : printable t = true;
  piece_solid : t = [] \/ solid t
}.

Lemma piece_app p a b : piece p a -> piece p b -> piece p (a ++ b).
Proof.
  intros [Ha Pa Sa] [Hb Pb Sb]. split; [by apply clean_app | by rewrite forallb_app, Pa, Pb |].
  destruct Sb as [-> | Sb]; [by rewrite app_nil_r | right; by apply solid_app].
Qed.

Lemma piece_param p k v s :
  plain_value v = true -> marshal_param MarshalBareItem (k, v) = Some s ->
  piece p s /\ exists t, s = ";"%char :: t.
Proof.
  intros Hv. cbn [marshal_param]. destruct (valid_key k) eqn:Hk; [| done]. intros Hs.
  assert (s = ";"%char :: k \/ exists s', s = ";"%char :: k ++ "="%char :: s' /\ MarshalBareItem v = Some s')
    as [-> | (s' & -> & Hs')].
  { destruct v as [| [] | | | | | | |]; try discriminate Hv;
      try (apply fmap_Some in Hs as (s' & Hs' & ->); right; eauto). injection Hs as <-. by left. }
  - split; [| eauto]. split; [apply clean_cons; [done | by apply clean_key] | |].
    + cbn [forallb]. by rewrite key_printable.
    + right. apply solid_cons. by apply solid_key.
  - destruct (clean_value p v s' Hv Hs') as (Hc & Hp & Hsol). split; [| eauto]. split.
    + apply clean_cons; [done |]. apply clean_app; [by apply clean_key | done].
    + cbn [forallb]. rewrite forallb_app, key_printable by done. cbn [forallb]. by rewrite Hp.
    + right. apply solid_cons, solid_app, solid_cons, Hsol.
Qed.

Lemma piece_params p ps s :
  plain_entries ps = true -> marshal_params MarshalBareItem ps = Some s ->
  piece p s /\ suffix_of_key s.
Proof.
  unfold marshal_params. intros Hps (ss & Hss & ->)%fmap_Some. revert ss Hss.
  induction ps as [| [k v] ps IH]; intros ss.
  { intros [= <-]. split; [| done]. split; [apply clean_nil | done | by left]. }
  cbn [plain_entries forallb] in Hps. apply andb_true_iff in Hps as [Hv Hps].
  cbn [mapM]. intros (s & Hs & (ss' & Hss & [= <-])%bind_Some)%bind_Some.
  destruct (piece_param p k v s Hv Hs) as [Hp (t & ->)].
  destruct (IH Hps _ Hss) as [Hq _].
  change (mjoin ((";"%char :: t) :: ss')) with ((";"%char :: t) ++ mjoin ss').
  split; [by apply piece_app | done].
Qed.

Lemma piece_string_item p v ps s :
  is_string v = true -> plain_entries ps = true -> marshal_item MarshalBareItem v ps = Some s ->
  clean p s /\ printable s = true.
Proof.
  destruct v as [| | t | | | | | |]; try done. intros _ Hps. unfold marshal_item. rewrite bare_string.
  destruct (forallb is_printable t) eqn:Ht; [| done].
  destruct (marshal_params MarshalBareItem ps) as [q |] eqn:Hq; [| done]. intros Hs.
  assert (s = quote_string t ++ q) as -> by congruence.
  destruct (piece_params p ps q Hps Hq) as [[Hc Hp _] _].
  split; [apply clean_app; [apply clean_quote | done] |].
  by rewrite forallb_app, quote_printable.
Qed.

Lemma pieces_items p items ss :
  forallb (fun '(v, l) => is_string v && plain_entries l) items = true ->
  mapM (fun '(v, l) => marshal_item MarshalBareItem v l) items = Some ss ->
  clean p (Join ss " ") /\ printable (Join ss " ") = true.
Proof.
  revert ss. induction items as [| [v l] items IH]; intros ss Hi.
  { intros [= <-]. split; [apply clean_nil | done]. }
  cbn [forallb] in Hi. apply andb_true_iff in Hi as [[Hv Hl]%andb_true_iff Hi].
  cbn [mapM]. intros (s & Hs & (ss' & Hss & [= <-])%bind_Some)%bind_Some.
  destruct (piece_string_item p v l s Hv Hl Hs) as [Hc Hp].
  destruct (IH _ Hi Hss) as [Hc' Hp']. destruct ss' as [| s2 ss']; [done |].
  change (Join (s :: s2 :: ss') " ") with (s ++ str " " ++ Join (s2 :: ss') " ").
  split; [| by rewrite !forallb_app, Hp, Hp'].
  apply clean_app; [done |]. apply clean_app; [by apply clean_plain | done].
Qed.

(** The text of a member: its key, and a rest that no scanner stops in. *)
Lemma print_member_text k data s :
  plain_data data = true -> print_member MarshalBareItem (k, data) = Some s ->
  exists t, s = k ++ t /\ valid_key k = true /\ suffix_of_key t /\ piece 0 t.
Proof.
  cbn [print_member]. destruct (valid_key k) eqn:Hk; [| done]. intros Hd Hs.
  assert (forall v ps, plain_value v = true -> plain_entries ps = true ->
    (fun s => k ++ "="%char :: s) <$> marshal_item MarshalBareItem v ps = Some s ->
    exists t, s = k ++ t /\ true = true /\ suffix_of_key t /\ piece 0 t) as Hitem.
  { intros v ps Hv Hps (q & Hq & ->)%fmap_Some. unfold marshal_item in Hq.
    destruct (MarshalBareItem v) as [b |] eqn:Hb; [| done].
    destruct (marshal_params MarshalBareItem ps) as [r |] eqn:Hr; [| done]. injection Hq as <-.
    destruct (clean_value 0 v b Hv Hb) as (Hc & Hp & Hsol). destruct (piece_params 0 ps r Hps Hr) as [Hpr _].
    eexists. do 3 (split; [done |]). change ("="%char :: b ++ r) with (("="%char :: b) ++ r).
    apply piece_app; [| done]. split; [done | by cbn [forallb]; rewrite Hp | right; by apply solid_cons]. }
  destruct data as [v ps | items ps]; cbn [plain_data] in Hd; apply andb_true_iff in Hd as [Hv Hps].
  - destruct v as [| [] | | | | | | |]; try (by eapply Hitem).
    apply fmap_Some in Hs as (r & Hr & ->). destruct (piece_params 0 ps r Hps Hr) as [Hp Hsuf]. by exists r.
  - apply fmap_Some in Hs as (r & Hr & ->). unfold marshal_inner_list in Hr.
    destruct (mapM _ items) as [ss |] eqn:Hss; [| done].
    destruct (marshal_params MarshalBareItem ps) as [q |] eqn:Hq; [| done]. injection Hr as <-.
    destruct (pieces_items (0 + 1) items ss Hv Hss) as [Hc Hp].
    destruct (piece_params 0 ps q Hps Hq) as [Hpq _]. eexists. do 3 (split; [done |]).
    change ("="%char :: "("%char :: Join ss " " ++ ")"%char :: q)
      with (("="%char :: "("%char :: Join ss " ") ++ [")"%char] ++ q).
    rewrite app_assoc. apply piece_app; [| done]. split.
    + apply (clean_cons 0 "="%char); [done |]. by apply clean_inner.
    + cbn [forallb app]. by rewrite forallb_app, Hp.
    + right. by apply solid_snoc.
Qed.

(** The texts of all members, with their keys. *)
Definition member_text (k s : gostring) : Prop :=
  exists t, s = k ++ t /\ valid_key k = true /\ suffix_of_key t /\ piece 0 t.

Lemma print_members_text l ss :
  forallb (fun '(_, data) => plain_data data) l = true ->
  mapM (print_member MarshalBareItem) l = Some ss -> Forall2 member_text (map fst l) ss.
Proof.
  revert ss. induction l as [| [k data] l IH]; intros ss Hl; [intros [= <-]; constructor |].
  cbn [forallb] in Hl. apply andb_true_iff in Hl as [Hd Hl]. cbn [mapM].
  intros (s & Hs & (ss' & Hss & [= <-])%bind_Some)%bind_Some. cbn [map fst].
  constructor; [by eapply print_member_text | by apply IH].
Qed.

Lemma member_clean k s : member_text k s -> clean 0 s /\ printable s = true.
Proof.
  intros (t & -> & Hk & _ & [Hc Hp _]). split; [apply clean_app; [by apply clean_key | done] |].
  by rewrite forallb_app, key_printable.
Qed.

Lemma member_solid k s : member_text k s -> solid s /\ exists c t, s = c :: t /\ graphic c = true.
Proof.
  intros (t & -> & Hk & _ & [_ _ Hs]). split.
  - destruct Hs as [-> | Hs]; [rewrite app_nil_r; by apply solid_key | by apply solid_app].
  - destruct k as [| c k]; [done |]. cbn [valid_key] in Hk. apply andb_true_iff in Hk as [Hc _].
    exists c, (k ++ t). split; [done | by all_ascii c].
Qed.

Lemma member_trimmed k s :
  member_text k s -> TrimSpace s = s /\ TrimSpace (c_space :: s) = s.
Proof.
  intros Hs. destruct (member_solid k s Hs) as [Hsol (c & t & -> & Hc)]. by apply TrimSpace_solid.
Qed.

Lemma member_key k s : member_text k s -> dictionaryMemberKey s = k.
Proof.
  intros (t & -> & Hk & Ht & _). destruct k as [| c k]; [done |]. cbn [valid_key] in Hk.
  apply andb_true_iff in Hk as [Hc Hk]. unfold dictionaryMemberKey. cbn [app TrimLeft].
  rewrite <- isKeyStart_valid in Hc. rewrite not_ows_of_key_start, Hc by done. f_equal.
  rewrite <- isKeyCharacter_forallb in Hk. induction k as [| d k IH]; cbn [app take_while].
  - destruct t as [| d t]; [done |]. cbn [suffix_of_key] in Ht. by all_ascii d.
  - cbn [forallb] in Hk. apply andb_true_iff in Hk as [-> Hk]. f_equal. auto.
Qed.

(** Splitting the joined members gives the members. *)
Lemma split_Join ks ss current :
  Forall2 member_text ks ss -> ss <> [] -> current = [] \/ current = [c_space] ->
  split_members 0 false false current (Join ss ", ") = Ok ss.
Proof.
  intros Hss. revert current. induction Hss as [| k s ks ss Hs Hss IH]; intros current Hne Hcur; [done |].
  destruct (member_clean k s Hs) as [[Hpass _ _] _]. destruct (member_trimmed k s Hs) as [Ht1 Ht2].
  assert (TrimSpace (reverse (rev s ++ current)) = s) as Htrim.
  { unfold reverse. rewrite rev_append_rev, app_nil_r, rev_app_distr, rev_involutive.
    by destruct Hcur as [-> | ->]. }
  destruct ss as [| s2 ss].
  - change (Join [s] ", ") with s. rewrite <- (app_nil_r s) at 1. rewrite Hpass. cbn [split_members orb negb].
    by rewrite Htrim.
  - change (Join (s :: s2 :: ss) ", ") with (s ++ ","%char :: c_space :: Join (s2 :: ss) ", ").
    rewrite Hpass. cbn [split_members andb].
    change (char_eqb "," c_quote) with false. change (char_eqb "," "(") with false.
    change (char_eqb "," ")") with false. change (char_eqb "," "," && (0 =? 0)) with true.
    change (char_eqb c_space c_quote) with false. change (char_eqb c_space "(") with false.
    change (char_eqb c_space ")") with false. change (char_eqb c_space "," && (0 =? 0)) with false. cbn iota.
    rewrite (IH [c_space]) by auto. cbn [rbind]. by rewrite Htrim.
Qed.

Lemma members_clean ks ss :
  Forall2 member_text ks ss -> untouched (Join ss ", ") /\ steady (Join ss ", ") /\
  printable (Join ss ", ") = true.
Proof.
  intros Hss. induction Hss as [| k s ks ss Hs Hss (Hu & Hst & Hp)].
  { split; [apply untouched_nil | split; [apply steady_nil | done]]. }
  destruct (member_clean k s Hs) as [[_ Hu1 Hst1] Hp1]. destruct ss as [| s2 ss]; [done |].
  change (Join (s :: s2 :: ss) ", ") with (s ++ str ", " ++ Join (s2 :: ss) ", ").
  split; [| split; [| by rewrite !forallb_app, Hp1, Hp]].
  - apply untouched_app; [done |]. apply untouched_app; [by apply untouched_plain | done].
  - apply steady_app; [done |]. apply steady_app; [by apply steady_plain | done].
Qed.

Lemma ows_loop_printable before t : printable t = true -> ows_loop before t = t.
Proof.
  revert before. induction t as [| c t IH]; intros before; [done |]. cbn [forallb ows_loop].
  intros [Hc Ht]%andb_true_iff. assert (char_eqb c c_tab = false) as -> by (by all_ascii c).
  cbn [andb]. by rewrite IH.
Qed.

(** The scanners on a printed dictionary. *)
Theorem print_dictionary_scanned l s :
  forallb (fun '(_, data) => plain_data data) l = true -> NoDup (map fst l) -> l <> [] ->
  print_dictionary MarshalBareItem l = Some s ->
  rejectDuplicateDictionaryKeys [s] = None /\
  restoreRFC8941IntegralDecimals s = s /\
  normalizeStructuredFieldOWS [s] = [s] /\ normalizeRFC8941BinaryValue s = s.
Proof.
  intros Hl Hnd Hne (ss & Hss & ->)%fmap_Some. apply print_members_text in Hss; [| done].
  assert (ss <> []) as Hne' by (intros ->; apply Forall2_length in Hss; by destruct l).
  destruct (members_clean _ _ Hss) as (Hu & Hst & Hp). split; [| split; [| split]].
  - unfold rejectDuplicateDictionaryKeys, splitDictionaryMembers. cbn [Join].
    rewrite (split_Join _ _ _ Hss) by auto. apply reject_duplicates_None.
    assert (map dictionaryMemberKey ss = map fst l) as Hkeys.
    { clear -Hss. induction Hss as [| k s ks ss Hs _ IH]; [done |]. cbn [map]. by rewrite IH, (member_key k s). }
    rewrite Hkeys. split; [| split; [done | set_solver]].
    clear -Hss. induction Hss as [| k s ks ss Hs _ IH]; constructor; [| done].
    rewrite (member_key k s) by done. destruct Hs as (t & _ & Hk & _). by destruct k.
  - unfold restoreRFC8941IntegralDecimals. specialize (Hst [] []). rewrite !app_nil_r in Hst.
    exact Hst.
  - cbn. by rewrite ows_loop_printable.
  - unfold normalizeRFC8941BinaryValue. specialize (Hu None []). rewrite !app_nil_r in Hu.
    exact Hu.
Qed.
End Members.
