(* ===== verification/MessageFields.v ===== *)
(** * Field values of a message (message.go, lines 418-921 and 1142-1170)

    Which field lines net/http has on the wire for a request or a response:
    the fields the transport manages (Host, Content-Length, Transfer-Encoding,
    Trailer, Connection, User-Agent), case-insensitive header lookup, and the
    normalisation of field values. *)

From S2P Require Import Prelude GoStrings Errors HttpTypes.
Open Scope Z_scope.

(** ** Component parameters *)

Record componentParameters := mkComponentParameters {
  bs : bool;
  sf : bool;
  tr : bool;
  req : bool;
  key : gostring;
  name : gostring;
  hasKey : bool;
  hasName : bool
}.

Definition noParameters : componentParameters :=
  mkComponentParameters false false false false [] [] false false.

(** ** Header lookup *)

(** The loop of [caseInsensitiveHeaderValues] over the entries in iteration order. *)
Fixpoint ci_loop (wanted : gostring) (found : bool) (values : list gostring)
  (entries : list (gostring * list gostring)) : res (list gostring) :=
  match entries with
  | [] => Ok values
  | (k, current) :: rest =>
      if negb (EqualFold k wanted) then ci_loop wanted found values rest
      else if found then Err (New "covered field has case-colliding map keys")
      else ci_loop wanted true current rest
  end.

Definition caseInsensitiveHeaderValues (header : Header) (wanted : gostring)
  : res (list gostring) :=
  ci_loop wanted false [] (map_to_list header).

Definition sameFieldValues (left right : list gostring) : bool := bool_decide (left = right).

Definition matchingResponseFieldValues (received written : res (list gostring))
  : res (list gostring) :=
  match received, written with
  | Ok r, Ok w =>
      if sameFieldValues r w then Ok r
      else Err (New "response transport mode is required for ambiguous field identity")
  | _, _ => Err (New "response transport mode is required for ambiguous field identity")
  end.

(** [switch mode] of the response field functions. *)
Definition select_mode (mode : ResponseTransportMode) (received written : res (list gostring))
  : res (list gostring) :=
  match mode with
  | ResponseTransportReceived => received
  | ResponseTransportWrite => written
  | _ => matchingResponseFieldValues received written
  end.

(** ** Transfer codings, trailers, connection *)

Definition validHTTPToken (value : gostring) : bool :=
  match value with [] => false | _ => forallb is_token_char value end.

Definition hasChunkedTransferEncoding (encodings : list gostring) : bool :=
  match encodings with e :: _ => e =s "chunked" | [] => false end.

Definition requestUsesChunkedTransferEncoding (request : option Request) : bool :=
  match request with
  | None => false
  | Some r => negb (bool_decide (RequestBody r = BodyNil)) &&
              hasChunkedTransferEncoding (RequestTransferEncoding r)
  end.

Definition is_identity (encodings : list gostring) : bool :=
  match encodings with [e] => e =s "identity" | _ => false end.

Definition transferEncodingFieldValues (encodings : list gostring) : res (list gostring) :=
  if (len encodings =? 0) || is_identity encodings then Ok []
  else if hasChunkedTransferEncoding encodings then Ok [str "chunked"]
  else Err (New "unsupported net/http transfer encoding").

(** The loop of [trailerDeclarationFieldValues] over the keys. *)
Fixpoint trailer_keys (keys : list gostring) : res (list gostring) :=
  match keys with
  | [] => Ok []
  | k :: rest =>
      let canonical := CanonicalHeaderKey k in
      if negb (validHTTPToken canonical) || EqualFold canonical "transfer-encoding" ||
         EqualFold canonical "trailer" || EqualFold canonical "content-length"
      then Err (New "invalid Trailer declaration")
      else let? ks := trailer_keys rest in Ok (canonical :: ks)
  end.

Definition trailerDeclarationFieldValues (trailer : Header) : res (list gostring) :=
  let? keys := trailer_keys (fst <$> map_to_list trailer) in
  Ok [Join (sort_by id keys) ","].

Definition fieldValueHasToken (value token : gostring) : bool :=
  existsb (fun candidate => EqualFold (TrimSpace candidate) token) (Split value ",").

(** [requestTransportFieldValues]: [None] is "not handled". *)
Definition requestTransportFieldValues (request : Request) (wanted : gostring)
  : option (res (list gostring)) :=
  if EqualFold wanted "transfer-encoding" then
    Some (if bool_decide (RequestBody request = BodyNil) then Ok []
          else transferEncodingFieldValues (RequestTransferEncoding request))
  else if EqualFold wanted "trailer" then
    Some (if RequestURI request <>s []
          then Err (New "inbound Trailer declaration order is unavailable")
          else if negb (requestUsesChunkedTransferEncoding (Some request)) ||
                  bool_decide (RequestTrailer request = ∅) then Ok []
          else trailerDeclarationFieldValues (RequestTrailer request))
  else if EqualFold wanted "user-agent" && (RequestURI request =s []) then
    Some (match caseInsensitiveHeaderValues (RequestHeader request) wanted with
          | Err err => Err err
          | Ok (v :: _) => if v =s [] then Ok [] else Ok [v]
          | Ok [] => Ok []
          end)
  else if EqualFold wanted "connection" && (RequestURI request =s []) && RequestClose request then
    Some (match caseInsensitiveHeaderValues (RequestHeader request) wanted with
          | Err err => Err err
          | Ok values =>
              if existsb (fun v => fieldValueHasToken v "close") values then Ok values
              else Ok (str "close" :: values)
          end)
  else None.

Definition StatusNoContent : Z := 204.
Definition StatusNotModified : Z := 304.

Definition responseWriteBodyAllowed (status : Z) : bool :=
  (status <? 100) ||
  (199 <? status) && negb (status =? StatusNoContent) && negb (status =? StatusNotModified).

(** [response.Request != nil && response.Request.Method == http.MethodHead]. *)
Definition response_to_head (response : Response) : bool :=
  match ResponseRequest response with Some r => Method r =s "HEAD" | None => false end.

Definition responseUsesChunkedTransferEncoding (response : option Response) : bool :=
  match response with
  | None => false
  | Some response =>
      if negb (hasChunkedTransferEncoding (ResponseTransferEncoding response)) then false
      else if response_to_head response then true
      else negb (bool_decide (ResponseBody response = BodyNil)) && ProtoAtLeast response 1 1
  end.

Definition receivedResponseTransferEncodingFieldValues (encodings : list gostring)
  : res (list gostring) :=
  match encodings with
  | [] => Ok []
  | [e] => if e =s "chunked" then Ok [str "chunked"]
           else Err (New "received response has impossible transfer coding state")
  | _ => Err (New "received response has impossible transfer coding state")
  end.

Definition writeResponseTransferEncodingFieldValues (response : Response) : res (list gostring) :=
  if responseUsesChunkedTransferEncoding (Some response) then Ok [str "chunked"]
  else if (len (ResponseTransferEncoding response) =? 0) ||
          is_identity (ResponseTransferEncoding response) ||
          bool_decide (ResponseBody response = BodyNil) ||
          match ResponseRequest response with
          | None => true
          | Some r => (Method r <>s "HEAD") && negb (ProtoAtLeast response 1 1)
          end
  then Ok []
  else Err (New "unsupported net/http transfer encoding").

Definition responseTransferEncodingFieldValues (response : option Response)
  (mode : ResponseTransportMode) : res (list gostring) :=
  match response with
  | None => Err (New "response is unavailable")
  | Some response =>
      select_mode mode
        (receivedResponseTransferEncodingFieldValues (ResponseTransferEncoding response))
        (writeResponseTransferEncodingFieldValues response)
  end.

Definition responseTrailerFieldValues (response : Response) (mode : ResponseTransportMode)
  : res (list gostring) :=
  let nonempty := negb (bool_decide (ResponseTrailer response = ∅)) in
  let received : res (list gostring) :=
    if nonempty then Err (New "received Trailer declaration order is unavailable") else Ok [] in
  let written :=
    if responseUsesChunkedTransferEncoding (Some response) && nonempty
    then trailerDeclarationFieldValues (ResponseTrailer response) else Ok [] in
  select_mode mode received written.

Definition receivedResponseCloseFieldIsExplicit (response : Response) : bool :=
  if negb (ResponseProtoMajor response =? 1) || (ResponseProtoMinor response <? 1) then false
  else if (0 <=? ResponseContentLength response) ||
          negb (len (ResponseTransferEncoding response) =? 0) then true
  else if response_to_head response then true
  else negb (responseWriteBodyAllowed (StatusCode response)).

Definition responseWriteClosesConnection (response : Response) : bool :=
  ResponseClose response ||
  (ResponseContentLength response =? -1) && ProtoAtLeast response 1 1 &&
  negb (hasChunkedTransferEncoding (ResponseTransferEncoding response)) &&
  negb (Uncompressed response).

Definition responseCloseFieldValues (response : Response) (synthesizeClose : bool)
  : res (list gostring) :=
  let? values := caseInsensitiveHeaderValues (ResponseHeader response) "connection" in
  if negb synthesizeClose then Ok values
  else if existsb (fun v => fieldValueHasToken v "close") values then Ok values
  else Ok (str "close" :: values).

Definition responseConnectionFieldValues (response : Response) (mode : ResponseTransportMode)
  : res (list gostring) :=
  let receivedClose :=
    if ResponseClose response then receivedResponseCloseFieldIsExplicit response else false in
  select_mode mode
    (responseCloseFieldValues response receivedClose)
    (responseCloseFieldValues response (responseWriteClosesConnection response)).

Definition responseTransportFieldValues (response : Response) (mode : ResponseTransportMode)
  (wanted : gostring) : option (res (list gostring)) :=
  if EqualFold wanted "transfer-encoding"
  then Some (responseTransferEncodingFieldValues (Some response) mode)
  else if EqualFold wanted "trailer" then Some (responseTrailerFieldValues response mode)
  else if EqualFold wanted "connection" then Some (responseConnectionFieldValues response mode)
  else None.

(** ** Content-Length *)

Definition preservedResponseContentLengthFieldValues (header : Header) : res (list gostring) :=
  let? values := caseInsensitiveHeaderValues header "content-length" in
  match values with
  | [] => Ok values
  | [v] =>
      match ParseUint (TrimSpace v) 63 with
      | None => Err (New "received response has invalid Content-Length")
      | Some _ => Ok values
      end
  | _ => Err (New "received response has ambiguous Content-Length")
  end.

Definition receivedResponseContentLengthFieldValues (response : Response) : res (list gostring) :=
  match preservedResponseContentLengthFieldValues (ResponseHeader response) with
  | Err err => Err err
  | Ok [] => Ok []
  | Ok ((v :: _) as values) =>
      if negb (len (ResponseTransferEncoding response) =? 0)
      then Err (New "received response has conflicting Content-Length and transfer coding")
      else
        let contentLength := Z.of_N (default 0%N (ParseUint (TrimSpace v) 63)) in
        if (responseWriteBodyAllowed (StatusCode response) || response_to_head response) &&
           ((ResponseContentLength response <? 0) ||
            negb (ResponseContentLength response =? contentLength))
        then Err (New "received response Content-Length disagrees with parsed transport state")
        else Ok values
  end.

Definition response_method (response : Response) : gostring :=
  match ResponseRequest response with Some r => Method r | None => [] end.

Definition writeResponseContentLengthFieldValues (response : Response) : res (list gostring) :=
  if responseUsesChunkedTransferEncoding (Some response) then Ok []
  else if (ResponseContentLength response =? 0) &&
          negb (bool_decide (ResponseBody response = BodyNil)) &&
          negb (bool_decide (ResponseBody response = NoBody))
  then Err (New "response content length depends on body probing")
  else
    let method := response_method response in
    if (method <>s "HEAD") && bool_decide (ResponseBody response = NoBody) &&
       (0 <? ResponseContentLength response)
    then Err (New "response body is shorter than its declared content length")
    else
      let responseToHEAD := method =s "HEAD" in
      let bodyNil := bool_decide (ResponseBody response = BodyNil) in
      let effectiveTransferEncoding :=
        if negb responseToHEAD && (negb (ProtoAtLeast response 1 1) || bodyNil) then []
        else ResponseTransferEncoding response in
      let contentLength :=
        if negb responseToHEAD && bodyNil then 0 else ResponseContentLength response in
      if 0 <? contentLength then Ok [FormatInt contentLength]
      else if contentLength <? 0 then Ok []
      else if (method =s "POST") || (method =s "PUT") || (method =s "PATCH") then Ok [str "0"]
      else if is_identity effectiveTransferEncoding && (method <>s "GET") && (method <>s "HEAD")
      then Ok [str "0"]
      else if (ResponseContentLength response =? 0) &&
              negb (hasChunkedTransferEncoding (ResponseTransferEncoding response)) &&
              responseWriteBodyAllowed (StatusCode response)
      then Ok [str "0"]
      else Ok [].

Definition responseContentLengthFieldValues (response : option Response)
  (mode : ResponseTransportMode) : res (list gostring) :=
  match response with
  | None => Ok []
  | Some response =>
      select_mode mode (receivedResponseContentLengthFieldValues response)
        (writeResponseContentLengthFieldValues response)
  end.

(** [requestContentLength]: [None] is the source's [false]. *)
Definition requestContentLength (request : option Request) : option Z :=
  match request with
  | None => None
  | Some request =>
      if requestUsesChunkedTransferEncoding (Some request) then None
      else
        let identityTransfer := is_identity (RequestTransferEncoding request) in
        let rest :=
          let method := if Method request =s [] then str "GET" else Method request in
          if (method =s "GET") || (method =s "HEAD") then None
          else if identityTransfer || (method =s "POST") || (method =s "PUT") || (method =s "PATCH")
          then Some 0 else None in
        match RequestBody request with
        | BodyNil => if negb (RequestContentLength request =? 0) then None else rest
        | NoBody => rest
        | BodyReader _ =>
            if 0 <? RequestContentLength request then Some (RequestContentLength request) else None
        end
  end.

(** ** The message a component belongs to *)

Definition requestForComponent (context : MessageContext) (related : bool) : res Request :=
  if related then
    match MessageResponse context, RelatedRequest context with
    | Some _, Some r => Ok r
    | _, _ => Err (New "req requires an explicit related request")
    end
  else
    match MessageRequest context with
    | Some r => Ok r
    | None => Err (New "request component requires a request or req")
    end.

Definition headerForComponent (context : MessageContext) (related trailer : bool) : res Header :=
  if related then
    let? request := requestForComponent context true in
    Ok (if trailer then RequestTrailer request else RequestHeader request)
  else
    match MessageRequest context with
    | Some r => Ok (if trailer then RequestTrailer r else RequestHeader r)
    | None =>
        match MessageResponse context with
        | Some r => Ok (if trailer then ResponseTrailer r else ResponseHeader r)
        | None => Err (New "nil response")
        end
    end.

Definition componentHTTPMajor (context : MessageContext) (related : bool) : Z :=
  if related || negb (is_nil (MessageRequest context)) then
    match requestForComponent context related with
    | Err _ => 0
    | Ok request => RequestProtoMajor request
    end
  else match MessageResponse context with
       | Some r => ResponseProtoMajor r
       | None => 0
       end.

Definition removeIPv6Zone (host : gostring) : gostring :=
  if negb (HasPrefix host "[") then host
  else match IndexByte host "]" with
       | None => host
       | Some closing =>
           match LastIndexByte (take closing host) "%" with
           | None => host
           | Some zone => take zone host ++ drop closing host
           end
       end.

Definition validNetHTTPHostHeader (host : gostring) : bool :=
  forallb (fun c => char_mem c
    "0123456789abcdefghijklmnopqrstuvwxyzABCDEFGHIJKLMNOPQRSTUVWXYZ!$%&()*+,-.:;='[]_~") host.

(** [managedFieldValues]: [None] is "not handled". *)
Definition managedFieldValues (context : MessageContext) (wanted : gostring)
  (parameters : componentParameters) (requestOwned : bool) : option (res (list gostring)) :=
  let response_part :=
    match MessageResponse context with
    | None => None
    | Some response =>
        if req parameters then None
        else if tr parameters then None
        else if EqualFold wanted "content-length"
        then Some (responseContentLengthFieldValues (Some response) (ResponseTransport context))
        else responseTransportFieldValues response (ResponseTransport context) wanted
    end in
  if requestOwned then
    match requestForComponent context (req parameters) with
    | Err requestErr => Some (Err requestErr)
    | Ok request =>
        if EqualFold wanted "host" then
          let host :=
            if Host request =s []
            then match RequestURL request with Some u => URLHost u | None => [] end
            else Host request in
          let host := removeIPv6Zone host in
          if host =s [] then Some (Ok [])
          else if negb (validNetHTTPHostHeader host)
          then Some (Err (New "request Host is not representable on the net/http wire"))
          else Some (Ok [host])
        else if EqualFold wanted "content-length" then
          match requestContentLength (Some request) with
          | Some contentLength => Some (Ok [FormatInt contentLength])
          | None => Some (Ok [])
          end
        else match requestTransportFieldValues request wanted with
             | Some r => Some r
             | None => response_part
             end
    end
  else response_part.

(** ** Field values *)

(** [regexp] [\r\n[ \t]+] replaced by one space: [pending] is set while the
    white space of a matched fold is skipped. *)
Fixpoint unfold_lines (pending : bool) (value : gostring) : gostring :=
  match value with
  | [] => []
  | c :: rest =>
      if pending && (char_eqb c c_space || char_eqb c c_tab) then unfold_lines true rest
      else
        match rest with
        | d :: ((e :: _) as rest') =>
            if char_eqb c c_cr && char_eqb d c_lf && (char_eqb e c_space || char_eqb e c_tab)
            then c_space :: unfold_lines true rest'
            else c :: unfold_lines false rest
        | _ => c :: unfold_lines false rest
        end
  end.

Definition asciiString (value : gostring) : bool := forallb is_ascii value.

Definition normalizeFieldBytes (value : gostring) : res gostring :=
  let value := Trim value [c_space; c_tab] in
  let value := unfold_lines false value in
  if ContainsAny value [c_cr; c_lf] then Err (New "field value contains prohibited bytes")
  else Ok value.

Definition normalizeFieldValue (value : gostring) : res gostring :=
  let? value := normalizeFieldBytes value in
  if negb (asciiString value) then Err (New "field value contains prohibited bytes")
  else Ok value.

Fixpoint cookie_parts (parts : list gostring) : option (list gostring) :=
  match parts with
  | [] => Some []
  | part :: rest =>
      let part := Trim part [c_space; c_tab] in
      if part =s [] then None
      else match cookie_parts rest with Some ps => Some (part :: ps) | None => None end
  end.

(** [canonicalCookieValue]: [None] is the source's [false]. *)
Definition canonicalCookieValue (value : gostring) : option gostring :=
  match cookie_parts (Split value ";") with
  | Some parts => Some (Join parts "; ")
  | None => None
  end.
