(* ===== verification/MessageDerived.v ===== *)
(** * Derived components (message.go, lines 923-1140 and 1314-1494)

    Reconstruction of the request's scheme, authority, path and query from the
    request line, the Host header and an optional trusted external context,
    and the resolution of one named query parameter. *)

From S2P Require Import Prelude GoStrings Errors HttpTypes MessageLimits MessageFields.
Open Scope Z_scope.

Definition validDerivedValue (value : gostring) : bool :=
  match value with
  | [] => false
  | first :: _ =>
      let final := List.last value first in
      if char_eqb first c_space || char_eqb final c_space ||
         char_eqb first c_tab || char_eqb final c_tab
      then false
      else forallb (char_in " " "~") value
  end.

Definition validFieldBaseValue (value : gostring) : bool :=
  forallb (fun c => char_eqb c c_tab || char_in " " "~" c) value.

(** ** Query parameters *)

Definition hexValue (value : ascii) : option N :=
  if char_in "0" "9" value then Some (N_of_ascii value - N_of_ascii "0")%N
  else if char_in "a" "f" value then Some (N_of_ascii value - N_of_ascii "a" + 10)%N
  else if char_in "A" "F" value then Some (N_of_ascii value - N_of_ascii "A" + 10)%N
  else None.

(** [utf8Sequence]: width and bounds of the second byte; width 0 is an invalid
    first byte. *)
Definition utf8Sequence (first : N) : nat * N * N :=
  (if (0xc2 <=? first) && (first <=? 0xdf) then (2%nat, 0x80, 0xbf)
   else if first =? 0xe0 then (3%nat, 0xa0, 0xbf)
   else if ((0xe1 <=? first) && (first <=? 0xec)) || ((0xee <=? first) && (first <=? 0xef))
   then (3%nat, 0x80, 0xbf)
   else if first =? 0xed then (3%nat, 0x80, 0x9f)
   else if first =? 0xf0 then (4%nat, 0x90, 0xbf)
   else if (0xf1 <=? first) && (first <=? 0xf3) then (4%nat, 0x80, 0xbf)
   else if first =? 0xf4 then (4%nat, 0x80, 0x8f)
   else (0%nat, 0, 0))%N.

(** U+FFFD in UTF-8. *)
Definition RuneError : gostring := [ascii_of_N 0xEF; ascii_of_N 0xBF; ascii_of_N 0xBD].

(** The number of bytes of [rest] accepted as continuation bytes before the
    first bad one. *)
Fixpoint continuation (minimum maximum : N) (rest : gostring) : nat :=
  match rest with
  | [] => O
  | c :: rest' =>
      if (minimum <=? N_of_ascii c)%N && (N_of_ascii c <=? maximum)%N
      then S (continuation 0x80 0xbf rest') else O
  end.

(** The loop of [decodeUTF8WithReplacement]: [skip] bytes were consumed with
    the byte before them.  A well-formed sequence is written back as it is
    ([utf8.DecodeRune] followed by [WriteRune]). *)
Fixpoint utf8_loop (skip : nat) (value : gostring) : gostring :=
  match value with
  | [] => []
  | c :: rest =>
      match skip with
      | S k => utf8_loop k rest
      | O =>
          if (N_of_ascii c <? 0x80)%N then c :: utf8_loop 0 rest
          else
            let '(width, secondMin, secondMax) := utf8Sequence (N_of_ascii c) in
            match width with
            | O => RuneError ++ utf8_loop 0 rest
            | S more =>
                let good := continuation secondMin secondMax (take more rest) in
                if Nat.eqb good more then c :: take good rest ++ utf8_loop good rest
                else RuneError ++ utf8_loop good rest
            end
      end
  end.
Definition decodeUTF8WithReplacement (value : gostring) : gostring := utf8_loop 0 value.

Fixpoint form_decode (value : gostring) : gostring :=
  match value with
  | [] => []
  | c :: rest =>
      if char_eqb c "+" then c_space :: form_decode rest
      else if char_eqb c "%" then
        match rest with
        | h :: l :: rest' =>
            match hexValue h, hexValue l with
            | Some high, Some low => ascii_of_N (N.lor (N.shiftl high 4) low) :: form_decode rest'
            | _, _ => c :: form_decode rest
            end
        | _ => c :: form_decode rest
        end
      else c :: form_decode rest
  end.
Definition decodeFormComponent (value : gostring) : gostring :=
  decodeUTF8WithReplacement (form_decode value).

Definition hex_digit (n : N) : ascii :=
  if (n <? 10)%N then ascii_of_N (48 + n) else ascii_of_N (65 + (n - 10)).

Definition is_form_literal (c : ascii) : bool :=
  char_in "a" "z" c || char_in "A" "Z" c || char_in "0" "9" c || char_mem c "*-._".

Definition form_encode_char (c : ascii) : gostring :=
  if is_form_literal c then [c]
  else ["%"%char; hex_digit (N.shiftr (N_of_ascii c) 4); hex_digit (N.land (N_of_ascii c) 0x0f)].

Definition formPercentEncode (value : gostring) : gostring := flat_map form_encode_char value.

(** The loop of [queryParameter] over the pairs: last match and match count. *)
Fixpoint query_matches (encodedName : gostring) (found : gostring) (foundCount : nat)
  (pairs : list gostring) : gostring * nat :=
  match pairs with
  | [] => (found, foundCount)
  | pair_text :: rest =>
      if pair_text =s [] then query_matches encodedName found foundCount rest
      else
        let '(name, value, hasValue) := Cut pair_text "=" in
        let value := if hasValue : bool then value else [] in
        if formPercentEncode (decodeFormComponent name) =s encodedName
        then query_matches encodedName (formPercentEncode (decodeFormComponent value))
               (S foundCount) rest
        else query_matches encodedName found foundCount rest
  end.

Definition queryParameter (rawQuery encodedName : gostring) (maxBytes : Z) : res gostring :=
  if rawQuery =s [] then Err (New "named query parameter is absent")
  else if Z.quot maxBytes 3 <? len rawQuery then Err (Sentinel ErrSignatureBaseLimit)
  else
    let '(found, foundCount) := query_matches encodedName [] 0 (Split rawQuery "&") in
    if negb (Nat.eqb foundCount 1) then Err (New "named query parameter is absent or repeated")
    else if maxBytes <? len found then Err (Sentinel ErrSignatureBaseLimit)
    else Ok found.

(** ** Scheme, authority and target *)

Record normalizedRequestParts := mkParts {
  scheme : gostring;
  authority : gostring;
  requestTarget : gostring;
  originTarget : gostring;
  path : gostring;
  rawQuery : gostring
}.

(** [net.JoinHostPort]. *)
Definition JoinHostPort (host port : gostring) : gostring :=
  if ContainsByte host ":" then "["%char :: host ++ str "]:" ++ port else host ++ ":"%char :: port.

Section Target.
Context `{UC : UnicodeCase} `{NU : NetURL}.

Definition normalizeAuthority (authority scheme : gostring) : res gostring :=
  let authority := removeIPv6Zone authority in
  match url_Parse (str "//" ++ authority) with
  | None => Err (New "invalid request authority")
  | Some parsed =>
      if HasUser parsed || (URLHost parsed =s []) || (URLPath parsed <>s []) ||
         (RawQuery parsed <>s []) || (Fragment parsed <>s []) || (Opaque parsed <>s [])
      then Err (New "invalid request authority")
      else
        let host := ToLower (Hostname parsed) in
        if (host =s []) || negb (asciiString host) then Err (New "invalid request host")
        else
          let port := Port parsed in
          let? port :=
            if port =s [] then Ok []
            else match ParseUint port 16 with
                 | None => Err (New "invalid request port")
                 | Some numericPort =>
                     let port := FormatUint numericPort in
                     Ok (if ((port =s "80") && (scheme =s "http")) ||
                            ((port =s "443") && (scheme =s "https")) then [] else port)
                 end in
          let host := if ContainsByte host ":" then "["%char :: host ++ [ "]"%char ] else host in
          if port <>s [] then Ok (JoinHostPort (Trim host "[]") port)
          else Ok host
  end.

(** What the [switch] over the form of the request target determines. *)
Record target_info := mkTarget {
  targetURL : URL;
  emptyTargetPathQuery : bool;
  target_scheme : gostring;
  target_authority : gostring
}.

Definition malformed {A} : res A := Err (New "request target is malformed").

(** [case absoluteHTTP]. *)
Definition absolute_target (external : option ExternalRequestContext)
  (requestTarget scheme authority : gostring) : res target_info :=
  match url_Parse requestTarget with
  | None => malformed
  | Some parsedTarget =>
      if URLHost parsedTarget =s [] then malformed
      else if HasUser parsedTarget || (Fragment parsedTarget <>s []) ||
              (Opaque parsedTarget <>s []) then malformed
      else
        match external with
        | None =>
            Ok (mkTarget parsedTarget false (URLScheme parsedTarget) (URLHost parsedTarget))
        | Some external =>
            let targetScheme := ToLower (URLScheme parsedTarget) in
            let externalScheme := ToLower (ExternalScheme external) in
            if targetScheme <>s externalScheme
            then Err (New "external request context contradicts absolute target")
            else
              match normalizeAuthority (URLHost parsedTarget) targetScheme,
                    normalizeAuthority (ExternalAuthority external) externalScheme with
              | Ok targetAuthority, Ok externalAuthority =>
                  if targetAuthority <>s externalAuthority
                  then Err (New "external request context contradicts absolute target")
                  else Ok (mkTarget parsedTarget false scheme authority)
              | _, _ => Err (New "external request context contradicts absolute target")
              end
        end
  end.

(** [case request.Method == http.MethodConnect]. *)
Definition connect_target (external : option ExternalRequestContext)
  (requestTarget scheme authority : gostring) : res target_info :=
  match url_Parse (str "//" ++ requestTarget) with
  | None => malformed
  | Some parsedAuthority =>
      if URLHost parsedAuthority =s [] then malformed
      else if (Port parsedAuthority =s []) || (URLPath parsedAuthority <>s []) ||
              HasUser parsedAuthority || (RawQuery parsedAuthority <>s []) ||
              (Fragment parsedAuthority <>s []) then malformed
      else
        match external with
        | None => Ok (mkTarget emptyURL true scheme (URLHost parsedAuthority))
        | Some external =>
            let externalScheme := ToLower (ExternalScheme external) in
            match normalizeAuthority (URLHost parsedAuthority) externalScheme,
                  normalizeAuthority (ExternalAuthority external) externalScheme with
            | Ok targetAuthority, Ok externalAuthority =>
                if targetAuthority <>s externalAuthority
                then Err (New "external request context contradicts authority target")
                else Ok (mkTarget emptyURL true scheme authority)
            | _, _ => Err (New "external request context contradicts authority target")
            end
        end
  end.

Definition resolve_target (method : gostring) (external : option ExternalRequestContext)
  (requestTarget scheme authority : gostring) : res target_info :=
  let lowerTarget := ToLower requestTarget in
  let absoluteHTTP := HasPrefix lowerTarget "http://" || HasPrefix lowerTarget "https://" in
  if absoluteHTTP then absolute_target external requestTarget scheme authority
  else if HasPrefix requestTarget "/" then
    match url_ParseRequestURI requestTarget with
    | None => malformed
    | Some parsedTarget =>
        if ContainsByte requestTarget "#" then malformed
        else Ok (mkTarget parsedTarget false scheme authority)
    end
  else if requestTarget =s "*" then
    if method <>s "OPTIONS" then Err (New "asterisk request target requires OPTIONS")
    else Ok (mkTarget emptyURL true scheme authority)
  else if method =s "CONNECT" then connect_target external requestTarget scheme authority
  else malformed.

Definition requestParts (request : option Request) (external : option ExternalRequestContext)
  : res normalizedRequestParts :=
  match request with
  | None => Err (New "request URL is unavailable")
  | Some request =>
  match RequestURL request with
  | None => Err (New "request URL is unavailable")
  | Some url =>
      let scheme := URLScheme url in
      let authority := if Host request =s [] then URLHost url else Host request in
      let? (scheme, authority, requestTarget) :=
        match external with
        | Some e =>
            if ExternalScheme e =s []
            then Err (New "external request context must be complete")
            else if ExternalAuthority e =s []
            then Err (New "external request context must be complete")
            else if ExternalRequestTarget e =s []
            then Err (New "external request context must be complete")
            else Ok (ExternalScheme e, ExternalAuthority e, ExternalRequestTarget e)
        | None =>
            Ok (scheme, authority,
                if RequestURI request =s [] then RequestURI_of url else RequestURI request)
        end in
      let? target := resolve_target (Method request) external requestTarget scheme authority in
      let scheme :=
        if target_scheme target =s []
        then (if RequestTLS request then str "https" else str "http")
        else target_scheme target in
      let scheme := ToLower scheme in
      if (scheme <>s "http") && (scheme <>s "https")
      then Err (New "request scheme is not HTTP")
      else
        let authority :=
          if target_authority target =s [] then Host request else target_authority target in
        let? normalizedAuthority := normalizeAuthority authority scheme in
        let rawPath := EscapedPath (targetURL target) in
        let path := if rawPath =s [] then str "/" else rawPath in
        let rawQuery := if emptyTargetPathQuery target then [] else RawQuery (targetURL target) in
        let originTarget :=
          if negb (emptyTargetPathQuery target) &&
             (ForceQuery (targetURL target) || (rawQuery <>s []))
          then rawPath ++ "?"%char :: rawQuery else rawPath in
        Ok (mkParts scheme normalizedAuthority requestTarget originTarget path rawQuery)
  end
  end.
End Target.

Definition externalForRequest (context : MessageContext) (request : option Request)
  : option ExternalRequestContext :=
  if same_request request (MessageRequest context) || same_request request (RelatedRequest context)
  then ExternalRequest context else None.
