(* ===== verification/QueryFacts.v ===== *)
(** * Query parameters (message.go, [queryParameter] and its codec)

    The UTF-8 repair against the definition of UTF-8 by code points, the
    form codec, and what [@query-param] resolves to. *)

From S2P Require Import Prelude GoStrings Errors HttpTypes MessageFields MessageDerived.
Open Scope Z_scope.

(** ** UTF-8 by code points *)

(** A Unicode scalar value. *)
Definition scalar (n : N) : Prop := (n < 0xD800 \/ 0xE000 <= n < 0x110000)%N.

(** The UTF-8 encoding of a scalar value (RFC 3629, section 3). *)
Definition utf8_bytes (n : N) : list N :=
  (if n <? 0x80 then [n]
   else if n <? 0x800 then [0xC0 + n / 64; 0x80 + n mod 64]
   else if n <? 0x10000 then [0xE0 + n / 64 / 64; 0x80 + n / 64 mod 64; 0x80 + n mod 64]
   else [0xF0 + n / 64 / 64 / 64; 0x80 + n / 64 / 64 mod 64; 0x80 + n / 64 mod 64;
         0x80 + n mod 64])%N.
Definition encode_rune (n : N) : gostring := map ascii_of_N (utf8_bytes n).

(** Text that is the encoding of a sequence of scalar values. *)
Definition well_formed_utf8 (s : gostring) : Prop :=
  exists runes, Forall scalar runes /\ s = flat_map encode_rune runes.

Lemma byte_round n : (n < 256)%N -> N_of_ascii (ascii_of_N n) = n.
Proof. apply N_ascii_embedding. Qed.

Lemma byte_bound c : (N_of_ascii c < 256)%N.
Proof. apply N_ascii_bounded. Qed.

Lemma well_formed_nil : well_formed_utf8 [].
Proof. exists []. split; [constructor | done]. Qed.

Lemma well_formed_cons n s : scalar n -> well_formed_utf8 s -> well_formed_utf8 (encode_rune n ++ s).
Proof. intros Hn (l & Hl & ->). exists (n :: l). split; [by constructor | done]. Qed.

Lemma digit64 q r : (r < 64)%N -> ((q * 64 + r) / 64 = q /\ (q * 64 + r) mod 64 = r)%N.
Proof.
  intros Hr. split; symmetry; [apply (N.div_unique _ _ _ r) | apply (N.mod_unique _ _ q)]; lia.
Qed.

Lemma split64 n : exists q r, (n = q * 64 + r)%N /\ (r < 64)%N /\ (n / 64 = q)%N /\ (n mod 64 = r)%N.
Proof.
  exists (n / 64)%N, (n mod 64)%N. pose proof (N.div_mod n 64 ltac:(done)).
  pose proof (N.mod_lt n 64 ltac:(done)). repeat split; lia.
Qed.

Lemma char_of_code c n : N_of_ascii c = n -> ascii_of_N n = c.
Proof. intros <-. apply ascii_N_embedding. Qed.

Lemma rune2 c c1 :
  (0xc2 <= N_of_ascii c <= 0xdf)%N -> (0x80 <= N_of_ascii c1 <= 0xbf)%N ->
  exists n, scalar n /\ encode_rune n = [c; c1].
Proof.
  intros H0 H1. set (q := (N_of_ascii c - 0xC0)%N). set (r := (N_of_ascii c1 - 0x80)%N).
  exists (q * 64 + r)%N. split; [unfold scalar; lia |].
  destruct (digit64 q r ltac:(lia)) as [Hq Hr]. unfold encode_rune, utf8_bytes.
  replace (q * 64 + r <? 0x80)%N with false by lia. replace (q * 64 + r <? 0x800)%N with true by lia.
  rewrite Hq, Hr. cbn [map]. repeat f_equal; apply char_of_code; lia.
Qed.

Lemma rune3 c c1 c2 :
  (0xe0 <= N_of_ascii c <= 0xef)%N -> (0x80 <= N_of_ascii c1 <= 0xbf)%N ->
  (0x80 <= N_of_ascii c2 <= 0xbf)%N ->
  (N_of_ascii c = 0xe0 -> 0xa0 <= N_of_ascii c1)%N -> (N_of_ascii c = 0xed -> N_of_ascii c1 <= 0x9f)%N ->
  exists n, scalar n /\ encode_rune n = [c; c1; c2].
Proof.
  intros H0 H1 H2 He0 Hed. set (q := (N_of_ascii c - 0xE0)%N). set (r := (N_of_ascii c1 - 0x80)%N).
  set (t := (N_of_ascii c2 - 0x80)%N). exists ((q * 64 + r) * 64 + t)%N.
  destruct (digit64 q r ltac:(lia)) as [Hq Hr]. destruct (digit64 (q * 64 + r) t ltac:(lia)) as [Hqr Ht].
  split; [unfold scalar; lia |]. unfold encode_rune, utf8_bytes.
  replace (_ <? 0x80)%N with false by lia. replace (_ <? 0x800)%N with false by lia.
  replace (_ <? 0x10000)%N with true by lia.
  rewrite Hqr, Hq, Hr, Ht. cbn [map]. repeat f_equal; apply char_of_code; lia.
Qed.

Lemma rune4 c c1 c2 c3 :
  (0xf0 <= N_of_ascii c <= 0xf4)%N -> (0x80 <= N_of_ascii c1 <= 0xbf)%N ->
  (0x80 <= N_of_ascii c2 <= 0xbf)%N -> (0x80 <= N_of_ascii c3 <= 0xbf)%N ->
  (N_of_ascii c = 0xf0 -> 0x90 <= N_of_ascii c1)%N -> (N_of_ascii c = 0xf4 -> N_of_ascii c1 <= 0x8f)%N ->
  exists n, scalar n /\ encode_rune n = [c; c1; c2; c3].
Proof.
  intros H0 H1 H2 H3 Hf0 Hf4. set (q := (N_of_ascii c - 0xF0)%N). set (r := (N_of_ascii c1 - 0x80)%N).
  set (t := (N_of_ascii c2 - 0x80)%N). set (u := (N_of_ascii c3 - 0x80)%N).
  exists (((q * 64 + r) * 64 + t) * 64 + u)%N.
  destruct (digit64 q r ltac:(lia)) as [Hq Hr]. destruct (digit64 (q * 64 + r) t ltac:(lia)) as [Hqr Ht].
  destruct (digit64 ((q * 64 + r) * 64 + t) u ltac:(lia)) as [Hqrt Hu].
  split; [unfold scalar; lia |]. unfold encode_rune, utf8_bytes.
  replace (_ <? 0x80)%N with false by lia. replace (_ <? 0x800)%N with false by lia.
  replace (_ <? 0x10000)%N with false by lia.
  rewrite Hqrt, Hqr, Hq, Hr, Ht, Hu. cbn [map]. repeat f_equal; apply char_of_code; lia.
Qed.

(** A well-formed sequence of the table is the encoding of a scalar value. *)
Lemma sequence_rune c rest width lo hi :
  utf8Sequence (N_of_ascii c) = (S width, lo, hi) ->
  continuation lo hi (take width rest) = width ->
  exists n, scalar n /\ encode_rune n = c :: take width rest.
Proof.
  intros Hs Hc.
  destruct rest as [| c1 [| c2 [| c3 rest]]]; destruct width as [| [| [| [| width]]]];
    cbn [take continuation] in Hc; repeat (case_match; [| discriminate Hc]);
    try discriminate Hc; unfold utf8Sequence in Hs; repeat case_match; simplify_eq; cbn [take];
    first [apply rune2; lia | apply rune3; lia | apply rune4; lia].
Qed.

Lemma sequence_three b :
  (0xe0 <= b <= 0xef)%N -> exists lo hi, utf8Sequence b = (3%nat, lo, hi) /\
    forall b1, (0x80 <= b1 <= 0xbf)%N -> (b = 0xe0 -> 0xa0 <= b1)%N -> (b = 0xed -> b1 <= 0x9f)%N ->
      (lo <=? b1)%N && (b1 <=? hi)%N = true.
Proof.
  intros Hb. unfold utf8Sequence. repeat case_match; try lia; eexists _, _; (split; [done |]); lia.
Qed.

Lemma sequence_four b :
  (0xf0 <= b <= 0xf4)%N -> exists lo hi, utf8Sequence b = (4%nat, lo, hi) /\
    forall b1, (0x80 <= b1 <= 0xbf)%N -> (b = 0xf0 -> 0x90 <= b1)%N -> (b = 0xf4 -> b1 <= 0x8f)%N ->
      (lo <=? b1)%N && (b1 <=? hi)%N = true.
Proof.
  intros Hb. unfold utf8Sequence. repeat case_match; try lia; eexists _, _; (split; [done |]); lia.
Qed.

(** Conversely, the encoding of a scalar value is accepted as it is. *)
Lemma utf8_loop_rune n rest :
  scalar n -> utf8_loop 0 (encode_rune n ++ rest) = encode_rune n ++ utf8_loop 0 rest.
Proof.
  unfold scalar, encode_rune, utf8_bytes. intros Hn.
  destruct (split64 n) as (q & r & -> & Hr & Hq & Hrm). rewrite Hq, Hrm.
  destruct (split64 q) as (q' & t & -> & Ht & Hq' & Htm). rewrite Hq', Htm.
  destruct (split64 q') as (q'' & u & -> & Hu & Hq'' & Hum). rewrite Hq'', Hum.
  assert (forall more lo hi c tail, utf8Sequence (N_of_ascii c) = (S more, lo, hi) ->
    (0x80 <= N_of_ascii c)%N -> length tail = more -> continuation lo hi tail = more ->
    utf8_loop 0 ((c :: tail) ++ rest) = (c :: tail) ++ utf8_loop 0 rest) as Hstep.
  { intros more lo hi c tail Hs Hc Hlen Hg. cbn [app utf8_loop].
    replace (N_of_ascii c <? 0x80)%N with false by lia. rewrite Hs, <- Hlen, take_app_length, Hlen, Hg.
    rewrite Nat.eqb_refl, <- Hlen, take_app_length. f_equal. f_equal.
    clear. induction tail as [| x tail IH]; [done |]. cbn. exact IH. }
  repeat case_match; cbn [map].
  - cbn [app utf8_loop]. rewrite byte_round by lia. by replace (_ <? 0x80)%N with true by lia.
  - apply (Hstep 1%nat 0x80%N 0xbf%N); [| rewrite byte_round by lia; lia | done |].
    + rewrite byte_round by lia. unfold utf8Sequence. by repeat (case_match; [| lia]).
    + cbn [continuation]. rewrite byte_round by lia. by replace (_ && _) with true by lia.
  - destruct (sequence_three (N_of_ascii (ascii_of_N (0xE0 + (q'' * 64 + u))))) as (lo & hi & Hs & Hin).
    { rewrite byte_round by lia. lia. }
    apply (Hstep 2%nat lo hi); [exact Hs | rewrite byte_round by lia; lia | done |].
    cbn [continuation]. rewrite Hin, byte_round by (rewrite ?byte_round by lia; lia).
    by replace ((_ <=? _)%N && (_ <=? _)%N) with true by lia.
  - destruct (sequence_four (N_of_ascii (ascii_of_N (0xF0 + q'')))) as (lo & hi & Hs & Hin).
    { rewrite byte_round by lia. lia. }
    apply (Hstep 3%nat lo hi); [exact Hs | rewrite byte_round by lia; lia | done |].
    cbn [continuation]. rewrite Hin, !byte_round by (rewrite ?byte_round by lia; lia).
    by repeat (replace ((_ <=? _)%N && (_ <=? _)%N) with true by lia).
Qed.

Lemma utf8_loop_well_formed skip v : well_formed_utf8 (utf8_loop skip v).
Proof.
  assert (forall s, well_formed_utf8 s -> well_formed_utf8 (RuneError ++ s)) as Herr.
  { intros s. apply (well_formed_cons 0xFFFD). unfold scalar. lia. }
  revert skip. induction v as [| c v IH]; intros skip; cbn [utf8_loop]; [apply well_formed_nil |].
  destruct skip as [| skip]; [| apply IH].
  destruct (N_of_ascii c <? 0x80)%N eqn:Hc.
  { assert (encode_rune (N_of_ascii c) = [c]) as Hr.
    { unfold encode_rune, utf8_bytes. rewrite Hc. cbn [map]. by rewrite ascii_N_embedding. }
    change (c :: utf8_loop 0 v) with ([c] ++ utf8_loop 0 v). rewrite <- Hr.
    apply well_formed_cons; [unfold scalar; lia | apply IH]. }
  destruct (utf8Sequence (N_of_ascii c)) as [[[| more] lo] hi] eqn:Hs; [by apply Herr |].
  cbv zeta. destruct (Nat.eqb_spec (continuation lo hi (take more v)) more) as [Hg | Hg]; [| by apply Herr].
  destruct (sequence_rune c v more lo hi Hs Hg) as (n & Hn & Henc). rewrite Hg.
  rewrite app_comm_cons, <- Henc. by apply well_formed_cons.
Qed.

Lemma utf8_loop_id v : well_formed_utf8 v -> utf8_loop 0 v = v.
Proof.
  intros (runes & Hr & ->). induction Hr as [| n runes Hn _ IH]; [done |]. cbn [flat_map].
  by rewrite utf8_loop_rune, IH.
Qed.

(** The repair of query text.  [decodeUTF8WithReplacement] always returns
    well-formed UTF-8, and changes exactly the inputs that are not. *)
Theorem decodeUTF8WithReplacement_exact v :
  well_formed_utf8 (decodeUTF8WithReplacement v) /\
  (decodeUTF8WithReplacement v = v <-> well_formed_utf8 v).
Proof.
  split; [apply utf8_loop_well_formed |]. split; [| apply utf8_loop_id].
  intros <-. apply utf8_loop_well_formed.
Qed.

(** ** The form codec *)

Lemma form_decode_char c rest : form_decode (form_encode_char c ++ rest) = c :: form_decode rest.
Proof. by all_ascii c. Qed.

Lemma form_decode_encode v : form_decode (formPercentEncode v) = v.
Proof.
  induction v as [| c v IH]; [done |]. cbn [formPercentEncode flat_map]. fold (formPercentEncode v).
  by rewrite form_decode_char, IH.
Qed.

(** The form codec.  Decoding what [formPercentEncode] writes gives the
    text back up to the repair of UTF-8, the encoder is injective, and the
    normal form it computes of a raw name or value is stable: normalizing it
    again changes nothing. *)
Theorem form_codec v :
  decodeFormComponent (formPercentEncode v) = decodeUTF8WithReplacement v /\
  (forall w, formPercentEncode v = formPercentEncode w -> v = w) /\
  formPercentEncode (decodeFormComponent (formPercentEncode (decodeFormComponent v))) =
    formPercentEncode (decodeFormComponent v).
Proof.
  assert (forall w, decodeFormComponent (formPercentEncode w) = decodeUTF8WithReplacement w) as Hdec.
  { intros w. unfold decodeFormComponent. by rewrite form_decode_encode. }
  split; [apply Hdec |]. split.
  - intros w Hw. rewrite <- (form_decode_encode v), Hw. apply form_decode_encode.
  - rewrite Hdec. f_equal. apply utf8_loop_id, utf8_loop_well_formed.
Qed.

(** ** The value of [@query-param] *)

(** The decoded pairs of a query, empty segments left out. *)
Definition query_pairs (rawQuery : gostring) : list (gostring * gostring) :=
  map (fun segment =>
         let '(name, value, _) := Cut segment "=" in
         (decodeFormComponent name, decodeFormComponent value))
    (List.filter (fun segment => segment <>s []) (Split rawQuery "&")).

(** The pairs with an encoded name. *)
Definition named (encodedName : gostring) (pairs : list (gostring * gostring))
  : list (gostring * gostring) :=
  List.filter (fun '(n, _) => formPercentEncode n =s encodedName) pairs.

Lemma Cut_missing s sep before after :
  Cut s sep = (before, after, false) -> after = [].
Proof.
  revert before after. induction s as [| c s IH]; intros before after; cbn [Cut]; [by intros [= <- <-] |].
  case_match; [done |]. destruct (Cut s sep) as [[b a] []]; [done |]. intros [= <- <-]. by eapply IH.
Qed.

Lemma query_matches_spec encodedName found count segments :
  query_matches encodedName found count segments =
  let matching := named encodedName
    (map (fun segment =>
            let '(name, value, _) := Cut segment "=" in
            (decodeFormComponent name, decodeFormComponent value))
       (List.filter (fun segment => segment <>s []) segments)) in
  (match list.last matching with Some (_, v) => formPercentEncode v | None => found end,
   (count + length matching)%nat).
Proof.
  revert found count. induction segments as [| s l IH]; intros found count; cbn [query_matches].
  { cbn. by rewrite Nat.add_0_r. }
  cbn [List.filter]. destruct (s =s []) eqn:Hs; cbn [negb]; [apply IH |]. cbn [map].
  destruct (Cut s "=") as [[name value] has] eqn:Hc. cbn zeta.
  assert ((if has then value else []) = value) as ->.
  { destruct has; [done |]. symmetry. by eapply Cut_missing. }
  cbn [named List.filter]. destruct (formPercentEncode (decodeFormComponent name) =s encodedName) eqn:Hn;
    [| apply IH].
  rewrite IH. cbn zeta. unfold named. cbn [length]. rewrite list.last_cons.
  f_equal; [by case_match | lia].
Qed.

(** C37: what [@query-param] resolves to.  [queryParameter] succeeds exactly when
    the query fits a third of the budget and exactly one decoded pair has a
    name whose normal form is the requested one; the value is the normal form
    of the decoded value of that pair, and it fits the budget. *)
Theorem queryParameter_exact rawQuery encodedName maxBytes value :
  queryParameter rawQuery encodedName maxBytes = Ok value <->
  rawQuery <> [] /\ len rawQuery <= Z.quot maxBytes 3 /\ len value <= maxBytes /\
  exists name v, named encodedName (query_pairs rawQuery) = [(name, v)] /\ value = formPercentEncode v.
Proof.
  unfold queryParameter. rewrite query_matches_spec. cbv zeta. fold (query_pairs rawQuery).
  case_bool_decide as Hq; [naive_solver |].
  destruct (Z.quot maxBytes 3 <? len rawQuery) eqn:Hb.
  { split; [done |]. intros (_ & ? & _). lia. }
  destruct (named encodedName (query_pairs rawQuery)) as [| [n v] [| p l]]; cbn -[Z.ltb].
  - split; [done |]. naive_solver.
  - destruct (maxBytes <? len (formPercentEncode v)) eqn:Hv.
    + split; [done |]. intros (_ & _ & Hle & n' & v' & [= <- <-] & ->). lia.
    + split.
      * intros [= <-]. repeat (split; [done || lia |]). eauto.
      * intros (_ & _ & _ & n' & v' & [= <- <-] & ->). done.
  - split; [done |]. naive_solver.
Qed.
