(* ===== verification/MessageBase.v ===== *)
(** * The signature base (message.go, lines 99-416 and 1172-1312)

    Resolution of one covered component and the construction of the RFC 9421
    signature base under an explicit size limit. *)

From S2P Require Import Prelude GoStrings Errors Httpsfv StructuredFieldSafe SignatureFields.
From S2P Require Import HttpTypes MessageLimits MessageFields MessageDerived.
Open Scope Z_scope.

Definition DefaultMaxSignatureBaseBytes : Z := Z.shiftl 1 20.

(** ** Component parameters *)

Definition set_flag (flag : gostring) (r : componentParameters) : componentParameters :=
  mkComponentParameters (bs r || (flag =s "bs")) (sf r || (flag =s "sf")) (tr r || (flag =s "tr"))
    (req r || (flag =s "req")) (key r) (name r) (hasKey r) (hasName r).

Definition set_key (v : gostring) (r : componentParameters) : componentParameters :=
  mkComponentParameters (bs r) (sf r) (tr r) (req r) v (name r) true (hasName r).

Definition set_name (v : gostring) (r : componentParameters) : componentParameters :=
  mkComponentParameters (bs r) (sf r) (tr r) (req r) (key r) v (hasKey r) true.

Fixpoint parameter_set (result : componentParameters) (parameters : list Param)
  : res componentParameters :=
  match parameters with
  | [] => Ok result
  | parameter :: rest =>
      if name_in (ParamName parameter) [str "bs"; str "sf"; str "tr"; str "req"] then
        if is_true (ParamValue parameter) then parameter_set (set_flag (ParamName parameter) result) rest
        else Err (New "flag parameter is not true")
      else if ParamName parameter =s "key" then
        match ParamValue parameter with
        | AString value => parameter_set (set_key value result) rest
        | _ => Err (New "key parameter is not a string")
        end
      else if ParamName parameter =s "name" then
        match ParamValue parameter with
        | AString value => parameter_set (set_name value result) rest
        | _ => Err (New "name parameter is not a string")
        end
      else Err (New "unknown component parameter")
  end.

Definition componentParameterSet (parameters : list Param) : res componentParameters :=
  let? result := parameter_set noParameters parameters in
  if bs result && (sf result || hasKey result) then Err (New "bs is incompatible with sf and key")
  else Ok result.

Section Base.
Context `{SFV : Httpsfv} `{UC : UnicodeCase} `{NU : NetURL}.

(** ** Derived components *)

Definition derived_value (component : gostring) (parts : normalizedRequestParts) : gostring :=
  if component =s "@target-uri" then scheme parts ++ str "://" ++ authority parts ++ originTarget parts
  else if component =s "@authority" then authority parts
  else if component =s "@scheme" then scheme parts
  else if component =s "@request-target" then requestTarget parts
  else if component =s "@path" then path parts
  else if component =s "@query" then "?"%char :: rawQuery parts
  else [].

Definition resolveDerived (context : MessageContext) (component : gostring)
  (parameters : componentParameters) (maxBytes : Z) : res gostring :=
  if bs parameters || sf parameters || tr parameters || hasKey parameters
  then Err (New "field parameter used on derived component")
  else if (component <>s "@query-param") && hasName parameters
  then Err (New "name parameter used outside @query-param")
  else
    let requested := requestForComponent context (req parameters) in
    if negb (is_Ok requested) && (component <>s "@status")
    then match requested with Err err => Err err | Ok _ => Err (New "unreachable") end
    else
      let request := match requested with Ok r => Some r | Err _ => None end in
      if component =s "@method" then
        match request with
        | None => Err (New "unreachable")
        | Some request =>
            if maxBytes <? len (Method request) then Err (Sentinel ErrSignatureBaseLimit)
            else if negb (validHTTPToken (Method request)) then Err (New "request method is invalid")
            else Ok (Method request)
        end
      else if name_in component [str "@target-uri"; str "@authority"; str "@scheme";
                                 str "@request-target"; str "@path"; str "@query";
                                 str "@query-param"] then
        if negb (derivedSourceFits request (externalForRequest context request) component maxBytes)
        then Err (Sentinel ErrSignatureBaseLimit)
        else
          let? parts := requestParts request (externalForRequest context request) in
          if component <>s "@query-param" then Ok (derived_value component parts)
          else if negb (hasName parameters) then Err (New "@query-param requires name")
          else queryParameter (rawQuery parts) (name parameters) maxBytes
      else if component =s "@status" then
        if req parameters || hasName parameters then Err (New "@status has invalid parameters")
        else
          match MessageResponse context with
          | None => Err (New "@status requires a valid response")
          | Some response =>
              if (StatusCode response <? 100) || (599 <? StatusCode response)
              then Err (New "@status requires a valid response")
              else Ok (Itoa (StatusCode response))
          end
      else Err (New "unknown derived component").

(** ** Fields *)

Definition strictStructuredField (values : list gostring) (fieldType : StructuredFieldType)
  : res gostring :=
  let parsed : res (StructuredFieldValue Params Dictionary) :=
    match fieldType with
    | StructuredFieldDictionary =>
        let? d := unmarshalStructuredDictionary (normalizeStructuredFieldOWS values) in
        Ok (SFDictionary d)
    | StructuredFieldList =>
        let? l := unmarshalStructuredList (normalizeStructuredFieldOWS values) in Ok (SFList l)
    | StructuredFieldItem =>
        let? i := unmarshalStructuredItem (normalizeStructuredFieldOWS values) in Ok (SFItem i)
    | StructuredFieldUnknown => Err (New "unknown structured field type")
    end in
  match fieldType, parsed with
  | StructuredFieldUnknown, _ => Err (New "unknown structured field type")
  | _, Err _ => Err (New "malformed structured field")
  | _, Ok value =>
      if negb (isRFC8941StructuredField value)
      then Err (New "structured field uses RFC 9651-only value")
      else marshalRFC8941 value
  end.

Definition marshalMember (member : Member Params) : res gostring :=
  let dictionary := om_Add (om_New : Dictionary) "x" member in
  let? serialized := marshalRFC8941 (SFDictionary dictionary) in
  match CutPrefix serialized "x=" with
  | Some value => Ok value
  | None => Ok (str "?1" ++ TrimPrefix serialized "x")
  end.

Fixpoint normalize_all (f : gostring -> res gostring) (values : list gostring)
  : res (list gostring) :=
  match values with
  | [] => Ok []
  | value :: rest => let? v := f value in let? vs := normalize_all f rest in Ok (v :: vs)
  end.

Definition wrap_binary (value : gostring) : gostring := ":"%char :: StdEncode value ++ [":"%char].

(** The cookie check of [resolveField]. *)
Definition check_cookie (values : list gostring) : res () :=
  match values with
  | [value] =>
      let? normalizedCookie := normalizeFieldValue value in
      match canonicalCookieValue normalizedCookie with
      | Some canonicalCookie =>
          if canonicalCookie =s normalizedCookie then Ok ()
          else Err (New "cookie coverage requires canonical semicolon spacing")
      | None => Err (New "cookie coverage requires canonical semicolon spacing")
      end
  | _ => Err (New "cookie coverage requires one canonical field value")
  end.

Definition field_values (context : MessageContext) (field : gostring)
  (parameters : componentParameters) (requestOwned : bool) : res (list gostring) :=
  match managedFieldValues context field parameters requestOwned with
  | Some values => values
  | None =>
      let header :=
        match headerForComponent context (req parameters) (tr parameters) with
        | Ok h => h | Err _ => ∅ end in
      caseInsensitiveHeaderValues header field
  end.

(** The end of [resolveField], from the choice of representation on. *)
Definition render_field (context : MessageContext) (field : gostring)
  (parameters : componentParameters) (values : list gostring) : res gostring :=
  if bs parameters then
    let? normalized := normalize_all normalizeFieldBytes values in
    Ok (Join (map wrap_binary normalized) ", ")
  else
    let? normalized := normalize_all normalizeFieldValue values in
    if hasKey parameters then
      match unmarshalStructuredDictionary normalized with
      | Err _ => Err (New "covered dictionary field is malformed")
      | Ok dictionary =>
          if negb (isRFC8941StructuredField (SFDictionary dictionary))
          then Err (New "covered dictionary field is malformed")
          else
            match om_Get dictionary (key parameters) with
            | None => Err (New "covered dictionary member is absent")
            | Some member => marshalMember member
            end
      end
    else if sf parameters then
      match StructuredFields context !! ToLower field with
      | None => Err (New "structured field type is unknown")
      | Some fieldType => strictStructuredField normalized fieldType
      end
    else Ok (Join normalized ", ").

Definition resolveField (context : MessageContext) (field : gostring)
  (parameters : componentParameters) (maxBytes : Z) : res gostring :=
  if hasName parameters then Err (New "name parameter used on field")
  else
    let requestOwned :=
      negb (tr parameters) && (req parameters || negb (is_nil (MessageRequest context))) in
    let? values := field_values context field parameters requestOwned in
    if len values =? 0 then Err (New "covered field is absent")
    else if negb (bs parameters) && EqualFold field "set-cookie" && negb (len values =? 1)
    then Err (New "multiple Set-Cookie fields require binary wrapping")
    else
      let? _ :=
        if requestOwned && EqualFold field "cookie" && negb (bs parameters)
        then check_cookie values else Ok () in
      if negb (fieldValuesFit values (bs parameters) maxBytes)
      then Err (Sentinel ErrSignatureBaseLimit)
      else if negb (componentHTTPMajor context (req parameters) =? 1) &&
              existsb (fun value => ContainsAny value [c_cr; c_lf]) values
      then Err (New "field value contains HTTP/1.1-only line folding")
      else render_field context field parameters values.

Definition resolveComponent (context : MessageContext) (component : ComponentIdentifier)
  (maxBytes : Z) : res gostring :=
  if ComponentName component =s "@signature-params"
  then Err (New "@signature-params cannot be covered explicitly")
  else
    let? parameters := componentParameterSet (ComponentParams component) in
    if HasPrefix (ComponentName component) "@"
    then resolveDerived context (ComponentName component) parameters maxBytes
    else resolveField context (ComponentName component) parameters maxBytes.

(** ** The base *)

(** [component.Name[0] == '@'] and the value check of derived components. *)
Definition derived_value_ok (component : ComponentIdentifier) (value : gostring) : bool :=
  if HasPrefix (ComponentName component) "@" && (ComponentName component <>s "@query-param")
  then validDerivedValue value else true.

(** One component line: the identifier, a colon and a space, the value, a
    line feed. *)
Definition base_line (identifier value : gostring) : gostring :=
  identifier ++ str ": " ++ value ++ [c_lf].

(** The loop of [CreateSignatureBase]; the result is what is written and the
    budget left. *)
Fixpoint base_lines (context : MessageContext) (seen : gset gostring) (remaining : Z)
  (components : list ComponentIdentifier) : res (gostring * Z) :=
  match components with
  | [] => Ok ([], remaining)
  | component :: rest =>
      if negb (structuredItemFits (ComponentName component) (ComponentParams component) remaining)
      then Err (Sentinel ErrSignatureBaseLimit)
      else
        match serializeComponentIdentifier component with
        | Err _ => Err (Wrap ErrSignatureBase)
        | Ok identifier =>
            let comparisonKey := comparison_key component in
            if bool_decide (comparisonKey ∈ seen) then Err (Wrap ErrSignatureBase)
            else
              match consumeSize remaining (saturatingSizeAdd (len identifier) (2 + 1)) with
              | None => Err (Sentinel ErrSignatureBaseLimit)
              | Some remaining =>
                  match resolveComponent context component remaining with
                  | Err err =>
                      if errors_Is err ErrSignatureBaseLimit
                      then Err (Sentinel ErrSignatureBaseLimit)
                      else Err (Wrap ErrSignatureBase)
                  | Ok value =>
                      if negb (derived_value_ok component value) then Err (Wrap ErrSignatureBase)
                      else
                        let? (text, budget) :=
                          base_lines context ({[comparisonKey]} ∪ seen)
                            (remaining - len value) rest in
                        Ok (base_line identifier value ++ text, budget)
                  end
              end
        end
  end.

Definition parameterPrefix : gostring := c_quote :: str "@signature-params" ++ [c_quote] ++ str ": ".

Definition ResponseTransport_out_of_range (m : ResponseTransportMode) : bool :=
  bool_decide (m = ResponseTransportInvalid).

Definition CreateSignatureBase (context : MessageContext) (input : SignatureInput)
  : res gostring :=
  if Bool.eqb (is_nil (MessageRequest context)) (is_nil (MessageResponse context))
  then Err (Wrap ErrSignatureBase)
  else if ResponseTransport_out_of_range (ResponseTransport context) ||
          negb (is_nil (MessageRequest context)) &&
          negb (bool_decide (ResponseTransport context = ResponseTransportUnspecified))
  then Err (Wrap ErrSignatureBase)
  else
    let limit := MaxSignatureBaseBytes context in
    let limit := if limit =? 0 then DefaultMaxSignatureBaseBytes else limit in
    if limit <? 0 then Err (Sentinel ErrSignatureBaseLimit)
    else
      let? (text, remaining) := base_lines context ∅ limit (Components input) in
      match consumeSize remaining (len parameterPrefix) with
      | None => Err (Sentinel ErrSignatureBaseLimit)
      | Some remaining =>
          if negb (signatureParametersFit input remaining)
          then Err (Sentinel ErrSignatureBaseLimit)
          else
            match serializeSignatureParameters input with
            | Err _ => Err (Wrap ErrSignatureBase)
            | Ok parameters => Ok (text ++ parameterPrefix ++ parameters)
            end
      end.
End Base.
