(* ===== verification/BaseFacts.v ===== *)
(** * Correctness of the signature base

    Header lookup, the safety of field values, the line structure of the base
    and what follows from it: no component can add a line, two equal bases
    have equal component values, and the base stays in its budget. *)

From S2P Require Import Prelude GoStrings Errors SyntaxLimits Httpsfv StructuredFieldSafe.
From S2P Require Import SignatureFields SerializationFacts HttpTypes MessageLimits SizeFacts.
From S2P Require Import MessageFields MessageDerived MessageBase.
Open Scope Z_scope.

(** ** Header lookup *)

(** The entries whose key is the wanted name. *)
Definition matching (wanted : gostring) (entries : list (gostring * list gostring)) :=
  List.filter (fun '(k, _) => EqualFold k wanted) entries.

Lemma ci_loop_matching (wanted : gostring) entries :
  (forall values, is_Ok (ci_loop wanted true values entries) = true <-> matching wanted entries = []) /\
  (forall values, matching wanted entries = [] -> ci_loop wanted true values entries = Ok values) /\
  (matching wanted entries = [] -> ci_loop wanted false [] entries = Ok []) /\
  (forall k v rest, matching wanted entries = (k, v) :: rest ->
     ci_loop wanted false [] entries =
     match rest with [] => Ok v | _ => Err (New "covered field has case-colliding map keys") end).
Proof.
  induction entries as [| [k v] l (IH1 & IH2 & IH3 & IH4)]; [repeat split; done |].
  cbn [ci_loop matching List.filter]. fold (matching wanted l).
  destruct (EqualFold k wanted) eqn:Hk; cbn [negb].
  - repeat split; try done. intros k' v' rest [= <- <- <-].
    destruct (matching wanted l) as [| [k2 v2] r] eqn:Hm; [by apply IH2 |].
    clear - Hm. revert v Hm. induction l as [| [k3 v3] l IH]; intros v Hm; [done |].
    cbn [ci_loop matching List.filter] in *. fold (matching wanted l) in *.
    destruct (EqualFold k3 wanted); cbn [negb]; [done |]. by apply IH.
  - repeat split; auto; apply IH1.
Qed.

Lemma elem_of_matching (wanted : gostring) (h : Header) k v :
  (k, v) ∈ matching wanted (map_to_list h) <-> h !! k = Some v /\ EqualFold k wanted = true.
Proof.
  unfold matching. rewrite list_elem_of_In, filter_In, <- list_elem_of_In, elem_of_map_to_list. done.
Qed.

Lemma caseInsensitiveHeaderValues_cases (h : Header) wanted :
  (caseInsensitiveHeaderValues h wanted = Ok [] /\
   (forall k, is_Some (h !! k) -> EqualFold k wanted = false)) \/
  (exists k v, caseInsensitiveHeaderValues h wanted = Ok v /\ h !! k = Some v /\
   EqualFold k wanted = true /\
   (forall k', is_Some (h !! k') -> EqualFold k' wanted = true -> k' = k)) \/
  (is_Ok (caseInsensitiveHeaderValues h wanted) = false /\
   exists k1 k2, k1 <> k2 /\ is_Some (h !! k1) /\ is_Some (h !! k2) /\
     EqualFold k1 wanted = true /\ EqualFold k2 wanted = true).
Proof.
  unfold caseInsensitiveHeaderValues.
  destruct (ci_loop_matching wanted (map_to_list h)) as (_ & _ & Hnil & Hcons).
  pose proof (elem_of_matching wanted h) as Hin.
  assert (NoDup (map fst (matching wanted (map_to_list h)))) as Hnd.
  { pose proof (NoDup_fst_map_to_list h) as Hnd. revert Hnd. unfold matching.
    generalize (map_to_list h). intros l. induction l as [| [k v] l IH]; [done |]. cbn.
    intros [Hn Hnd]%list.NoDup_cons. destruct (EqualFold k wanted); [| by apply IH].
    cbn. apply list.NoDup_cons. split; [| by apply IH].
    intros Hk. apply Hn. apply list_elem_of_In, in_map_iff in Hk as ([k' v'] & <- & Hk).
    apply filter_In in Hk as [Hk _]. apply list_elem_of_In, in_map_iff. by exists (k', v'). }
  destruct (matching wanted (map_to_list h)) as [| [k v] rest] eqn:Hm.
  - left. split; [by apply Hnil |]. intros k [v Hv]. apply not_true_is_false. intros Hf.
    assert ((k, v) ∈ @nil (gostring * list gostring)) as Hbad by (by apply Hin).
    by apply elem_of_nil in Hbad.
  - right. rewrite (Hcons k v rest eq_refl).
    destruct (proj1 (Hin k v) (list_elem_of_here _ _)) as [Hk Hkf]. destruct rest as [| [k2 v2] rest].
    + left. exists k, v. repeat split; try done. intros k' [v' Hk'] Hf.
      assert ((k', v') ∈ [(k, v)]) as Hx by (by apply Hin).
      apply list_elem_of_singleton in Hx. congruence.
    + right. split; [done |]. exists k, k2.
      assert ((k2, v2) ∈ (k, v) :: (k2, v2) :: rest) as Hx.
      { apply list_elem_of_further, list_elem_of_here. }
      apply Hin in Hx as [Hk2 Hf2].
      split; [| eauto 10]. cbn in Hnd. apply list.NoDup_cons in Hnd as [Hn _].
      intros ->. apply Hn, list_elem_of_here.
Qed.

(** Header lookup does not depend on Go's map iteration order.  It returns
    the values of the only key that folds to the wanted name, nothing when no
    key does, and fails when two keys collide - stated on the map alone. *)
Theorem caseInsensitiveHeaderValues_exact (h : Header) wanted :
  (caseInsensitiveHeaderValues h wanted = Ok [] /\
   (forall k, is_Some (h !! k) -> EqualFold k wanted = false)) \/
  (exists k v, caseInsensitiveHeaderValues h wanted = Ok v /\ h !! k = Some v /\
   EqualFold k wanted = true /\
   (forall k', is_Some (h !! k') -> EqualFold k' wanted = true -> k' = k)) \/
  (is_Ok (caseInsensitiveHeaderValues h wanted) = false /\
   exists k1 k2, k1 <> k2 /\ is_Some (h !! k1) /\ is_Some (h !! k2) /\
     EqualFold k1 wanted = true /\ EqualFold k2 wanted = true).
Proof. apply caseInsensitiveHeaderValues_cases. Qed.

(** ** Line breaks *)

Definition is_break (c : ascii) : bool := char_eqb c c_cr || char_eqb c c_lf.
(** No carriage return and no line feed. *)
Definition unbroken (s : gostring) : bool := forallb (fun c => negb (is_break c)) s.

Lemma ContainsAny_unbroken s : ContainsAny s [c_cr; c_lf] = negb (unbroken s).
Proof.
  unfold ContainsAny, unbroken. induction s as [| c s IH]; [done |]. cbn [existsb forallb].
  rewrite IH, negb_andb, negb_involutive. f_equal. unfold char_mem, is_break. cbn. by rewrite orb_false_r.
Qed.

Lemma printable_unbroken s : printable s = true -> unbroken s = true.
Proof. apply forallb_weaken. intros c. by all_ascii c. Qed.

Lemma unbroken_app s t : unbroken (s ++ t) = unbroken s && unbroken t.
Proof. apply forallb_app. Qed.

Lemma Join_unbroken l sep :
  Forall (fun s => unbroken s = true) l -> unbroken sep = true -> unbroken (Join l sep) = true.
Proof. apply Join_forallb. Qed.

Lemma normalizeFieldBytes_unbroken v s : normalizeFieldBytes v = Ok s -> unbroken s = true.
Proof.
  unfold normalizeFieldBytes. cbv zeta. destruct (ContainsAny _ _) eqn:Hc; [done |]. intros [= <-].
  rewrite ContainsAny_unbroken in Hc. by apply negb_false_iff in Hc.
Qed.

Lemma normalizeFieldValue_unbroken v s : normalizeFieldValue v = Ok s -> unbroken s = true.
Proof.
  intros (t & Ht & H)%rbind_Ok. destruct (negb (asciiString t)); [done |]. injection H as <-.
  by apply (normalizeFieldBytes_unbroken v).
Qed.

Lemma normalize_all_Ok f values normalized :
  normalize_all f values = Ok normalized -> Forall2 (fun v s => f v = Ok s) values normalized.
Proof.
  revert normalized. induction values as [| v l IH]; intros normalized; cbn [normalize_all].
  { intros [= <-]. constructor. }
  intros (s & Hs & (ss & Hss & [= <-])%rbind_Ok)%rbind_Ok. constructor; auto.
Qed.

Lemma normalize_all_unbroken f values normalized :
  (forall v s, f v = Ok s -> unbroken s = true) ->
  normalize_all f values = Ok normalized -> Forall (fun s => unbroken s = true) normalized.
Proof. intros Hf H%normalize_all_Ok. induction H; constructor; eauto. Qed.

Lemma validDerivedValue_unbroken v : validDerivedValue v = true -> unbroken v = true.
Proof.
  destruct v as [| c v]; [done |]. cbn [validDerivedValue]. destruct (_ || _); [done |].
  apply printable_unbroken.
Qed.

Lemma formPercentEncode_unbroken v : unbroken (formPercentEncode v) = true.
Proof.
  induction v as [| c v IH]; [done |]. cbn [formPercentEncode flat_map]. fold (formPercentEncode v).
  rewrite unbroken_app, IH, andb_true_r. by all_ascii c.
Qed.

Lemma query_matches_encoded encoded found n pairs :
  (exists v, found = formPercentEncode v) ->
  exists v, fst (query_matches encoded found n pairs) = formPercentEncode v.
Proof.
  revert found n. induction pairs as [| p l IH]; intros found n Hf; cbn [query_matches]; [done |].
  case_match; [by apply IH |]. destruct (Cut p "=") as [[a b] h]. cbv zeta.
  case_match; apply IH; eauto.
Qed.

Lemma queryParameter_unbroken raw encoded maxBytes v :
  queryParameter raw encoded maxBytes = Ok v -> unbroken v = true.
Proof.
  unfold queryParameter. case_match; [done |]. case_match; [done |].
  pose proof (query_matches_encoded encoded [] 0 (Split raw "&") (ex_intro _ [] eq_refl)) as [w Hw].
  destruct (query_matches _ _ _ _) as [found count]. cbn [fst] in Hw. subst found.
  case_match; [done |]. case_match; [done |]. intros [= <-]. apply formPercentEncode_unbroken.
Qed.

(** ** The value of a component *)

Section Base.
Context `{SFV : Httpsfv} `{UC : UnicodeCase} `{NU : NetURL} `{HL : !HttpsfvLaws}.

Lemma marshal_unbroken value s : marshalRFC8941 value = Ok s -> unbroken s = true.
Proof. intros H. by apply printable_unbroken, (marshalRFC8941_printable value). Qed.

Lemma strictStructuredField_unbroken values t s :
  strictStructuredField values t = Ok s -> unbroken s = true.
Proof.
  unfold strictStructuredField, rbind. intros H.
  repeat (case_match; simplify_eq); by eapply marshal_unbroken.
Qed.

Lemma CutPrefix_suffix s p r : CutPrefix s p = Some r -> s = p ++ r.
Proof.
  revert s. induction p as [| b p IH]; intros s; cbn [CutPrefix].
  { destruct s; by intros [= <-]. }
  destruct s as [| a s]; [done |]. cbn [CutPrefix]. destruct (char_eqb a b) eqn:Hab; [| done].
  apply char_eqb_eq in Hab as ->. intros Hr. cbn. f_equal. by apply IH.
Qed.

Lemma CutPrefix_unbroken s p r : CutPrefix s p = Some r -> unbroken s = true -> unbroken r = true.
Proof. intros -> %CutPrefix_suffix. rewrite unbroken_app. by intros [_ ?]%andb_true_iff. Qed.

Lemma marshalMember_unbroken m s : marshalMember m = Ok s -> unbroken s = true.
Proof.
  unfold marshalMember. intros (t & Ht%marshal_unbroken & H)%rbind_Ok.
  destruct (CutPrefix t "x=") as [v |] eqn:Hv.
  { injection H as <-. by apply (CutPrefix_unbroken t "x="). }
  injection H as <-. change (unbroken (TrimPrefix t "x") = true). unfold TrimPrefix.
  destruct (CutPrefix t "x") as [r |] eqn:Hr; cbn; [by apply (CutPrefix_unbroken t "x") | done].
Qed.

Lemma wrap_binary_unbroken v : unbroken (wrap_binary v) = true.
Proof. apply printable_unbroken, wrap_printable. Qed.

Lemma render_field_unbroken context field parameters values s :
  render_field context field parameters values = Ok s -> unbroken s = true.
Proof.
  unfold render_field. destruct (bs parameters).
  { intros (n & Hn & [= <-])%rbind_Ok. apply Join_unbroken; [| done].
    apply list.Forall_forall. intros x Hx. apply list_elem_of_In, in_map_iff in Hx as (v & <- & _).
    apply wrap_binary_unbroken. }
  intros (n & Hn & H)%rbind_Ok.
  apply (normalize_all_unbroken _ _ _ normalizeFieldValue_unbroken) in Hn.
  destruct (hasKey parameters).
  { destruct (unmarshalStructuredDictionary n) as [d |]; [| done].
    destruct (negb _); [done |]. destruct (om_Get d (key parameters)); [| done].
    by eapply marshalMember_unbroken. }
  destruct (sf parameters).
  { destruct (_ !! _); [| done]. by eapply strictStructuredField_unbroken. }
  injection H as <-. by apply Join_unbroken.
Qed.

Lemma resolveField_unbroken context field parameters maxBytes s :
  resolveField context field parameters maxBytes = Ok s -> unbroken s = true.
Proof.
  unfold resolveField. case_match; [done |]. cbv zeta. intros (values & _ & Hres)%rbind_Ok.
  case_match; [done |]. case_match; [done |]. apply rbind_Ok in Hres as (? & _ & Hres).
  case_match; [done |]. case_match; [done |]. by eapply render_field_unbroken.
Qed.

Lemma resolveDerived_query context name parameters maxBytes s :
  name = str "@query-param" ->
  resolveDerived context name parameters maxBytes = Ok s -> unbroken s = true.
Proof.
  intros ->. unfold resolveDerived. case_match; [done |]. case_match; [done |]. cbv zeta.
  case_match; [by case_match |].
  change (str "@query-param" =s "@method") with false. cbn iota.
  change (name_in (str "@query-param") _) with true. cbn iota.
  case_match; [done |]. intros (parts & _ & Hs)%rbind_Ok.
  change (str "@query-param" <>s "@query-param") with false in Hs. cbn iota in Hs.
  case_match; [done |]. by eapply queryParameter_unbroken.
Qed.

(** The value written for a component has no line break. *)
Lemma component_value_unbroken context c maxBytes v :
  resolveComponent context c maxBytes = Ok v -> derived_value_ok c v = true -> unbroken v = true.
Proof.
  unfold resolveComponent, derived_value_ok. case_match; [done |].
  intros (ps & _ & Hres)%rbind_Ok. revert Hres. destruct (HasPrefix (ComponentName c) "@") eqn:Hp; cbn [andb].
  - destruct (bool_decide (ComponentName c = str "@query-param")) eqn:Hq; cbn [negb].
    + apply bool_decide_eq_true in Hq. intros Hres _. by eapply resolveDerived_query.
    + intros _. apply validDerivedValue_unbroken.
  - intros Hres _. by eapply resolveField_unbroken.
Qed.

Lemma identifier_unbroken c s : serializeComponentIdentifier c = Ok s -> unbroken s = true.
Proof.
  unfold serializeComponentIdentifier. case_match; [done |]. case_match; [done |]. apply marshal_unbroken.
Qed.

Lemma parameters_unbroken input s : serializeSignatureParameters input = Ok s -> unbroken s = true.
Proof.
  unfold serializeSignatureParameters. case_match; [done |]. case_match; [done |]. apply marshal_unbroken.
Qed.

(** ** The lines of the base *)

(** One component of a base: its identifier, the budget at its turn, its
    value. *)
Record resolved_line (context : MessageContext) (c : ComponentIdentifier)
  (line : gostring * gostring) : Prop := {
  line_identifier : serializeComponentIdentifier c = Ok (fst line);
  line_value : exists maxBytes, resolveComponent context c maxBytes = Ok (snd line);
  line_unbroken : unbroken (fst line) = true /\ unbroken (snd line) = true
}.

Definition render_lines (lines : list (gostring * gostring)) : gostring :=
  mjoin (map (fun '(i, v) => base_line i v) lines).

Lemma base_lines_Ok context seen remaining components text budget :
  base_lines context seen remaining components = Ok (text, budget) ->
  exists lines, Forall2 (resolved_line context) components lines /\ text = render_lines lines /\
    (remaining < MaxInt -> budget <= remaining - len text) /\
    NoDup (map comparison_key components) /\
    (forall c, c ∈ components -> comparison_key c ∉ seen).
Proof.
  revert seen remaining text budget.
  induction components as [| c l IH]; intros seen remaining text budget; cbn [base_lines].
  { intros [= <- <-]. exists []. split; [constructor |]. split; [done |]. change (len []) with 0.
    split; [lia |]. split; [constructor |]. intros c Hc. by apply elem_of_nil in Hc. }
  destruct (structuredItemFits _ _ _); cbn [negb]; [| done].
  destruct (serializeComponentIdentifier c) as [i |] eqn:Hi; [| done]. cbv zeta.
  case_bool_decide as Hin; [done |].
  destruct (consumeSize remaining (saturatingSizeAdd (len i) (2 + 1))) as [r |] eqn:Hr; [| done].
  destruct (resolveComponent context c r) as [v | e] eqn:Hv; [| by case_match].
  destruct (derived_value_ok c v) eqn:Hd; cbn [negb]; [| done].
  intros ([t b] & Ht & [= <- <-])%rbind_Ok.
  destruct (IH _ _ _ _ Ht) as (lines & Hl & -> & Hb & Hnd & Hn).
  exists ((i, v) :: lines). split; [| split; [done |]; split].
  - constructor; [| done]. split; [done | by exists r |].
    split; [by eapply identifier_unbroken | by eapply component_value_unbroken].
  - unfold base_line. autorewrite with go_len. change (len (str ": ")) with 2.
    unfold consumeSize in Hr. destruct ((_ <? 0) || _) eqn:Hc; [done |]. injection Hr as <-.
    pose proof (len_nonneg i). pose proof (len_nonneg v). unfold saturatingSizeAdd, safeSizeAdd in *.
    intros Hmax. repeat case_match; simplify_eq; unfold MaxInt in *; lia.
  - cbn [map]. rewrite list.NoDup_cons. split; [split; [| done] |].
    + intros (c' & Heq & Hc')%list_elem_of_In%in_map_iff. apply list_elem_of_In in Hc'.
      specialize (Hn c' Hc'). rewrite Heq in Hn. set_solver.
    + intros c' Hc'. apply elem_of_cons in Hc' as [-> | Hc']; [done |].
      specialize (Hn c' Hc'). set_solver.
Qed.

(** The parts of a base. *)
Definition effective_limit (context : MessageContext) : Z :=
  if MaxSignatureBaseBytes context =? 0 then DefaultMaxSignatureBaseBytes
  else MaxSignatureBaseBytes context.

Lemma CreateSignatureBase_Ok context input base :
  CreateSignatureBase context input = Ok base ->
  exists lines parameters, Forall2 (resolved_line context) (Components input) lines /\
    serializeSignatureParameters input = Ok parameters /\
    base = render_lines lines ++ parameterPrefix ++ parameters /\
    NoDup (map comparison_key (Components input)) /\
    0 <= effective_limit context /\
    exists remaining, signatureParametersFit input remaining = true /\
      (effective_limit context < MaxInt ->
       len (render_lines lines) + len parameterPrefix + remaining <= effective_limit context) /\
      0 <= remaining.
Proof.
  unfold CreateSignatureBase. case_match; [done |]. case_match; [done |]. cbv zeta.
  fold (effective_limit context). destruct (effective_limit context <? 0) eqn:Hl; [done |].
  intros ([text r] & Ht & Hp)%rbind_Ok. apply base_lines_Ok in Ht as (lines & Hls & -> & Hb & Hnd & _).
  unfold consumeSize in Hp. destruct ((len parameterPrefix <? 0) || _) eqn:Hc; [done |].
  destruct (signatureParametersFit input _) eqn:Hf; cbn [negb] in Hp; [| done].
  destruct (serializeSignatureParameters input) as [ps |] eqn:Hps; [| done]. injection Hp as <-.
  exists lines, ps. repeat (split; [done |]). split; [lia |].
  exists (r - len parameterPrefix). split; [done |]. split; [| lia]. intros Hmax.
  specialize (Hb Hmax). lia.
Qed.

(** Lines without breaks are determined by their text. *)
Lemma unbroken_split s t r r' :
  unbroken s = true -> unbroken t = true -> s ++ [c_lf] ++ r = t ++ [c_lf] ++ r' -> s = t /\ r = r'.
Proof.
  revert t. induction s as [| c s IH]; intros [| d t] Hs Ht; cbn.
  - by intros [= ->].
  - intros [= <- _]. done.
  - intros [= -> _]. done.
  - intros [= -> H]. cbn in Hs, Ht. apply andb_true_iff in Hs as [_ Hs], Ht as [_ Ht].
    destruct (IH t Hs Ht H) as [-> ->]. done.
Qed.

Lemma render_lines_cons i v lines rest :
  render_lines ((i, v) :: lines) ++ rest = i ++ str ": " ++ v ++ [c_lf] ++ (render_lines lines ++ rest).
Proof.
  unfold render_lines at 1. cbn [map].
  change (mjoin (base_line i v :: ?l)) with (base_line i v ++ mjoin l). fold (render_lines lines).
  unfold base_line. by rewrite <- !app_assoc.
Qed.

(** Equal texts over the same components have equal values. *)
Lemma render_lines_inj m1 m2 components lines1 lines2 r1 r2 :
  Forall2 (resolved_line m1) components lines1 -> Forall2 (resolved_line m2) components lines2 ->
  render_lines lines1 ++ r1 = render_lines lines2 ++ r2 -> lines1 = lines2 /\ r1 = r2.
Proof.
  intros H1. revert lines2. induction H1 as [| c [i v] l ls Hc _ IH]; intros lines2 H2 Heq.
  { inversion H2; subst. done. }
  inversion H2 as [| ? [i' v'] ? ls' Hc' Hls']; subst. rewrite !render_lines_cons in Heq.
  destruct Hc as [Hi _ [_ Hv]], Hc' as [Hi' _ [_ Hv']]. cbn [fst snd] in *.
  assert (i' = i) as -> by congruence. apply app_inv_head in Heq. apply app_inv_head in Heq.
  apply unbroken_split in Heq as [-> Heq]; [| done | done].
  destruct (IH ls' Hls' Heq) as [-> ->]. done.
Qed.

(** ** Properties *)

(** The line breaks of a string. *)
Definition breaks (s : gostring) : nat := length (List.filter is_break s).

Lemma unbroken_breaks s : unbroken s = true -> breaks s = 0%nat.
Proof.
  unfold breaks. induction s as [| c s IH]; [done |]. cbn. destruct (is_break c); [done |]. apply IH.
Qed.

Lemma breaks_app s t : breaks (s ++ t) = (breaks s + breaks t)%nat.
Proof. unfold breaks. by rewrite List.filter_app, length_app. Qed.

Lemma breaks_render context components lines rest :
  Forall2 (resolved_line context) components lines ->
  breaks (render_lines lines ++ rest) = (length components + breaks rest)%nat.
Proof.
  induction 1 as [| c [i v] l ls [_ _ [Hi Hv]] _ IH]; [done |]. cbn [fst snd] in *.
  rewrite render_lines_cons, (breaks_app i), (breaks_app (str ": ")), (breaks_app v), (breaks_app [c_lf]).
  rewrite IH, (unbroken_breaks i), (unbroken_breaks v) by done.
  change (breaks (str ": ")) with 0%nat. change (breaks [c_lf]) with 1%nat. cbn [length]. lia.
Qed.

(** C10: a component cannot inject a line.  A successful base consists of one
    line per covered component - the serialized identifier, a colon and a
    space, and a value the resolver returned - followed by the signature
    parameters; and it has exactly one line break per component, whatever
    the message and the input contain. *)
Theorem base_structure context input base :
  CreateSignatureBase context input = Ok base ->
  (exists lines parameters, Forall2 (resolved_line context) (Components input) lines /\
     serializeSignatureParameters input = Ok parameters /\
     base = render_lines lines ++ parameterPrefix ++ parameters) /\
  breaks base = length (Components input).
Proof.
  intros (lines & ps & Hl & Hps & -> & _)%CreateSignatureBase_Ok. split; [eauto |].
  rewrite (breaks_render context (Components input)) by done. rewrite breaks_app.
  rewrite (unbroken_breaks ps) by (by eapply parameters_unbroken).
  change (breaks parameterPrefix) with 0%nat. lia.
Qed.

(** C9: the base commits to every covered value.  If two messages (or the
    same message with two inputs) have the same signature base and the
    inputs cover the same components, then the serialized parameters are
    equal and every covered component resolves to the same value in both. *)
Theorem base_commits context1 context2 input1 input2 base :
  CreateSignatureBase context1 input1 = Ok base ->
  CreateSignatureBase context2 input2 = Ok base ->
  Components input1 = Components input2 ->
  serializeSignatureParameters input1 = serializeSignatureParameters input2 /\
  forall c, c ∈ Components input1 -> exists v max1 max2,
    resolveComponent context1 c max1 = Ok v /\ resolveComponent context2 c max2 = Ok v.
Proof.
  intros (l1 & p1 & H1 & Hp1 & -> & _)%CreateSignatureBase_Ok
    (l2 & p2 & H2 & Hp2 & Heq & _)%CreateSignatureBase_Ok Hc.
  rewrite <- Hc in H2. destruct (render_lines_inj _ _ _ _ _ _ _ H1 H2 Heq) as [-> Hp].
  apply app_inv_head in Hp as ->. split; [congruence |]. intros c Hin.
  apply list_elem_of_lookup in Hin as [n Hn].
  destruct (Forall2_lookup_l _ _ _ _ _ H1 Hn) as (line & Hline & [_ [max1 Hm1] _]).
  destruct (Forall2_lookup_l _ _ _ _ _ H2 Hn) as (line' & Hline' & [_ [max2 Hm2] _]).
  assert (line' = line) as -> by congruence. eauto.
Qed.

(** No component is covered twice: a successful base has pairwise
    different component identities, up to the order of parameters, and none
    of them is @signature-params. *)
Theorem base_components_distinct context input base :
  CreateSignatureBase context input = Ok base ->
  NoDup (map comparison_key (Components input)) /\
  Forall (fun c => ComponentName c <> str "@signature-params") (Components input).
Proof.
  intros (lines & ps & Hl & _ & _ & Hnd & _)%CreateSignatureBase_Ok. split; [done |].
  clear Hnd. induction Hl as [| c line l ls [_ [max Hv] _] _ IH]; constructor; [| done].
  unfold resolveComponent in Hv. case_bool_decide; [done | done].
Qed.

(** C38: the limit bounds the complete base.  A successful base is at most
    [MaxSignatureBaseBytes] long (one mebibyte when it is zero), although the
    parameter line is only estimated before it is written and a value may
    exceed the budget of its turn; the limit is below [math.MaxInt], where
    sizes saturate. *)
Theorem base_within_limit context input base :
  CreateSignatureBase context input = Ok base ->
  effective_limit context < MaxInt ->
  len base <= effective_limit context.
Proof.
  intros (lines & ps & _ & Hps & -> & _ & _ & r & Hf & Hle & Hr)%CreateSignatureBase_Ok Hmax.
  specialize (Hle Hmax). rewrite !len_app.
  pose proof (signatureParametersFit_sound input r ps) as Hs.
  pose proof (len_nonneg (render_lines lines)). pose proof (len_nonneg parameterPrefix).
  specialize (Hs ltac:(lia) Hf Hps). lia.
Qed.
End Base.
