(* ===== verification/GoTime.v ===== *)
(** * Instants and durations

    Go's [time.Time] is an instant: nanoseconds since January 1 of the year 1
    (UTC), whose value zero is the zero time.  A [time.Duration] is an [int64]
    number of nanoseconds, and [Sub] saturates at its ends.  Go counts the
    seconds of an instant in an [int64]; the instants of this program (clock
    readings, key lifetimes, and seconds of a structured-field integer, of
    fifteen digits at most) stay far inside that range, so an instant is an
    unbounded integer here. *)

From S2P Require Import Prelude.
Open Scope Z_scope.

Abbreviation Time := Z.
Abbreviation Duration := Z.

Definition Second : Duration := 1000000000.
Definition maxDuration : Duration := 2 ^ 63 - 1.
Definition minDuration : Duration := - 2 ^ 63.

(** Seconds between January 1 of the years 1 and 1970. *)
Definition unixToInternal : Z := 62135596800.

Definition IsZero (t : Time) : bool := t =? 0.
Definition Before (t u : Time) : bool := t <? u.
Definition After (t u : Time) : bool := u <? t.
Definition Add (t : Time) (d : Duration) : Time := t + d.

(** [Time.Sub] saturates. *)
Definition Sub (t u : Time) : Duration := Z.max minDuration (Z.min maxDuration (t - u)).

(** [time.Unix(sec, 0)] and [Time.Unix]. *)
Definition time_Unix (sec : Z) : Time := (sec + unixToInternal) * Second.
Definition Unix (t : Time) : Z := t / Second - unixToInternal.

Lemma Unix_time_Unix sec : Unix (time_Unix sec) = sec.
Proof. unfold Unix, time_Unix, Second. rewrite Z.div_mul by lia. lia. Qed.

(** Signing truncates to whole seconds: a created time is never in the future
    of the clock and lags it by less than a second. *)
Lemma time_Unix_Unix t : time_Unix (Unix t) <= t < time_Unix (Unix t) + Second.
Proof.
  unfold Unix, time_Unix, Second.
  pose proof (Z.div_mod t 1000000000 ltac:(lia)). pose proof (Z.mod_pos_bound t 1000000000 ltac:(lia)).
  lia.
Qed.

(** Before saturation, [Sub] is the difference. *)
Lemma Sub_le t u d : minDuration <= d < maxDuration -> (Sub t u <= d <-> t - u <= d).
Proof. unfold Sub, minDuration, maxDuration. lia. Qed.
