(* ===== verification/Heap.v ===== *)
(** * container/heap over an interface

    Go's [container/heap] algorithms ([Push], [Pop], [Fix], with [up] and
    [down]) on any type that implements [heap.Interface].  [HeapInterface] has
    the methods; a method that panics, as an index out of range does, returns
    [None].  [HeapLaws] states what an implementation promises; the theorems
    are proved against it: the algorithms never panic, restore the heap order,
    and change the collection only through [Swap]. *)

From S2P Require Import Prelude.
Open Scope nat_scope.

Class HeapInterface (H : Type) := {
  Len : H -> nat;
  Less : H -> nat -> nat -> option bool;
  Swap : H -> nat -> nat -> option H
}.

(** The parent of a position: Go's [(j - 1) / 2], which is 0 for [j = 0]. *)
Definition parent (j : nat) : nat := (j - 1) / 2.

Section Algorithms.
Context {H : Type} `{HeapInterface H}.

(** [up(h, j)].  The position decreases, so [S j] is enough fuel. *)
Fixpoint up_loop (fuel : nat) (h : H) (j : nat) : option H :=
  match fuel with
  | O => None
  | S f =>
      let i := parent j in
      if Nat.eqb i j then Some h
      else
        less ← Less h j i;
        if negb less then Some h
        else h ← Swap h i j; up_loop f h i
  end.
Definition up (h : H) (j : nat) : option H := up_loop (S j) h j.

(** [down(h, i0, n)]: the final position is returned with the heap.  The
    position increases below [n], so [S n] is enough fuel. *)
Fixpoint down_loop (fuel : nat) (h : H) (i n : nat) : option (H * nat) :=
  match fuel with
  | O => None
  | S f =>
      let j1 := 2 * i + 1 in
      if n <=? j1 then Some (h, i)
      else
        let j2 := j1 + 1 in
        j ← (if j2 <? n then less ← Less h j2 j1; Some (if less : bool then j2 else j1)
             else Some j1);
        less ← Less h j i;
        if negb less then Some (h, i)
        else h ← Swap h i j; down_loop f h j n
  end.
Definition down (h : H) (i0 n : nat) : option (H * bool) :=
  '(h, i) ← down_loop (S n) h i0 n; Some (h, i0 <? i).

(** [heap.Fix(h, i)]. *)
Definition Fix (h : H) (i : nat) : option H :=
  '(h, moved) ← down h i (Len h);
  if (moved : bool) then Some h else up h i.

(** [heap.Push] after [h.Push(x)], and [heap.Pop] before [h.Pop()]. *)
Definition after_Push (h : H) : option H := up h (Len h - 1).
Definition before_Pop (h : H) : option H :=
  let n := Len h - 1 in
  h ← Swap h 0 n;
  '(h, _) ← down h 0 n; Some h.
End Algorithms.

(** ** The contract of an implementation *)

Definition swapped (i j k : nat) : nat :=
  if Nat.eqb k i then j else if Nat.eqb k j then i else k.

Class HeapLaws (H : Type) `{HeapInterface H} := {
  heap_wf : H -> Prop;
  heap_key : H -> nat -> Z;
  Less_spec h i j :
    heap_wf h -> i < Len h -> j < Len h ->
    Less h i j = Some (heap_key h i <? heap_key h j)%Z;
  Swap_spec h i j :
    heap_wf h -> i < Len h -> j < Len h ->
    exists h', Swap h i j = Some h' /\ heap_wf h' /\ Len h' = Len h /\
      forall k, heap_key h' k = heap_key h (swapped i j k)
}.

(** ** Positions *)

Lemma parent_spec k : 0 < k -> k = 2 * parent k + 1 \/ k = 2 * parent k + 2.
Proof.
  intros Hk. unfold parent. pose proof (Nat.div_mod_eq (k - 1) 2).
  pose proof (Nat.mod_upper_bound (k - 1) 2 ltac:(lia)). lia.
Qed.

Lemma parent_lt k : 0 < k -> parent k < k.
Proof. intros Hk. pose proof (parent_spec k Hk). lia. Qed.

Lemma parent_0 : parent 0 = 0.
Proof. reflexivity. Qed.

Lemma parent_fix k : parent k = k -> k = 0.
Proof. destruct k; [done |]. pose proof (parent_lt (S k)). lia. Qed.

Lemma parent_child i k : 0 < k -> (parent k = i <-> k = 2 * i + 1 \/ k = 2 * i + 2).
Proof. intros Hk. pose proof (parent_spec k Hk). lia. Qed.

Lemma swapped_l i j : swapped i j i = j.
Proof. unfold swapped. by rewrite Nat.eqb_refl. Qed.

Lemma swapped_r i j : swapped i j j = i.
Proof. unfold swapped. rewrite Nat.eqb_refl. destruct (Nat.eqb_spec j i); congruence. Qed.

Lemma swapped_other i j k : k <> i -> k <> j -> swapped i j k = k.
Proof. intros. unfold swapped. destruct (Nat.eqb_spec k i), (Nat.eqb_spec k j); congruence. Qed.

Section Theorems.
Context {H : Type} `{HL : HeapLaws H}.

(** The heap order on the first [n] positions. *)
Definition ordered_upto (n : nat) (h : H) : Prop :=
  forall k, 0 < k < n -> (heap_key h (parent k) <= heap_key h k)%Z.
Definition ordered (h : H) : Prop := ordered_upto (Len h) h.

(** Around position [i] the children are at least the parent. *)
Definition bridged (n i : nat) (h : H) : Prop :=
  forall k, 0 < k < n -> 0 < i -> parent k = i -> (heap_key h (parent i) <= heap_key h k)%Z.

(** The order holds except that position [j] may be smaller than its parent. *)
Definition ordered_but_up (n j : nat) (h : H) : Prop :=
  (forall k, 0 < k < n -> k <> j -> (heap_key h (parent k) <= heap_key h k)%Z) /\ bridged n j h.

(** The order holds except on the edges of position [i]. *)
Definition ordered_but (n i : nat) (h : H) : Prop :=
  (forall k, 0 < k < n -> k <> i -> parent k <> i ->
     (heap_key h (parent k) <= heap_key h k)%Z) /\ bridged n i h.

(** What the algorithms leave unchanged: any reflexive and transitive
    relation that one [Swap] of two of the first [n] positions establishes. *)
Class SwapStable (n : nat) (R : H -> H -> Prop) : Prop := {
  stable_preorder :: PreOrder R;
  stable_swap h i j h' :
    heap_wf h -> n <= Len h -> i < n -> j < n -> Swap h i j = Some h' -> R h h'
}.

Context (n : nat) (R : H -> H -> Prop) `{!SwapStable n R}.

(** The common conclusion: the result is a well-formed heap of the same
    length reached by swaps. *)
Definition rearranged (h h' : H) : Prop := heap_wf h' /\ Len h' = Len h /\ R h h'.

Lemma rearranged_refl h : heap_wf h -> rearranged h h.
Proof. repeat split; done. Qed.

Lemma rearranged_trans h1 h2 h3 : rearranged h1 h2 -> rearranged h2 h3 -> rearranged h1 h3.
Proof. intros (? & ? & ?) (? & ? & ?). repeat split; [done | congruence | by etrans]. Qed.

Lemma Swap_rearranged h i j :
  heap_wf h -> n <= Len h -> i < n -> j < n ->
  exists h', Swap h i j = Some h' /\ rearranged h h' /\
    (forall k, heap_key h' k = heap_key h (swapped i j k)).
Proof.
  intros Hwf Hn Hi Hj.
  destruct (Swap_spec h i j Hwf ltac:(lia) ltac:(lia)) as (h' & Hs & Hwf' & HL' & Hk).
  exists h'. split; [done |]. split; [| done]. split; [done |]. split; [done |].
  by apply (stable_swap h i j).
Qed.

(** One step up: the parent takes over the exception. *)
Lemma swap_up j h h' :
  0 < j < n -> ordered_but_up n j h ->
  (heap_key h j < heap_key h (parent j))%Z ->
  (forall k, heap_key h' k = heap_key h (swapped (parent j) j k)) ->
  ordered_but_up n (parent j) h'.
Proof.
  intros Hj [Ho Hb] Hlt Hk. pose proof (parent_lt j ltac:(lia)) as Hpj. split.
  - intros k Hkn Hki. rewrite !Hk.
    destruct (decide (k = j)) as [-> | Hkj].
    { rewrite swapped_l, swapped_r. lia. }
    rewrite (swapped_other _ _ k) by done.
    destruct (decide (parent k = parent j)) as [Heq | Hne].
    { rewrite Heq, swapped_l. specialize (Ho k Hkn Hkj). rewrite Heq in Ho. lia. }
    destruct (decide (parent k = j)) as [Heq | Hne'].
    { rewrite Heq, swapped_r. apply Hb; lia || done. }
    rewrite swapped_other by done. by apply Ho.
  - intros k Hkn Hi Hpk. rewrite !Hk.
    pose proof (parent_lt (parent j) Hi).
    rewrite (swapped_other _ _ (parent (parent j))) by lia.
    pose proof (Ho (parent j) ltac:(lia) ltac:(lia)) as Hgp.
    destruct (decide (k = j)) as [-> | Hkj]; [by rewrite swapped_r |].
    pose proof (parent_lt k ltac:(lia)).
    rewrite swapped_other by lia. specialize (Ho k Hkn Hkj). rewrite Hpk in Ho. lia.
Qed.

Lemma up_loop_spec fuel h j :
  heap_wf h -> j < n <= Len h -> j < fuel -> ordered_but_up n j h ->
  exists h', up_loop fuel h j = Some h' /\ rearranged h h' /\ ordered_upto n h'.
Proof.
  revert h j. induction fuel as [| f IH]; intros h j Hwf Hj Hf Ho; [lia |]. cbn [up_loop].
  destruct (Nat.eqb_spec (parent j) j) as [Heq | Hne].
  { apply parent_fix in Heq as ->. exists h. split; [done |]. split; [by apply rearranged_refl |].
    intros k Hk. apply Ho; lia. }
  assert (0 < j) as Hj0 by (destruct j; [by rewrite parent_0 in Hne | lia]).
  pose proof (parent_lt j Hj0).
  rewrite Less_spec by (done || lia). cbn [mbind option_bind].
  destruct (heap_key h j <? heap_key h (parent j))%Z eqn:Hl; cbn [negb].
  - destruct (Swap_rearranged h (parent j) j) as (h1 & -> & Hr1 & Hk1); [done | lia | lia | lia |].
    cbn [mbind option_bind]. destruct (IH h1 (parent j)) as (h' & -> & Hr & Ho').
    + apply Hr1.
    + destruct Hr1 as (_ & -> & _). lia.
    + lia.
    + eapply (swap_up j h); [lia | done | by apply Z.ltb_lt | done].
    + exists h'. split; [done |]. split; [by eapply rearranged_trans | done].
  - exists h. split; [done |]. split; [by apply rearranged_refl |].
    intros k Hk. destruct (decide (k = j)) as [-> |]; [by apply Z.ltb_ge in Hl | by apply Ho].
Qed.

(** The order holds except that position [i] may be larger than its children. *)
Definition ordered_but_down (n i : nat) (h : H) : Prop :=
  (forall k, 0 < k < n -> parent k <> i -> (heap_key h (parent k) <= heap_key h k)%Z) /\
  bridged n i h.

(** One step down to the smaller child [j], which takes over the exception. *)
Lemma swap_down i j h h' :
  0 < j < n -> parent j = i -> ordered_but n i h ->
  (heap_key h j < heap_key h i)%Z ->
  (forall k, 0 < k < n -> parent k = i -> (heap_key h j <= heap_key h k)%Z) ->
  (forall k, heap_key h' k = heap_key h (swapped i j k)) ->
  ordered_but_down n j h'.
Proof.
  intros Hj Hpj [Ho Hb] Hlt Hmin Hk. pose proof (parent_lt j ltac:(lia)) as Hij.
  split.
  - intros k Hkn Hpk. rewrite !Hk.
    destruct (decide (k = j)) as [-> | Hkj].
    { rewrite Hpj, swapped_l, swapped_r. lia. }
    destruct (decide (k = i)) as [-> | Hki].
    { pose proof (parent_lt i ltac:(lia)). rewrite swapped_l, swapped_other by lia.
      apply Hb; lia || done. }
    rewrite (swapped_other _ _ k) by done.
    destruct (decide (parent k = i)) as [Heq | Hne]; [rewrite Heq, swapped_l; by apply Hmin |].
    rewrite swapped_other by done. by apply Ho.
  - intros k Hkn _ Hpk. rewrite !Hk. pose proof (parent_lt k ltac:(lia)).
    rewrite Hpj, swapped_l, swapped_other by lia. rewrite <- Hpk. apply Ho; lia.
Qed.

(** The smaller child, as [down] selects it. *)
Definition smaller_child (h : H) (i j : nat) : Prop :=
  0 < j < n /\ parent j = i /\
  (forall k, 0 < k < n -> parent k = i -> (heap_key h j <= heap_key h k)%Z).

Lemma select_child h i :
  heap_wf h -> n <= Len h -> 2 * i + 1 < n ->
  exists j,
    (if 2 * i + 1 + 1 <? n
     then less ← Less h (2 * i + 1 + 1) (2 * i + 1);
          Some (if less : bool then 2 * i + 1 + 1 else 2 * i + 1)
     else Some (2 * i + 1)) = Some j /\ smaller_child h i j.
Proof.
  intros Hwf Hn Hi. destruct (Nat.ltb_spec (2 * i + 1 + 1) n) as [Hlt | Hge].
  - rewrite Less_spec by (done || lia). cbn [mbind option_bind]. eexists. split; [done |].
    assert (forall k, 0 < k -> parent k = i -> k = 2 * i + 1 \/ k = 2 * i + 1 + 1) as Hch.
    { intros k Hk Hp. apply parent_child in Hp; lia. }
    destruct (Z.ltb_spec (heap_key h (2 * i + 1 + 1)) (heap_key h (2 * i + 1)));
      (split; [lia |]; split; [apply parent_child; lia |]);
      intros k Hk Hp; destruct (Hch k ltac:(lia) Hp) as [-> | ->]; lia.
  - exists (2 * i + 1). split; [done |]. split; [lia |]. split; [apply parent_child; lia |].
    intros k Hk Hp. apply parent_child in Hp; [| lia]. replace k with (2 * i + 1) by lia. lia.
Qed.

Lemma no_children h i :
  n <= 2 * i + 1 -> ordered_but_down n i h -> ordered_upto n h.
Proof.
  intros Hn [Ho _] k Hk. apply Ho; [done |]. intros Hp.
  apply parent_child in Hp; lia.
Qed.

Lemma ordered_but_down_weaken i h : ordered_but_down n i h -> ordered_but n i h.
Proof. intros [Ho Hb]. split; [auto | done]. Qed.

Lemma down_loop_spec fuel h i :
  heap_wf h -> n <= Len h -> 0 < fuel -> n <= fuel + i -> ordered_but_down n i h ->
  exists h' i', down_loop fuel h i n = Some (h', i') /\ rearranged h h' /\
    ordered_upto n h' /\ i <= i'.
Proof.
  revert h i. induction fuel as [| f IH]; intros h i Hwf Hn Hf0 Hf Ho; [lia |].
  cbn [down_loop].
  destruct (Nat.leb_spec n (2 * i + 1)) as [Hle | Hgt].
  { exists h, i. split; [done |]. split; [by apply rearranged_refl |].
    split; [by eapply no_children | lia]. }
  destruct (select_child h i Hwf Hn Hgt) as (j & -> & Hjn & Hpj & Hmin).
  cbn [mbind option_bind]. pose proof (parent_lt j ltac:(lia)).
  rewrite Less_spec by (done || lia). cbn [mbind option_bind].
  destruct (heap_key h j <? heap_key h i)%Z eqn:Hl; cbn [negb].
  - destruct (Swap_rearranged h i j) as (h1 & -> & Hr1 & Hk1); [done | lia | lia | lia |].
    cbn [mbind option_bind]. destruct (IH h1 j) as (h' & i' & -> & Hr & Ho' & Hi').
    + apply Hr1.
    + destruct Hr1 as (_ & -> & _). lia.
    + lia.
    + lia.
    + eapply (swap_down i j h); try done; [by apply ordered_but_down_weaken | by apply Z.ltb_lt].
    + exists h', i'. split; [done |]. split; [by eapply rearranged_trans |]. split; [done | lia].
  - exists h, i. split; [done |]. split; [by apply rearranged_refl |]. split; [| lia].
    intros k Hk. destruct (decide (parent k = i)) as [Hp |]; [| by apply Ho].
    apply Z.ltb_ge in Hl. specialize (Hmin k Hk Hp). rewrite Hp. lia.
Qed.

(** [down] from a position that may be out of order with its children only. *)
Lemma down_spec h i :
  heap_wf h -> n <= Len h -> ordered_but_down n i h ->
  exists h' moved, down h i n = Some (h', moved) /\ rearranged h h' /\ ordered_upto n h'.
Proof.
  intros Hwf Hn Ho.
  destruct (down_loop_spec (S n) h i) as (h' & i' & Hd & ? & ? & ?); [done | done | lia | lia | done |].
  unfold down. rewrite Hd. eauto.
Qed.

(** [down] from a position that may be out of order with its parent too:
    either the order is restored, or nothing moved and the children are fine. *)
Lemma down_fix_spec h i :
  heap_wf h -> n <= Len h -> i < n -> ordered_but n i h ->
  exists h' moved, down h i n = Some (h', moved) /\
    rearranged h h' /\
    if moved : bool then ordered_upto n h' else h' = h /\ ordered_but_up n i h.
Proof.
  intros Hwf Hn Hin Ho. unfold down. cbn [down_loop].
  assert (forall h0, rearranged h h0 -> h0 = h -> ordered_but_up n i h ->
    exists h' moved, ('(h', i') ← Some (h0, i); Some (h', i <? i')) = Some (h', moved) /\
    rearranged h h' /\ if moved : bool then ordered_upto n h' else h' = h /\ ordered_but_up n i h)
    as Hstay.
  { intros h0 Hr -> Hup. exists h, false. cbn -[Nat.ltb]. rewrite Nat.ltb_irrefl. done. }
  destruct (Nat.leb_spec n (2 * i + 1)) as [Hle | Hgt].
  { apply (Hstay h); [by apply rearranged_refl | done |]. destruct Ho as [Ho Hb]. split; [| done].
    intros k Hk Hki. apply Ho; [done | done |]. intros Hp. apply parent_child in Hp; lia. }
  destruct (select_child h i Hwf Hn Hgt) as (j & -> & Hjn & Hpj & Hmin).
  cbn [mbind option_bind]. pose proof (parent_lt j ltac:(lia)).
  rewrite Less_spec by (done || lia). cbn [mbind option_bind].
  destruct (heap_key h j <? heap_key h i)%Z eqn:Hl; cbn [negb].
  - destruct (Swap_rearranged h i j) as (h1 & -> & Hr1 & Hk1); [done | lia | lia | lia |].
    cbn [mbind option_bind].
    destruct (down_loop_spec n h1 j) as (h' & i' & -> & Hr & Ho' & Hi').
    + apply Hr1.
    + destruct Hr1 as (_ & -> & _). lia.
    + lia.
    + lia.
    + eapply (swap_down i j h); try done. by apply Z.ltb_lt.
    + exists h', true. cbn -[Nat.ltb]. replace (i <? i') with true by (symmetry; apply Nat.ltb_lt; lia).
      split; [done |]. split; [by eapply rearranged_trans | done].
  - apply (Hstay h); [by apply rearranged_refl | done |]. destruct Ho as [Ho Hb]. split; [| done].
    intros k Hk Hki. destruct (decide (parent k = i)) as [Hp |]; [| by apply Ho].
    apply Z.ltb_ge in Hl. specialize (Hmin k Hk Hp). rewrite Hp. lia.
Qed.

End Theorems.

(** ** The three operations *)

Section Operations.
Context {H : Type} `{HL : HeapLaws H} (R : H -> H -> Prop).

(** [heap.Fix] restores the order after the key at [i] changed. *)
Lemma Fix_spec h i `{!SwapStable (Len h) R} :
  heap_wf h -> i < Len h -> ordered_but (Len h) i h ->
  exists h', Fix h i = Some h' /\ rearranged R h h' /\ ordered h'.
Proof.
  intros Hwf Hi Ho. unfold Fix.
  destruct (down_fix_spec (Len h) R h i) as (h1 & moved & -> & Hr & Hm); [done | lia | done | done |].
  cbn [mbind option_bind]. destruct moved.
  - exists h1. split; [done |]. split; [done |]. destruct Hr as (_ & HL' & _). unfold ordered. by rewrite HL'.
  - destruct Hm as [-> Hup].
    destruct (up_loop_spec (Len h) R (S i) h i) as (h' & Hu & Hr' & Ho'); [done | lia | lia | done |].
    exists h'. unfold up. split; [done |]. split; [done |]. destruct Hr' as (_ & HL' & _).
    unfold ordered. by rewrite HL'.
Qed.

(** [heap.Push]: the order holds but for the last position, just appended. *)
Lemma after_Push_spec h `{!SwapStable (Len h) R} :
  heap_wf h -> 0 < Len h -> ordered_upto (Len h - 1) h ->
  exists h', after_Push h = Some h' /\ rearranged R h h' /\ ordered h'.
Proof.
  intros Hwf Hl Ho. unfold after_Push, up.
  destruct (up_loop_spec (Len h) R (S (Len h - 1)) h (Len h - 1)) as (h' & Hu & Hr & Ho');
    [done | lia | lia | |].
  - split; [intros k Hk Hne; apply Ho; lia |].
    intros k Hk _ Hp. pose proof (parent_lt k ltac:(lia)). lia.
  - exists h'. split; [done |]. split; [done |]. destruct Hr as (_ & HL' & _).
    unfold ordered. by rewrite HL'.
Qed.

(** [heap.Pop]: the root goes last, and the positions before it are
    rearranged into order. *)
Lemma before_Pop_spec h `{!SwapStable (Len h - 1) R} :
  heap_wf h -> 0 < Len h -> ordered h ->
  exists h1 h', Swap h 0 (Len h - 1) = Some h1 /\ before_Pop h = Some h' /\
    rearranged R h1 h' /\ ordered_upto (Len h - 1) h'.
Proof.
  intros Hwf Hl Ho. unfold before_Pop.
  destruct (Swap_spec h 0 (Len h - 1)) as (h1 & Hs & Hwf1 & HL1 & Hk1); [done | lia | lia |].
  rewrite Hs. cbn [mbind option_bind].
  destruct (down_spec (Len h - 1) R h1 0) as (h' & moved & -> & Hr & Ho'); [done | lia | |].
  - split; [| intros k; lia].
    intros k Hk Hp. pose proof (parent_lt k ltac:(lia)). rewrite !Hk1, !swapped_other by lia.
    apply Ho. lia.
  - exists h1, h'. repeat split; done || apply Hr.
Qed.

(** The root is a minimum. *)
Lemma ordered_root n h k : ordered_upto n h -> k < n -> (heap_key h 0 <= heap_key h k)%Z.
Proof.
  intros Ho. induction k as [k IH] using lt_wf_ind. intros Hk.
  destruct (decide (k = 0)) as [-> | Hne]; [lia |].
  pose proof (parent_lt k ltac:(lia)). specialize (IH (parent k) ltac:(lia) ltac:(lia)).
  specialize (Ho k ltac:(lia)). lia.
Qed.
End Operations.
