(* ===== verification/Replay.v ===== *)
(** * The in-memory replay store (replay.go)

    [MemoryReplayStore]: identities in a map that points into an expiration
    heap.  The entries are shared by reference between the map and the heap,
    so the model has an explicit memory of entries, and both hold locations.
    [None] is a Go panic (or a lock that never comes): the theorems show that
    no call from a reachable state ends that way. *)

From S2P Require Import Prelude GoStrings Errors GoTime Heap.
Open Scope Z_scope.

(** ** Data *)

Record ReplayRecord := mkReplayRecord {
  RecordKeyID : gostring;
  RecordNonce : gostring;
  ExpiresAt : Time
}.

Record replayIdentity := mkIdentity {
  keyID : gostring;
  nonce : gostring
}.

#[export] Instance replayIdentity_eq_dec : EqDecision replayIdentity.
Proof. solve_decision. Defined.
#[export] Instance replayIdentity_countable : Countable replayIdentity.
Proof.
  refine (inj_countable' (fun i => (keyID i, nonce i)) (fun '(k, n) => mkIdentity k n) _).
  by intros [? ?].
Defined.

Record replayEntry := mkEntry {
  identity : replayIdentity;
  expiresAt : Time;
  index : Z
}.

Definition set_index (i : Z) (e : replayEntry) : replayEntry :=
  mkEntry (identity e) (expiresAt e) i.
Definition set_expiresAt (t : Time) (e : replayEntry) : replayEntry :=
  mkEntry (identity e) t (index e).

(** The slice of pointers, with the memory they point into. *)
Record replayExpiryHeap := mkHeap {
  memory : gmap nat replayEntry;
  slice : list nat
}.

Record memoryReplayState := mkState {
  entries : gmap replayIdentity nat;
  expiry : replayExpiryHeap;
  latestNow : Time
}.

(** The one-token channel. *)
Record replayMutex := mkMutex { token : bool }.

Record MemoryReplayConfig := mkConfig {
  Capacity : Z;
  MaxTTL : Duration;
  MaxKeyIDBytes : Z;
  MaxNonceBytes : Z;
  HasNow : bool
}.

(** The fields of the store; a nil pointer is [None].  The map of a non-nil
    state is never nil: both are made by the constructor. *)
Record MemoryReplayStore := mkStore {
  mu : option replayMutex;
  state : option memoryReplayState;
  capacity : Z;
  maxTTL : Duration;
  maxKeyIDBytes : Z;
  maxNonceBytes : Z;
  has_now : bool
}.

(** ** The mutex *)

Definition newReplayMutex : replayMutex := mkMutex true.

(** [Lock]: receives the token; [None] while there is none. *)
Definition Lock (mutex : replayMutex) : option replayMutex :=
  if token mutex then Some (mkMutex false) else None.

(** [Unlock]: sends the token; [None] is its panic. *)
Definition Unlock (mutex : replayMutex) : option replayMutex :=
  if token mutex then None else Some (mkMutex true).

Definition TryLock (mutex : replayMutex) : bool * replayMutex :=
  if token mutex then (true, mkMutex false) else (false, mutex).

(** [keepLockUnlessCanceled]: [canceled] is whether [done] is closed. *)
Definition keepLockUnlessCanceled (mutex : replayMutex) (canceled : bool)
  : option (bool * replayMutex) :=
  if canceled then mutex ← Unlock mutex; Some (false, mutex) else Some (true, mutex).

(** [lockContext]: [chose_done] is which ready case the [select] takes. *)
Definition lockContext (mutex : replayMutex) (chose_done canceled : bool)
  : option (bool * replayMutex) :=
  if chose_done then Some (false, mutex)
  else mutex ← Lock mutex; keepLockUnlessCanceled mutex canceled.

(** ** The expiration heap *)

Definition entry_at (h : replayExpiryHeap) (i : nat) : option replayEntry :=
  l ← slice h !! i; memory h !! l.

Definition expiry_Less (h : replayExpiryHeap) (left right : nat) : option bool :=
  a ← entry_at h left; b ← entry_at h right; Some (Before (expiresAt a) (expiresAt b)).

Definition expiry_Swap (h : replayExpiryHeap) (left right : nat) : option replayExpiryHeap :=
  a ← slice h !! left;
  b ← slice h !! right;
  let slice' := <[right := a]> (<[left := b]> (slice h)) in
  l ← slice' !! left;
  r ← slice' !! right;
  Some (mkHeap (alter (set_index (Z.of_nat right)) r (alter (set_index (Z.of_nat left)) l (memory h)))
          slice').

Definition expiry_Push (h : replayExpiryHeap) (entry : nat) : replayExpiryHeap :=
  mkHeap (alter (set_index (len (slice h))) entry (memory h)) (slice h ++ [entry]).

Definition expiry_Pop (h : replayExpiryHeap) : option (nat * replayExpiryHeap) :=
  let last := (length (slice h) - 1)%nat in
  entry ← slice h !! last;
  Some (entry, mkHeap (alter (set_index (-1)) entry (memory h)) (take last (slice h))).

#[export] Instance expiry_interface : HeapInterface replayExpiryHeap := {
  Len h := length (slice h);
  Less := expiry_Less;
  Swap := expiry_Swap
}.

(** [heap.Push], [heap.Pop] and [heap.Fix] on the expiration heap.  On the
    index -1 of a removed entry, [Fix] does nothing. *)
Definition heap_Push (h : replayExpiryHeap) (entry : nat) : option replayExpiryHeap :=
  after_Push (expiry_Push h entry).
Definition heap_Pop (h : replayExpiryHeap) : option (nat * replayExpiryHeap) :=
  h ← before_Pop h; expiry_Pop h.
Definition heap_Fix (h : replayExpiryHeap) (i : Z) : option replayExpiryHeap :=
  if i <? 0 then Some h else Fix h (Z.to_nat i).

(** ** Operations *)

Definition NewMemoryReplayStore (config : MemoryReplayConfig) : res MemoryReplayStore :=
  if (Capacity config <=? 0) || (MaxTTL config <=? 0) || (MaxKeyIDBytes config <=? 0) ||
     (MaxNonceBytes config <=? 0) || negb (HasNow config)
  then Err (Sentinel ErrInvalidReplayConfig)
  else Ok {|
    mu := Some newReplayMutex;
    state := Some (mkState ∅ (mkHeap ∅ []) 0);
    capacity := Capacity config;
    maxTTL := MaxTTL config;
    maxKeyIDBytes := MaxKeyIDBytes config;
    maxNonceBytes := MaxNonceBytes config;
    has_now := HasNow config
  |}.

Definition removeOldestExpired (now : Time) (st : memoryReplayState) : option memoryReplayState :=
  match slice (expiry st) with
  | [] => Some st
  | _ =>
      first ← entry_at (expiry st) 0;
      if After (expiresAt first) now then Some st
      else
        '(entry, h) ← heap_Pop (expiry st);
        e ← memory h !! entry;
        Some (mkState (delete (identity e) (entries st)) h (latestNow st))
  end.

(** The map and heap part of [Consume], after the purge. *)
Definition reserve (capacity : Z) (now : Time) (record : ReplayRecord) (st : memoryReplayState)
  : option (memoryReplayState * option error) :=
  let identity := mkIdentity (RecordKeyID record) (RecordNonce record) in
  match entries st !! identity with
  | Some existing =>
      e ← memory (expiry st) !! existing;
      if After (expiresAt e) now then Some (st, Some (Sentinel ErrReplayDetected))
      else
        let h := mkHeap (alter (set_expiresAt (ExpiresAt record)) existing (memory (expiry st)))
                   (slice (expiry st)) in
        h ← heap_Fix h (index e);
        Some (mkState (entries st) h (latestNow st), None)
  | None =>
      if capacity <=? Z.of_nat (size (entries st))
      then Some (st, Some (Sentinel ErrReplayCapacity))
      else
        let entry := fresh (dom (memory (expiry st))) in
        let memory' := <[entry := mkEntry identity (ExpiresAt record) 0]> (memory (expiry st)) in
        h ← heap_Push (mkHeap memory' (slice (expiry st))) entry;
        Some (mkState (<[identity := entry]> (entries st)) h (latestNow st), None)
  end.

(** [Consume] between [lockContext] and the deferred [Unlock]; [now] is the
    clock reading taken before the lock. *)
Definition consume_locked (capacity : Z) (maxTTL : Duration) (now : Time) (record : ReplayRecord)
  (st : memoryReplayState) : option (memoryReplayState * option error) :=
  let '(now, st) :=
    if Before now (latestNow st) then (latestNow st, st)
    else (now, mkState (entries st) (expiry st) now) in
  if negb (After (ExpiresAt record) now) || (maxTTL <? Sub (ExpiresAt record) now)
  then Some (st, Some (Sentinel ErrInvalidReplayRecord))
  else st ← removeOldestExpired now st; reserve capacity now record st.

(** What one call observes of its context, of the clock and of [select]. *)
Record ConsumeObservation := mkObservation {
  ctx_nil : bool;
  ctx_err_entry : option error;
  clock : Time;
  ctx_err_clock : option error;
  chose_done : bool;
  done_closed : bool;
  ctx_err_lock : option error
}.

Definition replayContextError (ctx_err : option error) : error :=
  match ctx_err with Some err => err | None => Sentinel Canceled end.

(** The configuration checks of [Consume]. *)
Definition unusable (store : MemoryReplayStore) : bool :=
  is_nil (mu store) || is_nil (state store) || (capacity store <=? 0) || (maxTTL store <=? 0) ||
  (maxKeyIDBytes store <=? 0) || (maxNonceBytes store <=? 0) || negb (has_now store).

Definition invalid_record (store : MemoryReplayStore) (record : ReplayRecord) : bool :=
  (RecordKeyID record =s []) || (maxKeyIDBytes store <? len (RecordKeyID record)) ||
  (RecordNonce record =s []) || (maxNonceBytes store <? len (RecordNonce record)) ||
  IsZero (ExpiresAt record).

Definition with_mu_state (store : MemoryReplayStore) (m : replayMutex) (st : memoryReplayState)
  : MemoryReplayStore :=
  mkStore (Some m) (Some st) (capacity store) (maxTTL store) (maxKeyIDBytes store)
    (maxNonceBytes store) (has_now store).

Definition Consume (store : option MemoryReplayStore) (obs : ConsumeObservation)
  (record : ReplayRecord) : option (option MemoryReplayStore * option error) :=
  if ctx_nil obs then Some (store, Some (New "http signature: nil context"))
  else
  match ctx_err_entry obs with
  | Some err => Some (store, Some err)
  | None =>
  match store with
  | None => Some (store, Some (Sentinel ErrInvalidReplayConfig))
  | Some s =>
      if unusable s then Some (store, Some (Sentinel ErrInvalidReplayConfig))
      else if invalid_record s record then Some (store, Some (Sentinel ErrInvalidReplayRecord))
      else
        match ctx_err_clock obs with
        | Some err => Some (store, Some err)
        | None =>
            mutex ← mu s;
            st ← state s;
            '(acquired, mutex) ← lockContext mutex (chose_done obs) (done_closed obs);
            if negb acquired
            then Some (Some (with_mu_state s mutex st), Some (replayContextError (ctx_err_lock obs)))
            else
              '(st, err) ← consume_locked (capacity s) (maxTTL s) (clock obs) record st;
              mutex ← Unlock mutex;
              Some (Some (with_mu_state s mutex st), err)
        end
  end
  end.
