(* ===== verification/ReplayStore.v ===== *)
(** * The replay store interface (replay.go, [ReplayStore])

    Any type with a [Consume] method ([ReplayStore]) and the documented
    promise of a durable implementation ([ReplayStoreLaws]): calls take effect
    one after the other, exactly one succeeds for an identity before it
    expires, and a refusal is an error.  The verifier is proved against these
    laws; [ReplayFacts] shows that the in-memory store obeys them. *)

From S2P Require Import Prelude Errors GoTime Replay.
Open Scope Z_scope.

Definition identity_of (record : ReplayRecord) : replayIdentity :=
  mkIdentity (RecordKeyID record) (RecordNonce record).

(** A call of [Consume]: [Obs] is what it observes of its context and clock;
    [None] is a panic. *)
Class ReplayStore (S Obs : Type) := {
  replay_Consume : S -> Obs -> ReplayRecord -> option (S * option error)
}.

Class ReplayStoreLaws (S Obs : Type) `{ReplayStore S Obs} := {
  store_wf : S -> Prop;
  (** until when an identity is reserved, and the time the store has reached *)
  reserved_until : S -> replayIdentity -> option Time;
  reached : S -> Time;
  consume_total s o r :
    store_wf s -> exists s' err, replay_Consume s o r = Some (s', err) /\ store_wf s' /\
      reached s <= reached s';
  consume_reserves s o r s' :
    store_wf s -> replay_Consume s o r = Some (s', None) ->
    reserved_until s' (identity_of r) = Some (ExpiresAt r) /\ reached s' < ExpiresAt r;
  consume_keeps s o r s' err i t :
    store_wf s -> replay_Consume s o r = Some (s', err) ->
    reserved_until s i = Some t -> reached s' < t -> reserved_until s' i = Some t;
  consume_refuses s o r s' err t :
    store_wf s -> replay_Consume s o r = Some (s', err) ->
    reserved_until s (identity_of r) = Some t -> reached s' < t -> err <> None
}.

Section Runs.
Context {S Obs : Type} `{RSL : ReplayStoreLaws S Obs}.

(** A sequence of calls, in the order in which they take effect. *)
Fixpoint run (s : S) (calls : list (Obs * ReplayRecord)) : option (S * list (option error)) :=
  match calls with
  | [] => Some (s, [])
  | (o, r) :: rest =>
      '(s, err) ← replay_Consume s o r;
      '(s, errs) ← run s rest;
      Some (s, err :: errs)
  end.

(** No sequence of calls panics. *)
Lemma run_total s calls :
  store_wf s -> exists s' errs, run s calls = Some (s', errs) /\ store_wf s' /\
    length errs = length calls /\ reached s <= reached s'.
Proof.
  revert s. induction calls as [| [o r] calls IH]; intros s Hwf; cbn [run].
  { exists s, []. repeat split; done. }
  destruct (consume_total s o r Hwf) as (s1 & err & -> & Hwf1 & Hle1). cbn [mbind option_bind].
  destruct (IH s1 Hwf1) as (s' & errs & -> & Hwf' & HL & Hle). cbn [mbind option_bind].
  exists s', (err :: errs). split; [done |]. split; [done |]. split; [cbn; congruence | lia].
Qed.

Lemma run_cons s o r calls s' errs :
  run s ((o, r) :: calls) = Some (s', errs) ->
  exists s1 err errs1, replay_Consume s o r = Some (s1, err) /\ run s1 calls = Some (s', errs1) /\
    errs = err :: errs1.
Proof.
  cbn [run]. destruct (replay_Consume s o r) as [[s1 err] |]; [| done]. cbn [mbind option_bind].
  destruct (run s1 calls) as [[s2 errs1] |] eqn:Hr; [| done].
  cbn. intros [= -> <-]. by exists s1, err, errs1.
Qed.

(** A reservation outlives any sequence of calls that ends before it expires. *)
Lemma run_keeps s calls s' errs i t :
  store_wf s -> run s calls = Some (s', errs) ->
  reserved_until s i = Some t -> reached s' < t -> reserved_until s' i = Some t.
Proof.
  revert s errs. induction calls as [| [o r] calls IH]; intros s errs Hwf.
  { cbn. intros [= -> _]. done. }
  intros (s1 & err & errs1 & Hc & Hr & ->)%run_cons Hi Ht.
  destruct (consume_total s o r Hwf) as (s1' & err' & Hc' & Hwf1 & _).
  assert (s1' = s1) as -> by congruence.
  destruct (run_total s1 calls Hwf1) as (s2 & errs2 & Hr2 & _ & _ & Hle).
  assert (s2 = s') as -> by congruence.
  apply (IH s1 errs1 Hwf1 Hr); [| done]. apply (consume_keeps s o r s1 err); done || lia.
Qed.

(** After an accepted call, calls for the same identity are refused until
    the reservation expires. *)
Lemma run_no_replay s o1 r1 s1 calls s2 errs o2 r2 s3 err :
  store_wf s ->
  replay_Consume s o1 r1 = Some (s1, None) ->
  run s1 calls = Some (s2, errs) ->
  replay_Consume s2 o2 r2 = Some (s3, err) ->
  identity_of r1 = identity_of r2 ->
  reached s3 < ExpiresAt r1 ->
  err <> None.
Proof.
  intros Hwf H1 Hrun H2 Hid Ht.
  destruct (consume_total s o1 r1 Hwf) as (s1' & ? & H1' & Hwf1 & _).
  assert (s1' = s1) as -> by congruence.
  destruct (run_total s1 calls Hwf1) as (s2' & ? & Hrun' & Hwf2 & _).
  assert (s2' = s2) as -> by congruence.
  destruct (consume_total s2 o2 r2 Hwf2) as (s3' & ? & H2' & _ & Hle).
  assert (s3' = s3) as -> by congruence.
  destruct (consume_reserves s o1 r1 s1 Hwf H1) as [Hr _].
  apply (consume_refuses s2 o2 r2 s3 err (ExpiresAt r1)); [done | done | | done]. rewrite <- Hid.
  apply (run_keeps s1 calls s2 errs); done || lia.
Qed.
End Runs.
