(* ===== verification/ReplayFacts.v ===== *)
(** * Correctness of the replay store

    The heap instance satisfies the [container/heap] contract; the state
    invariant (heap order, positions, map and heap agree, capacity) holds
    initially and is preserved; [Consume] refines an abstract map from
    identities to expirations; and no identity is accepted twice before it
    expires, in any sequence of calls. *)

From S2P Require Import Prelude GoStrings Errors GoTime Heap Replay ReplayStore.
Open Scope Z_scope.

(** ** The expiration heap meets the contract of container/heap *)

Definition loc_expiry (m : gmap nat replayEntry) (l : nat) : Time :=
  match m !! l with Some e => expiresAt e | None => 0 end.

Definition expiry_key (h : replayExpiryHeap) (k : nat) : Z :=
  match slice h !! k with Some l => loc_expiry (memory h) l | None => 0 end.

(** Every pointer of the slice is live and knows its position. *)
Definition expiry_wf (h : replayExpiryHeap) : Prop :=
  forall i l, slice h !! i = Some l -> exists e, memory h !! l = Some e /\ index e = Z.of_nat i.

(** What of an entry does not change when it moves. *)
Definition entry_view (e : replayEntry) : replayIdentity * Time := (identity e, expiresAt e).

Definition same_views (m m' : gmap nat replayEntry) : Prop :=
  forall l, entry_view <$> m !! l = entry_view <$> m' !! l.

(** Reached by swaps: the same pointers to the same entries. *)
Definition moved (h h' : replayExpiryHeap) : Prop :=
  (forall l, l ∈ slice h <-> l ∈ slice h') /\ same_views (memory h) (memory h').

Lemma same_views_lookup m m' l e :
  same_views m m' -> m !! l = Some e ->
  exists e', m' !! l = Some e' /\ identity e' = identity e /\ expiresAt e' = expiresAt e.
Proof.
  intros H He. specialize (H l). rewrite He in H. cbn in H.
  destruct (m' !! l) as [e' |]; [| done]. injection H as Hi Ht. eauto.
Qed.

Lemma same_views_sym m m' : same_views m m' -> same_views m' m.
Proof. intros H l. by rewrite H. Qed.

Lemma same_views_expiry m m' l : same_views m m' -> loc_expiry m' l = loc_expiry m l.
Proof.
  intros H. specialize (H l). unfold loc_expiry.
  destruct (m !! l), (m' !! l); cbn in H; try done. injection H. congruence.
Qed.

Lemma alter_index_views i l m : same_views m (alter (set_index i) l m).
Proof.
  intros k. destruct (decide (l = k)) as [-> | Hne].
  - rewrite lookup_alter_eq. by destruct (m !! k).
  - by rewrite lookup_alter_ne.
Qed.

#[export] Instance moved_preorder : PreOrder moved.
Proof.
  split.
  - intros h. split; [done | by intros l].
  - intros h1 h2 h3 [Hs Hm] [Hs' Hm']. split; [intros l; by rewrite Hs | intros l; by rewrite Hm].
Qed.

Lemma wf_pos h i l e : expiry_wf h -> slice h !! i = Some l -> memory h !! l = Some e ->
  index e = Z.of_nat i.
Proof. intros Hwf Hi He. destruct (Hwf i l Hi) as (e' & He' & ?). congruence. Qed.

(** A pointer occurs once. *)
Lemma wf_inj h i j l : expiry_wf h -> slice h !! i = Some l -> slice h !! j = Some l -> i = j.
Proof.
  intros Hwf Hi Hj. destruct (Hwf i l Hi) as (e & He & H1). pose proof (wf_pos h j l e Hwf Hj He).
  lia.
Qed.

Lemma swapped_lookup (s : list nat) i j a b k :
  s !! i = Some a -> s !! j = Some b ->
  <[j := a]> (<[i := b]> s) !! k = s !! swapped i j k.
Proof.
  intros Ha Hb. pose proof (lookup_lt_Some _ _ _ Ha). pose proof (lookup_lt_Some _ _ _ Hb).
  unfold swapped. destruct (Nat.eqb_spec k i) as [-> | Hki].
  - destruct (decide (i = j)) as [-> | Hne].
    + rewrite list_lookup_insert_eq by (by rewrite length_insert). congruence.
    + rewrite list_lookup_insert_ne, list_lookup_insert_eq by done. done.
  - destruct (Nat.eqb_spec k j) as [-> | Hkj].
    + rewrite list_lookup_insert_eq by (by rewrite length_insert). congruence.
    + by rewrite !list_lookup_insert_ne.
Qed.

Lemma swapped_involutive i j k : swapped i j (swapped i j k) = k.
Proof.
  destruct (decide (k = i)) as [-> |]; [by rewrite swapped_l, swapped_r |].
  destruct (decide (k = j)) as [-> |]; [by rewrite swapped_r, swapped_l |].
  rewrite (swapped_other i j k) by done. by apply swapped_other.
Qed.

Lemma expiry_Swap_spec h i j :
  expiry_wf h -> (i < length (slice h))%nat -> (j < length (slice h))%nat ->
  exists h', expiry_Swap h i j = Some h' /\ expiry_wf h' /\
    length (slice h') = length (slice h) /\
    (forall k, slice h' !! k = slice h !! swapped i j k) /\
    same_views (memory h) (memory h').
Proof.
  intros Hwf [a Ha]%lookup_lt_is_Some [b Hb]%lookup_lt_is_Some. unfold expiry_Swap.
  rewrite Ha, Hb. cbn [mbind option_bind].
  rewrite !(swapped_lookup _ _ _ _ _ _ Ha Hb), swapped_l, swapped_r, Ha, Hb.
  cbn [mbind option_bind].
  eexists. split; [done |]. cbn [slice memory]. split; [| split; [by rewrite !length_insert |]].
  - intros k x. cbn [slice memory]. rewrite (swapped_lookup _ _ _ _ _ _ Ha Hb). intros Hx.
    destruct (Hwf _ _ Hx) as (e & He & Hpos).
    destruct (decide (x = a)) as [-> | Hxa].
    { rewrite lookup_alter_eq. assert (swapped i j k = i) as Hk by (by apply (wf_inj h _ _ a)).
      assert (k = j) as -> by (by rewrite <- (swapped_involutive i j k), Hk, swapped_l).
      destruct (decide (a = b)) as [-> | Hab];
        rewrite ?lookup_alter_eq, ?lookup_alter_ne, ?He by done; cbn; eauto. }
    rewrite lookup_alter_ne by done.
    destruct (decide (x = b)) as [-> | Hxb].
    { rewrite lookup_alter_eq, He. assert (swapped i j k = j) as Hk by (by apply (wf_inj h _ _ b)).
      assert (k = i) as -> by (by rewrite <- (swapped_involutive i j k), Hk, swapped_r).
      cbn. eauto. }
    rewrite lookup_alter_ne by done. exists e. split; [done |]. rewrite Hpos.
    rewrite swapped_other; [done | |]; intros ->;
      rewrite ?swapped_l, ?swapped_r in Hx; congruence.
  - split; [intros k; by apply swapped_lookup |].
    intros l. etrans; apply alter_index_views.
Qed.

#[export] Instance expiry_laws : HeapLaws replayExpiryHeap.
Proof.
  refine {| heap_wf := expiry_wf; heap_key := expiry_key |}.
  - intros h i j Hwf [a Ha]%lookup_lt_is_Some [b Hb]%lookup_lt_is_Some.
    cbn [Less expiry_interface]. unfold expiry_Less, entry_at, expiry_key, loc_expiry.
    destruct (Hwf i a Ha) as (ea & Hea & _), (Hwf j b Hb) as (eb & Heb & _).
    rewrite Ha, Hb. cbn. rewrite Hea, Heb. done.
  - intros h i j Hwf Hi Hj.
    destruct (expiry_Swap_spec h i j Hwf Hi Hj) as (h' & Hs & Hwf' & HL & Hk & Hv).
    exists h'. split; [done |]. split; [done |]. split; [done |].
    intros k. unfold expiry_key. rewrite Hk.
    destruct (slice h !! swapped i j k); [by apply same_views_expiry | done].
Defined.

#[export] Instance moved_stable n : SwapStable n moved.
Proof.
  split; [apply _ |]. intros h i j h' Hwf Hn Hi Hj Hs. cbn in Hn.
  destruct (expiry_Swap_spec h i j Hwf ltac:(lia) ltac:(lia)) as (h1 & Hs1 & _ & _ & Hk & Hv).
  cbn in Hs. assert (h1 = h') as -> by congruence. split; [| done].
  intros l. rewrite !list_elem_of_lookup. split; intros [k Hl].
  - exists (swapped i j k). by rewrite Hk, swapped_involutive.
  - exists (swapped i j k). by rewrite <- Hk.
Qed.

(** Swaps among the first [n] positions leave the others alone. *)
Definition moved_below (n : nat) (h h' : replayExpiryHeap) : Prop :=
  moved h h' /\ forall k, (n <= k)%nat -> slice h' !! k = slice h !! k.

#[export] Instance moved_below_stable n : SwapStable n (moved_below n).
Proof.
  split.
  - split; [split; done |]. intros h1 h2 h3 [Hm1 Hk1] [Hm2 Hk2].
    split; [by etrans |]. intros k Hk. by rewrite Hk2, Hk1.
  - intros h i j h' Hwf Hn Hi Hj Hs. split; [by apply (stable_swap (n := n) (R := moved) h i j) |].
    destruct (expiry_Swap_spec h i j Hwf) as (h1 & Hs1 & _ & _ & Hk & _); [cbn in Hn; lia.. |].
    cbn in Hs. assert (h1 = h') as -> by congruence.
    intros k Hge. rewrite Hk, swapped_other by lia. done.
Qed.

(** ** The three heap operations on entries *)

Lemma key_views h h' k :
  slice h' !! k = slice h !! k -> same_views (memory h) (memory h') ->
  expiry_key h' k = expiry_key h k.
Proof.
  intros Hs Hv. unfold expiry_key. rewrite Hs.
  destruct (slice h !! k); [by apply same_views_expiry | done].
Qed.

Lemma heap_Pop_spec h :
  expiry_wf h -> ordered h -> slice h <> [] ->
  exists l h', heap_Pop h = Some (l, h') /\ slice h !! 0%nat = Some l /\
    expiry_wf h' /\ ordered h' /\
    (forall x, x ∈ slice h' <-> x ∈ slice h /\ x <> l) /\
    same_views (memory h) (memory h').
Proof.
  intros Hwf Ho Hne.
  assert (0 < length (slice h))%nat as Hl by (destruct (slice h); [done | cbn; lia]).
  set (last := (length (slice h) - 1)%nat).
  destruct (before_Pop_spec (moved_below last) h) as (h1 & h2 & Hs & Hb & Hr & Ho2); [done | done | done |].
  destruct (expiry_Swap_spec h 0 last) as (h1' & Hs' & Hwf1 & HL1 & Hk1 & Hv1); [done | lia | lia |].
  cbn in Hs. fold last in Hs. assert (h1' = h1) as -> by congruence.
  destruct Hr as (Hwf2 & HL2 & [Hm2 Hv2] & Hbelow). cbn in HL2.
  destruct (lookup_lt_is_Some_2 (slice h) 0 Hl) as [l H0].
  assert (slice h2 !! last = Some l) as Hlast by (by rewrite Hbelow, Hk1, swapped_r).
  unfold heap_Pop. rewrite Hb. cbn [mbind option_bind]. unfold expiry_Pop.
  assert (length (slice h2) - 1 = last)%nat as -> by lia.
  rewrite Hlast. cbn [mbind option_bind]. do 2 eexists. split; [done |]. split; [done |].
  assert (forall x, x ∈ take last (slice h2) <-> x ∈ slice h2 /\ x <> l) as Htake.
  { intros x. rewrite !list_elem_of_lookup. split.
    - intros [k Hx]. apply lookup_take_Some in Hx as [Hx Hlt]. split; [eauto |].
      intros ->. pose proof (wf_inj h2 k last l Hwf2 Hx Hlast). lia.
    - intros [[k Hx] Hxl]. exists k. apply lookup_take_Some. split; [done |].
      pose proof (lookup_lt_Some _ _ _ Hx). assert (k <> last) by congruence. lia. }
  split; [| split; [| split]].
  - intros i x Hx. apply lookup_take_Some in Hx as [Hx Hi]. cbn [memory].
    rewrite lookup_alter_ne; [by apply Hwf2 |].
    intros ->. pose proof (wf_inj h2 i last x Hwf2 Hx Hlast). lia.
  - intros k. cbn -[parent]. rewrite length_take. intros Hk.
    assert (forall j, (j < last)%nat -> expiry_key (mkHeap (alter (set_index (-1)) l (memory h2))
              (take last (slice h2))) j = expiry_key h2 j) as Hkey.
    { intros j Hj. apply key_views; cbn; [by apply lookup_take_lt | apply alter_index_views]. }
    pose proof (parent_lt k ltac:(lia)). rewrite !Hkey by lia. apply Ho2. cbn. lia.
  - intros x. cbn [slice]. rewrite Htake, <- Hm2, !list_elem_of_lookup. f_equiv. split; intros [k Hx].
    + exists (swapped 0 last k). by rewrite <- Hk1.
    + exists (swapped 0 last k). by rewrite Hk1, swapped_involutive.
  - intros x. cbn [memory]. etrans; [apply Hv1 |]. etrans; [apply Hv2 |]. apply alter_index_views.
Qed.

Lemma heap_Push_spec h l e :
  expiry_wf h -> ordered h -> memory h !! l = None ->
  exists h', heap_Push (mkHeap (<[l := e]> (memory h)) (slice h)) l = Some h' /\
    expiry_wf h' /\ ordered h' /\
    (forall x, x ∈ slice h' <-> x ∈ slice h \/ x = l) /\
    same_views (<[l := e]> (memory h)) (memory h').
Proof.
  intros Hwf Ho Hfresh. unfold heap_Push, expiry_Push. cbn [memory slice].
  set (h0 := mkHeap _ (slice h ++ [l])).
  assert (length (slice h0) = S (length (slice h))) as HL0 by (cbn; rewrite length_app; cbn; lia).
  assert (forall k x, slice h !! k = Some x -> x <> l) as Hother.
  { intros k x Hx ->. destruct (Hwf k l Hx) as (? & ? & _). congruence. }
  assert (expiry_wf h0) as Hwf0.
  { intros i x. cbn [slice memory h0]. intros Hx. apply lookup_app_Some in Hx as [Hx | [Hi Hx]].
    - rewrite lookup_alter_ne, lookup_insert_ne by (symmetry; by eapply Hother). by apply Hwf.
    - apply list_lookup_singleton_Some in Hx as [Hx <-].
      rewrite lookup_alter_eq, lookup_insert_eq. eexists. split; [done |]. cbn. unfold len. lia. }
  destruct (after_Push_spec moved h0) as (h' & Hp & Hr & Ho');
    [done | change (0 < length (slice h0))%nat; lia | |].
  - intros k. change (Len h0) with (length (slice h0)). rewrite HL0. intros Hk.
    change (expiry_key h0 (parent k) <= expiry_key h0 k).
    assert (forall j, (j < length (slice h))%nat -> expiry_key h0 j = expiry_key h j) as Hkey.
    { intros j Hj. destruct (lookup_lt_is_Some_2 _ _ Hj) as [x Hx].
      unfold expiry_key, loc_expiry. cbn [slice memory h0]. rewrite lookup_app_l, Hx by done.
      by rewrite lookup_alter_ne, lookup_insert_ne by (symmetry; by eapply Hother). }
    pose proof (parent_lt k ltac:(lia)). rewrite !Hkey by lia. apply (Ho k).
    change (0 < k < length (slice h))%nat. lia.
  - destruct Hr as (Hwf' & _ & Hm & Hv). exists h'. split; [done |]. split; [done |]. split; [done |].
    split; [| intros x; etrans; [| apply Hv]; apply alter_index_views].
    intros x. rewrite <- Hm. cbn. by rewrite elem_of_app, list_elem_of_singleton.
Qed.

Lemma heap_Fix_spec h i l t :
  expiry_wf h -> ordered h -> slice h !! i = Some l ->
  exists h', heap_Fix (mkHeap (alter (set_expiresAt t) l (memory h)) (slice h)) (Z.of_nat i) = Some h' /\
    expiry_wf h' /\ ordered h' /\
    moved (mkHeap (alter (set_expiresAt t) l (memory h)) (slice h)) h'.
Proof.
  intros Hwf Ho Hi. set (h0 := mkHeap _ _). pose proof (lookup_lt_Some _ _ _ Hi) as Hlt.
  assert (expiry_wf h0) as Hwf0.
  { intros k x Hx. destruct (Hwf k x Hx) as (e & He & Hpos). cbn [memory h0].
    destruct (decide (l = x)) as [-> | Hne].
    - rewrite lookup_alter_eq, He. eexists. split; [done |]. done.
    - rewrite lookup_alter_ne by done. eauto. }
  assert (forall k, k <> i -> expiry_key h0 k = expiry_key h k) as Hkey.
  { intros k Hk. unfold expiry_key, loc_expiry. cbn [slice memory h0].
    destruct (slice h !! k) as [x |] eqn:Hx; [| done].
    rewrite lookup_alter_ne; [done |]. intros ->. by pose proof (wf_inj h k i x Hwf Hx Hi). }
  unfold heap_Fix. replace (Z.of_nat i <? 0) with false by lia. rewrite Nat2Z.id.
  destruct (Fix_spec moved h0 i) as (h' & Hf & (Hwf' & _ & Hm) & Ho'); [done | done | | by exists h'].
  split.
  - intros k Hk Hki Hpi. cbn -[expiry_key]. rewrite !Hkey by done. by apply Ho.
  - intros k Hk Hi0 Hp. cbn -[expiry_key parent]. pose proof (parent_lt i Hi0).
    pose proof (parent_lt k ltac:(lia)). rewrite !Hkey by lia.
    pose proof (Ho i ltac:(cbn; lia)) as H1. pose proof (Ho k Hk) as H2. rewrite Hp in H2.
    cbn -[expiry_key parent] in H1, H2. lia.
Qed.

(** ** The state invariant *)

(** The map and the heap hold the same entries, under their identities. *)
Record linked (m : gmap replayIdentity nat) (h : replayExpiryHeap) : Prop := {
  linked_map i l : m !! i = Some l ->
    l ∈ slice h /\ exists e, memory h !! l = Some e /\ identity e = i;
  linked_slice l e : l ∈ slice h -> memory h !! l = Some e -> m !! identity e = Some l
}.

Record state_inv (capacity : Z) (st : memoryReplayState) : Prop := {
  inv_wf : expiry_wf (expiry st);
  inv_ordered : ordered (expiry st);
  inv_linked : linked (entries st) (expiry st);
  inv_capacity : Z.of_nat (size (entries st)) <= capacity
}.

(** The abstract state: until when each identity is retained. *)
Definition retained (st : memoryReplayState) : gmap replayIdentity Time :=
  loc_expiry (memory (expiry st)) <$> entries st.

Lemma retained_views m h h' t t' :
  same_views (memory h) (memory h') ->
  retained (mkState m h' t') = retained (mkState m h t).
Proof.
  intros Hv. unfold retained. cbn. apply map_fmap_ext. intros i l _. by apply same_views_expiry.
Qed.

Lemma size_retained st : size (retained st) = size (entries st).
Proof. apply map_size_fmap. Qed.

Lemma wf_live h l : expiry_wf h -> l ∈ slice h -> exists e, memory h !! l = Some e.
Proof. intros Hwf [i Hi]%list_elem_of_lookup. destruct (Hwf i l Hi) as (e & He & _). eauto. Qed.

Lemma linked_moved m h h' : linked m h -> moved h h' -> linked m h'.
Proof.
  intros [H1 H2] [Hs Hv]. split.
  - intros i l Hi. destruct (H1 i l Hi) as (Hl & e & He & Hid). split; [by apply Hs |].
    destruct (same_views_lookup _ _ _ _ Hv He) as (e' & ? & ? & _). exists e'. split; congruence.
  - intros l e' Hl He'.
    destruct (same_views_lookup _ _ _ _ (same_views_sym _ _ Hv) He') as (e & He & <- & _).
    apply H2; [by apply Hs | done].
Qed.

(** A retained identity is not before the root of the heap. *)
Lemma retained_root st i t e :
  expiry_wf (expiry st) -> ordered (expiry st) -> linked (entries st) (expiry st) ->
  retained st !! i = Some t -> entry_at (expiry st) 0 = Some e -> expiresAt e <= t.
Proof.
  intros Hwf Ho Hl Hi He. unfold retained in Hi. rewrite lookup_fmap_Some in Hi.
  destruct Hi as (l & <- & Hl'). destruct (linked_map _ _ Hl i l Hl') as (Hin & e' & He' & _).
  apply list_elem_of_lookup in Hin as [k Hk].
  pose proof (ordered_root _ (expiry st) k Ho (lookup_lt_Some _ _ _ Hk)) as Hle.
  change (expiry_key (expiry st) 0 <= expiry_key (expiry st) k) in Hle.
  unfold expiry_key in Hle. rewrite Hk in Hle. unfold entry_at in He.
  destruct (slice (expiry st) !! 0%nat) as [l0 |]; [| done]. cbn in He.
  unfold loc_expiry in Hle at 1. by rewrite He in Hle.
Qed.

(** ** The purge *)

(** At most one retained identity goes, it has expired, and none expires
    before it; if it stays, nothing has expired. *)
Definition purged (now : Time) (m m' : gmap replayIdentity Time) : Prop :=
  m' = m /\ (forall i t, m !! i = Some t -> now < t) \/
  exists i t, m !! i = Some t /\ t <= now /\ m' = delete i m /\
    forall i' t', m !! i' = Some t' -> t <= t'.

Lemma linked_pop m h h' l e :
  linked m h -> expiry_wf h -> l ∈ slice h -> memory h !! l = Some e ->
  (forall x, x ∈ slice h' <-> x ∈ slice h /\ x <> l) -> same_views (memory h) (memory h') ->
  linked (delete (identity e) m) h'.
Proof.
  intros [H1 H2] Hwf Hin He Hs Hv. split.
  - intros i x Hi. apply lookup_delete_Some in Hi as [Hne Hi].
    destruct (H1 i x Hi) as (Hx & ex & Hex & Hid). split.
    + apply Hs. split; [done |]. intros ->. congruence.
    + destruct (same_views_lookup _ _ _ _ Hv Hex) as (e' & ? & ? & _). exists e'. split; congruence.
  - intros x e' Hx He'. apply Hs in Hx as [Hx Hxl].
    destruct (same_views_lookup _ _ _ _ (same_views_sym _ _ Hv) He') as (ex & Hex & <- & _).
    specialize (H2 x ex Hx Hex) as H3. apply lookup_delete_Some. split; [| done].
    intros Heq. apply Hxl. pose proof (H2 l e Hin He) as H4. congruence.
Qed.

Lemma removeOldestExpired_spec cap now st :
  state_inv cap st ->
  exists st', removeOldestExpired now st = Some st' /\ state_inv cap st' /\
    latestNow st' = latestNow st /\ purged now (retained st) (retained st').
Proof.
  intros [Hwf Ho Hlk Hcap]. unfold removeOldestExpired.
  destruct (slice (expiry st)) as [| l0 s] eqn:Hs.
  { exists st. split; [done |]. split; [done |]. split; [done |]. left. split; [done |].
    intros i t Hi. unfold retained in Hi. apply lookup_fmap_Some in Hi as (l & _ & Hl).
    destruct (linked_map _ _ Hlk i l Hl) as (Hin & _). rewrite Hs in Hin. by apply elem_of_nil in Hin. }
  assert (slice (expiry st) !! 0%nat = Some l0) as H0 by (by rewrite Hs).
  destruct (Hwf 0%nat l0 H0) as (e & He & _).
  assert (entry_at (expiry st) 0 = Some e) as Hat by (unfold entry_at; rewrite H0; exact He).
  rewrite Hat. cbn [mbind option_bind]. unfold After.
  destruct (Z.ltb_spec now (expiresAt e)) as [Hlt | Hge].
  { exists st. split; [done |]. split; [done |]. split; [done |]. left. split; [done |].
    intros i t Hi. pose proof (retained_root st i t e Hwf Ho Hlk Hi Hat). lia. }
  destruct (heap_Pop_spec (expiry st)) as (l & h' & Hp & Hl & Hwf' & Ho' & Hs' & Hv);
    [done | done | by rewrite Hs |].
  assert (l = l0) as -> by congruence. rewrite Hp. cbn [mbind option_bind].
  destruct (same_views_lookup _ _ _ _ Hv He) as (e' & He' & Hid & _).
  rewrite He'. cbn [mbind option_bind]. rewrite Hid. eexists. split; [done |].
  assert (l0 ∈ slice (expiry st)) as Hin by (by eapply list_elem_of_lookup_2).
  pose proof (linked_slice _ _ Hlk l0 e Hin He) as Hent.
  split; [| split; [done |]].
  - split; cbn; [done | done | by eapply linked_pop |].
    rewrite map_size_delete_Some by eauto. lia.
  - right. exists (identity e), (expiresAt e). split; [| split; [done | split]].
    + unfold retained. rewrite lookup_fmap, Hent. cbn. unfold loc_expiry. by rewrite He.
    + rewrite (retained_views _ (expiry st) h' (latestNow st)) by done.
      unfold retained. cbn. apply fmap_delete.
    + intros i' t' Hi'. by apply (retained_root st i' t' e).
Qed.

(** ** The abstract store *)

(** What a call does to the map after the purge. *)
Definition spec_reserve (capacity : Z) (now : Time) (record : ReplayRecord)
  (m : gmap replayIdentity Time) : gmap replayIdentity Time * option error :=
  let accepted := (<[identity_of record := ExpiresAt record]> m, None) in
  match m !! identity_of record with
  | Some t => if now <? t then (m, Some (Sentinel ErrReplayDetected)) else accepted
  | None => if capacity <=? Z.of_nat (size m) then (m, Some (Sentinel ErrReplayCapacity)) else accepted
  end.

(** One call on the abstract store at the store's time [now]. *)
Definition spec_consume (capacity : Z) (maxTTL : Duration) (now : Time) (record : ReplayRecord)
  (m m' : gmap replayIdentity Time) (err : option error) : Prop :=
  if negb (now <? ExpiresAt record) || (maxTTL <? Sub (ExpiresAt record) now)
  then m' = m /\ err = Some (Sentinel ErrInvalidReplayRecord)
  else exists m1, purged now m m1 /\ (m', err) = spec_reserve capacity now record m1.

(** Replacing the expiration of a retained entry, or adding an entry. *)
Lemma linked_expiresAt m h l t : linked m h ->
  linked m (mkHeap (alter (set_expiresAt t) l (memory h)) (slice h)).
Proof.
  intros [H1 H2]. split.
  - intros i x Hi. destruct (H1 i x Hi) as (Hx & e & He & Hid). split; [done |]. cbn [memory].
    destruct (decide (l = x)) as [-> | Hne].
    + rewrite lookup_alter_eq, He. eexists. split; done.
    + rewrite lookup_alter_ne by done. eauto.
  - intros x e Hx. cbn [memory]. destruct (decide (l = x)) as [-> | Hne].
    + rewrite lookup_alter_eq. intros (e0 & He & ->)%fmap_Some. by apply (H2 x e0).
    + rewrite lookup_alter_ne by done. by apply H2.
Qed.

Lemma linked_insert m h h' l e :
  linked m h -> expiry_wf h -> memory h !! l = None -> m !! identity e = None ->
  (forall x, x ∈ slice h' <-> x ∈ slice h \/ x = l) ->
  same_views (<[l := e]> (memory h)) (memory h') ->
  linked (<[identity e := l]> m) h'.
Proof.
  intros [H1 H2] Hwf Hfresh Hnew Hs Hv.
  assert (forall x, x ∈ slice h -> x <> l) as Hother.
  { intros x Hx ->. destruct (wf_live h l Hwf Hx). congruence. }
  split.
  - intros i x Hi. destruct (decide (identity e = i)) as [<- | Hne].
    + rewrite lookup_insert_eq in Hi. injection Hi as <-. split; [apply Hs; by right |].
      destruct (same_views_lookup _ _ l e Hv) as (e' & ? & ? & _); [by rewrite lookup_insert_eq | eauto].
    + rewrite lookup_insert_ne in Hi by done. destruct (H1 i x Hi) as (Hx & ex & Hex & Hid).
      split; [apply Hs; by left |].
      destruct (same_views_lookup _ _ x ex Hv) as (e' & ? & ? & _).
      { rewrite lookup_insert_ne by (symmetry; by apply Hother). done. }
      exists e'. split; congruence.
  - intros x e' Hx He'. apply Hs in Hx.
    destruct (same_views_lookup _ _ _ _ (same_views_sym _ _ Hv) He') as (ex & Hex & <- & _).
    destruct Hx as [Hx | ->].
    + rewrite lookup_insert_ne in Hex by (symmetry; by apply Hother).
      specialize (H2 x ex Hx Hex). rewrite lookup_insert_ne; congruence.
    + rewrite lookup_insert_eq in Hex. injection Hex as <-. by rewrite lookup_insert_eq.
Qed.

Lemma retained_live st i l e :
  entries st !! i = Some l -> memory (expiry st) !! l = Some e -> retained st !! i = Some (expiresAt e).
Proof. intros Hl He. unfold retained. rewrite lookup_fmap, Hl. cbn. unfold loc_expiry. by rewrite He. Qed.

(** Two identities never share an entry. *)
Lemma linked_inj m h i j l : linked m h -> m !! i = Some l -> m !! j = Some l -> i = j.
Proof.
  intros H Hi Hj. destruct (linked_map _ _ H i l Hi) as (_ & e & He & <-).
  destruct (linked_map _ _ H j l Hj) as (_ & e' & He' & <-). congruence.
Qed.

Lemma reserve_spec cap now record st :
  state_inv cap st ->
  exists st' err, reserve cap now record st = Some (st', err) /\ state_inv cap st' /\
    latestNow st' = latestNow st /\
    (retained st', err) = spec_reserve cap now record (retained st).
Proof.
  intros [Hwf Ho Hlk Hcap]. unfold reserve, spec_reserve. fold (identity_of record).
  destruct (entries st !! identity_of record) as [l |] eqn:Hent.
  - destruct (linked_map _ _ Hlk _ l Hent) as (Hin & e & He & Hid).
    rewrite He, (retained_live st _ l e) by done. cbn [mbind option_bind]. unfold After.
    destruct (now <? expiresAt e) eqn:Hexp.
    { do 2 eexists. split; [done |]. done. }
    apply list_elem_of_lookup in Hin as [i Hi]. rewrite (wf_pos _ i l e) by done.
    destruct (heap_Fix_spec (expiry st) i l (ExpiresAt record)) as (h' & Hf & Hwf' & Ho' & Hm);
      [done | done | done |].
    rewrite Hf. cbn [mbind option_bind]. do 2 eexists. split; [done |]. split; [| split; [done |]].
    + split; cbn; [done | done | | done]. eapply linked_moved; [| done]. by apply linked_expiresAt.
    + destruct Hm as [_ Hv]. f_equal. rewrite (retained_views _ _ h' (latestNow st) _ Hv).
      apply map_eq. intros j. unfold retained. cbn [entries expiry memory].
      rewrite lookup_fmap. destruct (decide (identity_of record = j)) as [<- | Hne].
      * rewrite Hent, lookup_insert_eq. cbn. unfold loc_expiry. by rewrite lookup_alter_eq, He.
      * rewrite lookup_insert_ne, lookup_fmap by done.
        destruct (entries st !! j) as [x |] eqn:Hj; [| done]. cbn. unfold loc_expiry.
        rewrite lookup_alter_ne; [done |]. intros ->. apply Hne. by eapply linked_inj.
  - assert (retained st !! identity_of record = None) as ->
      by (unfold retained; by rewrite lookup_fmap, Hent).
    rewrite size_retained. destruct (cap <=? Z.of_nat (size (entries st))) eqn:Hfull.
    { do 2 eexists. split; [done |]. done. }
    set (l := fresh (dom (memory (expiry st)))).
    assert (memory (expiry st) !! l = None) as Hfresh by (apply not_elem_of_dom, is_fresh).
    set (e := mkEntry (identity_of record) (ExpiresAt record) 0).
    destruct (heap_Push_spec (expiry st) l e) as (h' & Hp & Hwf' & Ho' & Hs & Hv); [done.. |].
    cbn zeta. rewrite Hp. cbn [mbind option_bind]. do 2 eexists. split; [done |].
    split; [| split; [done |]].
    + split; cbn; [done | done | by apply (linked_insert _ (expiry st) h' l e) |].
      rewrite map_size_insert_None by done. lia.
    + f_equal. apply map_eq. intros j. unfold retained. cbn [entries expiry memory].
      rewrite lookup_fmap. destruct (decide (identity_of record = j)) as [<- | Hne].
      * rewrite !lookup_insert_eq. cbn. rewrite (same_views_expiry _ _ l Hv). unfold loc_expiry.
        by rewrite lookup_insert_eq.
      * rewrite !lookup_insert_ne, lookup_fmap by done.
        destruct (entries st !! j) as [x |] eqn:Hj; [| done]. cbn. f_equal.
        rewrite (same_views_expiry _ _ x Hv). unfold loc_expiry. rewrite lookup_insert_ne; [done |].
        destruct (linked_map _ _ Hlk j x Hj) as (Hx & ex & Hex & _). congruence.
Qed.

(** The store's time of a call: its clock reading, or the latest one seen. *)
Definition store_time (now : Time) (st : memoryReplayState) : Time := Z.max now (latestNow st).

Lemma state_inv_latestNow cap st now :
  state_inv cap st -> state_inv cap (mkState (entries st) (expiry st) now).
Proof. by intros []. Qed.

Lemma consume_locked_spec cap ttl now record st :
  state_inv cap st ->
  exists st' err, consume_locked cap ttl now record st = Some (st', err) /\ state_inv cap st' /\
    latestNow st' = store_time now st /\
    spec_consume cap ttl (store_time now st) record (retained st) (retained st') err.
Proof.
  intros Hinv. unfold consume_locked, Before.
  assert (exists st1, state_inv cap st1 /\ retained st1 = retained st /\
    latestNow st1 = store_time now st /\
    (if now <? latestNow st then (latestNow st, st)
     else (now, mkState (entries st) (expiry st) now)) = (store_time now st, st1))
    as (st1 & Hinv1 & <- & Hnow & ->).
  { unfold store_time. destruct (Z.ltb_spec now (latestNow st)).
    - exists st. rewrite Z.max_r by lia. done.
    - exists (mkState (entries st) (expiry st) now). rewrite Z.max_l by lia.
      split; [by apply state_inv_latestNow | done]. }
  rewrite <- Hnow. unfold spec_consume, After. case_match; [eauto 10 |].
  destruct (removeOldestExpired_spec cap (latestNow st1) st1 Hinv1) as (st2 & -> & Hinv2 & Hnow2 & Hp).
  cbn [mbind option_bind].
  destruct (reserve_spec cap (latestNow st1) record st2 Hinv2) as (st' & err & -> & Hinv' & Hnow' & Hr).
  exists st', err. split; [done |]. split; [done |]. split; [congruence |].
  exists (retained st2). done.
Qed.

(** ** The whole call *)

Abbreviation Store := (option MemoryReplayStore).

(** The early returns of [Consume]: everything that keeps it from the locked
    part, in order. *)
Definition refusal (store : Store) (obs : ConsumeObservation) (record : ReplayRecord)
  : option error :=
  if ctx_nil obs then Some (New "http signature: nil context")
  else match ctx_err_entry obs with
  | Some err => Some err
  | None =>
      match store with
      | None => Some (Sentinel ErrInvalidReplayConfig)
      | Some s =>
          if unusable s then Some (Sentinel ErrInvalidReplayConfig)
          else if invalid_record s record then Some (Sentinel ErrInvalidReplayRecord)
          else match ctx_err_clock obs with
               | Some err => Some err
               | None =>
                   if chose_done obs || done_closed obs
                   then Some (replayContextError (ctx_err_lock obs)) else None
               end
      end
  end.

(** The store between calls: the token is in the channel, and the state
    satisfies the invariant. *)
Definition store_inv (store : Store) : Prop :=
  forall s, store = Some s ->
    (forall m, mu s = Some m -> token m = true) /\
    (forall st, state s = Some st -> state_inv (capacity s) st).

Definition store_retained (store : Store) : gmap replayIdentity Time :=
  match store with
  | Some s => match state s with Some st => retained st | None => ∅ end
  | None => ∅
  end.

Definition store_reached (store : Store) : Time :=
  match store with
  | Some s => match state s with Some st => latestNow st | None => 0 end
  | None => 0
  end.

(** The bounds, and which references are nil. *)
Definition configuration (s : MemoryReplayStore) : Z * Duration * Z * Z * bool * bool * bool :=
  (capacity s, maxTTL s, maxKeyIDBytes s, maxNonceBytes s, has_now s,
   is_nil (mu s), is_nil (state s)).

(** What a call promises: it never panics, keeps the invariant and the
    configuration, and either refuses early without an effect or acts as the
    abstract store at the clamped clock reading. *)
Definition consume_promise (store : Store) (obs : ConsumeObservation) (record : ReplayRecord)
  (store' : Store) (err : option error) : Prop :=
  store_inv store' /\ configuration <$> store' = configuration <$> store /\
  match refusal store obs record with
  | Some e =>
      err = Some e /\ store_retained store' = store_retained store /\
      store_reached store' = store_reached store
  | None =>
      store_reached store' = Z.max (clock obs) (store_reached store) /\
      exists s, store = Some s /\
        spec_consume (capacity s) (maxTTL s) (store_reached store') record
          (store_retained store) (store_retained store') err
  end.

Lemma refused_promise store obs record e :
  store_inv store -> refusal store obs record = Some e ->
  consume_promise store obs record store (Some e).
Proof. intros Hinv Hr. unfold consume_promise. rewrite Hr. done. Qed.

Lemma lockContext_spec m d c :
  token m = true ->
  exists m', lockContext m d c = Some (negb (d || c), m') /\ token m' = d || c.
Proof. destruct m as [[]]; [| done]. intros _. destruct d, c; eexists; split; reflexivity. Qed.

Lemma store_inv_with s m st :
  token m = true -> state_inv (capacity s) st -> store_inv (Some (with_mu_state s m st)).
Proof. intros Hm Hst x [= <-]. split; cbn; intros ? [= <-]; done. Qed.

Lemma usable_parts s :
  unusable s = false -> (exists m, mu s = Some m) /\ (exists st, state s = Some st).
Proof.
  unfold unusable. intros H. bool_to_prop.
  destruct (mu s), (state s); cbn in *; try done. eauto.
Qed.

Lemma refusal_usable s obs r : refusal (Some s) obs r = None -> unusable s = false.
Proof. unfold refusal. repeat case_match; done. Qed.

Lemma Consume_spec store obs record :
  store_inv store ->
  exists store' err, Consume store obs record = Some (store', err) /\
    consume_promise store obs record store' err.
Proof.
  intros Hinv.
  destruct (refusal store obs record) as [e |] eqn:Hr.
  - pose proof (refused_promise store obs record e Hinv Hr) as Hp.
    unfold refusal in Hr. unfold Consume.
    destruct (ctx_nil obs). { injection Hr as <-. eauto. }
    destruct (ctx_err_entry obs). { injection Hr as <-. eauto. }
    destruct store as [s |]. 2: { injection Hr as <-. eauto. }
    destruct (unusable s) eqn:Hu. { injection Hr as <-. eauto. }
    destruct (invalid_record s record). { injection Hr as <-. eauto. }
    destruct (ctx_err_clock obs). { injection Hr as <-. eauto. }
    destruct (chose_done obs || done_closed obs) eqn:Hd; [| done]. injection Hr as <-.
    destruct (usable_parts s Hu) as [[m Hm] [st Hst]]. destruct (Hinv s eq_refl) as [Htok Hs].
    rewrite Hm, Hst. cbn [mbind option_bind].
    destruct (lockContext_spec m (chose_done obs) (done_closed obs) (Htok m Hm)) as (m' & -> & Hm').
    rewrite Hd in *. cbn. do 2 eexists. split; [done |].
    split; [apply store_inv_with; auto |]. split; [cbn; unfold configuration; cbn; by rewrite Hm, Hst |].
    destruct Hp as (_ & _ & Hp). destruct (refusal _ _ _); cbn [store_retained store_reached] in *;
      rewrite Hst in *; cbn; [done |].
    destruct Hp as (? & s' & [= <-] & Hp). eauto.
  - unfold refusal in Hr. unfold Consume, consume_promise, refusal.
    destruct (ctx_nil obs); [done |]. destruct (ctx_err_entry obs); [done |].
    destruct store as [s |]; [| done].
    destruct (unusable s) eqn:Hu; [done |]. destruct (invalid_record s record); [done |].
    destruct (ctx_err_clock obs); [done |].
    destruct (chose_done obs || done_closed obs) eqn:Hd; [done |].
    destruct (usable_parts s Hu) as [[m Hm] [st Hst]]. destruct (Hinv s eq_refl) as [Htok Hs].
    cbn [store_retained store_reached]. rewrite Hm, Hst. cbn [mbind option_bind].
    destruct (lockContext_spec m (chose_done obs) (done_closed obs) (Htok m Hm)) as (m' & -> & Hm').
    rewrite Hd in *. cbn -[consume_locked].
    destruct (consume_locked_spec (capacity s) (maxTTL s) (clock obs) record st (Hs st Hst))
      as (st' & err & -> & Hinv' & Hnow & Hspec).
    cbn -[consume_locked spec_consume]. unfold Unlock. rewrite Hm'.
    cbn -[spec_consume]. do 2 eexists. split; [done |].
    split; [by apply store_inv_with |]. split; [cbn; unfold configuration; cbn; by rewrite Hm, Hst |].
    cbn -[spec_consume]. rewrite Hnow. split; [done |]. eauto.
Qed.

(** ** The abstract store keeps reservations *)

Lemma purged_keeps now m m1 i t :
  purged now m m1 -> m !! i = Some t -> now < t -> m1 !! i = Some t.
Proof.
  intros [[-> _] | (j & u & Hj & Hu & -> & _)] Hi Ht; [done |].
  apply lookup_delete_Some. split; [| done]. intros ->. simplify_eq. lia.
Qed.

Lemma purged_subset now m m1 : purged now m m1 -> m1 ⊆ m.
Proof. intros [[-> _] | (j & u & _ & _ & -> & _)]; [done | apply delete_subseteq]. Qed.

Lemma spec_consume_accepts cap ttl now r m m' :
  spec_consume cap ttl now r m m' None ->
  m' !! identity_of r = Some (ExpiresAt r) /\ now < ExpiresAt r.
Proof.
  unfold spec_consume. case_match eqn:He; [by intros [_ ?] |].
  apply orb_false_iff in He as [He _]. intros (m1 & _ & Hr). split; [| lia].
  unfold spec_reserve in Hr. repeat case_match; simplify_eq; apply lookup_insert_eq.
Qed.

Lemma spec_consume_keeps cap ttl now r m m' err i t :
  spec_consume cap ttl now r m m' err -> m !! i = Some t -> now < t -> m' !! i = Some t.
Proof.
  unfold spec_consume. case_match; [by intros [-> _] |]. intros (m1 & Hp & Hr) Hi Ht.
  pose proof (purged_keeps now m m1 i t Hp Hi Ht) as H1. unfold spec_reserve in Hr.
  destruct (decide (identity_of r = i)) as [<- | Hne].
  - rewrite H1 in Hr. replace (now <? t) with true in Hr by lia. by simplify_eq.
  - repeat case_match; simplify_eq; rewrite ?lookup_insert_ne; done.
Qed.

Lemma spec_consume_refuses cap ttl now r m m' err t :
  spec_consume cap ttl now r m m' err -> m !! identity_of r = Some t -> now < t -> err <> None.
Proof.
  unfold spec_consume. case_match; [by intros [_ ->] |]. intros (m1 & Hp & Hr) Hi Ht.
  pose proof (purged_keeps now m m1 _ t Hp Hi Ht) as H1. unfold spec_reserve in Hr.
  rewrite H1 in Hr. replace (now <? t) with true in Hr by lia. by simplify_eq.
Qed.

(** ** The in-memory store is a replay store *)

#[export] Instance memory_store : ReplayStore Store ConsumeObservation :=
  { replay_Consume := Consume }.

Lemma promise_of store obs record store' err :
  store_inv store -> Consume store obs record = Some (store', err) ->
  consume_promise store obs record store' err.
Proof.
  intros Hinv Hc. destruct (Consume_spec store obs record Hinv) as (? & ? & Hc' & Hp). congruence.
Qed.

#[export] Instance memory_store_laws : ReplayStoreLaws Store ConsumeObservation.
Proof.
  refine {| store_wf := store_inv; reserved_until s i := store_retained s !! i;
            reached := store_reached |}.
  - intros s o r Hinv. destruct (Consume_spec s o r Hinv) as (s' & err & Hc & Hp).
    exists s', err. split; [done |]. destruct Hp as (Hinv' & _ & Hp). split; [done |].
    destruct (refusal s o r); [destruct Hp as (_ & _ & ->) | destruct Hp as [-> _]]; lia.
  - intros s o r s' Hinv Hc. destruct (promise_of s o r s' None Hinv Hc) as (_ & _ & Hp).
    destruct (refusal s o r); destruct Hp as [He Hp]; [done |].
    destruct Hp as (x & _ & Hspec). by apply spec_consume_accepts in Hspec.
  - intros s o r s' err i t Hinv Hc Hi Ht.
    destruct (promise_of s o r s' err Hinv Hc) as (_ & _ & Hp).
    destruct (refusal s o r); [by destruct Hp as (_ & -> & _) |].
    destruct Hp as (_ & x & _ & Hspec). by eapply spec_consume_keeps.
  - intros s o r s' err t Hinv Hc Hi Ht.
    destruct (promise_of s o r s' err Hinv Hc) as (_ & _ & Hp).
    destruct (refusal s o r); [by destruct Hp as (-> & _) |].
    destruct Hp as (_ & x & _ & Hspec). by eapply spec_consume_refuses.
Defined.

Lemma memory_run_total (store : Store) (calls : list (ConsumeObservation * ReplayRecord)) :
  store_inv store ->
  exists store' errs, run store calls = Some (store', errs) /\ store_inv store' /\
    length errs = length calls.
Proof.
  intros Hinv. destruct (run_total (RSL := memory_store_laws) store calls Hinv)
    as (s & errs & ? & ? & ? & _). eauto.
Qed.

(** The laws an accepted store starts from. *)
Lemma New_inv config s : NewMemoryReplayStore config = Ok s -> store_inv (Some s).
Proof.
  unfold NewMemoryReplayStore. case_match eqn:Hc; [done |]. intros [= <-] x [= <-].
  split; cbn; intros ? [= <-]; [done |].
  repeat (apply orb_false_iff in Hc as [Hc ?]). split; cbn.
  - intros i l Hi. done.
  - intros k. cbn. lia.
  - split; [by intros i l | intros l e Hl; by apply elem_of_nil in Hl].
  - rewrite map_size_empty. lia.
Qed.

Lemma New_parts config s :
  NewMemoryReplayStore config = Ok s ->
  capacity s = Capacity config /\ is_nil (mu s) = false /\ is_nil (state s) = false.
Proof. unfold NewMemoryReplayStore. case_match; [done |]. by intros [= <-]. Qed.

Lemma run_configuration store calls store' errs :
  store_inv store -> run store calls = Some (store', errs) ->
  configuration <$> store' = configuration <$> store.
Proof.
  revert store errs. induction calls as [| [o r] calls IH]; intros store errs Hinv.
  { cbn. intros [= -> _]. done. }
  intros (s1 & err & errs1 & Hc & Hr & ->)%run_cons.
  destruct (promise_of store o r s1 err Hinv Hc) as (Hinv1 & <- & _). by apply (IH s1 errs1).
Qed.

(** The clock readings of calls bound the store's time. *)
Lemma reached_bound store calls store' errs bound :
  store_inv store -> run store calls = Some (store', errs) ->
  store_reached store < bound -> Forall (fun '(o, _) => clock o < bound) calls ->
  store_reached store' < bound.
Proof.
  revert store errs. induction calls as [| [o r] calls IH]; intros store errs Hinv.
  { cbn. intros [= -> _]. done. }
  intros (s1 & err & errs1 & Hc & Hr & ->)%run_cons Hb [Ho Hrest]%Forall_cons_1.
  destruct (promise_of store o r s1 err Hinv Hc) as (Hinv1 & _ & Hp).
  apply (IH s1 errs1 Hinv1 Hr); [| done].
  destruct (refusal store o r); [by destruct Hp as (_ & _ & ->) | destruct Hp as [-> _]; lia].
Qed.

(** ** Properties *)

(** C1: replay safety.  Take a store made by [NewMemoryReplayStore], any calls
    of [Consume], a call that accepts an identity until [ExpiresAt r1], any
    further calls, and one more call for the same key and nonce.  If every
    clock reading after the acceptance is before [ExpiresAt r1], that last
    call is refused with an error - whatever the other calls were, and in
    whatever order the concurrent clock readings reach the lock. *)
Theorem no_identity_accepted_twice config s0 before s1 errs1 o1 r1 s2 between s3 errs3 o2 r2 :
  NewMemoryReplayStore config = Ok s0 ->
  run (Some s0 : Store) before = Some (s1, errs1) ->
  Consume s1 o1 r1 = Some (s2, None) ->
  run s2 between = Some (s3, errs3) ->
  identity_of r1 = identity_of r2 ->
  Forall (fun '(o, _) => clock o < ExpiresAt r1) (between ++ [(o2, r2)]) ->
  exists s4 err, Consume s3 o2 r2 = Some (s4, Some err).
Proof.
  intros Hnew Hbefore H1 Hbetween Hid [Hcb [Hc2 _]%Forall_cons_1]%list.Forall_app.
  pose proof (New_inv config s0 Hnew) as Hinv0.
  destruct (memory_run_total (Some s0) before Hinv0) as (sa & ? & Hb' & Hinv1 & _).
  assert (sa = s1) as -> by congruence.
  destruct (consume_reserves (ReplayStoreLaws := memory_store_laws) s1 o1 r1 s2 Hinv1 H1) as [_ Hlt].
  destruct (promise_of s1 o1 r1 s2 None Hinv1 H1) as (Hinv2 & _).
  pose proof (reached_bound s2 between s3 errs3 (ExpiresAt r1) Hinv2 Hbetween Hlt Hcb) as Hlt3.
  destruct (memory_run_total s2 between Hinv2) as (sb & ? & Hb3 & Hinv3 & _).
  assert (sb = s3) as -> by congruence.
  destruct (Consume_spec s3 o2 r2 Hinv3) as (s4 & err & H2 & Hp).
  destruct err as [err |]; [by exists s4, err |]. exfalso.
  apply (run_no_replay (RSL := memory_store_laws) s1 o1 r1 s2 between s3 errs3 o2 r2 s4 None);
    try done.
  change (store_reached s4 < ExpiresAt r1). destruct Hp as (_ & _ & Hp).
  destruct (refusal s3 o2 r2); [by destruct Hp as (_ & _ & ->) | destruct Hp as [-> _]; lia].
Qed.

(** C28: refinement.  On every store whose invariant holds, [Consume] does not
    panic, keeps the invariant and the configuration, and returns the lock;
    if an early return applies ([refusal]), it gives that error and changes
    nothing observable, and otherwise it acts as one atomic step of the
    abstract store ([spec_consume]: purge at most one oldest expired identity,
    then detect, refuse for capacity, or reserve) at the clamped time. *)
Theorem Consume_refines store obs record :
  store_inv store ->
  exists store' err, Consume store obs record = Some (store', err) /\
    consume_promise store obs record store' err.
Proof. apply Consume_spec. Qed.

(** C30: bounded retention and absence of panics.  From [NewMemoryReplayStore],
    every sequence of calls runs to completion, and the store then retains at
    most [Capacity] identities, with the token back in the mutex. *)
Theorem retention_bounded config s0 calls :
  NewMemoryReplayStore config = Ok s0 ->
  exists s errs, run (Some s0 : Store) calls = Some (s, errs) /\
    length errs = length calls /\
    Z.of_nat (size (store_retained s)) <= Capacity config /\
    exists s', s = Some s' /\ mu s' = Some newReplayMutex.
Proof.
  intros Hnew. pose proof (New_inv config s0 Hnew) as Hinv0.
  destruct (memory_run_total (Some s0) calls Hinv0) as (s & errs & Hrun & Hinv & HL).
  pose proof (run_configuration _ _ _ _ Hinv0 Hrun) as Hconf.
  exists s, errs. split; [done |]. split; [done |].
  destruct s as [s' |]; [| done]. injection Hconf as Hcap _ _ _ _ Hmu Hst.
  destruct (New_parts config s0 Hnew) as (Hc & Hm & Hs). rewrite Hm in Hmu. rewrite Hs in Hst.
  destruct (Hinv s' eq_refl) as [Htok Hinv'].
  destruct (mu s') as [[t] |] eqn:Hmu'; [| done]. destruct (state s') as [st |] eqn:Hst'; [| done].
  split.
  - cbn. rewrite Hst', size_retained, <- Hc, <- Hcap. by apply Hinv'.
  - exists s'. split; [done |]. rewrite Hmu'. by rewrite (Htok _ eq_refl : t = true).
Qed.

(** C29: progress.  A call that no early return stops, whose record expires
    after the store's time and within [maxTTL], whose identity is not retained
    past that time, is accepted - and its identity retained until [ExpiresAt]
    - whenever the store has room or retains anything expired. *)
Theorem fresh_identity_accepted s obs r :
  store_inv (Some s) ->
  refusal (Some s) obs r = None ->
  let now := Z.max (clock obs) (store_reached (Some s)) in
  now < ExpiresAt r -> Sub (ExpiresAt r) now <= maxTTL s ->
  (forall t, store_retained (Some s) !! identity_of r = Some t -> t <= now) ->
  Z.of_nat (size (store_retained (Some s))) < capacity s \/
  (exists i t, store_retained (Some s) !! i = Some t /\ t <= now) ->
  exists s', Consume (Some s) obs r = Some (s', None) /\
    store_retained s' !! identity_of r = Some (ExpiresAt r).
Proof.
  intros Hinv Href now Hexp Httl Hid Hroom.
  destruct (Consume_spec (Some s) obs r Hinv) as (s' & err & Hc & Hp).
  destruct Hp as (Hinv' & _ & Hp). rewrite Href in Hp.
  destruct Hp as (Hnow & x & [= <-] & Hspec). fold now in Hnow. rewrite Hnow in Hspec.
  enough (err = None) as ->.
  { exists s'. split; [done |]. by apply spec_consume_accepts in Hspec as [? _]. }
  unfold spec_consume in Hspec.
  replace (negb (now <? ExpiresAt r) || (maxTTL s <? Sub (ExpiresAt r) now)) with false in Hspec by lia.
  destruct Hspec as (m1 & Hp & Hr). unfold spec_reserve in Hr.
  assert (Z.of_nat (size (store_retained (Some s))) <= capacity s) as Hcap.
  { destruct (Hinv s eq_refl) as [_ Hst]. cbn. destruct (state s) as [st |] eqn:Hs.
    - rewrite size_retained. by apply Hst.
    - destruct (usable_parts s (refusal_usable s obs r Href)) as [_ [st Hst']]. congruence. }
  destruct (m1 !! identity_of r) as [t |] eqn:Ht.
  - pose proof (lookup_weaken _ _ _ _ Ht (purged_subset _ _ _ Hp)) as Hm. specialize (Hid t Hm).
    replace (now <? t) with false in Hr by lia. congruence.
  - enough (Z.of_nat (size m1) < capacity s) by (case_match; [lia | congruence]).
    destruct Hp as [[-> Hall] | (i & t & Hi & _ & -> & _)].
    + destruct Hroom as [? | (i & t & Hi & Hle)]; [done |]. specialize (Hall i t Hi). lia.
    + rewrite map_size_delete_Some by eauto.
      destruct (decide (size (store_retained (Some s)) = 0%nat)) as [H0 | ?]; [| lia].
      apply map_size_empty_iff in H0. rewrite H0 in Hi. done.
Qed.

(** ** Concrete runs *)

Definition example_config : MemoryReplayConfig := mkConfig 2 (300 * Second) 32 16 true.
Definition example_store : MemoryReplayStore :=
  match NewMemoryReplayStore example_config with
  | Ok s => s
  | Err _ => mkStore None None 0 0 0 0 false
  end.
Definition at_time (t : Z) : ConsumeObservation :=
  mkObservation false None (time_Unix t) None false false None.
Definition example_record (n : string) (t : Z) : ReplayRecord :=
  mkReplayRecord (str "key") (str n) (time_Unix t).
(** The store after some calls. *)
Definition after_calls (calls : list (ConsumeObservation * ReplayRecord)) : Store :=
  match run (Some example_store : Store) calls with Some (s, _) => s | None => None end.
Definition errors_after (calls : list (ConsumeObservation * ReplayRecord)) : list (option error) :=
  match run (Some example_store : Store) calls with Some (_, e) => e | None => [] end.
Definition first_call : list (ConsumeObservation * ReplayRecord) :=
  [(at_time 1000, example_record "n1" 1200)].
Definition later_calls : list (ConsumeObservation * ReplayRecord) :=
  [(at_time 1001, example_record "n2" 1100); (at_time 1150, example_record "n3" 1300)].

(** The store of capacity two: a replay, a full store, and a slot freed by expiry. *)
Example example_errors :
  errors_after (first_call ++ [(at_time 1001, example_record "n1" 1200);
    (at_time 1001, example_record "n2" 1100); (at_time 1002, example_record "n3" 1300);
    (at_time 1150, example_record "n3" 1300); (at_time 1000, example_record "n2" 1149)]) =
  [None; Some (Sentinel ErrReplayDetected); None; Some (Sentinel ErrReplayCapacity); None;
   Some (Sentinel ErrInvalidReplayRecord)].
Proof. vm_compute. reflexivity. Qed.

Lemma no_identity_accepted_twice_witness :
  exists s4 err, Consume (after_calls (first_call ++ later_calls)) (at_time 1199)
    (example_record "n1" 1250) = Some (s4, Some err).
Proof.
  apply (no_identity_accepted_twice example_config example_store [] (Some example_store) []
    (at_time 1000) (example_record "n1" 1200) (after_calls first_call) later_calls
    (after_calls (first_call ++ later_calls)) [None; None] (at_time 1199) (example_record "n1" 1250)).
  - vm_compute; reflexivity.
  - reflexivity.
  - vm_compute; reflexivity.
  - vm_compute; reflexivity.
  - reflexivity.
  - repeat constructor.
Defined.

Lemma Consume_refines_witness :
  exists store' err, Consume (Some example_store) (at_time 1000) (example_record "n1" 1200) =
    Some (store', err) /\
    consume_promise (Some example_store) (at_time 1000) (example_record "n1" 1200) store' err.
Proof. apply (Consume_refines (Some example_store)), (New_inv example_config). reflexivity. Defined.

Lemma retention_bounded_witness :
  exists s errs, run (Some example_store : Store) (first_call ++ later_calls) = Some (s, errs) /\
    length errs = 3%nat /\ Z.of_nat (size (store_retained s)) <= 2 /\
    exists s', s = Some s' /\ mu s' = Some newReplayMutex.
Proof.
  apply (retention_bounded example_config example_store (first_call ++ later_calls)). reflexivity.
Defined.

Lemma fresh_identity_accepted_witness :
  exists s', Consume (Some example_store) (at_time 1000) (example_record "n1" 1200) = Some (s', None) /\
    store_retained s' !! mkIdentity (str "key") (str "n1") = Some (time_Unix 1200).
Proof.
  apply (fresh_identity_accepted example_store (at_time 1000) (example_record "n1" 1200)).
  - apply (New_inv example_config). reflexivity.
  - vm_compute; reflexivity.
  - vm_compute; reflexivity.
  - vm_compute; discriminate.
  - intros t Ht. vm_compute in Ht. discriminate Ht.
  - left. vm_compute. reflexivity.
Defined.
