(* ===== verification/ReplaySteps.v ===== *)
(** * The critical section of [Consume], access by access (replay.go 234-300)

    Between [lockContext] and the deferred [Unlock], [Consume] reads and writes
    the shared state several times.  Here each access of the map, of the heap
    and of [latestNow] is a step of its own, so that goroutines that did not
    exclude each other could come in between; a call of container/heap is one
    step.  A section that runs undisturbed is [consume_locked]. *)

From S2P Require Import Prelude GoStrings Errors GoTime Heap Replay ReplayStore.
Open Scope Z_scope.

(** The next access, with the local variables that are still used. *)
Inductive section_point :=
| AtClock
| ClockCompared (behind : bool)
| AtChecks (now : Time)
| AtOldest (now : Time)
| AtPop (now : Time)
| AtDelete (now : Time) (entry : nat)
| AtLookup (now : Time)
| AtExisting (now : Time) (existing : nat)
| AtRenew (existing : nat)
| AtFix (existing : nat)
| AtCapacity
| AtInsert
| AtPush (entry : nat).

Section Section_steps.
Context (capacity : Z) (maxTTL : Duration) (clock : Time) (record : ReplayRecord).

Let identity_used : replayIdentity := mkIdentity (RecordKeyID record) (RecordNonce record).

(** One access: the next point ([inl]) or the result of [Consume] ([inr]);
    [None] is a panic. *)
Definition section_step (p : section_point) (st : memoryReplayState)
  : option (memoryReplayState * (section_point + option error)) :=
  match p with
  | AtClock => Some (st, inl (ClockCompared (Before clock (latestNow st))))
  | ClockCompared true => Some (st, inl (AtChecks (latestNow st)))
  | ClockCompared false => Some (mkState (entries st) (expiry st) clock, inl (AtChecks clock))
  | AtChecks now =>
      if negb (After (ExpiresAt record) now) || (maxTTL <? Sub (ExpiresAt record) now)
      then Some (st, inr (Some (Sentinel ErrInvalidReplayRecord)))
      else Some (st, inl (AtOldest now))
  | AtOldest now =>
      match slice (expiry st) with
      | [] => Some (st, inl (AtLookup now))
      | _ =>
          first ← entry_at (expiry st) 0;
          Some (st, inl (if After (expiresAt first) now then AtLookup now else AtPop now))
      end
  | AtPop now =>
      '(entry, h) ← heap_Pop (expiry st);
      Some (mkState (entries st) h (latestNow st), inl (AtDelete now entry))
  | AtDelete now entry =>
      e ← memory (expiry st) !! entry;
      Some (mkState (delete (identity e) (entries st)) (expiry st) (latestNow st), inl (AtLookup now))
  | AtLookup now =>
      Some (st, inl (match entries st !! identity_used with
                     | Some existing => AtExisting now existing
                     | None => AtCapacity
                     end))
  | AtExisting now existing =>
      e ← memory (expiry st) !! existing;
      if After (expiresAt e) now then Some (st, inr (Some (Sentinel ErrReplayDetected)))
      else Some (st, inl (AtRenew existing))
  | AtRenew existing =>
      Some (mkState (entries st)
              (mkHeap (alter (set_expiresAt (ExpiresAt record)) existing (memory (expiry st)))
                 (slice (expiry st))) (latestNow st), inl (AtFix existing))
  | AtFix existing =>
      e ← memory (expiry st) !! existing;
      h ← heap_Fix (expiry st) (index e);
      Some (mkState (entries st) h (latestNow st), inr None)
  | AtCapacity =>
      if capacity <=? Z.of_nat (size (entries st))
      then Some (st, inr (Some (Sentinel ErrReplayCapacity)))
      else Some (st, inl AtInsert)
  | AtInsert =>
      let entry := fresh (dom (memory (expiry st))) in
      let memory' := <[entry := mkEntry identity_used (ExpiresAt record) 0]> (memory (expiry st)) in
      Some (mkState (<[identity_used := entry]> (entries st)) (mkHeap memory' (slice (expiry st)))
              (latestNow st), inl (AtPush entry))
  | AtPush entry =>
      h ← heap_Push (expiry st) entry;
      Some (mkState (entries st) h (latestNow st), inr None)
  end.

(** The rest of the section from a point on. *)
Definition after_checks (now : Time) (st : memoryReplayState) : option (memoryReplayState * option error) :=
  if negb (After (ExpiresAt record) now) || (maxTTL <? Sub (ExpiresAt record) now)
  then Some (st, Some (Sentinel ErrInvalidReplayRecord))
  else st ← removeOldestExpired now st; reserve capacity now record st.

Definition remainder (p : section_point) (st : memoryReplayState)
  : option (memoryReplayState * option error) :=
  match p with
  | AtClock => consume_locked capacity maxTTL clock record st
  | ClockCompared true => after_checks (latestNow st) st
  | ClockCompared false => after_checks clock (mkState (entries st) (expiry st) clock)
  | AtChecks now => after_checks now st
  | AtOldest now => st ← removeOldestExpired now st; reserve capacity now record st
  | AtPop now =>
      '(entry, h) ← heap_Pop (expiry st);
      e ← memory h !! entry;
      reserve capacity now record (mkState (delete (identity e) (entries st)) h (latestNow st))
  | AtDelete now entry =>
      e ← memory (expiry st) !! entry;
      reserve capacity now record (mkState (delete (identity e) (entries st)) (expiry st) (latestNow st))
  | AtLookup now => reserve capacity now record st
  | AtExisting now existing =>
      e ← memory (expiry st) !! existing;
      if After (expiresAt e) now then Some (st, Some (Sentinel ErrReplayDetected))
      else
        h ← heap_Fix (mkHeap (alter (set_expiresAt (ExpiresAt record)) existing (memory (expiry st)))
                        (slice (expiry st))) (index e);
        Some (mkState (entries st) h (latestNow st), None)
  | AtRenew existing =>
      e ← memory (expiry st) !! existing;
      h ← heap_Fix (mkHeap (alter (set_expiresAt (ExpiresAt record)) existing (memory (expiry st)))
                      (slice (expiry st))) (index e);
      Some (mkState (entries st) h (latestNow st), None)
  | AtFix existing =>
      e ← memory (expiry st) !! existing;
      h ← heap_Fix (expiry st) (index e);
      Some (mkState (entries st) h (latestNow st), None)
  | AtCapacity =>
      if capacity <=? Z.of_nat (size (entries st))
      then Some (st, Some (Sentinel ErrReplayCapacity))
      else
        let entry := fresh (dom (memory (expiry st))) in
        let memory' := <[entry := mkEntry identity_used (ExpiresAt record) 0]> (memory (expiry st)) in
        h ← heap_Push (mkHeap memory' (slice (expiry st))) entry;
        Some (mkState (<[identity_used := entry]> (entries st)) h (latestNow st), None)
  | AtInsert =>
      let entry := fresh (dom (memory (expiry st))) in
      let memory' := <[entry := mkEntry identity_used (ExpiresAt record) 0]> (memory (expiry st)) in
      h ← heap_Push (mkHeap memory' (slice (expiry st))) entry;
      Some (mkState (<[identity_used := entry]> (entries st)) h (latestNow st), None)
  | AtPush entry =>
      h ← heap_Push (expiry st) entry;
      Some (mkState (entries st) h (latestNow st), None)
  end.

(** The rest after a step. *)
Definition remainder_after (next : memoryReplayState * (section_point + option error))
  : option (memoryReplayState * option error) :=
  match next with
  | (st, inl p) => remainder p st
  | (st, inr err) => Some (st, err)
  end.

(** A step leaves the rest of the section to do: from [AtClock] on, the steps
    are those of [consume_locked], and they panic only where it does. *)
Lemma section_step_remainder p st : remainder p st = (next ← section_step p st; remainder_after next).
Proof.
  destruct p as [| [] | now | now | now | now entry | now | now existing | existing | existing | | | entry];
    cbn [section_step remainder remainder_after mbind option_bind].
  - unfold consume_locked. by destruct (Before clock (latestNow st)).
  - done.
  - done.
  - unfold after_checks. by destruct (_ || _).
  - unfold removeOldestExpired. destruct (slice (expiry st)); [done |].
    destruct (entry_at (expiry st) 0) as [first |]; [| done]. cbn [mbind option_bind remainder_after].
    destruct (After _ now); [done |]. cbn [remainder].
    destruct (heap_Pop (expiry st)) as [[entry h] |]; [| done]. cbn [mbind option_bind].
    by destruct (memory h !! entry).
  - destruct (heap_Pop (expiry st)) as [[entry h] |]; done.
  - by destruct (memory (expiry st) !! entry).
  - unfold reserve. fold identity_used. by destruct (entries st !! identity_used).
  - destruct (memory (expiry st) !! existing) as [e |] eqn:He; [| done]. cbn [mbind option_bind].
    destruct (After _ now); [done |]. cbn [mbind option_bind remainder_after remainder]. by rewrite He.
  - cbn [expiry memory slice]. rewrite lookup_alter_eq. destruct (memory (expiry st) !! existing); done.
  - destruct (memory (expiry st) !! existing); [| done]. cbn [mbind option_bind].
    by destruct (heap_Fix _ _).
  - by destruct (_ <=? _).
  - done.
  - by destruct (heap_Push _ _).
Qed.

(** A bound on the accesses that are left. *)
Definition section_work (p : section_point) : nat :=
  match p with
  | AtClock => 10 | ClockCompared _ => 9 | AtChecks _ => 8 | AtOldest _ => 7 | AtPop _ => 6
  | AtDelete _ _ => 5 | AtLookup _ => 4 | AtExisting _ _ => 3 | AtCapacity => 3 | AtRenew _ => 2
  | AtInsert => 2 | AtFix _ => 1 | AtPush _ => 1
  end.

Lemma section_step_work p st st' p' :
  section_step p st = Some (st', inl p') -> (section_work p' < section_work p)%nat.
Proof.
  destruct p as [| [] | now | now | now | now entry | now | now existing | existing | existing | | | entry];
    cbn [section_step]; intros H; try (by injection H as <- <-; cbn; lia).
  - destruct (_ || _); [done |]. injection H as <- <-. cbn. lia.
  - destruct (slice (expiry st)); [injection H as <- <-; cbn; lia |].
    apply bind_Some in H as (first & _ & H). injection H as <- <-. destruct (After _ _); cbn; lia.
  - apply bind_Some in H as ([entry h] & _ & H). injection H as <- <-. cbn. lia.
  - apply bind_Some in H as (e & _ & H). injection H as <- <-. cbn. lia.
  - injection H as <- <-. destruct (entries st !! identity_used); cbn; lia.
  - apply bind_Some in H as (e & _ & H). destruct (After _ _); [done |]. injection H as <- <-. cbn. lia.
  - apply bind_Some in H as (e & _ & H). by apply bind_Some in H as (h & _ & H).
  - destruct (_ <=? _); [done |]. injection H as <- <-. cbn. lia.
  - by apply bind_Some in H as (h & _ & H).
Qed.
End Section_steps.
