(* ===== verification/ReplayConcurrency.v ===== *)
(** * Concurrent calls of [Consume] (replay.go, the channel mutex)

    Goroutines that share one store, as a step relation: each call runs the
    checks before the lock, waits in the [select] of [lockContext], checks its
    context again once it has the token, runs the critical section access by
    access ([ReplaySteps.section_step]) and returns the token in the deferred
    [Unlock].  The scheduler may interleave the steps of different goroutines
    in any way, those of critical sections included: only the token keeps
    them apart.  The theorems show that the sequential runs of [ReplayStore]
    are all a caller can observe. *)

From stdpp Require Import relations.
From S2P Require Import Prelude Errors GoTime Heap Replay ReplayStore ReplayFacts ReplaySteps.
Open Scope Z_scope.

(** ** Goroutines *)

(** Where a goroutine stands in the call [Consume(o, r)]. *)
Inductive program_point :=
| Entered (o : ConsumeObservation) (r : ReplayRecord)
| Waiting (o : ConsumeObservation) (r : ReplayRecord)
| Acquired (o : ConsumeObservation) (r : ReplayRecord)
| Critical (o : ConsumeObservation) (r : ReplayRecord) (p : section_point)
| Leaving (o : ConsumeObservation) (r : ReplayRecord) (err : option error)
| Returned (o : ConsumeObservation) (r : ReplayRecord) (err : option error).

(** The goroutine has the token. *)
Definition holds (p : program_point) : bool :=
  match p with Acquired _ _ | Critical _ _ _ | Leaving _ _ _ => true | _ => false end.

(** The goroutine is between two accesses of the shared state. *)
Definition in_section (p : program_point) : bool :=
  match p with Critical _ _ _ => true | _ => false end.

Definition returned (p : program_point) : bool :=
  match p with Returned _ _ _ => true | _ => false end.

(** The shared channel and state, the goroutines, and the calls whose critical
    section has run, in that order. *)
Record system := mkSystem {
  channel : replayMutex;
  shared : memoryReplayState;
  goroutines : gmap nat program_point;
  history : list (ConsumeObservation * ReplayRecord * option error)
}.

(** The checks of [Consume] before the lock. *)
Definition checked (s : MemoryReplayStore) (o : ConsumeObservation) (r : ReplayRecord)
  : option error :=
  if ctx_nil o then Some (New "http signature: nil context")
  else match ctx_err_entry o with
  | Some err => Some err
  | None =>
      if unusable s then Some (Sentinel ErrInvalidReplayConfig)
      else if invalid_record s r then Some (Sentinel ErrInvalidReplayRecord)
      else ctx_err_clock o
  end.

Definition moves (c : system) (m : replayMutex) (g : nat) (p : program_point) : system :=
  mkSystem m (shared c) (<[g := p]> (goroutines c)) (history c).

(** One step of a running call, on the store [s]. *)
Inductive advance (s : MemoryReplayStore) : system -> system -> Prop :=
| step_refuse c g o r err :
    goroutines c !! g = Some (Entered o r) -> checked s o r = Some err ->
    advance s c (moves c (channel c) g (Returned o r (Some err)))
| step_wait c g o r :
    goroutines c !! g = Some (Entered o r) -> checked s o r = None ->
    advance s c (moves c (channel c) g (Waiting o r))
| step_done c g o r :
    goroutines c !! g = Some (Waiting o r) -> chose_done o = true ->
    advance s c
      (moves c (channel c) g (Returned o r (Some (replayContextError (ctx_err_lock o)))))
| step_receive c g o r m :
    goroutines c !! g = Some (Waiting o r) -> chose_done o = false ->
    Lock (channel c) = Some m ->
    advance s c (moves c m g (Acquired o r))
| step_cancel c g o r m :
    goroutines c !! g = Some (Acquired o r) ->
    keepLockUnlessCanceled (channel c) (done_closed o) = Some (false, m) ->
    advance s c (moves c m g (Returned o r (Some (replayContextError (ctx_err_lock o)))))
| step_keep c g o r m :
    goroutines c !! g = Some (Acquired o r) ->
    keepLockUnlessCanceled (channel c) (done_closed o) = Some (true, m) ->
    advance s c (moves c m g (Critical o r AtClock))
| step_access c g o r p st p' :
    goroutines c !! g = Some (Critical o r p) ->
    section_step (capacity s) (maxTTL s) (clock o) r p (shared c) = Some (st, inl p') ->
    advance s c (mkSystem (channel c) st (<[g := Critical o r p']> (goroutines c)) (history c))
| step_finish c g o r p st err :
    goroutines c !! g = Some (Critical o r p) ->
    section_step (capacity s) (maxTTL s) (clock o) r p (shared c) = Some (st, inr err) ->
    advance s c (mkSystem (channel c) st (<[g := Leaving o r err]> (goroutines c))
                   (history c ++ [(o, r, err)]))
| step_unlock c g o r err m :
    goroutines c !! g = Some (Leaving o r err) -> Unlock (channel c) = Some m ->
    advance s c (moves c m g (Returned o r err)).

(** A goroutine without a running call may start one. *)
Inductive start : system -> system -> Prop :=
| step_call c g o r :
    (forall p, goroutines c !! g = Some p -> returned p = true) ->
    start c (moves c (channel c) g (Entered o r)).

Definition step (s : MemoryReplayStore) (c c' : system) : Prop := start c c' \/ advance s c c'.

(** A new store before any call. *)
Definition initial (s : MemoryReplayStore) (c : system) : Prop :=
  mu s = Some (channel c) /\ state s = Some (shared c) /\ goroutines c = ∅ /\ history c = [].

Definition reachable (s : MemoryReplayStore) (c : system) : Prop :=
  exists c0, initial s c0 /\ rtc (step s) c0 c.

(** The sequential calls and results a history stands for. *)
Definition calls_of (c : system) : list (ConsumeObservation * ReplayRecord) := map fst (history c).
Definition results_of (c : system) : list (option error) := map snd (history c).

(** ** The invariant *)

(** The goroutines that have the token. *)
Definition holders (c : system) : gset nat := dom (filter (fun gp => holds gp.2 = true) (goroutines c)).

Lemma elem_of_holders c g :
  g ∈ holders c <-> exists p, goroutines c !! g = Some p /\ holds p = true.
Proof.
  unfold holders. rewrite elem_of_dom. split.
  - intros [p Hp]. apply map_lookup_filter_Some in Hp as [? ?]. eauto.
  - intros (p & Hp & Hh). exists p. by apply map_lookup_filter_Some.
Qed.

Lemma holders_insert m st gs h h' g p m' st' :
  holders (mkSystem m' st' (<[g := p]> gs) h') =
  (if holds p then {[g]} else ∅) ∪ holders (mkSystem m st gs h) ∖ {[g]}.
Proof.
  apply set_eq. intros x. rewrite elem_of_union, elem_of_difference, !elem_of_holders.
  cbn [goroutines]. destruct (decide (g = x)) as [<- | Hne].
  - rewrite lookup_insert_eq. split.
    + intros (q & [= <-] & ->). left. by apply elem_of_singleton.
    + intros [Hin | [_ Hno]]; [| by rewrite elem_of_singleton in Hno].
      exists p. split; [done |]. by destruct (holds p).
  - rewrite lookup_insert_ne by done. split.
    + intros H. right. split; [done |]. by rewrite elem_of_singleton.
    + intros [Hin | [H _]]; [| done]. by destruct (holds p); [apply elem_of_singleton in Hin |].
Qed.

(** What is known of a goroutine at its program point. *)
Definition point_ok (s : MemoryReplayStore) (h : list (ConsumeObservation * ReplayRecord * option error))
  (p : program_point) : Prop :=
  match p with
  | Entered _ _ => True
  | Waiting o r => checked s o r = None
  | Acquired o r => checked s o r = None /\ chose_done o = false
  | Critical o r _ => checked s o r = None /\ chose_done o = false /\ done_closed o = false
  | Leaving o r err => (o, r, err) ∈ h
  | Returned o r err => err = None -> (o, r, err) ∈ h
  end.

(** The shared state, against the state [st] that the calls in the history
    leave: what the goroutine in its critical section still has to do there is
    a sequential call from [st], and without one the state is [st]. *)
Record sequential (s : MemoryReplayStore) (c : system) (st : memoryReplayState) : Prop := {
  seq_section g o r p : goroutines c !! g = Some (Critical o r p) ->
    remainder (capacity s) (maxTTL s) (clock o) r p (shared c) =
    consume_locked (capacity s) (maxTTL s) (clock o) r st;
  seq_quiet : (forall g p, goroutines c !! g = Some p -> in_section p = false) -> shared c = st
}.

Record system_inv (s : MemoryReplayStore) (c : system) : Prop := {
  inv_token : if token (channel c) then holders c = ∅ else exists g, holders c = {[g]};
  inv_points : forall g p, goroutines c !! g = Some p -> point_ok s (history c) p;
  inv_run : exists st, run (Some s : Store) (calls_of c) =
              Some (Some (with_mu_state s newReplayMutex st), results_of c) /\
            state_inv (capacity s) st /\ sequential s c st
}.

(** At most one goroutine has the token. *)
Lemma token_unique s c g g' p p' :
  system_inv s c -> goroutines c !! g = Some p -> goroutines c !! g' = Some p' ->
  holds p = true -> holds p' = true -> g = g'.
Proof.
  intros [Htok _ _] Hg Hg' Hh Hh'.
  assert (g ∈ holders c) as Hi by (apply elem_of_holders; eauto).
  assert (g' ∈ holders c) as Hi' by (apply elem_of_holders; eauto).
  destruct (token (channel c)); [by rewrite Htok in Hi; apply not_elem_of_empty in Hi |].
  destruct Htok as [x Hx]. rewrite Hx, elem_of_singleton in Hi, Hi'. congruence.
Qed.

(** A move of a goroutine outside of its critical section. *)
Lemma sequential_moves s c st g q m h :
  sequential s c st -> (forall p, goroutines c !! g = Some p -> in_section p = false) -> in_section q = false ->
  sequential s (mkSystem m (shared c) (<[g := q]> (goroutines c)) h) st.
Proof.
  intros [Hsec Hquiet] Hp Hq. split; cbn [goroutines shared].
  - intros g' o r p [[<- ->] | [_ Hl]]%lookup_insert_Some; [done | by apply (Hsec g')].
  - intros Hno. apply Hquiet. intros g' p Hl. destruct (decide (g = g')) as [<- | Hne]; [by apply Hp |].
    apply (Hno g'). by rewrite lookup_insert_ne.
Qed.

Lemma run_snoc (s : Store) calls s1 errs o r s2 err :
  run s calls = Some (s1, errs) -> Consume s1 o r = Some (s2, err) ->
  run s (calls ++ [(o, r)]) = Some (s2, errs ++ [err]).
Proof.
  revert s errs. induction calls as [| [o' r'] calls IH]; intros s errs.
  { cbn -[Consume]. intros [= <- <-] Hc. change (replay_Consume s o r) with (Consume s o r).
    by rewrite Hc. }
  intros (s' & err' & errs' & Hc & Hr & ->)%run_cons H2. cbn [app run]. rewrite Hc.
  cbn [mbind option_bind]. by rewrite (IH s' errs' Hr H2).
Qed.

(** A call that reaches the critical section is one sequential call. *)
Lemma Consume_locked s o r st st' err :
  checked s o r = None -> chose_done o = false -> done_closed o = false ->
  consume_locked (capacity s) (maxTTL s) (clock o) r st = Some (st', err) ->
  Consume (Some (with_mu_state s newReplayMutex st)) o r =
    Some (Some (with_mu_state s newReplayMutex st'), err).
Proof.
  unfold checked, Consume. intros Hc Hd Hx Hl.
  destruct (ctx_nil o); [done |]. destruct (ctx_err_entry o); [done |].
  destruct (unusable s) eqn:Hu; [done |]. destruct (invalid_record s r) eqn:Hr; [done |].
  assert (unusable (with_mu_state s newReplayMutex st) = false) as ->.
  { unfold unusable in *. destruct (mu s), (state s); done. }
  assert (invalid_record (with_mu_state s newReplayMutex st) r = false) as -> by exact Hr.
  rewrite Hc. cbn -[consume_locked]. rewrite Hd. cbn -[consume_locked]. rewrite Hx.
  cbn -[consume_locked]. by rewrite Hl.
Qed.

Lemma point_ok_mono s h h' p : (forall x, x ∈ h -> x ∈ h') -> point_ok s h p -> point_ok s h' p.
Proof. intros Hsub. destruct p; cbn; auto. Qed.

Lemma points_insert s c g p h :
  (forall g p, goroutines c !! g = Some p -> point_ok s (history c) p) ->
  (forall x, x ∈ history c -> x ∈ h) -> point_ok s h p ->
  forall g' p', <[g := p]> (goroutines c) !! g' = Some p' -> point_ok s h p'.
Proof.
  intros Hp Hsub Hok g' p' [[<- <-] | [_ Hl]]%lookup_insert_Some; [done |].
  eapply point_ok_mono; [done | by eapply Hp].
Qed.

(** Where the token is, after a goroutine has moved. *)
Lemma token_moves c g p q m :
  (if token (channel c) then holders c = ∅ else exists g, holders c = {[g]}) ->
  goroutines c !! g = Some p ->
  (token m = token (channel c) /\ holds q = holds p) \/
  (token (channel c) = true /\ token m = false /\ holds q = true) \/
  (holds p = true /\ token m = true /\ holds q = false) ->
  forall st h, if token m then holders (mkSystem m st (<[g := q]> (goroutines c)) h) = ∅
          else exists g', holders (mkSystem m st (<[g := q]> (goroutines c)) h) = {[g']}.
Proof.
  intros Htok Hp Hcase st h. rewrite (holders_insert (channel c) (shared c) _ (history c)).
  destruct c as [ch sh gs hs]. cbn [channel shared goroutines history] in *.
  set (H := holders (mkSystem ch sh gs hs)) in *.
  assert (g ∈ H <-> holds p = true) as Hg.
  { unfold H. rewrite elem_of_holders. cbn. split; [intros (x & Hx & ?); congruence | eauto]. }
  clearbody H. destruct Hcase as [[-> ->] | [(Ht & -> & ->) | (Hh & -> & ->)]].
  - destruct (token ch).
    + subst H. destruct (holds p); [| set_solver]. set_solver.
    + destruct Htok as [g' ->]. exists g'. rewrite elem_of_singleton in Hg. destruct (holds p).
      * assert (g = g') as -> by (by apply Hg). set_solver.
      * assert (g <> g') by (intros Heq; by apply Hg in Heq). set_solver.
  - rewrite Ht in Htok. subst H. exists g. set_solver.
  - destruct (token ch); [set_solver |]. destruct Htok as [g' ->]. set_solver.
Qed.

Lemma initial_inv config s c :
  NewMemoryReplayStore config = Ok s -> initial s c -> system_inv s c.
Proof.
  intros Hnew (Hm & Hst & Hg & Hh). pose proof (New_inv config s Hnew s eq_refl) as [Htok Hinv].
  split.
  - rewrite (Htok _ Hm). apply set_eq. intros g. rewrite elem_of_holders, Hg. set_solver.
  - intros g p. by rewrite Hg.
  - exists (shared c). split; [| split; [by apply Hinv | split; [| done]; intros g o r p; by rewrite Hg]].
    assert (s = with_mu_state s newReplayMutex (shared c)) as <-; [| unfold calls_of, results_of; by rewrite Hh].
    specialize (Htok _ Hm). unfold with_mu_state.
    destruct s, (channel c) as [[]]; cbn in *; [by rewrite Hm, Hst | done].
Qed.

Lemma start_inv s c c' : system_inv s c -> start c c' -> system_inv s c'.
Proof.
  intros Hinv Hstart. destruct Hstart as [c0 g o r Hg]. destruct Hinv as [Htok Hpts (st & Hrun & Hst & Hseq)].
  split.
  - unfold moves. destruct (goroutines c0 !! g) as [p |] eqn:Hp.
    + apply (token_moves c0 g p); [done | done |]. left. split; [done |]. specialize (Hg p eq_refl).
      by destruct p.
    + rewrite (holders_insert (channel c0) (shared c0) _ (history c0)). cbn [channel holds].
      assert (g ∉ holders c0) by (rewrite elem_of_holders; naive_solver).
      destruct c0 as [ch sh gs hs]; cbn [channel shared goroutines history] in *.
      destruct (token ch); [set_solver |]. destruct Htok as [g' Hg']. exists g'. set_solver.
  - by apply points_insert.
  - exists st. split; [exact Hrun |]. split; [done |]. apply sequential_moves; [done | | done].
    intros p Hp. specialize (Hg p Hp). by destruct p.
Qed.

(** A goroutine enters its critical section on the state that the sequential
    calls leave, because it has the token. *)
Lemma keep_inv s c g o r :
  system_inv s c -> goroutines c !! g = Some (Acquired o r) -> done_closed o = false ->
  system_inv s (moves c (channel c) g (Critical o r AtClock)).
Proof.
  intros Hinv Hp Hx. pose proof (fun g' p' => token_unique s c g g' _ p' Hinv Hp) as Huniq.
  destruct Hinv as [Htok Hpts (st & Hrun & Hst & [Hsec Hquiet])]. pose proof (Hpts g _ Hp) as [Hc Hd].
  assert (forall g' p', goroutines c !! g' = Some p' -> in_section p' = false) as Hno.
  { intros g' q Hq. destruct q as [| | | o' r' q' | |]; try done.
    assert (g = g') as <- by (by eapply Huniq). congruence. }
  split; [by eapply token_moves; [| | left] | by apply points_insert |].
  exists st. split; [exact Hrun |]. split; [done |]. split; cbn [moves goroutines shared].
  - intros g' o' r' p' [[<- [= <- <- <-]] | [_ Hl]]%lookup_insert_Some.
    + by rewrite (Hquiet Hno).
    + by apply Hno in Hl.
  - intros Hall. specialize (Hall g (Critical o r AtClock)). rewrite lookup_insert_eq in Hall.
    by specialize (Hall eq_refl).
Qed.

(** The other goroutines are outside of their sections. *)
Lemma alone s c g p g' o r p' :
  system_inv s c -> goroutines c !! g = Some p -> holds p = true ->
  goroutines c !! g' = Some (Critical o r p') -> g = g'.
Proof. intros Hinv Hp Hh Hp'. by apply (token_unique s c g g' p (Critical o r p') Hinv). Qed.

Lemma access_inv s c g o r p st' p' :
  system_inv s c -> goroutines c !! g = Some (Critical o r p) ->
  section_step (capacity s) (maxTTL s) (clock o) r p (shared c) = Some (st', inl p') ->
  system_inv s (mkSystem (channel c) st' (<[g := Critical o r p']> (goroutines c)) (history c)).
Proof.
  intros Hinv Hp Hstep. pose proof (fun g' o r p' => alone s c g _ g' o r p' Hinv Hp eq_refl) as Halone.
  destruct Hinv as [Htok Hpts (st & Hrun & Hst & [Hsec _])].
  split; [by eapply token_moves; [| | left] | apply points_insert; [done | done | exact (Hpts g _ Hp)] |].
  exists st. split; [exact Hrun |]. split; [done |]. split; cbn [goroutines shared].
  - intros g' o' r' q [[<- [= <- <- <-]] | [Hne Hl]]%lookup_insert_Some; [| by destruct Hne; apply Halone in Hl].
    rewrite <- (Hsec g o r p Hp), (section_step_remainder _ _ _ _ p), Hstep. done.
  - intros Hall. specialize (Hall g (Critical o r p')). rewrite lookup_insert_eq in Hall.
    by specialize (Hall eq_refl).
Qed.

Lemma finish_inv s c g o r p st' err :
  system_inv s c -> goroutines c !! g = Some (Critical o r p) ->
  section_step (capacity s) (maxTTL s) (clock o) r p (shared c) = Some (st', inr err) ->
  system_inv s (mkSystem (channel c) st' (<[g := Leaving o r err]> (goroutines c)) (history c ++ [(o, r, err)])).
Proof.
  intros Hinv Hp Hstep. pose proof (fun g' o r p' => alone s c g _ g' o r p' Hinv Hp eq_refl) as Halone.
  destruct Hinv as [Htok Hpts (st & Hrun & Hst & [Hsec _])]. pose proof (Hpts g _ Hp) as (Hc & Hd & Hx).
  assert (consume_locked (capacity s) (maxTTL s) (clock o) r st = Some (st', err)) as Hl.
  { rewrite <- (Hsec g o r p Hp), (section_step_remainder _ _ _ _ p), Hstep. done. }
  split.
  - by eapply token_moves; [| | left].
  - apply points_insert; [done | |]; intros; cbn; apply elem_of_app; [by left | right].
    by apply list_elem_of_singleton.
  - exists st'. split; [| split].
    + unfold calls_of, results_of. cbn [history shared]. rewrite !map_app.
      apply (run_snoc _ _ _ _ _ _ _ _ Hrun). by apply Consume_locked.
    + destruct (consume_locked_spec (capacity s) (maxTTL s) (clock o) r st Hst) as (x & e & Hl' & Hx' & _).
      by assert (x = st') as <- by congruence.
    + split; [| done]. cbn [goroutines shared].
      intros g' o' r' q [[_ [=]] | [Hne Hl']]%lookup_insert_Some. by destruct Hne; apply Halone in Hl'.
Qed.

Lemma advance_inv s c c' : system_inv s c -> advance s c c' -> system_inv s c'.
Proof.
  intros Hinv Hstep. assert (system_inv s c) as [Htok Hpts (st & Hrun & Hst & Hseq)] by done.
  assert (forall g p m q, goroutines c !! g = Some p -> point_ok s (history c) q ->
    in_section p = false -> in_section q = false ->
    (token m = token (channel c) /\ holds q = holds p) \/
    (token (channel c) = true /\ token m = false /\ holds q = true) \/
    (holds p = true /\ token m = true /\ holds q = false) ->
    system_inv s (moves c m g q)) as Hmove.
  { intros g p m q Hp Hq Hsp Hsq Hcase. split; [by eapply token_moves | by apply points_insert |].
    exists st. split; [exact Hrun |]. split; [done |]. apply sequential_moves; [done | | done]. congruence. }
  destruct Hstep as [c g o r err Hp Hc | c g o r Hp Hc | c g o r Hp Hd | c g o r m Hp Hd Hm
    | c g o r m Hp Hk | c g o r m Hp Hk | c g o r p st' p' Hp Hl | c g o r p st' err Hp Hl | c g o r err m Hp Hm];
    pose proof (Hpts g _ Hp) as Hok; cbn in Hok.
  - eapply Hmove; [done | done | done | done | by left].
  - eapply Hmove; [done | done | done | done | by left].
  - eapply Hmove; [done | done | done | done | by left].
  - unfold Lock in Hm. destruct (token (channel c)) eqn:Ht; [| done]. injection Hm as <-.
    eapply Hmove; [done | done | done | done |]. right. left. done.
  - unfold keepLockUnlessCanceled, Unlock in Hk. destruct (done_closed o); [| done].
    destruct (token (channel c)); [done |]. injection Hk as <-.
    eapply Hmove; [done | done | done | done |]. right. right. done.
  - unfold keepLockUnlessCanceled in Hk. destruct (done_closed o) eqn:Hx.
    { destruct (Unlock (channel c)); [done | done]. }
    injection Hk as <-. by apply keep_inv.
  - by eapply access_inv.
  - by eapply finish_inv.
  - unfold Unlock in Hm. destruct (token (channel c)); [done |]. injection Hm as <-.
    eapply Hmove; [done | by intros _ | done | done |]. right. right. done.
Qed.

Lemma reachable_inv config s c :
  NewMemoryReplayStore config = Ok s -> reachable s c -> system_inv s c.
Proof.
  intros Hnew (c0 & H0 & Hr). apply (initial_inv config) in H0; [| done].
  induction Hr as [c | c c1 c2 [Hs | Ha] _ IH]; [done | |]; apply IH.
  - by apply (start_inv s c).
  - by apply (advance_inv s c).
Qed.

(** ** Properties *)


Lemma run_split (s : Store) calls1 calls2 s' errs :
  run s (calls1 ++ calls2) = Some (s', errs) ->
  exists s1 errs1 errs2, run s calls1 = Some (s1, errs1) /\ run s1 calls2 = Some (s', errs2) /\
    errs = errs1 ++ errs2 /\ length errs1 = length calls1.
Proof.
  revert s errs. induction calls1 as [| [o r] calls1 IH]; intros s errs.
  { cbn. intros H. exists s, [], errs. done. }
  cbn [app]. intros (s0 & err & errs0 & Hc & Hr & ->)%run_cons.
  destruct (IH s0 errs0 Hr) as (s1 & errs1 & errs2 & H1 & H2 & -> & HL).
  exists s1, (err :: errs1), errs2. cbn [run]. rewrite Hc. cbn [mbind option_bind]. rewrite H1.
  cbn. repeat split; [done |]. by rewrite HL.
Qed.

Lemma run_inv (s : Store) calls s' errs :
  store_inv s -> run s calls = Some (s', errs) -> store_inv s'.
Proof.
  intros Hinv Hr. destruct (memory_run_total s calls Hinv) as (x & ? & Hr' & Hinv' & _).
  by assert (x = s') as -> by congruence.
Qed.

(** A sequential run that accepts an identity twice has passed its expiry. *)
Lemma accepted_twice (s : Store) before o1 r1 between o2 r2 after s' eb em ea :
  store_inv s -> length eb = length before -> length em = length between ->
  run s (before ++ (o1, r1) :: between ++ (o2, r2) :: after) =
    Some (s', eb ++ None :: em ++ None :: ea) ->
  identity_of r1 = identity_of r2 ->
  ~ Forall (fun '(o, _) => clock o < ExpiresAt r1) (between ++ [(o2, r2)]).
Proof.
  intros Hinv Hb Hm Hrun Hid Hall.
  apply run_split in Hrun as (s1 & e1 & e1' & Hr1 & Hrun & He & HL1).
  apply app_inj_1 in He as [_ <-]; [| lia]. pose proof (run_inv _ _ _ _ Hinv Hr1) as Hinv1.
  apply run_cons in Hrun as (s2 & x1 & e2 & Hc1 & Hrun & [= <- <-]).
  destruct (promise_of s1 o1 r1 s2 None Hinv1 Hc1) as (Hinv2 & _).
  apply run_split in Hrun as (s3 & e3 & e3' & Hr3 & Hrun & He & HL3).
  apply app_inj_1 in He as [_ <-]; [| lia].
  apply run_cons in Hrun as (s4 & x2 & e4 & Hc2 & _ & [= <- <-]).
  destruct (consume_reserves (ReplayStoreLaws := memory_store_laws) s1 o1 r1 s2 Hinv1 Hc1) as [_ Hlt].
  apply (run_no_replay (RSL := memory_store_laws) s1 o1 r1 s2 between s3 e3 o2 r2 s4 None); try done.
  apply (reached_bound s2 (between ++ [(o2, r2)]) s4 (e3 ++ [None]) (ExpiresAt r1)); try done.
  by apply (run_snoc _ _ s3).
Qed.

(** C2: no identity is accepted twice, whatever the schedule.  If two calls for
    the same key and nonce both went through the critical section with
    success, then some clock reading taken by the calls after the first one
    had reached the expiry of the first.  Each access of the shared state is
    a step that other goroutines may come before; the token is what keeps two
    sections from interleaving ([unlocked_sections_race] shows what happens
    without it). *)
Theorem concurrent_replay_safety config s c before o1 r1 between o2 r2 after :
  NewMemoryReplayStore config = Ok s -> reachable s c ->
  history c = before ++ (o1, r1, None) :: between ++ (o2, r2, None) :: after ->
  identity_of r1 = identity_of r2 ->
  Exists (fun call => ExpiresAt r1 <= clock call.1.1) (between ++ [(o2, r2, None)]).
Proof.
  intros Hnew Hreach Hh Hid. destruct (reachable_inv config s c Hnew Hreach) as [_ _ (st & Hrun & _)].
  unfold calls_of, results_of in Hrun. rewrite Hh, !map_app in Hrun. cbn [map fst snd] in Hrun.
  rewrite !map_app in Hrun. cbn [map fst snd] in Hrun.
  apply accepted_twice in Hrun; [| by apply (New_inv config) | by rewrite !length_map
    | by rewrite !length_map | done].
  apply not_Forall_Exists; [intros x; apply _ |]. intros Hall. apply Hrun.
  change [(o2, r2)] with (map fst [(o2, r2, None : option error)]). rewrite <- map_app.
  apply Forall_fmap. revert Hall. apply List.Forall_impl. intros [[o r] e] H. cbn in *.
  by apply Z.compare_gt_iff in H.
Qed.

(** The steps a goroutine may still take before it returns. *)
Definition work_of (p : program_point) : nat :=
  match p with
  | Entered _ _ => 14 | Waiting _ _ => 13 | Acquired _ _ => 12 | Critical _ _ p => S (section_work p)
  | Leaving _ _ _ => 1
  | Returned _ _ _ => 0
  end.
Definition work (c : system) : nat := map_fold (fun _ p n => (work_of p + n)%nat) 0%nat (goroutines c).

Lemma work_insert m st gs h h' g p q m' st' :
  gs !! g = Some p -> (work_of q < work_of p)%nat ->
  (work (mkSystem m' st' (<[g := q]> gs) h') < work (mkSystem m st gs h))%nat.
Proof.
  intros Hg Hlt. unfold work. cbn [goroutines].
  rewrite <- (insert_id gs g p Hg) at 2. rewrite <- !(insert_delete_eq gs).
  assert (forall x, map_fold (fun _ p n => (work_of p + n)%nat) 0%nat (<[g := x]> (delete g gs)) =
    (work_of x + map_fold (fun _ p n => (work_of p + n)%nat) 0%nat (delete g gs))%nat) as Hf.
  { intros x. apply (map_fold_insert_L (fun _ p n => (work_of p + n)%nat));
      [intros; lia | apply lookup_delete_eq]. }
  rewrite !Hf. lia.
Qed.

Lemma advance_work s c c' : advance s c c' -> (work c' < work c)%nat.
Proof.
  intros Ha. destruct Ha as [[] | [] | [] | [] | [] | [] | [] g o r p st p' Hp Hs | [] g o r p st err Hp Hs | []];
    eapply work_insert; try done; cbn; try lia.
  - apply section_step_work in Hs. lia.
  - destruct p; cbn; lia.
Qed.

Lemma can_advance s c :
  system_inv s c -> (exists g p, goroutines c !! g = Some p /\ returned p = false) ->
  exists c', advance s c c'.
Proof.
  intros [Htok Hpts (st & _ & Hst & [Hsec _])] (g & p & Hg & Hp).
  assert (forall g p, goroutines c !! g = Some p -> holds p = true ->
    token (channel c) = false /\ exists c', advance s c c') as Hholder.
  { intros g' q Hq Hh.
    assert (token (channel c) = false) as Ht.
    { apply not_true_is_false. intros Ht. rewrite Ht in Htok.
      assert (g' ∈ holders c) as Hin by (apply elem_of_holders; eauto).
      rewrite Htok in Hin. by apply not_elem_of_empty in Hin. }
    split; [done |]. destruct q as [| | o r | o r p' | o r err |]; try done.
    - destruct (done_closed o) eqn:Hd.
      + eexists. apply (step_cancel s c g' o r (mkMutex true)); [done |].
        unfold keepLockUnlessCanceled, Unlock. by rewrite Hd, Ht.
      + eexists. apply (step_keep s c g' o r (channel c)); [done |]. by rewrite Hd.
    - destruct (consume_locked_spec (capacity s) (maxTTL s) (clock o) r st Hst) as (st' & err & Hl & _).
      rewrite <- (Hsec g' o r p' Hq), section_step_remainder in Hl.
      apply bind_Some in Hl as ([st1 [p1 | err1]] & Hl & _); eexists; [by eapply step_access | by eapply step_finish].
    - eexists. apply (step_unlock s c g' o r err (mkMutex true)); [done |]. unfold Unlock. by rewrite Ht. }
  destruct p as [o r | o r | o r | o r p' | o r err |]; try done;
    try (by apply (Hholder g _ Hg)).
  - destruct (checked s o r) eqn:Hc; eexists; [by eapply step_refuse | by eapply step_wait].
  - destruct (chose_done o) eqn:Hd; [eexists; by eapply step_done |].
    destruct (token (channel c)) eqn:Ht.
    + eexists. eapply step_receive; [done | done |]. unfold Lock. by rewrite Ht.
    + destruct Htok as [g' Hg']. assert (g' ∈ holders c) as Hin by (rewrite Hg'; by apply elem_of_singleton).
      apply elem_of_holders in Hin as (q & Hq & Hh). by apply (Hholder g' q Hq).
Qed.

(** C32: every call returns.  In every reachable configuration on a new store,
    no schedule of the running calls is longer than [work], and a schedule
    only ends when all of them have returned: there is no deadlock, no panic
    of [Unlock] and none of the heap. *)
Theorem running_calls_return config s c n c' :
  NewMemoryReplayStore config = Ok s -> reachable s c -> nsteps (advance s) n c c' ->
  (n <= work c)%nat /\
  ((exists c'', advance s c' c'') \/
   (forall g p, goroutines c' !! g = Some p -> returned p = true)).
Proof.
  intros Hnew Hreach Hn. apply (reachable_inv config) in Hreach; [| done].
  induction Hn as [c | n c c1 c' Ha Hn IH].
  - split; [lia |]. destruct (decide (map_Forall (fun _ p => returned p = true) (goroutines c))) as [Hall | Hno].
    + right. exact Hall.
    + left. apply (can_advance s c Hreach). apply map_not_Forall in Hno as (g & p & Hg & Hp); [| apply _].
      exists g, p. split; [done |]. by apply not_true_is_false.
  - destruct (IH (advance_inv s c c1 Hreach Ha)) as [Hle Hend]. apply advance_work in Ha.
    split; [lia | exact Hend].
Qed.

(** ** Two sections without the token *)

(** Two critical sections on one state, in the order of the picks. *)
Fixpoint interleave (s : MemoryReplayStore) (call1 call2 : ConsumeObservation * ReplayRecord)
  (next1 next2 : section_point + option error) (picks : list bool) (st : memoryReplayState)
  : option ((section_point + option error) * (section_point + option error)) :=
  match picks with
  | [] => Some (next1, next2)
  | true :: rest =>
      match next1 with
      | inl p =>
          '(st, next) ← section_step (capacity s) (maxTTL s) (clock call1.1) call1.2 p st;
          interleave s call1 call2 next next2 rest st
      | inr _ => None
      end
  | false :: rest =>
      match next2 with
      | inl p =>
          '(st, next) ← section_step (capacity s) (maxTTL s) (clock call2.1) call2.2 p st;
          interleave s call1 call2 next1 next rest st
      | inr _ => None
      end
  end.

(** Sections that interleave accept one nonce twice: both look it up before
    either inserts it. *)
Example unlocked_sections_race :
  interleave example_store (at_time 1000, example_record "n1" 1200) (at_time 1001, example_record "n1" 1200)
    (inl AtClock) (inl AtClock)
    (replicate 5 true ++ replicate 5 false ++ replicate 3 true ++ replicate 3 false)
    (mkState ∅ (mkHeap ∅ []) 0) = Some (inr None, inr None).
Proof. vm_compute. reflexivity. Qed.

(** ** Concrete schedules *)

(** The step of one goroutine, as a function: the observations fix its choices. *)
Definition advance_one (s : MemoryReplayStore) (c : system) (g : nat) : option system :=
  p ← goroutines c !! g;
  match p with
  | Entered o r =>
      match checked s o r with
      | Some err => Some (moves c (channel c) g (Returned o r (Some err)))
      | None => Some (moves c (channel c) g (Waiting o r))
      end
  | Waiting o r =>
      if chose_done o
      then Some (moves c (channel c) g (Returned o r (Some (replayContextError (ctx_err_lock o)))))
      else m ← Lock (channel c); Some (moves c m g (Acquired o r))
  | Acquired o r =>
      '(kept, m) ← keepLockUnlessCanceled (channel c) (done_closed o);
      if kept : bool then Some (moves c m g (Critical o r AtClock))
      else Some (moves c m g (Returned o r (Some (replayContextError (ctx_err_lock o)))))
  | Critical o r p =>
      '(st, next) ← section_step (capacity s) (maxTTL s) (clock o) r p (shared c);
      Some match next with
           | inl p' => mkSystem (channel c) st (<[g := Critical o r p']> (goroutines c)) (history c)
           | inr err => mkSystem (channel c) st (<[g := Leaving o r err]> (goroutines c))
                          (history c ++ [(o, r, err)])
           end
  | Leaving o r err => m ← Unlock (channel c); Some (moves c m g (Returned o r err))
  | Returned _ _ _ => None
  end.

Lemma advance_one_sound s c g c' : advance_one s c g = Some c' -> advance s c c'.
Proof.
  unfold advance_one. intros (p & Hp & H)%bind_Some. destruct p as [o r | o r | o r | o r p' | o r err |].
  - destruct (checked s o r) eqn:Hc; injection H as <-; [by eapply step_refuse | by eapply step_wait].
  - destruct (chose_done o) eqn:Hd; [injection H as <-; by eapply step_done |].
    apply bind_Some in H as (m & Hm & [= <-]). by eapply step_receive.
  - apply bind_Some in H as ([[] m] & Hm & H); injection H as <-; [by eapply step_keep | by eapply step_cancel].
  - apply bind_Some in H as ([st [q | err]] & Hl & [= <-]); [by eapply step_access | by eapply step_finish].
  - apply bind_Some in H as (m & Hm & [= <-]). by eapply step_unlock.
  - done.
Qed.

Inductive event :=
| Call (g : nat) (o : ConsumeObservation) (r : ReplayRecord)
| Run (g : nat).

Definition react (s : MemoryReplayStore) (c : system) (e : event) : option system :=
  match e with
  | Call g o r =>
      if match goroutines c !! g with Some p => returned p | None => true end
      then Some (moves c (channel c) g (Entered o r)) else None
  | Run g => advance_one s c g
  end.

Fixpoint execute (s : MemoryReplayStore) (c : system) (events : list event) : option system :=
  match events with
  | [] => Some c
  | e :: rest => c ← react s c e; execute s c rest
  end.

Lemma execute_reachable s c0 events c :
  initial s c0 -> execute s c0 events = Some c -> reachable s c.
Proof.
  intros H0 He. exists c0. split; [done |]. clear H0. revert c0 He.
  induction events as [| e events IH]; intros c0; cbn [execute]; [by intros [= ->] |].
  intros (c1 & H1 & H)%bind_Some. apply (rtc_l _ _ c1); [| by apply IH].
  destruct e as [g o r | g]; cbn in H1; [| right; by apply advance_one_sound in H1].
  left. destruct (match _ with Some p => returned p | None => true end) eqn:Hr; [| done].
  injection H1 as <-. constructor. intros p Hp. by rewrite Hp in Hr.
Qed.

Definition start_system : system := mkSystem newReplayMutex (mkState ∅ (mkHeap ∅ []) 0) ∅ [].

Lemma start_initial : initial example_store start_system.
Proof. by split. Qed.

(** Two goroutines race for the same nonce, the second call starting while the
    first is in its critical section; a third call comes after its expiry. *)
Definition race : list event :=
  Call 1 (at_time 1000) (example_record "n1" 1200) :: replicate 5 (Run 1) ++
  Call 2 (at_time 1001) (example_record "n1" 1200) :: Run 2 :: replicate 7 (Run 1) ++ replicate 9 (Run 2).
Definition late_call : list event :=
  Call 1 (at_time 1300) (example_record "n1" 1400) :: replicate 14 (Run 1).

Definition after_events (events : list event) : system :=
  default start_system (execute example_store start_system events).

Example race_results :
  results_of (after_events (race ++ late_call)) = [None; Some (Sentinel ErrReplayDetected); None].
Proof. vm_compute. reflexivity. Qed.

Lemma after_events_reachable events :
  is_Some (execute example_store start_system events) -> reachable example_store (after_events events).
Proof.
  intros [c Hc]. unfold after_events. rewrite Hc. by apply (execute_reachable _ start_system events c start_initial).
Qed.

Lemma race_reachable : reachable example_store (after_events (race ++ late_call)).
Proof. apply after_events_reachable. vm_compute. by eexists. Qed.


Lemma concurrent_replay_safety_witness :
  Exists (fun call => ExpiresAt (example_record "n1" 1200) <= clock call.1.1)
    [(at_time 1001, example_record "n1" 1200, Some (Sentinel ErrReplayDetected));
     (at_time 1300, example_record "n1" 1400, None)].
Proof.
  apply (concurrent_replay_safety example_config example_store (after_events (race ++ late_call))
    [] (at_time 1000) (example_record "n1" 1200)
    [(at_time 1001, example_record "n1" 1200, Some (Sentinel ErrReplayDetected))]
    (at_time 1300) (example_record "n1" 1400) []).
  - reflexivity.
  - exact race_reachable.
  - vm_compute. reflexivity.
  - reflexivity.
Defined.

Lemma running_calls_return_witness :
  let c := after_events (firstn 6 race) in
  (0 <= work c)%nat /\
  ((exists c'', advance example_store c c'') \/
   (forall g p, goroutines c !! g = Some p -> returned p = true)).
Proof.
  apply (running_calls_return example_config example_store _ 0).
  - reflexivity.
  - apply after_events_reachable. vm_compute. by eexists.
  - constructor.
Defined.
