(* ===== verification/Digest.v ===== *)
(** * RFC 9530 integrity fields (digest.go, digest_preference.go)

    Computation, parsing, serialization and verification of digest
    dictionaries, and the preference dictionaries.  The two hash functions are
    methods of the class [Hashes]; the program relies on nothing of them but
    the length of their results, which [HashLaws] states. *)

From S2P Require Import Prelude GoStrings Errors SyntaxLimits Httpsfv StructuredFieldSafe.
From S2P Require Import SignatureFields.
Open Scope Z_scope.

(** crypto/sha256 and crypto/sha512. *)
Class Hashes := {
  Sum256 : gostring -> gostring;
  Sum512 : gostring -> gostring
}.

Class HashLaws `{Hashes} : Prop := {
  len_Sum256 s : len (Sum256 s) = 32;
  len_Sum512 s : len (Sum512 s) = 64
}.

Definition DigestAlgorithm := gostring.
Definition SHA256 : DigestAlgorithm := "sha-256".
Definition SHA512 : DigestAlgorithm := "sha-512".

Record Digest := mkDigest {
  DigestAlgorithmKey : DigestAlgorithm;
  DigestValue : gostring;
  DigestParameters : list Param
}.

(** The [entries] of [DigestField]. *)
Definition DigestField := list Digest.

Section Digests.
Context `{HA : Hashes}.

Definition checksum (algorithm : DigestAlgorithm) (content : gostring) : res gostring :=
  if algorithm =s SHA256 then Ok (Sum256 content)
  else if algorithm =s SHA512 then Ok (Sum512 content)
  else Err (Wrap ErrUnsupportedDigestAlgorithm).

Fixpoint compute_loop (content : gostring) (seen : gset gostring)
  (algorithms : list DigestAlgorithm) : res (list Digest) :=
  match algorithms with
  | [] => Ok []
  | algorithm :: rest =>
      if bool_decide (algorithm ∈ seen) then Err (Wrap ErrInvalidDigestField)
      else
        let? value := checksum algorithm content in
        let? entries := compute_loop content ({[algorithm]} ∪ seen) rest in
        Ok (mkDigest algorithm value [] :: entries)
  end.

Definition ComputeDigests (algorithms : list DigestAlgorithm) (content : gostring)
  : res DigestField :=
  if len algorithms =? 0 then Err (Sentinel ErrInvalidDigestField)
  else
    let? entries := compute_loop content ∅ algorithms in
    Ok (sort_by DigestAlgorithmKey entries).

(** [subtle.ConstantTimeCompare(x, y) == 1]. *)
Definition ConstantTimeCompare (x y : gostring) : bool := x =s y.

(** The map of [DigestField.Verify]: of entries with one algorithm the last
    is kept. *)
Definition digest_entries (field : DigestField) : gmap gostring gostring :=
  fold_left (fun m entry => <[DigestAlgorithmKey entry := DigestValue entry]> m) field ∅.

Fixpoint verify_loop (entries : gmap gostring gostring) (content : gostring)
  (seen : gset gostring) (required : list DigestAlgorithm) : option error :=
  match required with
  | [] => None
  | algorithm :: rest =>
      if bool_decide (algorithm ∈ seen) then Some (Wrap ErrInvalidDigestField)
      else
        match entries !! algorithm with
        | None => Some (Wrap ErrMissingDigest)
        | Some actual =>
            match checksum algorithm content with
            | Err err => Some err
            | Ok expected =>
                if negb (len actual =? len expected) || negb (ConstantTimeCompare actual expected)
                then Some (Wrap ErrDigestMismatch)
                else verify_loop entries content ({[algorithm]} ∪ seen) rest
            end
        end
  end.

Definition DigestField_Verify (field : DigestField) (content : gostring)
  (required : list DigestAlgorithm) : option error :=
  if len required =? 0 then Some (Sentinel ErrInvalidDigestField)
  else verify_loop (digest_entries field) content ∅ required.
End Digests.

(** [Entries] copies: the identity on values. *)
Definition DigestField_Entries (field : DigestField) : list Digest :=
  map (fun entry => mkDigest (DigestAlgorithmKey entry) ([] ++ DigestValue entry)
                      (cloneParameters (DigestParameters entry))) field.

Section Parsing.
Context `{SFV : Httpsfv}.

Definition parse_digest_member (limits : SyntaxLimits) (algorithm : gostring)
  (member : option (Member Params)) : res Digest :=
  match member with
  | Some (MItem item) =>
      match Value item with
      | ABytes value =>
          match copyParameters (ItemParams item) with
          | Err _ => Err (Sentinel ErrInvalidDigestField)
          | Ok parameters =>
              if (MaxBinaryBytes limits <? len value) || (MaxParametersPerItem limits <? len parameters)
              then Err (Wrap2 ErrInvalidDigestField ErrSyntaxLimit)
              else Ok (mkDigest algorithm ([] ++ value) parameters)
          end
      | _ => Err (Sentinel ErrInvalidDigestField)
      end
  | _ => Err (Sentinel ErrInvalidDigestField)
  end.

Fixpoint parse_digest_members (limits : SyntaxLimits) (dictionary : Dictionary)
  (names : list gostring) : res (list Digest) :=
  match names with
  | [] => Ok []
  | algorithm :: rest =>
      let? entry := parse_digest_member limits algorithm (om_Get dictionary algorithm) in
      let? entries := parse_digest_members limits dictionary rest in
      Ok (entry :: entries)
  end.

Definition ParseDigestFieldsWithLimits (values : list gostring) (limits : SyntaxLimits)
  : res DigestField :=
  let? dictionary :=
    parse_dictionary values limits ErrInvalidDigestField (Sentinel ErrInvalidDigestField) in
  parse_digest_members limits dictionary (om_Names dictionary).

Definition ParseDigestFields (values : list gostring) : res DigestField :=
  ParseDigestFieldsWithLimits values DefaultSyntaxLimits.

Definition ParseDigestField (value : gostring) : res DigestField := ParseDigestFields [value].

Definition digest_item (entry : Digest) : Item Params :=
  mkItem (ABytes ([] ++ DigestValue entry))
    (Some (addParameters om_New (DigestParameters entry))).

(** [DigestField.String]; [None] is its panic. *)
Definition DigestField_String (field : DigestField) : option gostring :=
  let dictionary :=
    fold_left (fun d entry => om_Add d (DigestAlgorithmKey entry) (MItem (digest_item entry)))
      field (om_New : Dictionary) in
  match marshalRFC8941 (SFDictionary dictionary) with Ok value => Some value | Err _ => None end.
End Parsing.

(** ** Preferences *)

Record DigestPreference := mkPreference {
  PreferenceAlgorithm : DigestAlgorithm;
  Weight : Z
}.

Definition DigestPreferences := list DigestPreference.

Definition validDigestAlgorithmKey (algorithm : DigestAlgorithm) : bool :=
  match algorithm with
  | [] => false
  | c :: rest => isKeyStart c && forallb isKeyCharacter rest
  end.

Fixpoint preferences_loop (seen : gset gostring) (entries : list DigestPreference)
  : res (list DigestPreference) :=
  match entries with
  | [] => Ok []
  | entry :: rest =>
      if negb (validDigestAlgorithmKey (PreferenceAlgorithm entry)) || (Weight entry <? 0) ||
         (10 <? Weight entry)
      then Err (Sentinel ErrInvalidDigestPreferences)
      else if bool_decide (PreferenceAlgorithm entry ∈ seen)
      then Err (Wrap ErrInvalidDigestPreferences)
      else
        let? result := preferences_loop ({[PreferenceAlgorithm entry]} ∪ seen) rest in
        Ok (entry :: result)
  end.

Definition NewDigestPreferences (entries : list DigestPreference) : res DigestPreferences :=
  if len entries =? 0 then Err (Sentinel ErrInvalidDigestPreferences)
  else preferences_loop ∅ entries.

Definition DigestPreferences_Entries (preferences : DigestPreferences) : list DigestPreference :=
  [] ++ preferences.

Section Preferences.
Context `{SFV : Httpsfv}.

(** [len(item.Params.Names()) != 0]; a nil map has no names. *)
Definition has_parameters (item : Item Params) : bool :=
  match ItemParams item with Some p => negb (len (om_Names p) =? 0) | None => false end.

Definition parse_preference_member (name : gostring) (member : option (Member Params))
  : res DigestPreference :=
  match member with
  | Some (MItem item) =>
      if has_parameters item then Err (Sentinel ErrInvalidDigestPreferences)
      else match Value item with
           | AInt64 weight =>
               if (weight <? 0) || (10 <? weight) then Err (Sentinel ErrInvalidDigestPreferences)
               else Ok (mkPreference name weight)
           | _ => Err (Sentinel ErrInvalidDigestPreferences)
           end
  | _ => Err (Sentinel ErrInvalidDigestPreferences)
  end.

Fixpoint parse_preference_members (dictionary : Dictionary) (names : list gostring)
  : res (list DigestPreference) :=
  match names with
  | [] => Ok []
  | name :: rest =>
      let? entry := parse_preference_member name (om_Get dictionary name) in
      let? entries := parse_preference_members dictionary rest in
      Ok (entry :: entries)
  end.

Definition ParseDigestPreferencesWithLimits (values : list gostring) (limits : SyntaxLimits)
  : res DigestPreferences :=
  let? dictionary :=
    parse_dictionary values limits ErrInvalidDigestPreferences (Wrap ErrInvalidDigestPreferences) in
  let? entries := parse_preference_members dictionary (om_Names dictionary) in
  NewDigestPreferences entries.

Definition ParseDigestPreferences (values : list gostring) : res DigestPreferences :=
  ParseDigestPreferencesWithLimits values DefaultSyntaxLimits.

Definition DigestPreferences_String (preferences : DigestPreferences) : option gostring :=
  let dictionary :=
    fold_left (fun d entry => om_Add d (PreferenceAlgorithm entry)
                                (MItem (NewItem (AInt64 (Weight entry)))))
      preferences (om_New : Dictionary) in
  match marshalRFC8941 (SFDictionary dictionary) with Ok value => Some value | Err _ => None end.
End Preferences.
