(* ===== verification/DigestFacts.v ===== *)
(** * Correctness of integrity fields

    What [Verify] of a digest field checks, the round trip with
    [ComputeDigests], and the exact domain of digest preferences. *)

From S2P Require Import Prelude GoStrings Errors SyntaxLimits Httpsfv SignatureFields Digest.
Open Scope Z_scope.

(** ** The map of a field *)

Lemma digest_entries_snoc f e :
  digest_entries (f ++ [e]) = <[DigestAlgorithmKey e := DigestValue e]> (digest_entries f).
Proof. unfold digest_entries. by rewrite fold_left_app. Qed.

(** With pairwise different algorithms every member is found. *)
Lemma digest_entries_lookup f e :
  NoDup (map DigestAlgorithmKey f) -> e ∈ f ->
  digest_entries f !! DigestAlgorithmKey e = Some (DigestValue e).
Proof.
  induction f as [| e' f IH] using rev_ind; intros Hnd Hin.
  { by apply elem_of_nil in Hin. }
  rewrite digest_entries_snoc. rewrite map_app in Hnd.
  apply list.NoDup_app in Hnd as (Hnd & Hdisj & _).
  apply elem_of_app in Hin as [Hin | ->%list_elem_of_singleton]; [| by rewrite lookup_insert_eq].
  rewrite lookup_insert_ne; [by apply IH |]. intros Heq.
  apply (Hdisj (DigestAlgorithmKey e)).
  - apply list_elem_of_In, in_map, list_elem_of_In, Hin.
  - cbn [map]. rewrite Heq. apply list_elem_of_singleton. done.
Qed.

Section Digests.
Context `{HA : Hashes}.

(** One required algorithm is satisfied. *)
Definition digest_matches (field : DigestField) (content : gostring) (algorithm : DigestAlgorithm)
  : Prop :=
  exists value, digest_entries field !! algorithm = Some value /\
    checksum algorithm content = Ok value.

Lemma verify_loop_None entries content seen required :
  verify_loop entries content seen required = None <->
  NoDup required /\ (forall a, a ∈ required -> a ∉ seen) /\
  (forall a, a ∈ required -> exists v, entries !! a = Some v /\ checksum a content = Ok v).
Proof.
  revert seen. induction required as [| a l IH]; intros seen; cbn [verify_loop].
  { split; [| done]. intros _. split; [constructor |].
    split; intros a Ha; by apply elem_of_nil in Ha. }
  rewrite list.NoDup_cons. case_bool_decide as Hin.
  { split; [done |]. intros (_ & Hn & _). by destruct (Hn a (list_elem_of_here _ _)). }
  destruct (entries !! a) as [v |] eqn:Hv.
  2: { split; [done |]. intros (_ & _ & H). destruct (H a (list_elem_of_here _ _)) as (? & ? & _). congruence. }
  destruct (checksum a content) as [e | err] eqn:Hc.
  2: { split; [done |]. intros (_ & _ & H). destruct (H a (list_elem_of_here _ _)) as (? & _ & ?). congruence. }
  unfold ConstantTimeCompare.
  destruct (negb (len v =? len e) || negb (bool_decide (v = e))) eqn:Hm.
  { split; [done |]. intros (_ & _ & H). destruct (H a (list_elem_of_here _ _)) as (w & Hw & Hcw).
    assert (v = e) by congruence. subst. rewrite Z.eqb_refl, bool_decide_eq_true_2 in Hm; done. }
  apply orb_false_iff in Hm as [_ Hm]. apply negb_false_iff, bool_decide_eq_true in Hm. subst e.
  rewrite IH. split.
  - intros (Hnd & Hn & Hall). repeat split.
    + intros Ha. specialize (Hn a Ha). set_solver.
    + done.
    + intros b [-> | Hb]%elem_of_cons; [done |]. specialize (Hn b Hb). set_solver.
    + intros b [-> | Hb]%elem_of_cons; [eauto | auto].
  - intros ([Ha Hnd] & Hn & Hall). repeat split; [done | |].
    + intros b Hb Hb'. apply elem_of_union in Hb' as [->%elem_of_singleton | Hb']; [done |].
      by apply (Hn b (list_elem_of_further _ _ _ Hb)).
    + intros b Hb. apply Hall. by apply list_elem_of_further.
Qed.

Lemma compute_loop_Ok content seen algorithms entries :
  compute_loop content seen algorithms = Ok entries ->
  map DigestAlgorithmKey entries = algorithms /\ NoDup algorithms /\
  (forall a, a ∈ algorithms -> a ∉ seen) /\
  (forall e, e ∈ entries -> checksum (DigestAlgorithmKey e) content = Ok (DigestValue e)).
Proof.
  revert seen entries. induction algorithms as [| a l IH]; intros seen entries; cbn [compute_loop].
  { intros [= <-]. split; [done |]. split; [constructor |].
    split; intros x Hx; by apply elem_of_nil in Hx. }
  case_bool_decide as Hin; [done |]. intros (v & Hv & (es & Hes & [= <-])%rbind_Ok)%rbind_Ok.
  destruct (IH _ _ Hes) as (<- & Hnd & Hn & Hall). cbn [map DigestAlgorithmKey].
  rewrite list.NoDup_cons. split; [done |]. split; [split; [| done] |]; [| split].
  - intros Ha. apply (Hn a Ha), elem_of_union. left. by apply elem_of_singleton.
  - intros b [-> | Hb]%elem_of_cons; [done |]. intros Hx. apply (Hn b Hb), elem_of_union. by right.
  - intros e [-> | He]%elem_of_cons; [done | auto].
Qed.

Lemma DigestField_Verify_cases field content required :
  DigestField_Verify field content required = None <->
  required <> [] /\ NoDup required /\
  (forall a, a ∈ required -> digest_matches field content a).
Proof.
  unfold DigestField_Verify. destruct (len required =? 0) eqn:H0.
  - split; [done |]. intros (Hne & _). destruct Hne. apply len_0. lia.
  - rewrite verify_loop_None. assert (required <> []) by (intros ->; done).
    split; [intros (? & _ & ?) | intros (_ & ? & ?)]; repeat split; done || set_solver.
Qed.

Lemma ComputeDigests_Verify_cases algorithms content field required :
  ComputeDigests algorithms content = Ok field ->
  required <> [] -> NoDup required -> required ⊆ algorithms ->
  DigestField_Verify field content required = None.
Proof.
  unfold ComputeDigests. case_match; [done |]. intros (es & Hes & [= <-])%rbind_Ok Hne Hnd Hsub.
  destruct (compute_loop_Ok _ _ _ _ Hes) as (Hmap & Hnd' & _ & Hall).
  pose proof (sort_by_perm DigestAlgorithmKey es) as Hperm.
  apply DigestField_Verify_cases. split; [done |]. split; [done |]. intros a Ha.
  apply Hsub in Ha. rewrite <- Hmap in Ha. apply list_elem_of_In, in_map_iff in Ha as (e & <- & He).
  apply list_elem_of_In in He. exists (DigestValue e). split; [| auto].
  apply digest_entries_lookup; [| by rewrite Hperm].
  rewrite (Permutation_map DigestAlgorithmKey Hperm), Hmap. done.
Qed.

Lemma compute_loop_any content content' seen algorithms :
  is_Ok (compute_loop content seen algorithms) = is_Ok (compute_loop content' seen algorithms).
Proof.
  revert seen. induction algorithms as [| a l IH]; intros seen; [done |]. cbn [compute_loop].
  case_bool_decide; [done |].
  unfold checksum. destruct (a =s SHA256); [| destruct (a =s SHA512)]; cbn [rbind]; [.. | done];
    specialize (IH ({[a]} ∪ seen)); by destruct (compute_loop content _ l), (compute_loop content' _ l).
Qed.

(** Whether digests are computed does not depend on the content. *)
Lemma ComputeDigests_any algorithms content content' digests :
  ComputeDigests algorithms content = Ok digests ->
  exists digests', ComputeDigests algorithms content' = Ok digests'.
Proof.
  unfold ComputeDigests. case_match; [done |]. intros (es & Hes & _)%rbind_Ok.
  pose proof (compute_loop_any content content' ∅ algorithms) as Heq. rewrite Hes in Heq.
  destruct (compute_loop content' ∅ algorithms); [eauto | done].
Qed.

(** [DigestField.Verify] succeeds exactly when the policy selects at least
    one algorithm, none twice, and for each of them the field has a value
    that is the checksum of the content. *)
Theorem DigestField_Verify_exact field content required :
  DigestField_Verify field content required = None <->
  required <> [] /\ NoDup required /\
  (forall a, a ∈ required -> digest_matches field content a).
Proof. apply DigestField_Verify_cases. Qed.

(** What [ComputeDigests] computes, [Verify] accepts: for the same content
    and every non-empty selection, without repetition, of the computed
    algorithms. *)
Theorem ComputeDigests_Verify algorithms content field required :
  ComputeDigests algorithms content = Ok field ->
  required <> [] -> NoDup required -> required ⊆ algorithms ->
  DigestField_Verify field content required = None.
Proof. apply ComputeDigests_Verify_cases. Qed.
End Digests.

(** ** Preferences *)

Definition valid_preference (p : DigestPreference) : Prop :=
  validDigestAlgorithmKey (PreferenceAlgorithm p) = true /\ 0 <= Weight p <= 10.

Lemma preferences_loop_spec seen entries :
  (preferences_loop seen entries = Ok entries /\
   Forall valid_preference entries /\ NoDup (map PreferenceAlgorithm entries) /\
   (forall p, p ∈ entries -> PreferenceAlgorithm p ∉ seen)) \/
  (is_Ok (preferences_loop seen entries) = false /\
   ~ (Forall valid_preference entries /\ NoDup (map PreferenceAlgorithm entries) /\
      (forall p, p ∈ entries -> PreferenceAlgorithm p ∉ seen))).
Proof.
  revert seen. induction entries as [| p l IH]; intros seen; cbn [preferences_loop].
  { left. repeat split; try constructor. intros p Hp. by apply elem_of_nil in Hp. }
  cbn [map]. rewrite list.Forall_cons, list.NoDup_cons.
  destruct (negb (validDigestAlgorithmKey (PreferenceAlgorithm p)) || _ || _) eqn:Hbad.
  { right. split; [done |]. intros ([[Hk Hw] _] & _). rewrite Hk in Hbad. cbn [negb orb] in Hbad. lia. }
  assert (valid_preference p) as Hp by (split; [| lia]; bool_to_prop; done).
  case_bool_decide as Hin.
  { right. split; [done |]. intros (_ & _ & Hn). by destruct (Hn p (list_elem_of_here _ _)). }
  destruct (IH ({[PreferenceAlgorithm p]} ∪ seen)) as [(Heq & Hf & Hnd & Hn) | (Herr & Hno)].
  - left. rewrite Heq. split; [done |]. split; [done |]. split; [split; [| done] |].
    + intros (q & Heq' & Hq)%list_elem_of_In%in_map_iff. apply list_elem_of_In in Hq.
      specialize (Hn q Hq). rewrite Heq' in Hn. set_solver.
    + intros q [-> | Hq]%elem_of_cons; [done |]. specialize (Hn q Hq). set_solver.
  - right. split; [by destruct (preferences_loop _ l) |].
    intros ([_ Hf] & [Hnew Hnd] & Hn). apply Hno. split; [done |]. split; [done |].
    intros q Hq Hx. apply elem_of_union in Hx as [Heq%elem_of_singleton | Hx].
    + apply Hnew. rewrite <- Heq. apply list_elem_of_In, in_map, list_elem_of_In, Hq.
    + by apply (Hn q (list_elem_of_further _ _ _ Hq)).
Qed.

(** [NewDigestPreferences] accepts exactly the non-empty lists of
    preferences with valid dictionary keys, weights from 0 to 10 and pairwise
    different algorithms, and keeps them in order. *)
Theorem NewDigestPreferences_exact entries :
  (NewDigestPreferences entries = Ok entries /\
   entries <> [] /\ Forall valid_preference entries /\ NoDup (map PreferenceAlgorithm entries)) \/
  (is_Ok (NewDigestPreferences entries) = false /\
   ~ (entries <> [] /\ Forall valid_preference entries /\ NoDup (map PreferenceAlgorithm entries))).
Proof.
  unfold NewDigestPreferences. destruct (len entries =? 0) eqn:H0.
  { right. split; [done |]. intros (Hne & _). apply Hne, len_0. lia. }
  assert (entries <> []) by (intros ->; done).
  destruct (preferences_loop_spec ∅ entries) as [(-> & ? & ? & _) | (? & Hno)]; [left; done |].
  right. split; [done |]. intros (_ & ? & ?). apply Hno. split; [done |]. split; [done |]. set_solver.
Qed.
