(* ===== verification/FieldRoundtrip.v ===== *)
(** * Printing and parsing fields again

    The law that parsing inverts serializing is stated of the dependency for
    dictionaries without decimals ([HttpsfvReads]).  From it: what [String]
    prints of a well-formed field, the package's own parser, with its scans,
    limits and validation, reads back as the same field. *)

From S2P Require Import Prelude GoStrings Codecs Errors SyntaxLimits Httpsfv StructuredFieldSafe.
From S2P Require Import SignatureFields SerializationFacts SignatureFacts FieldText Digest DigestFacts.
Open Scope Z_scope.

(** RFC 8941: parsing a serialized dictionary gives its members and their
    parameters again, in order. *)
Class HttpsfvReads `{Httpsfv} : Prop := {
  unmarshal_marshal d l s :
    dictionary_entries d = Some l -> forallb (fun '(_, data) => plain_data data) l = true -> l <> [] ->
    marshal_dictionary_value d = Some s ->
    exists d', UnmarshalDictionary [s] = Returns d' /\ dictionary_entries d' = Some l
}.

(** ** Ordered maps *)

Section OrderedMapFacts.
Context {M V : Type} `{OM : OrderedMap M V} `{OL : !OrderedMapLaws M V}.

Lemma omap_ext {A B} (f g : A -> option B) (l : list A) :
  (forall x, x ∈ l -> f x = g x) -> omap f l = omap g l.
Proof.
  induction l as [| x l IH]; intros H; [done |]. cbn [omap list_omap].
  rewrite (H x) by apply list_elem_of_here. destruct (g x); [f_equal |]; apply IH; set_solver.
Qed.

Lemma om_names_entries (m : M) : om_Names m = map fst (om_entries m).
Proof.
  unfold om_entries. assert (forall l, (forall k, k ∈ l -> is_Some (om_Get m k)) ->
    l = map fst (omap (fun k => pair k <$> om_Get m k) l)) as H.
  { induction l as [| k l IH]; intros Hl; [done |]. cbn [omap list_omap].
    destruct (Hl k) as [v ->]; [apply list_elem_of_here |]. cbn. f_equal. apply IH. set_solver. }
  apply H. intros k. apply om_names_get.
Qed.

Lemma om_get_entries (m : M) k v : (k, v) ∈ om_entries m -> om_Get m k = Some v.
Proof.
  unfold om_entries. intros (k' & _ & H)%list_elem_of_omap.
  destruct (om_Get m k') eqn:Hk; [| done]. cbn in H. congruence.
Qed.

Lemma om_entries_add (m : M) k v : k ∉ om_Names m -> om_entries (om_Add m k v) = om_entries m ++ [(k, v)].
Proof.
  intros Hk. unfold om_entries. rewrite om_names_add, bool_decide_eq_false_2 by done.
  rewrite omap_app. f_equal.
  - apply omap_ext. intros k' Hk'. rewrite om_get_add, bool_decide_eq_false_2; [done | congruence].
  - cbn. by rewrite om_get_add, bool_decide_eq_true_2.
Qed.

(** Adding members with different keys to an empty map. *)
Lemma om_entries_fold {A} (f : A -> gostring) (g : A -> V) l :
  NoDup (map f l) ->
  om_entries (fold_left (fun m x => om_Add m (f x) (g x)) l om_New) = map (fun x => (f x, g x)) l.
Proof.
  induction l as [| x l IH] using rev_ind; intros Hnd.
  { cbn [fold_left map]. unfold om_entries. by rewrite om_names_new. }
  rewrite map_app in Hnd. apply list.NoDup_app in Hnd as (Hnd & Hx & _). specialize (IH Hnd).
  rewrite fold_left_app. cbn [fold_left]. rewrite om_entries_add, IH, map_app; [done |].
  rewrite om_names_entries, IH, map_map. cbn [fst]. intros Hin. apply (Hx (f x)); [done |]. set_solver.
Qed.
End OrderedMapFacts.

(** ** Parameters *)

(** Values of the package's own types, without decimals. *)
Definition plain_param (p : Param) : bool :=
  match ParamValue p with
  | ABool _ | AString _ | AInt64 _ | ABytes _ | ASFToken _ => true
  | _ => false
  end.

Definition to_entries (ps : list Param) : entries :=
  map (fun p => (ParamName p, toStructuredValue (ParamValue p))) ps.

Lemma plain_to_entries ps : forallb plain_param ps = true -> plain_entries (to_entries ps) = true.
Proof.
  induction ps as [| [n v] ps IH]; [done |]. cbn [forallb]. intros [Hv H]%andb_true_iff.
  specialize (IH H). unfold plain_entries, to_entries in *. cbn [map forallb ParamName ParamValue].
  rewrite IH. by destruct v.
Qed.

Lemma compute_loop_parameters `{Hashes} content seen algorithms entries :
  compute_loop content seen algorithms = Ok entries -> Forall (fun e => DigestParameters e = []) entries.
Proof.
  revert seen entries. induction algorithms as [| a l IH]; intros seen entries; cbn [compute_loop].
  { intros [= <-]. constructor. }
  case_bool_decide; [done |]. intros (v & _ & (es & Hes & [= <-])%rbind_Ok)%rbind_Ok.
  constructor; [done | by eapply IH].
Qed.

Section Roundtrip.
Context `{SFV : Httpsfv} `{HL : !HttpsfvLaws} `{HR : !HttpsfvReads}.

Lemma addParameters_entries ps :
  NoDup (map ParamName ps) -> om_entries (addParameters om_New ps) = to_entries ps.
Proof. pose proof params_laws. apply om_entries_fold. Qed.

Lemma copy_names_read p ps :
  (forall q, q ∈ ps -> om_Get p (ParamName q) = Some (toStructuredValue (ParamValue q))) ->
  forallb plain_param ps = true -> copy_names p (map ParamName ps) = Ok ps.
Proof.
  induction ps as [| [n v] ps IH]; intros Hget Hps; [done |]. cbn [forallb] in Hps.
  apply andb_true_iff in Hps as [Hv Hps]. cbn [map copy_names ParamName].
  pose proof (Hget (mkParam n v) (list_elem_of_here _ _)) as Hn. cbn in Hn.
  unfold get_any. rewrite Hn. cbn [default]. rewrite IH; [| intros; apply Hget; set_solver | done].
  unfold plain_param in Hv. cbn in Hv. by destruct v.
Qed.

Lemma copyParameters_read p ps :
  om_entries p = to_entries ps -> forallb plain_param ps = true ->
  om_Names p = map ParamName ps /\ copyParameters (Some p) = Ok ps.
Proof.
  intros He Hps. pose proof params_laws. assert (om_Names p = map ParamName ps) as Hn.
  { rewrite om_names_entries, He. unfold to_entries. by rewrite map_map. }
  split; [done |]. cbn [copyParameters]. rewrite Hn. apply copy_names_read; [| done].
  intros q Hq. apply om_get_entries. rewrite He. unfold to_entries.
  apply list_elem_of_In, in_map_iff. exists q. split; [done |]. by apply list_elem_of_In.
Qed.

(** ** Dictionaries *)

(** The dictionary of the entries [es], member by member. *)
Lemma dictionary_entries_fold {A} (f : A -> gostring) (g : A -> Member Params) (h : A -> member_data) es :
  NoDup (map f es) -> (forall e, e ∈ es -> member_entries (g e) = Some (h e)) ->
  dictionary_entries (fold_left (fun d e => om_Add d (f e) (g e)) es om_New) =
    Some (map (fun e => (f e, h e)) es).
Proof.
  intros Hnd Hg. pose proof dictionary_laws. unfold dictionary_entries.
  rewrite om_entries_fold by done. clear Hnd. induction es as [| e es IH]; [done |].
  cbn [map mapM]. rewrite Hg by apply list_elem_of_here. cbn [fmap option_fmap option_map mbind option_bind].
  rewrite IH; [done |]. intros; apply Hg; set_solver.
Qed.

Lemma dictionary_entries_names d l :
  dictionary_entries d = Some l -> om_Names d = map fst l.
Proof.
  pose proof dictionary_laws. rewrite om_names_entries. unfold dictionary_entries.
  revert l. induction (om_entries d) as [| [k m] es IH]; intros l; [by intros [= <-] |]. cbn [mapM].
  destruct (member_entries m); [| done]. cbn [fmap option_fmap option_map mbind option_bind].
  destruct (mapM _ es) as [l' |]; [| done]. intros [= <-]. cbn. f_equal. by apply IH.
Qed.

Lemma dictionary_entries_get d l k data :
  dictionary_entries d = Some l -> (k, data) ∈ l ->
  exists m, om_Get d k = Some m /\ member_entries m = Some data.
Proof.
  pose proof dictionary_laws. unfold dictionary_entries. intros Hl Hin.
  apply mapM_Some in Hl. apply list_elem_of_lookup in Hin as [i Hi].
  destruct (Forall2_lookup_r _ _ _ _ _ Hl Hi) as ([k' m] & Hkm & Heq).
  destruct (member_entries m) as [data' |] eqn:Hm; [| done]. cbn in Heq. injection Heq as -> ->.
  exists m. split; [| done]. apply om_get_entries. by eapply list_elem_of_lookup_2.
Qed.

(** What the program serializes is the text of the entries. *)
Lemma marshalRFC8941_print d l s :
  dictionary_entries d = Some l -> forallb (fun '(_, data) => plain_data data) l = true -> l <> [] ->
  marshalRFC8941 (SFDictionary d) = Ok s ->
  NoDup (map fst l) /\ marshal_dictionary_value d = Some s /\ print_dictionary MarshalBareItem l = Some s.
Proof.
  intros Hd Hl Hne Hm. unfold marshalRFC8941 in Hm.
  destruct (isRFC8941StructuredField _); [| done]. cbn [negb] in Hm.
  destruct (Marshal (SFDictionary d)) as [t |] eqn:Ht; [| done]. injection Hm as <-.
  apply Marshal_dictionary in Ht.
  assert (NoDup (map fst l)) as Hnd.
  { pose proof dictionary_laws. rewrite <- (dictionary_entries_names d l Hd). apply om_names_nodup. }
  pose proof Ht as Hprint. rewrite (marshal_dictionary_print d l Hd) in Hprint.
  by destruct (print_dictionary_scanned l t Hl Hnd Hne Hprint) as (_ & -> & _).
Qed.

(** The pre-parse checks, the scanners and the dependency on printed text. *)
Lemma parse_printed d l s limits invalid malformed :
  dictionary_entries d = Some l -> forallb (fun '(_, data) => plain_data data) l = true -> l <> [] ->
  marshalRFC8941 (SFDictionary d) = Ok s ->
  Validate limits = None -> len s <= MaxFieldBytes limits -> len l <= MaxDictionaryMembers limits ->
  exists d', parse_dictionary [s] limits invalid malformed = Ok d' /\ dictionary_entries d' = Some l.
Proof.
  intros Hd Hl Hne Hm Hval Hbytes Hlen.
  destruct (marshalRFC8941_print d l s Hd Hl Hne Hm) as (Hnd & Ht & Hprint).
  destruct (print_dictionary_scanned l s Hl Hnd Hne Hprint) as (Hdup & _ & Hows & Hbin).
  destruct (unmarshal_marshal d l s Hd Hl Hne Ht) as (d' & Hd' & He').
  exists d'. split; [| done]. unfold parse_dictionary.
  assert (enforceRawSyntaxLimits [s] limits = None) as ->.
  { unfold enforceRawSyntaxLimits. rewrite Hval. apply Validate_None in Hval.
    replace (len [s] =? 0) with false by done. replace (MaxFieldLines limits <? len [s]) with false.
    - cbn [orb]. rewrite enforce_lines_first by lia. cbn [Join].
      by replace (MaxFieldBytes limits <? len s) with false by lia.
    - change (len [s]) with 1. lia. }
  rewrite Hdup, Hows. unfold unmarshalStructuredDictionary, unmarshalStructuredField.
  cbn [combineStructuredFieldLines]. rewrite Hows. cbn [normalizeRFC8941BinaryValues map].
  rewrite Hbin, Hd'. rewrite (dictionary_entries_names d' l He').
  replace (len (map fst l)) with (len l) by (unfold len; by rewrite length_map).
  assert (len l <> 0) by (by intros ?%len_0).
  replace (len l =? 0) with false by lia. by replace (MaxDictionaryMembers limits <? len l) with false by lia.
Qed.

(** ** Signature-Input and Accept-Signature *)

Definition plain_component (c : ComponentIdentifier) : bool := forallb plain_param (ComponentParams c).
Definition plain_input (i : SignatureInput) : bool :=
  forallb plain_component (Components i) && forallb plain_param (InputParameters i).

Definition component_entry (c : ComponentIdentifier) : any * entries :=
  (AString (ComponentName c), to_entries (ComponentParams c)).
Definition input_entry (i : SignatureInput) : member_data :=
  DList (map component_entry (Components i)) (to_entries (InputParameters i)).

Lemma input_entry_plain i : plain_input i = true -> plain_data (input_entry i) = true.
Proof.
  intros [Hc Hp]%andb_true_iff. cbn. rewrite plain_to_entries, andb_true_r by done.
  rewrite forallb_forall in Hc. apply forallb_forall. intros x (c & <- & Hin)%in_map_iff.
  cbn. by apply plain_to_entries, Hc.
Qed.

Lemma component_item_entries c :
  NoDup (map ParamName (ComponentParams c)) -> item_entries (component_item c) = Some (component_entry c).
Proof. intros Hnd. cbn. by rewrite addParameters_entries. Qed.

Lemma input_member_entries limits validate i :
  input_wf limits validate i -> member_entries (MInnerList (input_inner_list i)) = Some (input_entry i).
Proof.
  intros [Hc _ _ [_ Hnd] _]. cbn [member_entries input_inner_list Items ListParams].
  assert (mapM item_entries (map component_item (Components i)) = Some (map component_entry (Components i))) as ->.
  { induction Hc as [| c cs (_ & _ & _ & Hndc) _ IH]; [done |]. cbn [map mapM].
    rewrite component_item_entries by done. cbn [mbind option_bind]. by rewrite IH. }
  cbn [mbind option_bind param_entries fmap option_fmap option_map].
  by rewrite addParameters_entries.
Qed.

Lemma mapM_item_entries_cons (items : list (Item Params)) x l :
  mapM item_entries items = Some (x :: l) ->
  exists i items', items = i :: items' /\ item_entries i = Some x /\ mapM item_entries items' = Some l.
Proof.
  destruct items as [| i items]; [done |]. cbn [mapM].
  intros (y & Hy & (l' & Hl & [= <- <-])%bind_Some)%bind_Some. by exists i, items.
Qed.

Lemma item_entries_Some (i : Item Params) v l :
  item_entries i = Some (v, l) -> exists p, i = mkItem v (Some p) /\ om_entries p = l.
Proof.
  destruct i as [w [p |]]; [| done]. cbn. intros [= <- <-]. by exists p.
Qed.

Lemma parse_components_read limits invalid seen items cs :
  mapM item_entries items = Some (map component_entry cs) ->
  Forall (component_wf limits) cs -> forallb plain_component cs = true ->
  NoDup (map comparison_key cs) -> (forall c, c ∈ cs -> comparison_key c ∉ seen) ->
  parse_components limits invalid seen items = Ok cs.
Proof.
  revert seen items. induction cs as [| c cs IH]; intros seen items Hi Hwf Hpl Hnd Hseen.
  { destruct items; [done |]. by apply mapM_Some, Forall2_length in Hi. }
  apply mapM_item_entries_cons in Hi as (i & items' & -> & Hi & Hitems).
  apply item_entries_Some in Hi as (p & -> & Hp).
  apply list.Forall_cons in Hwf as [(Hname & Hvalid & Hcount & Hndp) Hwf]. cbn [forallb] in Hpl.
  apply andb_true_iff in Hpl as [Hplc Hpl]. cbn [map] in Hnd. apply list.NoDup_cons in Hnd as [Hnew Hnd].
  cbn [parse_components Value ItemParams]. rewrite Hname. cbn [negb].
  destruct (copyParameters_read p (ComponentParams c) Hp Hplc) as [Hn ->]. rewrite Hn.
  replace (len (map ParamName (ComponentParams c))) with (len (ComponentParams c))
    by (unfold len; by rewrite length_map).
  replace (MaxParametersPerItem limits <? len (ComponentParams c)) with false by lia.
  rewrite Hvalid. cbn [negb]. cbv zeta.
  replace (mkComponent (ComponentName c) (ComponentParams c)) with c by (by destruct c).
  rewrite bool_decide_eq_false_2 by (apply Hseen, list_elem_of_here).
  rewrite (IH _ items'); [done | done | done | done | done |].
  intros c' Hc' [Heq%elem_of_singleton | Hin]%elem_of_union; [| by apply (Hseen c' (list_elem_of_further _ _ _ Hc'))].
  apply Hnew. rewrite <- Heq. by apply list_elem_of_In, in_map, list_elem_of_In.
Qed.

Lemma parse_metadata_member_read limits invalid validate i m :
  member_entries m = Some (input_entry i) -> input_wf limits validate i -> plain_input i = true ->
  parse_metadata_member limits invalid validate (InputLabel i) (Some m) = Ok i.
Proof.
  intros Hm [Hc Hnd Hcount [Hpc Hndp] Hv] [Hplc Hplp]%andb_true_iff.
  destruct m as [i0 | l]; cbn [member_entries] in Hm.
  { destruct (item_entries i0) as [[v ps] |]; done. }
  apply bind_Some in Hm as (its & Hits & (ps & Hps & Heq)%bind_Some).
  unfold input_entry in Heq. injection Heq as -> ->. destruct l as [items [p |]]; [| done].
  cbn [Items ListParams param_entries fmap option_fmap option_map] in *.
  assert (om_entries p = to_entries (InputParameters i)) as Hp by congruence.
  destruct (copyParameters_read p _ Hp Hplp) as [Hn Hcp].
  cbn [parse_metadata_member ListParams Items]. rewrite Hn.
  replace (len (map ParamName (InputParameters i))) with (len (InputParameters i))
    by (unfold len; by rewrite length_map).
  assert (len items = len (Components i)) as ->.
  { apply mapM_Some, Forall2_length in Hits. rewrite length_map in Hits. unfold len. by rewrite Hits. }
  replace (_ || _) with false by lia.
  rewrite (parse_components_read _ _ _ _ (Components i)); [| done | done | done | done | set_solver].
  cbn [rbind]. rewrite Hcp, Hv. by destruct i.
Qed.

Lemma parse_metadata_members_read limits invalid validate d inputs :
  (forall i, i ∈ inputs -> exists m, om_Get d (InputLabel i) = Some m /\ member_entries m = Some (input_entry i)) ->
  Forall (input_wf limits validate) inputs -> forallb plain_input inputs = true ->
  parse_metadata_members limits invalid validate d (map InputLabel inputs) = Ok inputs.
Proof.
  induction inputs as [| i inputs IH]; intros Hd Hwf Hpl; [done |]. cbn [forallb] in Hpl.
  apply andb_true_iff in Hpl as [Hi Hpl]. apply list.Forall_cons in Hwf as [Hwi Hwf].
  cbn [map parse_metadata_members]. destruct (Hd i) as (m & -> & Hm); [apply list_elem_of_here |].
  rewrite (parse_metadata_member_read _ _ _ i) by done. cbn [rbind].
  rewrite IH; [done | intros; apply Hd; set_solver | done | done].
Qed.

(** A field [String] and the parsers agree on. *)
Record printable_inputs (limits : SyntaxLimits) (validate : list Param -> bool)
  (inputs : list SignatureInput) : Prop := {
  pr_members : 1 <= len inputs <= MaxDictionaryMembers limits;
  pr_labels : NoDup (map InputLabel inputs);
  pr_inputs : Forall (input_wf limits validate) inputs;
  pr_plain : forallb plain_input inputs = true
}.

Lemma parseSignatureMetadata_String limits invalid validate inputs s :
  Validate limits = None -> printable_inputs limits validate inputs ->
  SignatureInputs_String inputs = Some s -> len s <= MaxFieldBytes limits ->
  parseSignatureMetadata [s] limits invalid validate = Ok inputs.
Proof.
  intros Hval [Hcount Hnd Hwf Hpl] Hs Hbytes. unfold SignatureInputs_String in Hs. cbv zeta in Hs.
  destruct (marshalRFC8941 _) as [t |] eqn:Ht; [| done]. injection Hs as ->.
  assert (dictionary_entries (fold_left (fun d entry => om_Add d (InputLabel entry)
    (MInnerList (input_inner_list entry))) inputs om_New) =
    Some (map (fun i => (InputLabel i, input_entry i)) inputs)) as Hd.
  { apply dictionary_entries_fold; [done |]. intros i Hi. rewrite list.Forall_forall in Hwf.
    by eapply input_member_entries, Hwf. }
  destruct (parse_printed _ _ s limits invalid (Wrap invalid) Hd) as (d' & Hd' & He'); try done.
  - rewrite forallb_forall in Hpl. apply forallb_forall. intros x (i & <- & Hi)%in_map_iff.
    by apply input_entry_plain, Hpl.
  - intros Hnil. destruct inputs; [rewrite len_nil in Hcount; lia | done].
  - unfold len in *. rewrite length_map. lia.
  - unfold parseSignatureMetadata. rewrite Hd'. cbn [rbind].
    rewrite (dictionary_entries_names _ _ He'), map_map.
    apply parse_metadata_members_read; [| done | done]. intros i Hi.
    eapply dictionary_entries_get; [done |]. apply list_elem_of_In, in_map_iff. exists i.
    split; [done |]. by apply list_elem_of_In.
Qed.

(** ** Fields of byte sequences: Signature, and the digest fields *)

(** An item with a byte sequence and the parameters of the package. *)
Lemma bytes_item_entries value ps :
  NoDup (map ParamName ps) ->
  member_entries (MItem (mkItem (ABytes ([] ++ value)) (Some (addParameters om_New ps)))) =
    Some (DItem (ABytes value) (to_entries ps)).
Proof. intros Hnd. cbn. by rewrite addParameters_entries. Qed.

Lemma item_member_read m v ps :
  member_entries m = Some (DItem v (to_entries ps)) -> forallb plain_param ps = true ->
  exists p, m = MItem (mkItem v (Some p)) /\ copyParameters (Some p) = Ok ps /\ om_Names p = map ParamName ps.
Proof.
  intros Hm Hps. destruct m as [i | l]; cbn [member_entries] in Hm.
  - destruct (item_entries i) as [[v' l] |] eqn:Hi; [| done]. cbn in Hm.
    assert (v' = v /\ l = to_entries ps) as [-> ->] by (split; congruence).
    apply item_entries_Some in Hi as (p & -> & Hp). exists p. split; [done |].
    destruct (copyParameters_read p ps Hp Hps) as [Hn Hc]. done.
  - destruct (mapM _ _) as [its |]; [| done]. cbn in Hm.
    destruct (param_entries _); cbn in Hm; congruence.
Qed.

(** The printed dictionary of a list of items, read back. *)
Lemma read_items {A} (f : A -> gostring) (g : A -> any) (h : A -> list Param) (item : A -> Item Params)
    es s limits invalid malformed :
  (forall e, e ∈ es -> item e = mkItem (g e) (Some (addParameters om_New (h e))) /\
     plain_value (g e) = true /\ NoDup (map ParamName (h e)) /\ forallb plain_param (h e) = true) ->
  Validate limits = None -> 1 <= len es <= MaxDictionaryMembers limits -> NoDup (map f es) ->
  marshalRFC8941 (SFDictionary (fold_left (fun d e => om_Add d (f e) (MItem (item e))) es om_New)) = Ok s ->
  len s <= MaxFieldBytes limits ->
  exists d, parse_dictionary [s] limits invalid malformed = Ok d /\ om_Names d = map f es /\
    forall e, e ∈ es -> exists p, om_Get d (f e) = Some (MItem (mkItem (g e) (Some p))) /\
      copyParameters (Some p) = Ok (h e) /\ om_Names p = map ParamName (h e).
Proof.
  intros Hitem Hval Hcount Hnd Hs Hbytes.
  destruct (parse_printed _ (map (fun e => (f e, DItem (g e) (to_entries (h e)))) es) s limits invalid malformed
    (dictionary_entries_fold f (fun e => MItem (item e)) (fun e => DItem (g e) (to_entries (h e))) es Hnd
       ltac:(idtac; intros e He; destruct (Hitem e He) as (-> & _ & Hn & _); cbn; by rewrite addParameters_entries)))
    as (d & Hd & He); try done.
  - apply forallb_forall. intros x (e & <- & Hin)%in_map_iff. apply list_elem_of_In in Hin.
    destruct (Hitem e Hin) as (_ & Hv & _ & Hp). cbn. by rewrite Hv, plain_to_entries.
  - intros Hnil. destruct es; [rewrite len_nil in Hcount; lia | done].
  - unfold len in *. rewrite length_map. lia.
  - exists d. split; [done |]. split; [rewrite (dictionary_entries_names _ _ He), map_map; done |].
    intros e Hin. destruct (Hitem e Hin) as (_ & _ & _ & Hp).
    destruct (dictionary_entries_get d _ (f e) (DItem (g e) (to_entries (h e))) He) as (m & Hm & Hme).
    { apply list_elem_of_In, in_map_iff. exists e. split; [done |]. by apply list_elem_of_In. }
    destruct (item_member_read m (g e) (h e) Hme Hp) as (p & -> & Hc & Hn). by exists p.
Qed.

(** C21: Signature-Input and Accept-Signature fields survive printing.  Take
    labeled inputs without decimals that the parser could have returned: one
    to the maximum of them, with different labels, each well formed for the
    limits.  If [String] prints them in a field of an allowed length, parsing
    that one line returns them: the scan for duplicate labels, the tab and
    byte-sequence normalizations, the decimal repair and every limit and check
    of the parser let the canonical text through unchanged. *)
Theorem SignatureInputs_roundtrip limits inputs s :
  Validate limits = None -> len s <= MaxFieldBytes limits ->
  (printable_inputs limits validSignatureParameters inputs -> SignatureInputs_String inputs = Some s ->
   ParseSignatureInputsWithLimits [s] limits = Ok inputs) /\
  (printable_inputs limits validAcceptSignatureParameters inputs -> AcceptSignatures_String inputs = Some s ->
   ParseAcceptSignaturesWithLimits [s] limits = Ok inputs).
Proof. intros Hval Hbytes. split; intros Hpr Hs; by apply parseSignatureMetadata_String. Qed.

(** A parsed field is printable, unless it has decimals. *)
Lemma metadata_printable limits validate values inputs :
  metadata_wf limits validate values inputs -> forallb plain_input inputs = true ->
  printable_inputs limits validate inputs.
Proof. intros [_ _ Hm Hl _ Hi] Hp. by split. Qed.

(** A labeled signature within the limits, without decimals. *)
Definition signature_ok (limits : SyntaxLimits) (v : SignatureValue) : Prop :=
  len (SignatureBytes v) <= MaxBinaryBytes limits /\ parameters_wf limits (SignatureParameters v) /\
  forallb plain_param (SignatureParameters v) = true.

Lemma parse_signature_members_read limits d values :
  (forall e, e ∈ values -> exists p, om_Get d (SignatureLabel e) = Some (MItem (mkItem (ABytes (SignatureBytes e)) (Some p))) /\
     copyParameters (Some p) = Ok (SignatureParameters e) /\ om_Names p = map ParamName (SignatureParameters e)) ->
  Forall (signature_ok limits) values ->
  parse_signature_members limits d (map SignatureLabel values) = Ok values.
Proof.
  induction values as [| v values IH]; intros Hd Hok; [done |].
  apply list.Forall_cons in Hok as [(Hlen & [Hcount _] & _) Hok]. cbn [map parse_signature_members].
  destruct (Hd v) as (p & -> & Hc & _); [apply list_elem_of_here |].
  cbn [parse_signature_member Value ItemParams]. rewrite Hc.
  replace (_ || _) with false by lia. cbn [rbind app].
  rewrite IH; [by destruct v | intros; apply Hd; set_solver | done].
Qed.

Lemma ParseSignatures_String limits values s :
  Validate limits = None -> 1 <= len values <= MaxDictionaryMembers limits ->
  NoDup (map SignatureLabel values) -> Forall (signature_ok limits) values ->
  Signatures_String values = Some s -> len s <= MaxFieldBytes limits ->
  ParseSignaturesWithLimits [s] limits = Ok values.
Proof.
  intros Hval Hcount Hnd Hok Hs Hbytes. unfold Signatures_String in Hs. cbv zeta in Hs.
  destruct (marshalRFC8941 _) as [t |] eqn:Ht; [| done]. injection Hs as ->.
  destruct (read_items SignatureLabel (fun e => ABytes (SignatureBytes e)) SignatureParameters signature_item
    values s limits ErrInvalidSignature (Wrap ErrInvalidSignature)) as (d & Hd & Hn & Hget); try done.
  - rewrite list.Forall_forall in Hok. intros e He. by destruct (Hok e He) as (_ & [_ ?] & ?).
  - unfold ParseSignaturesWithLimits. rewrite Hd. cbn [rbind]. rewrite Hn.
    by apply parse_signature_members_read.
Qed.

(** Signature fields survive printing: labeled byte sequences within the
    limits, printed as base64 and parsed again, are the same bytes under the
    same labels with the same parameters. *)
Theorem Signatures_roundtrip limits values s :
  Validate limits = None -> 1 <= len values <= MaxDictionaryMembers limits ->
  NoDup (map SignatureLabel values) -> Forall (signature_ok limits) values ->
  Signatures_String values = Some s -> len s <= MaxFieldBytes limits ->
  ParseSignaturesWithLimits [s] limits = Ok values.
Proof. apply ParseSignatures_String. Qed.

(** A digest within the limits, without decimals. *)
Definition digest_ok (limits : SyntaxLimits) (v : Digest) : Prop :=
  len (DigestValue v) <= MaxBinaryBytes limits /\ parameters_wf limits (DigestParameters v) /\
  forallb plain_param (DigestParameters v) = true.

Lemma parse_digest_members_read limits d field :
  (forall e, e ∈ field -> exists p, om_Get d (DigestAlgorithmKey e) = Some (MItem (mkItem (ABytes (DigestValue e)) (Some p))) /\
     copyParameters (Some p) = Ok (DigestParameters e) /\ om_Names p = map ParamName (DigestParameters e)) ->
  Forall (digest_ok limits) field ->
  parse_digest_members limits d (map DigestAlgorithmKey field) = Ok field.
Proof.
  induction field as [| v field IH]; intros Hd Hok; [done |].
  apply list.Forall_cons in Hok as [(Hlen & [Hcount _] & _) Hok]. cbn [map parse_digest_members].
  destruct (Hd v) as (p & -> & Hc & _); [apply list_elem_of_here |].
  cbn [parse_digest_member Value ItemParams]. rewrite Hc.
  replace (_ || _) with false by lia. cbn [rbind app].
  rewrite IH; [by destruct v | intros; apply Hd; set_solver | done].
Qed.

Lemma ParseDigestFields_String limits field s :
  Validate limits = None -> 1 <= len field <= MaxDictionaryMembers limits ->
  NoDup (map DigestAlgorithmKey field) -> Forall (digest_ok limits) field ->
  DigestField_String field = Some s -> len s <= MaxFieldBytes limits ->
  ParseDigestFieldsWithLimits [s] limits = Ok field.
Proof.
  intros Hval Hcount Hnd Hok Hs Hbytes. unfold DigestField_String in Hs. cbv zeta in Hs.
  destruct (marshalRFC8941 _) as [t |] eqn:Ht; [| done]. injection Hs as ->.
  destruct (read_items DigestAlgorithmKey (fun e => ABytes (DigestValue e)) DigestParameters digest_item
    field s limits ErrInvalidDigestField (Sentinel ErrInvalidDigestField)) as (d & Hd & Hn & Hget); try done.
  - rewrite list.Forall_forall in Hok. intros e He. by destruct (Hok e He) as (_ & [_ ?] & ?).
  - unfold ParseDigestFieldsWithLimits. rewrite Hd. cbn [rbind]. rewrite Hn.
    by apply parse_digest_members_read.
Qed.

Lemma parse_preference_members_read d es :
  (forall e, e ∈ es -> exists p, om_Get d (PreferenceAlgorithm e) = Some (MItem (mkItem (AInt64 (Weight e)) (Some p))) /\
     copyParameters (Some p) = Ok [] /\ om_Names p = map ParamName []) ->
  Forall (fun e => 0 <= Weight e <= 10) es ->
  parse_preference_members d (map PreferenceAlgorithm es) = Ok es.
Proof.
  induction es as [| e es IH]; intros Hd Hok; [done |].
  apply list.Forall_cons in Hok as [He Hok]. cbn [map parse_preference_members].
  destruct (Hd e) as (p & -> & _ & Hn); [apply list_elem_of_here |].
  cbn [parse_preference_member]. unfold has_parameters. cbn [ItemParams Value]. rewrite Hn.
  change (negb (len (map ParamName []) =? 0)) with false. cbn iota.
  replace ((Weight e <? 0) || (10 <? Weight e)) with false by lia. cbn [rbind].
  rewrite IH; [by destruct e | intros; apply Hd; set_solver | done].
Qed.

Lemma NewDigestPreferences_Ok es preferences :
  NewDigestPreferences es = Ok preferences ->
  preferences = es /\ es <> [] /\ NoDup (map PreferenceAlgorithm es) /\
  Forall (fun e => 0 <= Weight e <= 10) es /\ NewDigestPreferences es = Ok es.
Proof.
  intros Hnew. pose proof Hnew as Hcopy. unfold NewDigestPreferences in Hnew.
  destruct (len es =? 0) eqn:H0; [done |].
  destruct (preferences_loop_spec ∅ es) as [(Heq & Hf & Hnd & _) | (Hbad & _)].
  - rewrite Heq in Hnew. injection Hnew as <-. split; [done |]. split; [by intros -> |].
    split; [done |]. split; [| done]. revert Hf. apply List.Forall_impl. by intros e [_ ?].
  - by rewrite Hnew in Hbad.
Qed.

(** C22: digest fields and preferences survive printing.  Digests within the
    limits are read back with their bytes and parameters, and so are the
    algorithms and weights of constructed preferences, in order. *)
Theorem DigestField_roundtrip limits :
  Validate limits = None ->
  (forall field s, 1 <= len field <= MaxDictionaryMembers limits ->
     NoDup (map DigestAlgorithmKey field) -> Forall (digest_ok limits) field ->
     DigestField_String field = Some s -> len s <= MaxFieldBytes limits ->
     ParseDigestFieldsWithLimits [s] limits = Ok field) /\
  (forall es preferences s, NewDigestPreferences es = Ok preferences ->
     len preferences <= MaxDictionaryMembers limits ->
     DigestPreferences_String preferences = Some s -> len s <= MaxFieldBytes limits ->
     ParseDigestPreferencesWithLimits [s] limits = Ok preferences).
Proof.
  intros Hval. split; [intros field s; by apply ParseDigestFields_String |].
  intros es preferences s Hnew Hcount Hs Hbytes.
  apply NewDigestPreferences_Ok in Hnew as (-> & Hne & Hnd & Hw & Hagain).
  unfold DigestPreferences_String in Hs. cbv zeta in Hs.
  destruct (marshalRFC8941 _) as [t |] eqn:Ht; [| done]. injection Hs as ->.
  destruct (read_items PreferenceAlgorithm (fun e => AInt64 (Weight e)) (fun _ => [])
    (fun e => NewItem (AInt64 (Weight e))) es s limits ErrInvalidDigestPreferences
    (Wrap ErrInvalidDigestPreferences)) as (d & Hd & Hn & Hget); try done.
  - intros e _. split; [done |]. split; [done |]. split; [constructor | done].
  - assert (len es <> 0) by (by intros ?%len_0). pose proof (len_nonneg es). lia.
  - unfold ParseDigestPreferencesWithLimits. rewrite Hd. cbn [rbind]. rewrite Hn.
    rewrite parse_preference_members_read by done. exact Hagain.
Qed.

(** ** Computed digests *)

Context `{HS : Hashes} `{HSL : !HashLaws}.

(** What [ComputeDigests] returns is in every limit. *)
Lemma ComputeDigests_ok algorithms content field :
  ComputeDigests algorithms content = Ok field ->
  1 <= len field <= 2 /\ NoDup (map DigestAlgorithmKey field) /\
  Forall (fun e => DigestAlgorithmKey e ∈ [SHA256; SHA512] /\ len (DigestValue e) <= 64 /\
                   DigestParameters e = []) field.
Proof.
  unfold ComputeDigests. destruct (len algorithms =? 0) eqn:Hne; [done |].
  intros (es & Hes & [= <-])%rbind_Ok. pose proof (sort_by_perm DigestAlgorithmKey es) as Hperm.
  pose proof (compute_loop_parameters _ _ _ _ Hes) as Hps.
  apply compute_loop_Ok in Hes as (Hmap & Hnd & _ & Hall).
  assert (Forall (fun e => DigestAlgorithmKey e ∈ [SHA256; SHA512] /\ len (DigestValue e) <= 64 /\
                           DigestParameters e = []) es) as Hf.
  { apply list.Forall_forall. intros e He. specialize (Hall e He). unfold checksum in Hall.
    rewrite list.Forall_forall in Hps. specialize (Hps e He).
    case_bool_decide as H1.
    - injection Hall as <-. rewrite len_Sum256, H1. split; [set_solver | split; [lia | done]].
    - case_bool_decide as H2; [| done]. injection Hall as <-. rewrite len_Sum512, H2.
      split; [set_solver | split; [lia | done]]. }
  assert (map DigestAlgorithmKey (sort_by DigestAlgorithmKey es) ≡ₚ algorithms) as Hp.
  { rewrite <- Hmap. by apply Permutation_map. }
  split; [| split; [by rewrite Hp | by rewrite Hperm]].
  assert (len (sort_by DigestAlgorithmKey es) = len algorithms) as ->.
  { unfold len. by rewrite Hperm, <- Hmap, length_map. }
  assert (length algorithms <= 2)%nat.
  { change 2%nat with (length [SHA256; SHA512]). apply submseteq_length, NoDup_submseteq; [done |].
    intros a Ha. rewrite <- Hmap in Ha. apply list_elem_of_In, in_map_iff in Ha as (e & <- & He).
    rewrite list.Forall_forall in Hf. by apply Hf, list_elem_of_In. }
  pose proof (len_nonneg algorithms). unfold len in *. lia.
Qed.

Lemma digests_text_length field s :
  1 <= len field <= 2 -> NoDup (map DigestAlgorithmKey field) ->
  Forall (fun e => DigestAlgorithmKey e ∈ [SHA256; SHA512] /\ len (DigestValue e) <= 64 /\
                   DigestParameters e = []) field ->
  DigestField_String field = Some s -> len s <= 400.
Proof.
  intros Hlen Hnd Hf Hs. unfold DigestField_String in Hs. cbv zeta in Hs.
  destruct (marshalRFC8941 _) as [t |] eqn:Ht; [| done]. injection Hs as ->.
  assert (forall e, e ∈ field -> member_entries (MItem (digest_item e)) = Some (DItem (ABytes (DigestValue e)) [])) as He.
  { intros e He. rewrite list.Forall_forall in Hf. destruct (Hf e He) as (_ & _ & Hp).
    unfold digest_item. rewrite Hp. apply (bytes_item_entries (DigestValue e) []). constructor. }
  destruct (marshalRFC8941_print _ _ s (dictionary_entries_fold _ _ _ field Hnd He)) as (_ & _ & Hprint); [| | done |].
  - apply forallb_forall. by intros x (e & <- & _)%in_map_iff.
  - intros Hnil. destruct field; [rewrite len_nil in Hlen; lia | done].
  - unfold print_dictionary in Hprint. apply fmap_Some in Hprint as (ss & Hss & ->).
    assert (Forall (fun x => len x <= 160) ss) as Hb.
    { apply mapM_Some in Hss. apply list.Forall_forall. intros x [n Hn]%list_elem_of_lookup.
      destruct (Forall2_lookup_r _ _ _ _ _ Hss Hn) as (y & Hy & Hx).
      rewrite list_lookup_fmap in Hy. apply fmap_Some in Hy as (e & He' & ->).
      apply list_elem_of_lookup_2 in He'. rewrite list.Forall_forall in Hf. destruct (Hf e He') as (Hk & Hv & _).
      cbn [print_member] in Hx. destruct (valid_key _); [| done].
      unfold marshal_item in Hx. rewrite bare_bytes in Hx. cbn [fmap option_fmap option_map] in Hx.
      assert (x = DigestAlgorithmKey e ++ "="%char :: byte_sequence (DigestValue e) ++ []) as ->
        by (unfold byte_sequence; cbn in Hx |- *; congruence).
      unfold byte_sequence. rewrite app_nil_r, len_app, !len_cons, len_app.
      pose proof (StdEncode_length (DigestValue e)). change (len [":"%char]) with 1.
      assert (len (DigestAlgorithmKey e) = 7) as ->; [| lia].
      by repeat (apply elem_of_cons in Hk as [-> | Hk]; [done |]); apply elem_of_nil in Hk. }
    apply mapM_Some, Forall2_length in Hss. rewrite length_map in Hss.
    destruct ss as [| a [| b [| c ss]]]; [done | | |]; cbn [length] in Hss.
    + apply list.Forall_cons in Hb as [? _]. cbn [Join]. lia.
    + apply list.Forall_cons in Hb as [Ha [Hb _]%list.Forall_cons].
      change (Join [a; b] ", ") with (a ++ str ", " ++ b). rewrite !len_app. change (len (str ", ")) with 2. lia.
    + unfold len in Hlen. lia.
Qed.

(** A printed digest field that was computed is parsed again. *)
Lemma computed_digests_parse algorithms content field s :
  ComputeDigests algorithms content = Ok field -> DigestField_String field = Some s ->
  ParseDigestFields [s] = Ok field.
Proof.
  intros (Hlen & Hnd & Hf)%ComputeDigests_ok Hs. pose proof (digests_text_length _ _ Hlen Hnd Hf Hs).
  assert (MaxFieldBytes DefaultSyntaxLimits = 65536 /\ MaxBinaryBytes DefaultSyntaxLimits = 16384) as [Hmax Hbin] by done.
  apply ParseDigestFields_String; [done | cbn; lia | done | | done | lia].
  revert Hf. apply List.Forall_impl. intros e (_ & Hv & Hp). split; [lia |]. rewrite Hp.
  split; [split; [cbn; unfold len; cbn; lia | constructor] | done].
Qed.
End Roundtrip.
