(* ===== verification/HttpsfvRefReads.v ===== *)
(** * The reference parser inverts the reference serializer

    [HttpsfvRef] satisfies the law [HttpsfvReads]: its parser reads back the
    text of a dictionary without decimals, piece by piece.  Each lemma states
    that a reader, started at the text of a value, returns the value and the
    rest. *)

From S2P Require Import Prelude GoStrings Codecs Errors Httpsfv HttpsfvRef StructuredFieldSafe.
From S2P Require Import SignatureFields SerializationFacts SizeFacts FieldText FieldRoundtrip.
Open Scope Z_scope.

(** ** Characters *)

(** The rest does not start in a class of characters. *)
Definition stops (p : ascii -> bool) (r : gostring) : Prop :=
  match r with [] => True | c :: _ => p c = false end.

Lemma span_app p a r : forallb p a = true -> stops p r -> span p (a ++ r) = (a, r).
Proof.
  induction a as [| c a IH]; cbn [forallb app span].
  - intros _. destruct r as [| c r]; [done |]. cbn. by intros ->.
  - intros [-> Ha]%andb_true_iff Hr. by rewrite IH.
Qed.

Lemma stops_follows p r :
  follows r -> p ";"%char || p " "%char || p ","%char || p ")"%char = false -> stops p r.
Proof.
  destruct r as [| c r]; [done |]. cbn [follows stops]. intros Hc Hp. repeat rewrite orb_false_iff in Hp.
  destruct Hp as [[[H1 H2] H3] H4]. unfold char_mem in Hc. cbn in Hc.
  repeat (apply orb_true_iff in Hc as [Hc | Hc]; [apply char_eqb_eq in Hc as ->; done |]). done.
Qed.

Lemma p_key_read k r : valid_key k = true -> stops is_key_char r -> p_key (k ++ r) = Some (k, r).
Proof.
  destruct k as [| c k]; [done |]. cbn [valid_key app p_key]. intros [-> Hk]%andb_true_iff Hr.
  by rewrite span_app.
Qed.

Lemma p_string_read s r :
  forallb is_printable s = true -> p_string (escape_string s ++ c_quote :: r) = Some (s, r).
Proof.
  induction s as [| c s IH]; [done |]. cbn [forallb escape_string flat_map]. fold (escape_string s).
  intros [Hc Hs]%andb_true_iff. unfold escape_char.
  destruct (char_eqb c c_quote || char_eqb c c_backslash) eqn:He; cbn [app p_string].
  - change (char_eqb c_backslash c_quote) with false. change (char_eqb c_backslash c_backslash) with true.
    cbn iota. by rewrite He, IH.
  - apply orb_false_iff in He as [-> ->]. by rewrite Hc, IH.
Qed.

(** ** Numbers *)

Lemma FormatUint_digits n : forallb is_digit (FormatUint n) = true.
Proof. by apply dec_digits_digits. Qed.

Lemma p_number_read z r :
  Z.abs z <= sf_integer_limit -> follows r -> p_number (FormatInt z ++ r) = Some (AInt64 z, r).
Proof.
  intros Hz Hr. assert (stops is_digit r) as Hstop by (by apply stops_follows).
  assert (forall n, (n <= 999999999999999)%N -> forall neg : bool,
    match FormatUint n with
    | [] => None
    | _ :: _ =>
        match r with
        | c :: r' =>
            if char_eqb c "."
            then let '(fp, r'') := span is_digit r' in
                 if (len (FormatUint n) <=? 12) && (1 <=? len fp) && (len fp <=? 3)
                 then Some (AFloat64 (if neg then - thousandths (FormatUint n) fp
                                      else thousandths (FormatUint n) fp), r'') else None
            else if len (FormatUint n) <=? 15
                 then Some (AInt64 (if neg then - Z.of_N (digits_value 0 (FormatUint n))
                                    else Z.of_N (digits_value 0 (FormatUint n))), r) else None
        | [] => if len (FormatUint n) <=? 15
                then Some (AInt64 (if neg then - Z.of_N (digits_value 0 (FormatUint n))
                                   else Z.of_N (digits_value 0 (FormatUint n))), r) else None
        end
    end = Some (AInt64 (if neg then - Z.of_N n else Z.of_N n), r)) as Hgen.
  { intros n Hn neg. pose proof (FormatUint_nonempty n). rewrite FormatUint_value.
    assert (len (FormatUint n) <= 15).
    { unfold len, FormatUint. pose proof (dec_digits_length (S (N.size_nat n)) n [] 14).
      cbn [length] in *. assert (n < 10 ^ N.of_nat 15)%N; [| lia].
      change (10 ^ N.of_nat 15)%N with 1000000000000000%N. lia. }
    replace (len (FormatUint n) <=? 15) with true by lia.
    destruct (FormatUint n); [done |]. destruct r as [| c r]; [done |]. cbn in Hr.
    assert (char_eqb c "." = false) as -> by (by all_ascii c). done. }
  unfold sf_integer_limit in Hz.
  assert (forall n, span is_digit (FormatUint n ++ r) = (FormatUint n, r)) as Hspan.
  { intros n. apply span_app; [apply FormatUint_digits | done]. }
  assert (forall n, (n <= 999999999999999)%N -> p_number (FormatUint n ++ r) = Some (AInt64 (Z.of_N n), r)) as Hpos.
  { intros n Hn. specialize (Hspan n). specialize (Hgen n Hn false). unfold p_number.
    pose proof (FormatUint_digits n) as Hd. destruct (FormatUint n) as [| c ds]; [done |].
    cbn [app forallb] in *. apply andb_true_iff in Hd as [Hc _].
    assert (char_eqb c "-" = false) as -> by (by all_ascii c). rewrite Hspan. exact Hgen. }
  destruct z as [| p | p]; cbn [FormatInt]; [by apply (Hpos 0%N) | by apply Hpos; lia |].
  unfold p_number. cbn [app]. change (char_eqb "-" "-") with true. cbn iota. rewrite Hspan.
  by apply (Hgen (Npos p) ltac:(lia) true).
Qed.

(** ** Bare items *)

Lemma p_bytes_read b r :
  (i ← IndexByte ((StdEncode b ++ [":"%char]) ++ r) ":";
   b' ← RawStdDecode (TrimRight (take i ((StdEncode b ++ [":"%char]) ++ r)) "=");
   Some (ABytes b', drop (S i) ((StdEncode b ++ [":"%char]) ++ r))) = Some (ABytes b, r).
Proof.
  rewrite <- app_assoc. cbn [app]. rewrite IndexByte_app by apply StdEncode_no_colon.
  cbn [mbind option_bind]. rewrite take_app_length. destruct (StdEncode_decode b) as (body & -> & -> & _).
  cbn [mbind option_bind]. do 2 f_equal.
  change (":"%char :: r) with ([":"%char] ++ r). rewrite app_assoc.
  replace (S (length (StdEncode b))) with (length (StdEncode b ++ [":"%char]))
    by (rewrite length_app; cbn; lia).
  apply drop_app_length.
Qed.

Lemma p_bare_read v s r :
  plain_value v = true -> ref_bare v = Some s -> follows r -> p_bare (s ++ r) = Some (v, r).
Proof.
  intros Hv Hs Hr. destruct v as [| b | t | z | | b | | t |]; try discriminate Hv; cbn [ref_bare] in Hs.
  - injection Hs as <-. by destruct b.
  - destruct (forallb is_printable t) eqn:Ht; [| done]. assert (s = quote_string t) as -> by congruence.
    unfold quote_string. cbn [app p_bare]. change (char_eqb c_quote c_quote) with true. cbn iota.
    rewrite <- app_assoc. cbn [app]. by rewrite p_string_read.
  - destruct (Z.abs z <=? sf_integer_limit) eqn:Hz; [| done].
    assert (s = FormatInt z) as -> by congruence. rewrite <- (p_number_read z r) by (done || lia).
    pose proof (FormatInt_decimal z) as Hd. destruct (FormatInt z) as [| c ds] eqn:Hf.
    { destruct z; [done | by destruct (FormatUint_nonempty (Npos p)) | done]. }
    cbn [forallb] in Hd. apply andb_true_iff in Hd as [Hc _]. cbn [app p_bare].
    assert (char_eqb c c_quote = false) as -> by (by all_ascii c).
    assert (char_eqb c "?" = false) as -> by (by all_ascii c).
    assert (char_eqb c ":" = false) as -> by (by all_ascii c).
    by assert (is_lower c || is_upper c || char_eqb c "*" = false) as -> by (by all_ascii c).
  - assert (s = byte_sequence b) as -> by (unfold byte_sequence; congruence).
    unfold byte_sequence. cbn [app p_bare]. change (char_eqb ":" c_quote) with false.
    change (char_eqb ":" "?") with false. change (char_eqb ":" ":") with true. cbn iota. apply p_bytes_read.
  - destruct (valid_token t) eqn:Ht; [| done]. assert (s = t) as -> by congruence.
    destruct t as [| c t]; [done |]. cbn [valid_token] in Ht. apply andb_true_iff in Ht as [Hc Ht].
    cbn [app p_bare]. assert (char_eqb c c_quote = false) as -> by (by all_ascii c).
    assert (char_eqb c "?" = false) as -> by (by all_ascii c).
    assert (char_eqb c ":" = false) as -> by (by all_ascii c). rewrite Hc.
    rewrite span_app; [done | done |]. by apply stops_follows.
Qed.

(** ** Parameters *)

Lemma hist_add (acc : ref_params) k v : om_Add acc k v = acc ++ [(k, v)].
Proof. done. Qed.

(** What may follow an item or the parameters of a member. *)
Definition ends (r : gostring) : Prop :=
  match r with [] => True | c :: _ => char_mem c " ,)" = true end.

Lemma ends_follows r : ends r -> follows r.
Proof. destruct r as [| c r]; [done |]. cbn [ends follows]. by all_ascii c. Qed.

(** A key is followed by an equals sign, a semicolon or an end. *)
Lemma key_stops t r : suffix_of_key t -> ends r -> stops is_key_char (t ++ r).
Proof.
  destruct t as [| c t]; cbn [suffix_of_key app stops].
  - intros _. destruct r as [| c r]; [done |]. cbn [ends stops]. by all_ascii c.
  - intros Hc _. by all_ascii c.
Qed.

Lemma marshal_params_cons k v ps s :
  marshal_params ref_bare ((k, v) :: ps) = Some s ->
  exists a b, s = a ++ b /\ marshal_param ref_bare (k, v) = Some a /\ marshal_params ref_bare ps = Some b.
Proof.
  unfold marshal_params. intros (ss & Hss & ->)%fmap_Some. cbn [mapM] in Hss.
  apply bind_Some in Hss as (a & Ha & (ss' & Hss & [= <-])%bind_Some).
  exists a, (mjoin ss'). split; [done |]. split; [done |]. by rewrite Hss.
Qed.

Lemma marshal_param_cases k v s :
  marshal_param ref_bare (k, v) = Some s ->
  valid_key k = true /\
  ((v = ABool true /\ s = ";"%char :: k) \/
   exists b, ref_bare v = Some b /\ s = ";"%char :: k ++ "="%char :: b).
Proof.
  cbn [marshal_param]. destruct (valid_key k); [| done]. intros Hs. split; [done |].
  destruct v as [| [] | | | | | | |]; try (apply fmap_Some in Hs as (x & Hx & ->); right; by exists x).
  injection Hs as <-. by left.
Qed.

(** The text of parameters starts with a semicolon. *)
Lemma params_semicolon ps s r :
  marshal_params ref_bare ps = Some s -> ends r ->
  match s ++ r with [] => True | c :: _ => char_mem c "; ,)" = true /\ char_eqb c "=" = false end.
Proof.
  destruct ps as [| [k v] ps].
  - intros [= <-] Hr. destruct r as [| c r]; [done |]. cbn [app ends] in *. by all_ascii c.
  - intros (a & b & -> & Ha & _)%marshal_params_cons _.
    apply marshal_param_cases in Ha as (_ & [[_ ->] | (x & _ & ->)]); done.
Qed.

Lemma params_follow ps s r : marshal_params ref_bare ps = Some s -> ends r -> follows (s ++ r).
Proof.
  intros Hs Hr. pose proof (params_semicolon ps s r Hs Hr) as H. by destruct (s ++ r); [| apply H].
Qed.

Lemma skip_sp_key k r : valid_key k = true -> skip_sp (k ++ r) = k ++ r.
Proof.
  destruct k as [| c k]; [done |]. cbn [valid_key]. intros [Hc _]%andb_true_iff. unfold skip_sp. cbn [app span].
  by assert (char_eqb c c_space = false) as -> by (by all_ascii c).
Qed.

Lemma p_params_read fuel acc ps s r :
  plain_entries ps = true -> marshal_params ref_bare ps = Some s -> ends r -> (length ps < fuel)%nat ->
  p_params fuel acc (s ++ r) = Some (acc ++ ps, r).
Proof.
  revert acc s fuel. induction ps as [| [k v] ps IH]; intros acc s fuel Hps Hs Hr Hfuel.
  { injection Hs as <-. destruct fuel as [| f]; [lia |]. cbn [p_params mjoin app]. rewrite app_nil_r.
    destruct r as [| c r]; [done |]. cbn [ends] in Hr.
    by assert (char_eqb c ";" = false) as -> by (by all_ascii c). }
  cbn [plain_entries forallb] in Hps. apply andb_true_iff in Hps as [Hv Hps].
  apply marshal_params_cons in Hs as (a & b & -> & Ha & Hb).
  destruct fuel as [| f]; [cbn in Hfuel; lia |]. cbn [length] in Hfuel. rewrite <- app_assoc.
  assert (p_params f (acc ++ [(k, v)]) (b ++ r) = Some (acc ++ (k, v) :: ps, r)) as Hrest.
  { rewrite (IH _ _ f); [by rewrite <- app_assoc | done | done | done | lia]. }
  pose proof (params_semicolon ps b r Hb Hr) as Hsemi. pose proof (params_follow ps b r Hb Hr) as Hfol.
  apply marshal_param_cases in Ha as (Hk & [[-> ->] | (x & Hx & ->)]); cbn [app p_params];
    change (char_eqb ";" ";") with true; cbn iota.
  - rewrite skip_sp_key, p_key_read; [| done | by apply stops_follows | done].
    cbn [mbind option_bind]. rewrite hist_add. destruct (b ++ r) as [| d l]; [done |].
    destruct Hsemi as [_ ->]. exact Hrest.
  - rewrite <- app_assoc. cbn [app]. rewrite skip_sp_key, p_key_read by done.
    cbn [mbind option_bind]. change (char_eqb "=" "=") with true. cbn iota.
    rewrite (p_bare_read v) by done. cbn [mbind option_bind]. rewrite hist_add. exact Hrest.
Qed.

Lemma mjoin_length (ss : list gostring) : Forall (fun s => s <> []) ss -> (length ss <= length (mjoin ss))%nat.
Proof.
  induction 1 as [| s ss Hs _ IH]; [done |]. change (mjoin (s :: ss)) with (s ++ mjoin ss).
  rewrite length_app. destruct s; [done |]. cbn. lia.
Qed.

Lemma marshal_params_length ps s : marshal_params ref_bare ps = Some s -> (length ps <= length s)%nat.
Proof.
  revert s. induction ps as [| [k v] ps IH]; intros s; [cbn; lia |].
  intros (a & b & -> & Ha & Hb)%marshal_params_cons. specialize (IH b Hb). rewrite length_app.
  apply marshal_param_cases in Ha as (_ & [[_ ->] | (x & _ & ->)]); cbn; lia.
Qed.

(** Fuel for the text that is left is enough. *)
Lemma p_params_all ps s r :
  plain_entries ps = true -> marshal_params ref_bare ps = Some s -> ends r ->
  p_params (S (length (s ++ r))) [] (s ++ r) = Some (ps, r).
Proof.
  intros Hps Hs Hr. rewrite (p_params_read _ [] ps s r); [done | done | done | done |].
  pose proof (marshal_params_length ps s Hs). rewrite length_app. lia.
Qed.

(** ** Items *)

Lemma p_item_read v ps s r :
  plain_value v = true -> plain_entries ps = true -> marshal_item ref_bare v ps = Some s -> ends r ->
  p_item (s ++ r) = Some (mkItem v (Some ps), r).
Proof.
  intros Hv Hps Hs Hr. unfold marshal_item in Hs. destruct (ref_bare v) as [a |] eqn:Ha; [| done].
  destruct (marshal_params ref_bare ps) as [b |] eqn:Hb; [| done]. assert (s = a ++ b) as -> by congruence.
  unfold p_item. rewrite <- app_assoc, (p_bare_read v); [| done | done | by eapply params_follow].
  cbn [mbind option_bind]. by rewrite (p_params_all ps).
Qed.

Definition ref_item (x : any * entries) : Item ref_params := mkItem (fst x) (Some (snd x)).

(** The text of a string item starts with a quotation mark. *)
Lemma string_item_text v ps s :
  is_string v = true -> marshal_item ref_bare v ps = Some s -> exists t, s = c_quote :: t.
Proof.
  destruct v as [| | t | | | | | |]; try done. intros _. unfold marshal_item. cbn [ref_bare].
  destruct (forallb is_printable t); [| done]. destruct (marshal_params _ _) as [q |]; [| done].
  intros Hs. assert (s = quote_string t ++ q) as -> by congruence. unfold quote_string. cbn [app]. eauto.
Qed.

Lemma p_items_read fuel items ss s r :
  forallb (fun '(v, l) => is_string v && plain_entries l) items = true ->
  mapM (fun '(v, l) => marshal_item ref_bare v l) items = Some ss ->
  skip_sp s = Join ss " " ++ ")"%char :: r -> (length items < fuel)%nat ->
  p_items fuel s = Some (map ref_item items, r).
Proof.
  revert ss s fuel. induction items as [| [v l] items IH]; intros ss s fuel Hi Hss Hs Hfuel.
  { injection Hss as <-. destruct fuel as [| f]; [lia |]. cbn [p_items]. by rewrite Hs. }
  cbn [forallb] in Hi. apply andb_true_iff in Hi as [[Hv Hl]%andb_true_iff Hi]. cbn [mapM] in Hss.
  apply bind_Some in Hss as (a & Ha & (ss' & Hss & [= <-])%bind_Some).
  destruct fuel as [| f]; [lia |]. cbn [p_items length] in *.
  destruct (string_item_text v l a Hv Ha) as [t Ht].
  assert (plain_value v = true) as Hpv by (by destruct v).
  assert (exists d rest, Join (a :: ss') " " ++ ")"%char :: r = a ++ d :: rest /\
    char_eqb d c_space || char_eqb d ")" = true /\ skip_sp (d :: rest) = Join ss' " " ++ ")"%char :: r)
    as (d & rest & Hjoin & Hd & Hskip).
  { destruct ss' as [| a2 ss'].
    - by exists ")"%char, r.
    - exists c_space, (Join (a2 :: ss') " " ++ ")"%char :: r).
      split; [change (Join (a :: a2 :: ss') " ") with (a ++ c_space :: Join (a2 :: ss') " "); by rewrite <- app_assoc |].
      split; [done |]. destruct items as [| [v2 l2] items]; [done |]. cbn [forallb] in Hi.
      apply andb_true_iff in Hi as [[Hv2 _]%andb_true_iff _]. cbn [mapM] in Hss.
      apply bind_Some in Hss as (a2' & Ha2 & (ss2 & _ & [= -> ->])%bind_Some).
      destruct (string_item_text v2 l2 a2 Hv2 Ha2) as [t2 ->]. by destruct ss'. }
  rewrite Hs, Hjoin. rewrite Ht at 1. cbn [app].
  change (char_eqb c_quote ")") with false. cbn iota.
  replace (c_quote :: t ++ d :: rest) with (a ++ d :: rest) by (by rewrite Ht).
  rewrite (p_item_read v l) by (done || (cbn [ends]; by all_ascii d)). cbn [mbind option_bind]. rewrite Hd.
  by rewrite (IH ss' _ f Hi Hss Hskip) by lia.
Qed.

(** ** Members *)

Definition ref_member (data : member_data) : Member ref_params :=
  match data with
  | DItem v ps => MItem (mkItem v (Some ps))
  | DList items ps => MInnerList (mkInnerList (map ref_item items) (Some ps))
  end.

Lemma items_length items ss :
  forallb (fun '(v, l) => is_string v && plain_entries l) items = true ->
  mapM (fun '(v, l) => marshal_item ref_bare v l) items = Some ss -> (length items <= length (Join ss " "))%nat.
Proof.
  revert ss. induction items as [| [v l] items IH]; intros ss Hi Hss; [cbn; lia |].
  cbn [forallb] in Hi. apply andb_true_iff in Hi as [[Hv _]%andb_true_iff Hi]. cbn [mapM] in Hss.
  apply bind_Some in Hss as (a & Ha & (ss' & Hss & [= <-])%bind_Some).
  destruct (string_item_text v l a Hv Ha) as [t ->]. specialize (IH ss' Hi Hss).
  destruct ss' as [| a2 ss']; cbn [Join length] in *; [lia |].
  rewrite !length_app. cbn [length]. lia.
Qed.

Lemma p_inner_list_read items ps s r :
  forallb (fun '(v, l) => is_string v && plain_entries l) items = true -> plain_entries ps = true ->
  marshal_inner_list ref_bare items ps = Some s -> ends r ->
  p_member (s ++ r) = Some (ref_member (DList items ps), r).
Proof.
  intros Hi Hps Hs Hr. unfold marshal_inner_list in Hs.
  destruct (mapM _ items) as [ss |] eqn:Hss; [| done].
  destruct (marshal_params ref_bare ps) as [q |] eqn:Hq; [| done].
  assert (s = "("%char :: Join ss " " ++ ")"%char :: q) as -> by congruence.
  cbn [app p_member]. change (char_eqb "(" "(") with true. cbn iota. rewrite <- app_assoc. cbn [app].
  assert (skip_sp (Join ss " " ++ ")"%char :: q ++ r) = Join ss " " ++ ")"%char :: q ++ r) as Hskip.
  { destruct items as [| [v l] items]; [by injection Hss as <- |]. cbn [forallb] in Hi.
    apply andb_true_iff in Hi as [[Hv _]%andb_true_iff _]. cbn [mapM] in Hss.
    apply bind_Some in Hss as (a & Ha & (ss' & _ & [= <-])%bind_Some).
    destruct (string_item_text v l a Hv Ha) as [t ->]. by destruct ss'. }
  pose proof (items_length items ss Hi Hss) as Hlen.
  rewrite (p_items_read _ items ss _ (q ++ r) Hi Hss Hskip) by (rewrite length_app; lia).
  cbn [mbind option_bind]. by rewrite (p_params_all ps).
Qed.

Lemma p_item_member_read v ps s r :
  plain_value v = true -> plain_entries ps = true -> marshal_item ref_bare v ps = Some s -> ends r ->
  p_member (s ++ r) = Some (ref_member (DItem v ps), r).
Proof.
  intros Hv Hps Hs Hr. pose proof (p_item_read v ps s r Hv Hps Hs Hr) as Hread.
  unfold marshal_item in Hs. destruct (ref_bare v) as [a |] eqn:Ha; [| done].
  destruct (marshal_params _ _) as [b |] eqn:Hb; [| done]. assert (s = a ++ b) as -> by congruence.
  assert (exists c t, a = c :: t /\ char_eqb c "(" = false) as (c & t & -> & Hc).
  { destruct v as [| v | t | z | | v | | t |]; try discriminate Hv; cbn [ref_bare] in Ha.
    - injection Ha as <-. destruct v; by eexists _, _.
    - destruct (forallb is_printable t); [| done]. assert (a = quote_string t) as -> by congruence.
      unfold quote_string. by eexists _, _.
    - destruct (Z.abs z <=? sf_integer_limit); [| done]. assert (a = FormatInt z) as -> by congruence.
      pose proof (FormatInt_decimal z) as Hd. destruct (FormatInt z) as [| c ds] eqn:Hf.
      { destruct z; [done | by destruct (FormatUint_nonempty (Npos p)) | done]. }
      cbn [forallb] in Hd. apply andb_true_iff in Hd as [Hc _]. exists c, ds. split; [done |]. by all_ascii c.
    - assert (a = byte_sequence v) as -> by (unfold byte_sequence; congruence). by eexists _, _.
    - destruct (valid_token t) eqn:Ht; [| done]. assert (a = t) as -> by congruence.
      destruct t as [| c t]; [done |]. cbn [valid_token] in Ht. apply andb_true_iff in Ht as [Hc _].
      exists c, t. split; [done |]. by all_ascii c. }
  cbn [app p_member] in *. rewrite Hc, Hread. done.
Qed.

Lemma p_dictionary_member_read k data s r :
  plain_data data = true -> print_member ref_bare (k, data) = Some s -> ends r ->
  p_dictionary_member (s ++ r) = Some (k, ref_member data, r).
Proof.
  intros Hd Hs Hr. cbn [print_member] in Hs. destruct (valid_key k) eqn:Hk; [| done].
  assert (forall m t, p_member (t ++ r) = Some (m, r) ->
    p_dictionary_member ((k ++ "="%char :: t) ++ r) = Some (k, m, r)) as Hgen.
  { intros m t Hm. unfold p_dictionary_member. rewrite <- app_assoc, p_key_read by done.
    cbn [mbind option_bind app]. change (char_eqb "=" "=") with true. cbn iota. by rewrite Hm. }
  destruct data as [v ps | items ps]; cbn [plain_data] in Hd; apply andb_true_iff in Hd as [Hv Hps].
  - assert ((v = ABool true /\ exists q, marshal_params ref_bare ps = Some q /\ s = k ++ q) \/
      exists t, marshal_item ref_bare v ps = Some t /\ s = k ++ "="%char :: t) as [(-> & q & Hq & ->) | (t & Ht & ->)].
    { destruct v as [| [] | | | | | | |]; try (apply fmap_Some in Hs as (x & Hx & ->); right; by exists x).
      apply fmap_Some in Hs as (x & Hx & ->). left. split; [done |]. by exists x. }
    + unfold p_dictionary_member. rewrite <- app_assoc, p_key_read; [| done |].
      2: { pose proof (params_follow ps q r Hq Hr). by apply stops_follows. }
      cbn [mbind option_bind]. pose proof (params_semicolon ps q r Hq Hr) as Hsemi.
      pose proof (p_params_all ps q r Hps Hq Hr) as Hread. destruct (q ++ r) as [| d l] eqn:Hqr.
      * apply app_eq_nil in Hqr as [-> ->]. cbn in Hread. by injection Hread as <-.
      * destruct Hsemi as [_ ->]. by rewrite Hread.
    + apply Hgen. by apply p_item_member_read.
  - apply fmap_Some in Hs as (t & Ht & ->). apply Hgen. by apply p_inner_list_read.
Qed.

(** ** Dictionaries *)

Lemma hist_member_add (acc : ref_dictionary) k v : om_Add acc k v = acc ++ [(k, v)].
Proof. done. Qed.

Definition ref_entry (x : gostring * member_data) : gostring * Member ref_params :=
  (fst x, ref_member (snd x)).

Lemma print_member_key k data s : print_member ref_bare (k, data) = Some s -> valid_key k = true /\ exists t, s = k ++ t.
Proof.
  cbn [print_member]. destruct (valid_key k); [| done]. intros Hs. split; [done |].
  destruct data as [[| [] | | | | | | |] ps | items ps]; apply fmap_Some in Hs as (x & _ & ->); eauto.
Qed.

Lemma p_dictionary_read fuel acc l ss :
  forallb (fun '(_, data) => plain_data data) l = true -> mapM (print_member ref_bare) l = Some ss ->
  l <> [] -> (length l <= fuel)%nat ->
  p_dictionary fuel acc (Join ss ", ") = Some (acc ++ map ref_entry l).
Proof.
  revert acc ss fuel. induction l as [| [k data] l IH]; intros acc ss fuel Hl Hss Hne Hfuel; [done |].
  cbn [forallb] in Hl. apply andb_true_iff in Hl as [Hd Hl]. cbn [mapM] in Hss.
  apply bind_Some in Hss as (s & Hs & (ss' & Hss & [= <-])%bind_Some).
  destruct fuel as [| f]; [cbn in Hfuel; lia |]. cbn [length] in Hfuel. cbn [p_dictionary map].
  destruct l as [| [k2 d2] l].
  - injection Hss as <-. cbn [Join]. rewrite <- (app_nil_r s).
    rewrite (p_dictionary_member_read k data s []) by done. cbn [mbind option_bind]. by rewrite hist_member_add.
  - destruct ss' as [| s2 ss2]; [by apply mapM_Some, Forall2_length in Hss |].
    change (Join (s :: s2 :: ss2) ", ") with (s ++ ","%char :: c_space :: Join (s2 :: ss2) ", ").
    rewrite (p_dictionary_member_read k data s) by done. cbn [mbind option_bind].
    assert (p_separator (","%char :: c_space :: Join (s2 :: ss2) ", ") = Some (Some (Join (s2 :: ss2) ", "))) as ->.
    { pose proof Hss as Hss'. cbn [mapM] in Hss'.
      apply bind_Some in Hss' as (s2' & Hs2 & (ss3 & _ & [= -> ->])%bind_Some).
      apply print_member_key in Hs2 as [Hk2 [t ->]]. destruct k2 as [| c k2]; [done |].
      cbn [valid_key] in Hk2. apply andb_true_iff in Hk2 as [Hc _]. unfold p_separator, skip_ows.
      assert (exists rest, Join (((c :: k2) ++ t) :: ss2) ", " = c :: rest) as [rest ->] by (destruct ss2; cbn; eauto).
      assert (char_eqb c c_space || char_eqb c c_tab = false) as Hws by (by all_ascii c).
      cbn. by rewrite Hws. }
    cbn [mbind option_bind]. rewrite hist_member_add, (IH _ (s2 :: ss2) f) by (done || lia).
    by rewrite <- app_assoc.
Qed.

(** ** The law *)

Lemma hist_entries {V} (m : list (gostring * V)) : NoDup (map fst m) -> om_entries m = m.
Proof.
  intros Hnd. pose proof (om_entries_fold (M := list (gostring * V)) fst snd m Hnd) as H.
  assert (forall acc l : list (gostring * V),
    fold_left (fun m x => om_Add m (fst x) (snd x)) l acc = acc ++ l) as Hfold.
  { intros acc l. revert acc. induction l as [| [k v] l IH]; intros acc; [by rewrite app_nil_r |].
    cbn [fold_left fst snd]. rewrite IH. cbn. by rewrite <- app_assoc. }
  rewrite Hfold in H. cbn [app om_New hist_map] in H. rewrite H. clear. induction m as [| [k v] m IH]; [done |].
  cbn [map fst snd]. by rewrite IH.
Qed.

Definition names_differ (ps : entries) : Prop := NoDup (map fst ps).

Definition data_differ (data : member_data) : Prop :=
  match data with
  | DItem _ ps => names_differ ps
  | DList items ps => Forall (fun x => names_differ (snd x)) items /\ names_differ ps
  end.

Section Reference.
#[local] Existing Instance ref_sfv.
#[local] Existing Instance ref_sfv_laws.

Lemma param_entries_differ (p : option Params) ps : param_entries p = Some ps -> names_differ ps.
Proof.
  intros Hp. destruct p as [p |]; [| done]. injection Hp as <-. unfold names_differ.
  rewrite <- om_names_entries. apply om_names_nodup.
Qed.

Lemma item_entries_differ (i : Item Params) x : item_entries i = Some x -> names_differ (snd x).
Proof.
  unfold item_entries. intros (ps & Hps & ->)%fmap_Some. by eapply param_entries_differ.
Qed.

Lemma member_entries_differ (m : Member Params) data : member_entries m = Some data -> data_differ data.
Proof.
  destruct m as [i | l]; cbn [member_entries].
  - intros ([v ps] & Hi & [= <-])%bind_Some. by apply item_entries_differ in Hi.
  - intros (items & Hitems & (ps & Hps & [= <-])%bind_Some)%bind_Some. split.
    + apply mapM_Some in Hitems. apply list.Forall_forall. intros x [n Hn]%list_elem_of_lookup.
      destruct (Forall2_lookup_r _ _ _ _ _ Hitems Hn) as (i & _ & Hi). by eapply item_entries_differ.
    + by eapply param_entries_differ.
Qed.

Lemma ref_param_entries (ps : entries) :
  names_differ ps -> param_entries (Some ps : option Params) = Some ps.
Proof. intros Hps. exact (f_equal Some (hist_entries ps Hps)). Qed.

Lemma ref_item_entries x : names_differ (snd x) -> item_entries (ref_item x : Item Params) = Some x.
Proof.
  destruct x as [v ps]. intros Hx. unfold item_entries, ref_item. cbn [Value ItemParams fst snd] in *.
  by rewrite ref_param_entries.
Qed.

Lemma ref_member_entries data : data_differ data -> member_entries (ref_member data : Member Params) = Some data.
Proof.
  destruct data as [v ps | items ps]; cbn [data_differ ref_member member_entries Items ListParams].
  - intros Hps. change (mkItem v (Some ps)) with (ref_item (v, ps)).
    by rewrite (ref_item_entries (v, ps) Hps).
  - intros [Hitems Hps]. assert (mapM item_entries (map ref_item items : list (Item Params)) = Some items) as ->.
    { induction Hitems as [| x items Hx _ IH]; [done |]. cbn [map mapM].
      rewrite (ref_item_entries x Hx). cbn [mbind option_bind]. by rewrite IH. }
    cbn [mbind option_bind]. by rewrite ref_param_entries.
Qed.

Lemma ref_dictionary_entries l :
  NoDup (map fst l) -> Forall (fun x => data_differ (snd x)) l ->
  dictionary_entries (map ref_entry l : Dictionary) = Some l.
Proof.
  intros Hnd Hl. assert (om_entries (map ref_entry l) = map ref_entry l) as He.
  { apply hist_entries. by rewrite map_map. }
  transitivity (mapM (fun '(k, m) => pair k <$> member_entries (m : Member Params)) (map ref_entry l)).
  { exact (f_equal (mapM _) He). }
  clear Hnd He. induction Hl as [| [k data] l Hd _ IH]; [done |]. cbn [map mapM ref_entry fst snd].
  rewrite ref_member_entries by done. cbn [fmap option_fmap option_map mbind option_bind]. by rewrite IH.
Qed.

Lemma dictionary_entries_differ (d : Dictionary) l :
  dictionary_entries d = Some l -> NoDup (map fst l) /\ Forall (fun x => data_differ (snd x)) l.
Proof.
  intros Hl. split; [rewrite <- (dictionary_entries_names d l Hl); apply om_names_nodup |].
  apply list.Forall_forall. intros [k data] Hin.
  destruct (dictionary_entries_get d l k data Hl Hin) as (m & _ & Hm). by eapply member_entries_differ.
Qed.

(** The text of a dictionary is not trimmed. *)
Lemma field_text_members ks ss :
  Forall2 member_text ks ss -> ss <> [] -> field_text [Join ss ", "] = Join ss ", " /\ Join ss ", " <> [].
Proof.
  intros Hss Hne. unfold field_text. change (Join [Join ss ", "] ",") with (Join ss ", ").
  assert (solid (Join ss ", ")) as (t & d & Ht & Hd).
  { induction Hss as [| k s ks ss Hs Hss IH]; [done |]. destruct ss as [| s2 ss]; [by eapply member_solid |].
    change (Join (s :: s2 :: ss) ", ") with (s ++ str ", " ++ Join (s2 :: ss) ", "). by apply solid_app, solid_app, IH. }
  assert (exists c r, Join ss ", " = c :: r /\ graphic c = true) as (c & r & Hc & Hg).
  { destruct Hss as [| k s ks ss Hs Hss]; [done |]. destruct (member_solid k s Hs) as [_ (c & r & -> & Hg)].
    destruct ss; cbn [Join app]; eauto. }
  split; [| by rewrite Hc]. unfold Trim. rewrite TrimLeft_none by (rewrite Hc; by all_ascii c).
  rewrite Ht. unfold TrimRight. rewrite reverse_snoc, TrimLeft_none by (by all_ascii d).
  by rewrite <- reverse_snoc, reverse_involutive.
Qed.

Lemma Join_length (ss : list gostring) : (length ss <= S (length (Join ss ", ")))%nat.
Proof.
  induction ss as [| s ss IH]; [cbn; lia |]. destruct ss as [| s2 ss]; [cbn; lia |].
  change (Join (s :: s2 :: ss) ", ") with (s ++ str ", " ++ Join (s2 :: ss) ", ").
  rewrite !length_app. change (length (str ", ")) with 2%nat. cbn [length] in *. lia.
Qed.

(** The reference implementation satisfies the law. *)
Lemma ref_sfv_reads : HttpsfvReads.
Proof.
  split. intros d l s Hd Hl Hne Hs. rewrite (marshal_dictionary_print d l Hd) in Hs.
  destruct (dictionary_entries_differ d l Hd) as [Hnd Hdiff]. pose proof Hs as Hs'.
  unfold print_dictionary in Hs'. apply fmap_Some in Hs' as (ss & Hss & ->).
  pose proof (print_members_text l ss Hl Hss) as Htext.
  assert (ss <> []) as Hne' by (intros ->; apply Forall2_length in Htext; by destruct l).
  destruct (field_text_members _ _ Htext Hne') as [Hfield Hnil].
  exists (map ref_entry l). split; [| by apply ref_dictionary_entries].
  change (UnmarshalDictionary [Join ss ", "]) with (ref_dictionary_of [Join ss ", "]).
  unfold ref_dictionary_of. cbv zeta. rewrite Hfield.
  assert (p_dictionary (S (length (Join ss ", "))) [] (Join ss ", ") = Some (map ref_entry l)) as Hread.
  { rewrite (p_dictionary_read _ [] l ss); [done | done | done | done |].
    apply mapM_Some, Forall2_length in Hss. rewrite Hss. apply Join_length. }
  rewrite Hread. by destruct (Join ss ", ").
Qed.
End Reference.
