(* ===== verification/Algorithm.v ===== *)
(** * Signature algorithms (algorithm.go)

    Key checks and the dispatch of [Sign] and [Verify] over the six registered
    algorithms.  The primitives of Go's crypto packages are methods of the
    class [Crypto]; [CryptoLaws] states their documented correctness.  [None]
    is a Go panic. *)

From S2P Require Import Prelude GoStrings Errors Httpsfv Digest.
Open Scope Z_scope.

Definition Algorithm := gostring.
Definition RSAPSSSHA512 : Algorithm := "rsa-pss-sha512".
Definition RSAV15SHA256 : Algorithm := "rsa-v1_5-sha256".
Definition HMACSHA256 : Algorithm := "hmac-sha256".
Definition ECDSAP256SHA256 : Algorithm := "ecdsa-p256-sha256".
Definition ECDSAP384SHA384 : Algorithm := "ecdsa-p384-sha384".
Definition Ed25519 : Algorithm := "ed25519".

Definition minRSAModulusBits : Z := 2048.
Definition maxRSAModulusBits : Z := 8192.
Definition maxRSASignatureSize : Z := maxRSAModulusBits / 8.
Definition minHMACKeySize : Z := 32.
Definition maxHMACKeySize : Z := 64.
Definition ed25519_PublicKeySize : Z := 32.
Definition ed25519_PrivateKeySize : Z := 64.
Definition ed25519_SignatureSize : Z := 64.
Definition ed25519_SeedSize : nat := 32.

(** ** Keys *)

Record rsaPublicKey := mkRSAPublic { rsa_N : option Z; rsa_E : Z }.
(** The private exponent and primes are opaque bytes. *)
Record rsaPrivateKey := mkRSAPrivate { rsa_public : rsaPublicKey; rsa_secret : gostring }.

Inductive Curve : Set := P256 | P384 | OtherCurve.
#[export] Instance Curve_eq_dec : EqDecision Curve.
Proof. solve_decision. Defined.

(** The curve is [None] when the interface value is nil; the point and the
    scalar are opaque. *)
Record ecdsaPublicKey := mkECDSAPublic { ecdsa_curve : option Curve; ecdsa_point : gostring }.
Record ecdsaPrivateKey := mkECDSAPrivate { ecdsa_public : ecdsaPublicKey; ecdsa_scalar : gostring }.

#[export] Instance ecdsaPublicKey_eq_dec : EqDecision ecdsaPublicKey.
Proof. solve_decision. Defined.

Record HMACKey := mkHMACKey { material : gostring }.

(** The dynamic types of [key any]; a typed pointer may be nil. *)
Inductive Key : Type :=
| KeyNil
| KeyRSAPrivate (k : option rsaPrivateKey)
| KeyRSAPublic (k : option rsaPublicKey)
| KeyHMAC (k : HMACKey)
| KeyECDSAPrivate (k : option ecdsaPrivateKey)
| KeyECDSAPublic (k : option ecdsaPublicKey)
| KeyEd25519Private (k : gostring)
| KeyEd25519Public (k : gostring)
| KeyOther (tag : gostring).

(** [key == nil]. *)
Definition key_is_nil (k : Key) : bool := match k with KeyNil => true | _ => false end.

Class Crypto := {
  crypto_hashes :: Hashes;
  Sum384 : gostring -> gostring;
  hmac_sha256 : gostring -> gostring -> gostring;
  (** [Validate() == nil] *)
  rsa_Validate : rsaPrivateKey -> bool;
  (** the first argument is the entropy; [None] is an error *)
  rsa_SignPSS : nat -> rsaPrivateKey -> gostring -> option gostring;
  rsa_VerifyPSS : rsaPublicKey -> gostring -> gostring -> bool;
  rsa_SignPKCS1v15 : rsaPrivateKey -> gostring -> option gostring;
  rsa_VerifyPKCS1v15 : rsaPublicKey -> gostring -> gostring -> bool;
  ecdsa_PublicBytes : ecdsaPublicKey -> outcome gostring;
  ecdsa_PrivateBytes : ecdsaPrivateKey -> outcome gostring;
  ecdsa_ParsePublic : Curve -> gostring -> option ecdsaPublicKey;
  ecdsa_ParsePrivate : Curve -> gostring -> option ecdsaPrivateKey;
  ecdsa_Sign : nat -> ecdsaPrivateKey -> gostring -> option (Z * Z);
  ecdsa_Verify : ecdsaPublicKey -> gostring -> Z -> Z -> bool;
  ed25519_NewKeyFromSeed : gostring -> gostring;
  ed25519_Sign : gostring -> gostring -> gostring;
  ed25519_Verify : gostring -> gostring -> gostring -> bool
}.

(** ** Big-endian integers ([math/big]) *)

(** [new(big.Int).SetBytes]. *)
Definition SetBytes (s : gostring) : Z :=
  fold_left (fun n c => 256 * n + Z.of_N (N_of_ascii c)) s 0.

Fixpoint fill_bytes (size : nat) (n : Z) (acc : gostring) : gostring :=
  match size with
  | O => acc
  | S k => fill_bytes k (n / 256) (ascii_of_N (Z.to_N (n mod 256)) :: acc)
  end.

(** [FillBytes] of a buffer of [size] bytes: it panics when the value does not fit. *)
Definition FillBytes (n : Z) (size : nat) : option gostring :=
  if Z.abs n <? 256 ^ Z.of_nat size then Some (fill_bytes size (Z.abs n) []) else None.

Definition BitLen (n : Z) : Z := if n =? 0 then 0 else Z.log2 (Z.abs n) + 1.

Section Algorithms.
Context `{CR : Crypto}.

(** ** Key checks *)

Definition validRSAModulus (modulus : option Z) : bool :=
  match modulus with
  | None => false
  | Some n =>
      if negb (Z.sgn n =? 1) || negb (Z.odd n) then false
      else (minRSAModulusBits <=? BitLen n) && (BitLen n <=? maxRSAModulusBits)
  end.

Definition validRSAPublicKey (key : option rsaPublicKey) : bool :=
  match key with
  | None => false
  | Some k => validRSAModulus (rsa_N k) && (3 <=? rsa_E k) && (Z.rem (rsa_E k) 2 =? 1)
  end.

Definition validRSAPrivateKey (key : option rsaPrivateKey) : bool :=
  match key with
  | None => false
  | Some k => validRSAPublicKey (Some (rsa_public k)) && rsa_Validate k
  end.

(** [key.Size()] of a key with a modulus. *)
Definition rsa_Size (key : rsaPublicKey) : Z :=
  (BitLen (default 0 (rsa_N key)) + 7) / 8.

Definition validRSASignatureSize (key : rsaPublicKey) (signature : gostring) : bool :=
  (len signature <=? maxRSASignatureSize) && (len signature =? rsa_Size key).

Definition validHMACKey (key : HMACKey) : bool :=
  (minHMACKeySize <=? len (material key)) && (len (material key) <=? maxHMACKeySize).

Definition NewHMACKey (m : gostring) : res HMACKey :=
  if (len m <? minHMACKeySize) || (maxHMACKeySize <? len m) then Err (Sentinel ErrIncompatibleKey)
  else Ok (mkHMACKey ([] ++ m)).

(** [ecdsaPublicKeyBytes] and [ecdsaPrivateKeyBytes]: a panic is recovered. *)
Definition recovered (o : outcome gostring) : option gostring :=
  match o with Returns b => Some b | _ => None end.
Definition ecdsaPublicKeyBytes (key : ecdsaPublicKey) : option gostring :=
  recovered (ecdsa_PublicBytes key).
Definition ecdsaPrivateKeyBytes (key : ecdsaPrivateKey) : option gostring :=
  recovered (ecdsa_PrivateBytes key).

(** The reparsed key is nil only if [Bytes] returned no valid encoding,
    which the source rules out; the comparison is false there. *)
Definition validECDSAPublicKey (key : option ecdsaPublicKey) (curve : Curve) : bool :=
  match key with
  | None => false
  | Some k =>
      if negb (bool_decide (ecdsa_curve k = Some curve)) then false
      else match ecdsaPublicKeyBytes k with
           | None => false
           | Some encoded => bool_decide (ecdsa_ParsePublic curve encoded = Some k)
           end
  end.

Definition validECDSAPrivateKey (key : option ecdsaPrivateKey) (curve : Curve) : bool :=
  match key with
  | None => false
  | Some k =>
      if negb (bool_decide (ecdsa_curve (ecdsa_public k) = Some curve)) ||
         negb (validECDSAPublicKey (Some (ecdsa_public k)) curve) then false
      else match ecdsaPrivateKeyBytes k with
           | None => false
           | Some encoded =>
               match ecdsa_ParsePrivate curve encoded with
               | None => false
               | Some parsed => bool_decide (ecdsa_public parsed = ecdsa_public k)
               end
           end
  end.

Definition validEd25519PrivateKey (key : gostring) : bool :=
  if negb (len key =? ed25519_PrivateKeySize) then false
  else ConstantTimeCompare key (ed25519_NewKeyFromSeed (take ed25519_SeedSize key)).

(** ** Signing *)

(** What a call observes: whether the context is nil, its error before and
    after the computation, and the entropy it draws. *)
Record CryptoObservation := mkCryptoObservation {
  context_nil : bool;
  err_before : option error;
  err_after : option error;
  entropy : nat
}.

Definition contextError (context_nil : bool) (err : option error) : option error :=
  if context_nil then Some (New "http signature: nil context") else err.

(** [signECDSA]: [None] inside is its error. *)
Definition signECDSA (random : nat) (key : ecdsaPrivateKey) (digest : gostring) (size : nat)
  : option (option gostring) :=
  match ecdsa_Sign random key digest with
  | None => Some None
  | Some (r, s) =>
      r ← FillBytes r size; s ← FillBytes s size; Some (Some (r ++ s))
  end.

Definition verifyECDSA (key : ecdsaPublicKey) (digest signature : gostring) (size : nat) : bool :=
  if negb (len signature =? Z.of_nat size * 2) then false
  else ecdsa_Verify key digest (SetBytes (take size signature)) (SetBytes (drop size signature)).

(** The [switch] of [Sign]: the signature or the primitive's error, or an
    early return. *)
Definition sign_switch (random : nat) (algorithm : Algorithm) (key : Key) (base : gostring)
  : option (res (option gostring)) :=
  if algorithm =s RSAPSSSHA512 then
    match key with
    | KeyRSAPrivate (Some k) =>
        if validRSAPrivateKey (Some k) then Some (Ok (rsa_SignPSS random k (Sum512 base)))
        else Some (Err (Sentinel ErrIncompatibleKey))
    | _ => Some (Err (Sentinel ErrIncompatibleKey))
    end
  else if algorithm =s RSAV15SHA256 then
    match key with
    | KeyRSAPrivate (Some k) =>
        if validRSAPrivateKey (Some k) then Some (Ok (rsa_SignPKCS1v15 k (Sum256 base)))
        else Some (Err (Sentinel ErrIncompatibleKey))
    | _ => Some (Err (Sentinel ErrIncompatibleKey))
    end
  else if algorithm =s HMACSHA256 then
    match key with
    | KeyHMAC k =>
        if validHMACKey k then Some (Ok (Some (hmac_sha256 (material k) base)))
        else Some (Err (Sentinel ErrIncompatibleKey))
    | _ => Some (Err (Sentinel ErrIncompatibleKey))
    end
  else if algorithm =s ECDSAP256SHA256 then
    match key with
    | KeyECDSAPrivate (Some k) =>
        if validECDSAPrivateKey (Some k) P256
        then signature ← signECDSA random k (Sum256 base) 32; Some (Ok signature)
        else Some (Err (Sentinel ErrIncompatibleKey))
    | _ => Some (Err (Sentinel ErrIncompatibleKey))
    end
  else if algorithm =s ECDSAP384SHA384 then
    match key with
    | KeyECDSAPrivate (Some k) =>
        if validECDSAPrivateKey (Some k) P384
        then signature ← signECDSA random k (Sum384 base) 48; Some (Ok signature)
        else Some (Err (Sentinel ErrIncompatibleKey))
    | _ => Some (Err (Sentinel ErrIncompatibleKey))
    end
  else if algorithm =s Ed25519 then
    match key with
    | KeyEd25519Private k =>
        if validEd25519PrivateKey k then Some (Ok (Some (ed25519_Sign k base)))
        else Some (Err (Sentinel ErrIncompatibleKey))
    | _ => Some (Err (Sentinel ErrIncompatibleKey))
    end
  else Some (Err (Wrap ErrUnsupportedSignatureAlgorithm)).

Definition finishSignature (context_nil : bool) (ctx_err : option error)
  (signature : option gostring) : res gostring :=
  match signature with
  | None => Err (Sentinel ErrSignatureRandomness)
  | Some signature =>
      match contextError context_nil ctx_err with
      | Some err => Err err
      | None => Ok signature
      end
  end.

Definition Sign (obs : CryptoObservation) (algorithm : Algorithm) (key : Key) (base : gostring)
  : option (res gostring) :=
  match contextError (context_nil obs) (err_before obs) with
  | Some err => Some (Err err)
  | None =>
      signature ← sign_switch (entropy obs) algorithm key base;
      Some (let? signature := signature in
            finishSignature (context_nil obs) (err_after obs) signature)
  end.

(** ** Verification *)

(** The [switch] of [Verify]: [valid], or an early return. *)
Definition verify_switch (algorithm : Algorithm) (key : Key) (base signature : gostring)
  : res bool :=
  if algorithm =s RSAPSSSHA512 then
    match key with
    | KeyRSAPublic (Some k) =>
        if negb (validRSAPublicKey (Some k)) then Err (Sentinel ErrIncompatibleKey)
        else if negb (validRSASignatureSize k signature) then Err (Sentinel ErrInvalidSignatureValue)
        else Ok (rsa_VerifyPSS k (Sum512 base) signature)
    | _ => Err (Sentinel ErrIncompatibleKey)
    end
  else if algorithm =s RSAV15SHA256 then
    match key with
    | KeyRSAPublic (Some k) =>
        if negb (validRSAPublicKey (Some k)) then Err (Sentinel ErrIncompatibleKey)
        else if negb (validRSASignatureSize k signature) then Err (Sentinel ErrInvalidSignatureValue)
        else Ok (rsa_VerifyPKCS1v15 k (Sum256 base) signature)
    | _ => Err (Sentinel ErrIncompatibleKey)
    end
  else if algorithm =s HMACSHA256 then
    match key with
    | KeyHMAC k =>
        if negb (validHMACKey k) then Err (Sentinel ErrIncompatibleKey)
        else
          let expected := hmac_sha256 (material k) base in
          Ok ((len signature =? len expected) && ConstantTimeCompare signature expected)
    | _ => Err (Sentinel ErrIncompatibleKey)
    end
  else if algorithm =s ECDSAP256SHA256 then
    match key with
    | KeyECDSAPublic (Some k) =>
        if negb (validECDSAPublicKey (Some k) P256) then Err (Sentinel ErrIncompatibleKey)
        else Ok (verifyECDSA k (Sum256 base) signature 32)
    | _ => Err (Sentinel ErrIncompatibleKey)
    end
  else if algorithm =s ECDSAP384SHA384 then
    match key with
    | KeyECDSAPublic (Some k) =>
        if negb (validECDSAPublicKey (Some k) P384) then Err (Sentinel ErrIncompatibleKey)
        else Ok (verifyECDSA k (Sum384 base) signature 48)
    | _ => Err (Sentinel ErrIncompatibleKey)
    end
  else if algorithm =s Ed25519 then
    match key with
    | KeyEd25519Public k =>
        if negb (len k =? ed25519_PublicKeySize) then Err (Sentinel ErrIncompatibleKey)
        else Ok ((len signature =? ed25519_SignatureSize) && ed25519_Verify k base signature)
    | _ => Err (Sentinel ErrIncompatibleKey)
    end
  else Err (Wrap ErrUnsupportedSignatureAlgorithm).

Definition Verify (obs : CryptoObservation) (algorithm : Algorithm) (key : Key)
  (base signature : gostring) : option error :=
  match contextError (context_nil obs) (err_before obs) with
  | Some err => Some err
  | None =>
      match verify_switch algorithm key base signature with
      | Err err => Some err
      | Ok valid =>
          match contextError (context_nil obs) (err_after obs) with
          | Some err => Some err
          | None => if negb valid then Some (Sentinel ErrInvalidSignatureValue) else None
          end
      end
  end.

(** [supportedAlgorithm] of verifier.go. *)
Definition supportedAlgorithm (algorithm : Algorithm) : bool :=
  bool_decide (algorithm ∈ [RSAPSSSHA512; RSAV15SHA256; HMACSHA256; ECDSAP256SHA256;
                            ECDSAP384SHA384; Ed25519]).
End Algorithms.

(** ** What the primitives promise *)

Class CryptoLaws `{Crypto} : Prop := {
  pss_correct r k digest signature :
    validRSAPrivateKey (Some k) = true -> rsa_SignPSS r k digest = Some signature ->
    len signature = rsa_Size (rsa_public k) /\ rsa_VerifyPSS (rsa_public k) digest signature = true;
  v15_correct k digest signature :
    validRSAPrivateKey (Some k) = true -> rsa_SignPKCS1v15 k digest = Some signature ->
    len signature = rsa_Size (rsa_public k) /\ rsa_VerifyPKCS1v15 (rsa_public k) digest signature = true;
  (** both halves are below the order of the curve, hence below the field size *)
  ecdsa_correct random k digest r s curve size :
    validECDSAPrivateKey (Some k) curve = true ->
    (curve, size) = (P256, 32) \/ (curve, size) = (P384, 48) ->
    ecdsa_Sign random k digest = Some (r, s) ->
    0 <= r < 256 ^ size /\ 0 <= s < 256 ^ size /\ ecdsa_Verify (ecdsa_public k) digest r s = true;
  ed25519_correct k base :
    validEd25519PrivateKey k = true ->
    len (ed25519_Sign k base) = ed25519_SignatureSize /\
    ed25519_Verify (drop ed25519_SeedSize k) base (ed25519_Sign k base) = true
}.
