(* ===== verification/Signer.v ===== *)
(** * Signing under a profile (signer.go)

    [NewSigningProfile], [Signer.Sign] and [CombineSignedFields].  What a call
    of [Sign] reads from its context, the key provider, the clock and the
    cryptographic library is an observation record: each is read at most once
    and in the order of the source.  [None] is a Go panic.  A profile of the
    model has been constructed, so its clock and provider are not nil. *)

From S2P Require Import Prelude GoStrings Errors Httpsfv StructuredFieldSafe SignatureFields.
From S2P Require Import HttpTypes MessageLimits MessageFields MessageDerived MessageBase.
From S2P Require Import GoTime Digest Algorithm.
Open Scope Z_scope.

(** ** Policy *)

(** [ParameterPolicy] (verifier.go); the zero value and the values above 3 are
    not policies. *)
Inductive ParameterPolicy : Set :=
| ParameterForbidden
| ParameterOptional
| ParameterRequired
| ParameterInvalid.

#[export] Instance ParameterPolicy_eq_dec : EqDecision ParameterPolicy.
Proof. solve_decision. Defined.

Definition policy_is (p q : ParameterPolicy) : bool := bool_decide (p = q).

Definition signingParameterPolicy (policy : ParameterPolicy) : bool :=
  policy_is policy ParameterForbidden || policy_is policy ParameterRequired.

Record SigningKey := mkSigningKey {
  SigningKeyID : gostring;
  SigningAlgorithm : Algorithm;
  SigningMaterial : Key;
  SigningNotBefore : Time;
  SigningNotAfter : Time;
  SigningRevoked : bool
}.

Record SigningProfileConfig := mkSigningConfig {
  S_AllowedAlgorithms : list Algorithm;
  S_CoveredComponents : list ComponentIdentifier;
  S_AllowEmptyCoverage : bool;
  S_Expires : ParameterPolicy;
  S_AlgorithmParameter : ParameterPolicy;
  S_Nonce : ParameterPolicy;
  S_Tag : ParameterPolicy;
  S_TagValue : gostring;
  S_Lifetime : Duration;
  S_ResolveTimeout : Duration;
  S_HasNow : bool;
  S_HasProvider : bool;
  S_RequireExternalRequestContext : bool
}.

Record SigningProfile := mkSigningProfile {
  s_algorithms : gset gostring;
  s_components : list ComponentIdentifier;
  s_allowEmptyCoverage : bool;
  s_expires : ParameterPolicy;
  s_algorithmParameter : ParameterPolicy;
  s_nonce : ParameterPolicy;
  s_tag : ParameterPolicy;
  s_tagValue : gostring;
  s_lifetime : Duration;
  s_resolveTimeout : Duration;
  s_requireExternalRequest : bool
}.

(** The loop over the allowed algorithms of both profile constructors. *)
Fixpoint algorithm_set (invalid : sentinel) (seen : gset gostring) (l : list Algorithm)
  : res (gset gostring) :=
  match l with
  | [] => Ok seen
  | algorithm :: rest =>
      if negb (supportedAlgorithm algorithm) then Err (Sentinel invalid)
      else if bool_decide (algorithm ∈ seen) then Err (Sentinel invalid)
      else algorithm_set invalid ({[algorithm]} ∪ seen) rest
  end.

Definition validProfileComponent (component : ComponentIdentifier) : bool :=
  match componentParameterSet (ComponentParams component) with
  | Err _ => false
  | Ok parameters =>
      if negb (HasPrefix (ComponentName component) "@") then negb (hasName parameters)
      else if bs parameters || sf parameters || tr parameters || hasKey parameters then false
      else if ComponentName component =s "@query-param" then hasName parameters
      else if ComponentName component =s "@status"
      then negb (hasName parameters) && negb (req parameters)
      else if name_in (ComponentName component)
                [str "@method"; str "@target-uri"; str "@authority"; str "@scheme";
                 str "@request-target"; str "@path"; str "@query"]
      then negb (hasName parameters)
      else false
  end.

Record SigningOptions := mkOptions { OptionNonce : gostring }.

Record SignedFields := mkSigned {
  signed_input : SignatureInput;
  signed_signature : SignatureValue
}.

Section Signing.
Context `{SFV : Httpsfv}.

(** The loop over the profile's components of both constructors. *)
Fixpoint component_list (invalid : sentinel) (seen : gset gostring)
  (l : list ComponentIdentifier) : res (list ComponentIdentifier) :=
  match l with
  | [] => Ok []
  | component :: rest =>
      match componentComparisonKey component with
      | Err _ => Err (Sentinel invalid)
      | Ok identifier =>
          if negb (validProfileComponent component) then Err (Sentinel invalid)
          else if bool_decide (identifier ∈ seen) then Err (Sentinel invalid)
          else
            let? components := component_list invalid ({[identifier]} ∪ seen) rest in
            Ok (mkComponent (ComponentName component) (cloneParameters (ComponentParams component))
                :: components)
      end
  end.

Definition NewSigningProfile (config : SigningProfileConfig) : res SigningProfile :=
  let invalid := Err (Sentinel ErrInvalidSigningProfile) in
  if (len (S_AllowedAlgorithms config) =? 0) || negb (S_HasNow config) ||
     negb (S_HasProvider config) || (S_ResolveTimeout config <=? 0) ||
     negb (signingParameterPolicy (S_Expires config)) ||
     negb (signingParameterPolicy (S_AlgorithmParameter config)) ||
     negb (signingParameterPolicy (S_Nonce config)) || negb (signingParameterPolicy (S_Tag config))
  then invalid
  else if (len (S_CoveredComponents config) =? 0) && negb (S_AllowEmptyCoverage config)
  then invalid
  else if policy_is (S_Expires config) ParameterRequired &&
            ((S_Lifetime config <? Second) || negb (Z.rem (S_Lifetime config) Second =? 0)) ||
          policy_is (S_Expires config) ParameterForbidden && negb (S_Lifetime config =? 0)
  then invalid
  else if policy_is (S_Tag config) ParameterRequired &&
            ((S_TagValue config =s []) || negb (validSFStringValue (S_TagValue config))) ||
          policy_is (S_Tag config) ParameterForbidden && (S_TagValue config <>s [])
  then invalid
  else
    let? algorithms := algorithm_set ErrInvalidSigningProfile ∅ (S_AllowedAlgorithms config) in
    let? components := component_list ErrInvalidSigningProfile ∅ (S_CoveredComponents config) in
    Ok {|
      s_algorithms := algorithms;
      s_components := components;
      s_allowEmptyCoverage := S_AllowEmptyCoverage config;
      s_expires := S_Expires config;
      s_algorithmParameter := S_AlgorithmParameter config;
      s_nonce := S_Nonce config;
      s_tag := S_Tag config;
      s_tagValue := S_TagValue config;
      s_lifetime := S_Lifetime config;
      s_resolveTimeout := S_ResolveTimeout config;
      s_requireExternalRequest := S_RequireExternalRequestContext config
    |}.

(** ** Signed fields *)

(** [None] inside is the panic of [String]. *)
Definition SignatureInputField (signed : SignedFields) : option gostring :=
  if negb (validSignatureLabel (InputLabel (signed_input signed))) then Some []
  else SignatureInputs_String [cloneSignatureInput (signed_input signed)].

Definition SignatureField (signed : SignedFields) : option gostring :=
  if negb (validSignatureLabel (SignatureLabel (signed_signature signed))) ||
     (len (SignatureBytes (signed_signature signed)) =? 0) then Some []
  else Signatures_String
         [mkSignatureValue (SignatureLabel (signed_signature signed))
            ([] ++ SignatureBytes (signed_signature signed)) []].

Fixpoint combine_loop (seen : gset gostring) (fields : list SignedFields)
  : res (SignatureInputs * Signatures) :=
  match fields with
  | [] => Ok ([], [])
  | signed :: rest =>
      let label := InputLabel (signed_input signed) in
      if negb (validSignatureLabel label) ||
         (SignatureLabel (signed_signature signed) <>s label) ||
         (len (SignatureBytes (signed_signature signed)) =? 0)
      then Err (Sentinel ErrInvalidSignedFields)
      else if bool_decide (label ∈ seen) then Err (Sentinel ErrInvalidSignedFields)
      else
        let? (inputs, signatures) := combine_loop ({[label]} ∪ seen) rest in
        Ok (cloneSignatureInput (signed_input signed) :: inputs,
            mkSignatureValue (SignatureLabel (signed_signature signed))
              ([] ++ SignatureBytes (signed_signature signed)) [] :: signatures)
  end.

Definition CombineSignedFields (fields : list SignedFields) : res (SignatureInputs * Signatures) :=
  if len fields =? 0 then Err (Sentinel ErrInvalidSignedFields) else combine_loop ∅ fields.

(** ** Signing one message *)

Context `{UC : UnicodeCase} `{NU : NetURL} `{CR : Crypto}.

Record SigningObservation := mkSigningObservation {
  sign_ctx_nil : bool;
  sign_ctx_err : option error;
  provider_result : SigningKey * option error;
  resolve_ctx_err : option error;
  sign_now : Time;
  sign_err_before : option error;
  sign_err_after : option error;
  sign_entropy : nat
}.

Definition mapSigningError (err : error) : error :=
  if errors_Is err ErrIncompatibleKey then Sentinel ErrSigningKey
  else Sentinel ErrSigningCryptographic.

Definition unusable_signing_key (key : SigningKey) (now : Time) : bool :=
  (SigningKeyID key =s []) || key_is_nil (SigningMaterial key) || SigningRevoked key ||
  IsZero (SigningNotBefore key) || IsZero (SigningNotAfter key) ||
  negb (After (SigningNotAfter key) (SigningNotBefore key)) ||
  Before now (SigningNotBefore key) || negb (Before now (SigningNotAfter key)).

(** The parameters, in the order they are appended. *)
Definition signing_parameters (profile : SigningProfile) (options : SigningOptions)
  (key : SigningKey) (now : Time) : list Param :=
  [mkParam "created" (AInt64 (Unix now))] ++
  (if policy_is (s_expires profile) ParameterRequired
   then [mkParam "expires" (AInt64 (Unix (Add now (s_lifetime profile))))] else []) ++
  (if policy_is (s_nonce profile) ParameterRequired
   then [mkParam "nonce" (AString (OptionNonce options))] else []) ++
  [mkParam "keyid" (AString (SigningKeyID key))] ++
  (if policy_is (s_algorithmParameter profile) ParameterRequired
   then [mkParam "alg" (AString (SigningAlgorithm key))] else []) ++
  (if policy_is (s_tag profile) ParameterRequired
   then [mkParam "tag" (AString (s_tagValue profile))] else []).

Definition Signer_Sign (signer : option SigningProfile) (obs : SigningObservation)
  (message : MessageContext) (label : gostring) (options : SigningOptions)
  : option (res SignedFields) :=
  if sign_ctx_nil obs then Some (Err (Sentinel Canceled))
  else
  match sign_ctx_err obs with
  | Some err => Some (Err err)
  | None =>
  match signer with
  | None => Some (Err (Sentinel ErrSigningPolicy))
  | Some profile =>
  if negb (validSignatureLabel label) then Some (Err (Sentinel ErrSigningPolicy))
  else if s_requireExternalRequest profile && is_nil (ExternalRequest message)
  then Some (Err (Sentinel ErrSigningPolicy))
  else if policy_is (s_nonce profile) ParameterRequired && (OptionNonce options =s []) ||
          policy_is (s_nonce profile) ParameterForbidden && (OptionNonce options <>s [])
  then Some (Err (Sentinel ErrSigningPolicy))
  else
  let '(key, providerErr) := provider_result obs in
  match resolve_ctx_err obs with
  | Some err => Some (Err err)
  | None =>
  if negb (is_nil providerErr) then Some (Err (Sentinel ErrSigningProvider))
  else
  let now := sign_now obs in
  if unusable_signing_key key now then Some (Err (Sentinel ErrSigningKey))
  else if negb (bool_decide (SigningAlgorithm key ∈ s_algorithms profile))
  then Some (Err (Sentinel ErrSigningKey))
  else if policy_is (s_expires profile) ParameterRequired &&
          After (Add now (s_lifetime profile)) (SigningNotAfter key)
  then Some (Err (Sentinel ErrSigningKey))
  else
  let input :=
    mkSignatureInput label (s_components profile) (signing_parameters profile options key now) in
  match CreateSignatureBase message input with
  | Err _ => Some (Err (Sentinel ErrSigningBase))
  | Ok base =>
      value ← Sign (mkCryptoObservation false (sign_err_before obs) (sign_err_after obs)
                      (sign_entropy obs)) (SigningAlgorithm key) (SigningMaterial key) base;
      match value with
      | Err err => Some (Err (mapSigningError err))
      | Ok value =>
          Some (Ok (mkSigned (cloneSignatureInput input) (mkSignatureValue label ([] ++ value) [])))
      end
  end
  end
  end
  end.
End Signing.
