(* ===== verification/Verifier.v ===== *)
(** * Verification under a profile (verifier.go)

    [NewVerificationProfile], input and key policy, label selection and
    [Verifier.Verify].  The observation record of a call holds what it reads
    from its context, the resolver, the clock (twice) and the cryptographic
    library; the replay store is passed as state and is any implementation of
    [ReplayStore].  [None] is a Go panic.  A profile of the model has been
    constructed, so its clock and resolver are not nil. *)

From S2P Require Import Prelude GoStrings Errors Httpsfv StructuredFieldSafe SignatureFields.
From S2P Require Import HttpTypes MessageBase GoTime Replay ReplayStore Algorithm Signer.
Open Scope Z_scope.

(** ** Data *)

Record ResolvedKey := mkResolvedKey {
  ResolvedAlgorithm : Algorithm;
  ResolvedMaterial : Key;
  NotBefore : Time;
  NotAfter : Time;
  FreshUntil : Time;
  Revoked : bool
}.

Record VerificationProfileConfig := mkVerificationConfig {
  V_AllowedAlgorithms : list Algorithm;
  V_RequiredComponents : list ComponentIdentifier;
  V_AllowEmptyCoverage : bool;
  V_Created : ParameterPolicy;
  V_Expires : ParameterPolicy;
  V_AlgorithmParameter : ParameterPolicy;
  V_Nonce : ParameterPolicy;
  V_Tag : ParameterPolicy;
  V_AllowedTags : list gostring;
  V_MaxAge : Duration;
  V_ClockSkew : Duration;
  V_ResolveTimeout : Duration;
  V_ReplayTimeout : Duration;
  V_HasNow : bool;
  V_HasResolver : bool;
  V_HasReplay : bool;
  V_RequireExternalRequestContext : bool
}.

Record VerificationProfile := mkVerificationProfile {
  v_algorithms : gset gostring;
  v_requiredComponents : list ComponentIdentifier;
  v_allowEmptyCoverage : bool;
  v_created : ParameterPolicy;
  v_expires : ParameterPolicy;
  v_algorithmParameter : ParameterPolicy;
  v_nonce : ParameterPolicy;
  v_tag : ParameterPolicy;
  v_allowedTags : gset gostring;
  v_maxAge : Duration;
  v_clockSkew : Duration;
  v_resolveTimeout : Duration;
  v_replayTimeout : Duration;
  v_has_replay : bool;
  v_requireExternalRequest : bool
}.

Record VerifiedSignature := mkVerified {
  VerifiedLabel : gostring;
  VerifiedKeyID : gostring;
  VerifiedAlgorithm : Algorithm;
  VerifiedCreated : Time;
  VerifiedExpires : Time
}.

Record validatedMetadata := mkMetadata {
  m_result : VerifiedSignature;
  m_keyID : gostring;
  m_nonce : gostring;
  m_algorithm : Algorithm;
  m_hasAlgorithm : bool;
  m_replayExpires : Time
}.

(** ** Errors *)

(** [verificationError(failure, cause)]: the cause is wrapped once. *)
Definition verificationError (failure : VerificationFailure) (cause : error) : error :=
  VerificationError failure (Wrap cause).

Definition safeResolutionCause (err : error) : error :=
  if errors_Is err Canceled then Sentinel Canceled
  else if errors_Is err DeadlineExceeded then Sentinel DeadlineExceeded
  else if errors_Is err ErrKeyNotFound then Sentinel ErrKeyNotFound
  else Sentinel ErrKeyResolutionFailure.

Definition safeReplayCause (err : error) : error :=
  if errors_Is err Canceled then Sentinel Canceled
  else if errors_Is err DeadlineExceeded then Sentinel DeadlineExceeded
  else if errors_Is err ErrReplayDetected then Sentinel ErrReplayDetected
  else if errors_Is err ErrReplayCapacity then Sentinel ErrReplayCapacity
  else if errors_Is err ErrInvalidReplayRecord then Sentinel ErrInvalidReplayRecord
  else Sentinel ErrReplayBackendFailure.

(** ** Policy *)

Definition validParameterPolicy (policy : ParameterPolicy) : bool :=
  negb (policy_is policy ParameterInvalid).

Definition presenceAllowed (policy : ParameterPolicy) (present : bool) : bool :=
  policy_is policy ParameterOptional || policy_is policy ParameterRequired && present ||
  policy_is policy ParameterForbidden && negb present.

Definition integerParameter (input : SignatureInput) (name : gostring) : option Z :=
  match parameter (InputParameters input) name with Some (AInt64 z) => Some z | _ => None end.

Definition stringParameter (input : SignatureInput) (name : gostring) : option gostring :=
  match parameter (InputParameters input) name with Some (AString s) => Some s | _ => None end.

Fixpoint tag_set (seen : gset gostring) (l : list gostring) : res (gset gostring) :=
  match l with
  | [] => Ok seen
  | tag :: rest =>
      if (tag =s []) || negb (validSFStringValue tag) then Err (Sentinel ErrInvalidVerificationProfile)
      else if bool_decide (tag ∈ seen) then Err (Sentinel ErrInvalidVerificationProfile)
      else tag_set ({[tag]} ∪ seen) rest
  end.

(** ** Label selection *)

Definition selectSignature (label : gostring) (inputs : SignatureInputs) (signatures : Signatures)
  : option (SignatureInput * SignatureValue) :=
  match List.find (fun candidate => InputLabel candidate =s label) inputs with
  | None => None
  | Some input =>
      match List.find (fun candidate => SignatureLabel candidate =s label) signatures with
      | None => None
      | Some candidate =>
          Some (cloneSignatureInput input,
                mkSignatureValue (SignatureLabel candidate) ([] ++ SignatureBytes candidate)
                  (cloneParameters (SignatureParameters candidate)))
      end
  end.

Definition matchingLabelSets (inputs : SignatureInputs) (signatures : Signatures) : bool :=
  if negb (len inputs =? len signatures) then false
  else
    let labels : gset gostring := list_to_set (map InputLabel inputs) in
    forallb (fun signature => bool_decide (SignatureLabel signature ∈ labels)) signatures.

Section Verification.
Context `{SFV : Httpsfv}.

Definition NewVerificationProfile (config : VerificationProfileConfig) : res VerificationProfile :=
  let invalid := Err (Sentinel ErrInvalidVerificationProfile) in
  let created_forbidden := policy_is (V_Created config) ParameterForbidden in
  let nonce_forbidden := policy_is (V_Nonce config) ParameterForbidden in
  let tag_forbidden := policy_is (V_Tag config) ParameterForbidden in
  if (len (V_AllowedAlgorithms config) =? 0) || negb (V_HasNow config) ||
     negb (V_HasResolver config) || (V_ResolveTimeout config <=? 0) || (V_ClockSkew config <? 0) ||
     (maxDuration - V_ClockSkew config <? V_MaxAge config) ||
     negb (validParameterPolicy (V_Created config)) || negb (validParameterPolicy (V_Expires config)) ||
     negb (validParameterPolicy (V_AlgorithmParameter config)) ||
     negb (validParameterPolicy (V_Nonce config)) || negb (validParameterPolicy (V_Tag config))
  then invalid
  else if created_forbidden && negb (V_MaxAge config =? 0) ||
          negb created_forbidden && (V_MaxAge config <=? 0)
  then invalid
  else if nonce_forbidden && (V_HasReplay config || negb (V_ReplayTimeout config =? 0)) ||
          negb nonce_forbidden && (negb (V_HasReplay config) || (V_ReplayTimeout config <=? 0))
  then invalid
  else if tag_forbidden && negb (len (V_AllowedTags config) =? 0) ||
          negb tag_forbidden && (len (V_AllowedTags config) =? 0)
  then invalid
  else if (len (V_RequiredComponents config) =? 0) && negb (V_AllowEmptyCoverage config)
  then invalid
  else
    let? algorithms := algorithm_set ErrInvalidVerificationProfile ∅ (V_AllowedAlgorithms config) in
    let? required := component_list ErrInvalidVerificationProfile ∅ (V_RequiredComponents config) in
    let? tags := tag_set ∅ (V_AllowedTags config) in
    Ok {|
      v_algorithms := algorithms;
      v_requiredComponents := required;
      v_allowEmptyCoverage := V_AllowEmptyCoverage config;
      v_created := V_Created config;
      v_expires := V_Expires config;
      v_algorithmParameter := V_AlgorithmParameter config;
      v_nonce := V_Nonce config;
      v_tag := V_Tag config;
      v_allowedTags := tags;
      v_maxAge := V_MaxAge config;
      v_clockSkew := V_ClockSkew config;
      v_resolveTimeout := V_ResolveTimeout config;
      v_replayTimeout := V_ReplayTimeout config;
      v_has_replay := V_HasReplay config;
      v_requireExternalRequest := V_RequireExternalRequestContext config
    |}.

(** ** The signature's metadata *)

(** The first loop of [validateInput]: the identities of the covered components. *)
Fixpoint covered_set (components : list ComponentIdentifier) : res (gset gostring) :=
  match components with
  | [] => Ok ∅
  | component :: rest =>
      match componentComparisonKey component with
      | Err err => Err (verificationError VerificationPolicy err)
      | Ok identifier => let? covered := covered_set rest in Ok ({[identifier]} ∪ covered)
      end
  end.

Definition policy_error (text : gostring) : error := verificationError VerificationPolicy (New text).
Definition time_error (text : gostring) : error := verificationError VerificationTime (New text).

(** The created and expires parts of [validateInput]: the two instants (the
    zero time when absent) and the replay expiration. *)
Definition validate_created (profile : VerificationProfile) (now : Time) (created : option Z)
  : res (Time * Time) :=
  if negb (presenceAllowed (v_created profile) (negb (is_nil created)))
  then Err (policy_error "created policy")
  else
    match created with
    | None => Ok (0, 0)
    | Some created =>
        let created := time_Unix created in
        if After created (Add now (v_clockSkew profile)) ||
           (v_maxAge profile + v_clockSkew profile <? Sub now created)
        then Err (time_error "creation time")
        else Ok (created, Add created (v_maxAge profile + v_clockSkew profile))
    end.

Definition validate_expires (profile : VerificationProfile) (now : Time) (created : option Time)
  (replayExpires : Time) (expires : option Z) : res (Time * Time) :=
  if negb (presenceAllowed (v_expires profile) (negb (is_nil expires)))
  then Err (policy_error "expires policy")
  else
    match expires with
    | None => Ok (0, replayExpires)
    | Some expires =>
        let expires := time_Unix expires in
        if negb (Before now (Add expires (v_clockSkew profile))) ||
           match created with Some created => negb (After expires created) | None => false end
        then Err (time_error "expiration time")
        else
          let replayExpiration := Add expires (v_clockSkew profile) in
          Ok (expires,
              if IsZero replayExpires || Before replayExpiration replayExpires
              then replayExpiration else replayExpires)
    end.

Definition validateInput (profile : VerificationProfile) (now : Time) (input : SignatureInput)
  : res validatedMetadata :=
  if (len (Components input) =? 0) && negb (v_allowEmptyCoverage profile)
  then Err (policy_error "empty coverage")
  else
    let? covered := covered_set (Components input) in
    if negb (forallb (fun component => bool_decide (comparison_key component ∈ covered))
               (v_requiredComponents profile))
    then Err (policy_error "insufficient coverage")
    else
      let hasCreated := integerParameter input "created" in
      let? (created, replayExpires) := validate_created profile now hasCreated in
      let? (expires, replayExpires) :=
        validate_expires profile now
          (match hasCreated with Some _ => Some created | None => None end)
          replayExpires (integerParameter input "expires") in
      let hasAlgorithm := stringParameter input "alg" in
      if negb (presenceAllowed (v_algorithmParameter profile) (negb (is_nil hasAlgorithm)))
      then Err (policy_error "algorithm parameter policy")
      else if match hasAlgorithm with
              | Some algorithm => negb (bool_decide (algorithm ∈ v_algorithms profile))
              | None => false
              end
      then Err (verificationError VerificationAlgorithm (New "algorithm not allowed"))
      else
        let keyID := default [] (stringParameter input "keyid") in
        if keyID =s [] then Err (policy_error "key identifier required")
        else
          let hasNonce := stringParameter input "nonce" in
          let nonce := default [] hasNonce in
          if negb (presenceAllowed (v_nonce profile) (negb (is_nil hasNonce))) ||
             negb (is_nil hasNonce) && (nonce =s [])
          then Err (policy_error "nonce policy")
          else if negb (is_nil hasNonce) && IsZero replayExpires
          then Err (policy_error "nonce lacks bounded lifetime")
          else
            let hasTag := stringParameter input "tag" in
            if negb (presenceAllowed (v_tag profile) (negb (is_nil hasTag)))
            then Err (policy_error "tag policy")
            else if match hasTag with
                    | Some tag => negb (bool_decide (tag ∈ v_allowedTags profile))
                    | None => false
                    end
            then Err (policy_error "tag not allowed")
            else Ok (mkMetadata (mkVerified (InputLabel input) keyID [] created expires)
                       keyID nonce (default [] hasAlgorithm) (negb (is_nil hasAlgorithm))
                       replayExpires).

(** ** The key *)

Definition unusable_key (profile : VerificationProfile) (now : Time) (key : ResolvedKey)
  (created : Time) : bool :=
  let skew := v_clockSkew profile in
  Revoked key || key_is_nil (ResolvedMaterial key) || IsZero (NotBefore key) ||
  IsZero (NotAfter key) || IsZero (FreshUntil key) || negb (After (NotAfter key) (NotBefore key)) ||
  Before now (Add (NotBefore key) (- skew)) || negb (Before now (Add (NotAfter key) skew)) ||
  negb (Before now (FreshUntil key)) ||
  negb (IsZero created) &&
    (Before created (Add (NotBefore key) (- skew)) || negb (Before created (Add (NotAfter key) skew))).

Definition validateKey (profile : VerificationProfile) (now : Time) (key : ResolvedKey)
  (parameterAlgorithm : Algorithm) (hasParameter : bool) (created : Time) : option error :=
  if unusable_key profile now key created
  then Some (verificationError VerificationKey (New "unusable key"))
  else if negb (bool_decide (ResolvedAlgorithm key ∈ v_algorithms profile))
  then Some (verificationError VerificationAlgorithm (New "resolved algorithm not allowed"))
  else if hasParameter && (parameterAlgorithm <>s ResolvedAlgorithm key)
  then Some (verificationError VerificationAlgorithm (New "algorithm mismatch"))
  else None.

(** ** Verification *)

Context `{UC : UnicodeCase} `{NU : NetURL} `{CR : Crypto}.
Context {S Obs : Type} `{RS : ReplayStore S Obs}.

Record VerificationObservation := mkVerificationObservation {
  verify_ctx_nil : bool;
  verify_ctx_err : option error;
  now_input : Time;
  resolve : gostring -> ResolvedKey * option error;
  resolve_context_err : option error;
  now_key : Time;
  crypto_err_before : option error;
  crypto_err_after : option error;
  replay_observation : Obs;
  replay_context_err : option error
}.

(** The failure category of an error of the primitive. *)
Definition crypto_failure (err : error) : VerificationFailure :=
  if errors_Is err ErrIncompatibleKey || errors_Is err ErrUnsupportedSignatureAlgorithm
  then VerificationKey else VerificationCryptographic.

Definition with_algorithm (result : VerifiedSignature) (algorithm : Algorithm) : VerifiedSignature :=
  mkVerified (VerifiedLabel result) (VerifiedKeyID result) algorithm (VerifiedCreated result)
    (VerifiedExpires result).

Definition replay_record (metadata : validatedMetadata) : ReplayRecord :=
  mkReplayRecord (m_keyID metadata) (m_nonce metadata) (m_replayExpires metadata).

(** The last step of [Verify]: consume the nonce, if there is one. *)
Definition consume_nonce (profile : VerificationProfile) (obs : VerificationObservation)
  (store : S) (metadata : validatedMetadata) (result : VerifiedSignature)
  : option (S * res VerifiedSignature) :=
  if m_nonce metadata =s [] then Some (store, Ok result)
  else if negb (v_has_replay profile) then None
  else
    '(store, replayErr) ← replay_Consume store (replay_observation obs) (replay_record metadata);
    match replay_context_err obs with
    | Some err => Some (store, Err (verificationError VerificationReplay (safeReplayCause err)))
    | None =>
        match replayErr with
        | Some err => Some (store, Err (verificationError VerificationReplay (safeReplayCause err)))
        | None => Some (store, Ok result)
        end
    end.

(** Key resolution and cryptographic verification of one selected input. *)
Definition authenticate (profile : VerificationProfile) (obs : VerificationObservation)
  (metadata : validatedMetadata) (base : gostring) (signature : gostring)
  : res VerifiedSignature :=
  let '(resolved, resolveErr) := resolve obs (m_keyID metadata) in
  match resolve_context_err obs with
  | Some err => Err (verificationError VerificationKeyResolution (safeResolutionCause err))
  | None =>
  match resolveErr with
  | Some err => Err (verificationError VerificationKeyResolution (safeResolutionCause err))
  | None =>
  match validateKey profile (now_key obs) resolved (m_algorithm metadata) (m_hasAlgorithm metadata)
          (VerifiedCreated (m_result metadata)) with
  | Some err => Err err
  | None =>
  match Verify (mkCryptoObservation false (crypto_err_before obs) (crypto_err_after obs) 0)
          (ResolvedAlgorithm resolved) (ResolvedMaterial resolved) base signature with
  | Some err => Err (verificationError (crypto_failure err) err)
  | None => Ok (with_algorithm (m_result metadata) (ResolvedAlgorithm resolved))
  end
  end
  end
  end.

Definition Verifier_Verify (verifier : option VerificationProfile) (obs : VerificationObservation)
  (store : S) (message : MessageContext) (label : gostring) (inputs : SignatureInputs)
  (signatures : Signatures) : option (S * res VerifiedSignature) :=
  let fail err := Some (store, Err err) in
  if verify_ctx_nil obs then fail (verificationError VerificationSelection (New "nil context"))
  else
  match verify_ctx_err obs with
  | Some err => fail (verificationError VerificationSelection err)
  | None =>
  match verifier with
  | None => fail (verificationError VerificationSelection (Sentinel ErrInvalidVerificationProfile))
  | Some profile =>
  if label =s []
  then fail (verificationError VerificationSelection (Sentinel ErrInvalidVerificationProfile))
  else if negb (matchingLabelSets inputs signatures)
  then fail (verificationError VerificationSelection (New "field label mismatch"))
  else
  match selectSignature label inputs signatures with
  | None => fail (verificationError VerificationSelection (New "label mismatch"))
  | Some (input, signature) =>
  if v_requireExternalRequest profile && is_nil (ExternalRequest message)
  then fail (verificationError VerificationPolicy (New "trusted external request context required"))
  else
  match validateInput profile (now_input obs) input with
  | Err err => fail err
  | Ok metadata =>
  match CreateSignatureBase message input with
  | Err err => fail (verificationError VerificationBase err)
  | Ok base =>
  match authenticate profile obs metadata base (SignatureBytes signature) with
  | Err err => fail err
  | Ok result => consume_nonce profile obs store metadata result
  end
  end
  end
  end
  end
  end.
End Verification.
