(* ===== verification/VerifierFacts.v ===== *)
(** * Correctness of verification under a profile

    What a successful [Verifier_Verify] establishes, that the replay store is
    touched only after the signature verified, that a nonce is not accepted
    twice by any store that keeps the [ReplayStore] promise, and that errors
    disclose nothing of the resolver's and the backend's diagnostics. *)

From S2P Require Import Prelude GoStrings Errors Httpsfv StructuredFieldSafe SignatureFields.
From S2P Require Import HttpTypes MessageBase GoTime Replay ReplayStore Algorithm Signer.
From S2P Require Import Verifier.
Open Scope Z_scope.

(** ** Selection *)

Lemma find_label {A} (f : A -> gostring) label (l : list A) x :
  List.find (fun c => f c =s label) l = Some x -> x ∈ l /\ f x = label.
Proof.
  intros [Hin Hl]%List.find_some. split; [by apply list_elem_of_In | by apply bool_decide_eq_true in Hl].
Qed.

Lemma cloneParameterValue_id v : cloneParameterValue v = v.
Proof. by destruct v. Qed.

Lemma cloneParameters_id l : cloneParameters l = l.
Proof.
  induction l as [| [n v] l IH]; [done |]. cbn [cloneParameters map] in *. fold (cloneParameters l).
  cbn. by rewrite cloneParameterValue_id, IH.
Qed.

Lemma cloneSignatureInput_id i : cloneSignatureInput i = i.
Proof.
  destruct i as [l cs ps]. unfold cloneSignatureInput. cbn. rewrite cloneParameters_id. f_equal.
  induction cs as [| [n p] cs IH]; [done |]. cbn. by rewrite cloneParameters_id, IH.
Qed.

Lemma selectSignature_Some label inputs signatures input signature :
  selectSignature label inputs signatures = Some (input, signature) ->
  input ∈ inputs /\ InputLabel input = label /\ signature ∈ signatures /\
  SignatureLabel signature = label.
Proof.
  unfold selectSignature.
  destruct (List.find _ inputs) as [i |] eqn:Hi; [| done].
  destruct (List.find _ signatures) as [[sl sb sp] |] eqn:Hs; [| done]. cbn [SignatureLabel SignatureBytes SignatureParameters].
  rewrite cloneSignatureInput_id, cloneParameters_id. intros [= <- <-].
  apply find_label in Hi as [Hi Hil]. apply (find_label SignatureLabel) in Hs as [Hs Hsl]. cbn in Hsl. auto.
Qed.

(** ** Time windows *)

(** The created time lies between [MaxAge + ClockSkew] ago and [ClockSkew]
    ahead; its replay expiration is the end of that window. *)
Lemma validate_created_Ok profile now created c r :
  validate_created profile now created = Ok (c, r) <->
  presenceAllowed (v_created profile) (negb (is_nil created)) = true /\
  match created with
  | None => c = 0 /\ r = 0
  | Some z =>
      c = time_Unix z /\ c <= now + v_clockSkew profile /\
      Sub now c <= v_maxAge profile + v_clockSkew profile /\
      r = c + (v_maxAge profile + v_clockSkew profile)
  end.
Proof.
  unfold validate_created, After, Add. destruct (presenceAllowed _ _) eqn:Hp; cbn [negb].
  2: { split; [done | by intros []]. }
  destruct created as [z |].
  - destruct ((now + v_clockSkew profile <? time_Unix z) ||
      (v_maxAge profile + v_clockSkew profile <? Sub now (time_Unix z))) eqn:Hw.
    + split; [done |]. intros (_ & -> & ? & ? & _). lia.
    + split; [intros [= <- <-]; lia |]. intros (_ & -> & _ & _ & ->). done.
  - split; [by intros [= <- <-] | by intros (_ & -> & ->)].
Qed.

(** The expiration is after the processing time less the skew and after the
    creation; the replay expiration is the earlier bound. *)
Lemma validate_expires_Ok profile now created r0 expires e r :
  validate_expires profile now created r0 expires = Ok (e, r) <->
  presenceAllowed (v_expires profile) (negb (is_nil expires)) = true /\
  match expires with
  | None => e = 0 /\ r = r0
  | Some z =>
      e = time_Unix z /\ now < e + v_clockSkew profile /\
      (forall c, created = Some c -> c < e) /\
      r = (if (r0 =? 0) || (e + v_clockSkew profile <? r0) then e + v_clockSkew profile else r0)
  end.
Proof.
  unfold validate_expires, After, Before, Add, IsZero.
  destruct (presenceAllowed _ _) eqn:Hp; cbn [negb]. 2: { split; [done | by intros []]. }
  destruct expires as [z |].
  - destruct (negb (now <? time_Unix z + v_clockSkew profile) ||
      match created with Some c => negb (c <? time_Unix z) | None => false end) eqn:Hw.
    + split; [done |]. intros (_ & -> & Hlt & Hc & _). exfalso. destruct created as [c |].
      * specialize (Hc c eq_refl). lia.
      * lia.
    + split; [| by intros (_ & -> & _ & _ & ->)]. intros [= <- <-].
      split; [done |]. split; [done |]. split; [lia |]. split; [| done].
      intros c ->. lia.
  - split; [by intros [= <- <-] | by intros (_ & -> & ->)].
Qed.

Section Facts.
Context `{SFV : Httpsfv}.

Lemma covered_set_Ok components covered :
  covered_set components = Ok covered ->
  (forall c, c ∈ components -> exists k, componentComparisonKey c = Ok k) /\
  (forall k, k ∈ covered <-> exists c, c ∈ components /\ componentComparisonKey c = Ok k).
Proof.
  revert covered. induction components as [| c l IH]; intros covered; cbn [covered_set].
  { intros [= <-]. split; [intros c Hc; by apply elem_of_nil in Hc |].
    intros k. split; [intros Hk; by apply not_elem_of_empty in Hk |].
    intros (c & Hc & _). by apply elem_of_nil in Hc. }
  destruct (componentComparisonKey c) as [k0 | e] eqn:Hk0; [| done].
  intros (cov & Hcov & [= <-])%rbind_Ok. destruct (IH cov Hcov) as [IH1 IH2]. split.
  - intros c' [-> | Hc']%elem_of_cons; [eauto | auto].
  - intros k. rewrite elem_of_union, elem_of_singleton, IH2. split.
    + intros [-> | (c' & Hc' & Hk)]; [exists c | exists c']; rewrite elem_of_cons; auto.
    + intros (c' & [-> | Hc']%elem_of_cons & Hk); [left; congruence | right; eauto].
Qed.

(** What an accepted input satisfies, in terms of the profile. *)
Record input_accepted (profile : VerificationProfile) (now : Time) (input : SignatureInput)
  (metadata : validatedMetadata) : Prop := {
  (** every required component is covered, up to the order of parameters *)
  acc_nonempty : Components input <> [] \/ v_allowEmptyCoverage profile = true;
  acc_coverage c : c ∈ v_requiredComponents profile ->
    exists c', c' ∈ Components input /\ componentComparisonKey c' = Ok (comparison_key c);
  acc_created : exists r,
    validate_created profile now (integerParameter input "created") =
      Ok (VerifiedCreated (m_result metadata), r) /\
    validate_expires profile now
      (match integerParameter input "created" with
       | Some _ => Some (VerifiedCreated (m_result metadata)) | None => None end) r
      (integerParameter input "expires") =
      Ok (VerifiedExpires (m_result metadata), m_replayExpires metadata);
  acc_algorithm :
    presenceAllowed (v_algorithmParameter profile) (m_hasAlgorithm metadata) = true /\
    (forall a, stringParameter input "alg" = Some a ->
       a ∈ v_algorithms profile /\ m_algorithm metadata = a) /\
    m_hasAlgorithm metadata = negb (is_nil (stringParameter input "alg"));
  acc_keyid : stringParameter input "keyid" = Some (m_keyID metadata) /\ m_keyID metadata <> [];
  acc_nonce :
    presenceAllowed (v_nonce profile) (negb (is_nil (stringParameter input "nonce"))) = true /\
    match stringParameter input "nonce" with
    | Some n => m_nonce metadata = n /\ n <> [] /\ m_replayExpires metadata <> 0
    | None => m_nonce metadata = []
    end;
  acc_tag :
    presenceAllowed (v_tag profile) (negb (is_nil (stringParameter input "tag"))) = true /\
    (forall t, stringParameter input "tag" = Some t -> t ∈ v_allowedTags profile);
  acc_result : VerifiedLabel (m_result metadata) = InputLabel input /\
    VerifiedKeyID (m_result metadata) = m_keyID metadata
}.

Lemma validateInput_Ok profile now input metadata :
  validateInput profile now input = Ok metadata -> input_accepted profile now input metadata.
Proof.
  unfold validateInput.
  destruct ((len (Components input) =? 0) && negb (v_allowEmptyCoverage profile)) eqn:Hne; [done |].
  intros (covered & Hcov & H)%rbind_Ok.
  destruct (forallb _ (v_requiredComponents profile)) eqn:Hreq; cbn [negb] in H; [| done].
  cbv zeta in H. apply rbind_Ok in H as ([c r] & Hcr & H). cbv beta iota in H.
  apply rbind_Ok in H as ([e r'] & Her & H). cbv beta iota in H.
  destruct (presenceAllowed (v_algorithmParameter profile) _) eqn:Hpa; cbn [negb] in H; [| done].
  destruct (match stringParameter input "alg" with Some _ => _ | None => _ end) eqn:Halg; [done |].
  destruct (default [] (stringParameter input "keyid") =s []) eqn:Hkid; [done |].
  destruct (presenceAllowed (v_nonce profile) _) eqn:Hpn; cbn [negb orb] in H; [| done].
  destruct (negb (is_nil (stringParameter input "nonce")) && _) eqn:Hnn; [done |].
  destruct (negb (is_nil (stringParameter input "nonce")) && IsZero r') eqn:Hnz; [done |].
  destruct (presenceAllowed (v_tag profile) _) eqn:Hpt; cbn [negb] in H; [| done].
  destruct (match stringParameter input "tag" with Some _ => _ | None => _ end) eqn:Htag; [done |].
  injection H as <-. destruct (covered_set_Ok _ _ Hcov) as [_ Hin].
  split; cbn [m_result m_keyID m_nonce m_algorithm m_hasAlgorithm m_replayExpires VerifiedLabel
              VerifiedKeyID VerifiedCreated VerifiedExpires].
  - apply andb_false_iff in Hne as [Hne | Hne]; [left | right; by apply negb_false_iff].
    intros Hnil. by rewrite Hnil in Hne.
  - intros c' Hc'. rewrite forallb_forall in Hreq.
    specialize (Hreq c' (proj1 (list_elem_of_In _ _) Hc')). apply bool_decide_eq_true, Hin in Hreq.
    destruct Hreq as (c1 & ? & ?). eauto.
  - exists r. split; [done |]. done.
  - split; [done |]. split; [| done]. intros a Ha. rewrite Ha in Halg. cbn in Halg |- *. rewrite Ha.
    apply negb_false_iff, bool_decide_eq_true in Halg. done.
  - apply bool_decide_eq_false in Hkid. destruct (stringParameter input "keyid"); done.
  - split; [done |]. destruct (stringParameter input "nonce") as [n |]; [| done].
    cbn in Hnn, Hnz |- *. apply bool_decide_eq_false in Hnn. split; [done |]. split; [done |].
    unfold IsZero in Hnz. lia.
  - split; [done |]. intros t Ht. rewrite Ht in Htag.
    by apply negb_false_iff, bool_decide_eq_true in Htag.
  - done.
Qed.
(** ** The key policy *)

Lemma validateKey_None profile now key alg has created :
  validateKey profile now key alg has created = None <->
  unusable_key profile now key created = false /\
  ResolvedAlgorithm key ∈ v_algorithms profile /\
  (has = true -> alg = ResolvedAlgorithm key).
Proof.
  unfold validateKey. destruct (unusable_key _ _ _ _).
  { split; [done | by intros []]. }
  case_bool_decide as Ha; cbn [negb]; [| split; [done | by intros (_ & ? & _)]].
  destruct has; cbn [andb].
  - case_bool_decide as He; cbn [negb]; (split; [done || auto |]); [done |]. intros (_ & _ & H).
    by specialize (H eq_refl).
  - split; [| done]. intros _. split; [done |]. split; [done |]. intros [=].
Qed.

(** ** Whole verifications *)

Context `{UC : UnicodeCase} `{NU : NetURL} `{CR : Crypto}.
Context {S Obs : Type} `{RS : ReplayStore S Obs}.

Implicit Types (obs : VerificationObservation (Obs := Obs)) (store : S).

(** Everything a success rests on. *)
Record verification (profile : VerificationProfile) obs store (message : MessageContext)
  (label : gostring) (inputs : SignatureInputs) (signatures : Signatures)
  (input : SignatureInput) (signature : SignatureValue) (metadata : validatedMetadata)
  (base : gostring) (key : ResolvedKey) : Prop := {
  ver_selected : selectSignature label inputs signatures = Some (input, signature);
  ver_labels : matchingLabelSets inputs signatures = true;
  ver_external : v_requireExternalRequest profile = true -> ExternalRequest message <> None;
  ver_input : validateInput profile (now_input obs) input = Ok metadata;
  ver_base : CreateSignatureBase message input = Ok base;
  ver_resolved : resolve obs (m_keyID metadata) = (key, None) /\ resolve_context_err obs = None;
  ver_key : validateKey profile (now_key obs) key (m_algorithm metadata) (m_hasAlgorithm metadata)
              (VerifiedCreated (m_result metadata)) = None;
  ver_crypto : verify_switch (ResolvedAlgorithm key) (ResolvedMaterial key) base
                 (SignatureBytes signature) = Ok true
}.

Lemma Verify_None cobs algorithm key base signature :
  Verify cobs algorithm key base signature = None ->
  verify_switch algorithm key base signature = Ok true.
Proof.
  unfold Verify. destruct (contextError _ (err_before cobs)); [done |].
  destruct (verify_switch _ _ _ _) as [[] | e]; [done | | done].
  destruct (contextError _ _); done.
Qed.

Lemma authenticate_Ok profile obs metadata base signature result :
  authenticate profile obs metadata base signature = Ok result ->
  exists key, resolve obs (m_keyID metadata) = (key, None) /\ resolve_context_err obs = None /\
    validateKey profile (now_key obs) key (m_algorithm metadata) (m_hasAlgorithm metadata)
      (VerifiedCreated (m_result metadata)) = None /\
    verify_switch (ResolvedAlgorithm key) (ResolvedMaterial key) base signature = Ok true /\
    result = with_algorithm (m_result metadata) (ResolvedAlgorithm key).
Proof.
  unfold authenticate. destruct (resolve obs (m_keyID metadata)) as [key rerr].
  destruct (resolve_context_err obs); [done |]. destruct rerr; [done |].
  destruct (validateKey _ _ _ _ _ _) eqn:Hk; [done |].
  destruct (Verify _ _ _ _ _) eqn:Hv; [done |]. intros [= <-].
  exists key. repeat split; try done. by eapply Verify_None.
Qed.

(** An error of a stage before the replay store; the cause of a resolver
    failure is one of four fixed values. *)
Definition resolution_causes : list error :=
  [Sentinel Canceled; Sentinel DeadlineExceeded; Sentinel ErrKeyNotFound;
   Sentinel ErrKeyResolutionFailure].
Definition replay_causes : list error :=
  [Sentinel Canceled; Sentinel DeadlineExceeded; Sentinel ErrReplayDetected;
   Sentinel ErrReplayCapacity; Sentinel ErrInvalidReplayRecord; Sentinel ErrReplayBackendFailure].

Definition early_error (e : error) : Prop :=
  exists failure cause, e = verificationError failure cause /\ failure <> VerificationReplay /\
    (failure = VerificationKeyResolution -> cause ∈ resolution_causes).

Lemma early failure cause :
  failure <> VerificationReplay -> failure <> VerificationKeyResolution ->
  early_error (verificationError failure cause).
Proof. intros ? ?. exists failure, cause. done. Qed.

Lemma safeResolutionCause_fixed err : safeResolutionCause err ∈ resolution_causes.
Proof. unfold safeResolutionCause, resolution_causes. repeat case_match; rewrite !elem_of_cons; auto. Qed.

Lemma safeReplayCause_fixed err : safeReplayCause err ∈ replay_causes.
Proof. unfold safeReplayCause, replay_causes. repeat case_match; rewrite !elem_of_cons; auto 10. Qed.

Lemma early_resolution err :
  early_error (verificationError VerificationKeyResolution (safeResolutionCause err)).
Proof.
  exists VerificationKeyResolution, (safeResolutionCause err). split; [done |]. split; [done |].
  intros _. apply safeResolutionCause_fixed.
Qed.

Lemma covered_set_Err components e : covered_set components = Err e -> early_error e.
Proof.
  induction components as [| c l IH]; cbn [covered_set]; [done |].
  destruct (componentComparisonKey c); [| intros [= <-]; by apply early].
  destruct (covered_set l); cbn [rbind]; [done | intros [= <-]; by apply IH].
Qed.

Lemma validateInput_Err profile now input e : validateInput profile now input = Err e -> early_error e.
Proof.
  unfold validateInput, validate_created, validate_expires, policy_error, time_error, rbind.
  destruct (covered_set (Components input)) eqn:Hc.
  2: { case_match; intros [= <-]; [by apply early | by eapply covered_set_Err]. }
  intros H. repeat (case_match; simplify_eq; try by apply early).
Qed.

Lemma authenticate_Err profile obs metadata base signature e :
  authenticate profile obs metadata base signature = Err e -> early_error e.
Proof.
  unfold authenticate. destruct (resolve obs (m_keyID metadata)) as [key rerr].
  destruct (resolve_context_err obs). { intros [= <-]. apply early_resolution. }
  destruct rerr. { intros [= <-]. apply early_resolution. }
  destruct (validateKey _ _ _ _ _ _) eqn:Hk.
  { intros [= <-]. unfold validateKey in Hk. repeat case_match; simplify_eq; by apply early. }
  destruct (Verify _ _ _ _ _); [| done]. intros [= <-].
  apply early; unfold crypto_failure; case_match; done.
Qed.

(** The store changes only in [consume_nonce], after the authentication. *)
Lemma Verifier_Verify_cases profile obs store message label inputs signatures store' r :
  Verifier_Verify (Some profile) obs store message label inputs signatures = Some (store', r) ->
  (store' = store /\ exists e, r = Err e /\ early_error e) \/
  exists input signature metadata base key,
    verification profile obs store message label inputs signatures input signature metadata base key /\
    consume_nonce profile obs store metadata
      (with_algorithm (m_result metadata) (ResolvedAlgorithm key)) = Some (store', r).
Proof.
  unfold Verifier_Verify.
  assert (forall e, early_error e -> Some (store, Err e) = Some (store', r) ->
    (store' = store /\ exists e, r = Err e /\ early_error e) \/
    exists input signature metadata base key,
    verification profile obs store message label inputs signatures input signature metadata base key /\
    consume_nonce profile obs store metadata
      (with_algorithm (m_result metadata) (ResolvedAlgorithm key)) = Some (store', r)) as Hfail.
  { intros e He [= -> <-]. left. eauto. }
  destruct (verify_ctx_nil obs); [by apply Hfail, early |].
  destruct (verify_ctx_err obs); [by apply Hfail, early |].
  destruct (label =s []); [by apply Hfail, early |].
  destruct (matchingLabelSets inputs signatures) eqn:Hm; cbn [negb]; [| by apply Hfail, early].
  destruct (selectSignature label inputs signatures) as [[input signature] |] eqn:Hs;
    [| by apply Hfail, early].
  destruct (v_requireExternalRequest profile && is_nil (ExternalRequest message)) eqn:Hx;
    [by apply Hfail, early |].
  destruct (validateInput profile (now_input obs) input) as [metadata | e] eqn:Hi;
    [| by eapply Hfail, validateInput_Err].
  destruct (CreateSignatureBase message input) as [base | e] eqn:Hb; [| by apply Hfail, early].
  destruct (authenticate _ _ _ _ _) as [result | e] eqn:Ha; [| by eapply Hfail, authenticate_Err].
  intros Hc. right. destruct (authenticate_Ok _ _ _ _ _ _ Ha) as (key & ? & ? & ? & ? & ->).
  exists input, signature, metadata, base, key. split; [| done].
  split; try done. intros Hr Hn. by rewrite Hr, Hn in Hx.
Qed.

Lemma consume_nonce_cases profile obs store metadata result store' r :
  consume_nonce profile obs store metadata result = Some (store', r) ->
  (m_nonce metadata = [] /\ store' = store /\ r = Ok result) \/
  (m_nonce metadata <> [] /\ exists err,
    replay_Consume store (replay_observation obs) (replay_record metadata) = Some (store', err) /\
    ((err = None /\ replay_context_err obs = None /\ r = Ok result) \/
     exists cause, cause ∈ replay_causes /\ r = Err (verificationError VerificationReplay cause))).
Proof.
  unfold consume_nonce. case_bool_decide as Hn; [intros [= -> <-]; by left |].
  destruct (v_has_replay profile); cbn [negb]; [| done]. intros H. right. split; [done |].
  destruct (replay_Consume _ _ _) as [[s err] |]; [| done]. cbn [mbind option_bind] in H.
  exists err. destruct (replay_context_err obs) as [e |].
  { injection H as -> <-. split; [done |]. right. eexists. split; [apply safeReplayCause_fixed | done]. }
  destruct err as [e |]; injection H as -> <-; (split; [done |]).
  - right. eexists. split; [apply safeReplayCause_fixed | done].
  - left. done.
Qed.

Lemma Verifier_Verify_Ok profile obs store message label inputs signatures store' result :
  Verifier_Verify (Some profile) obs store message label inputs signatures = Some (store', Ok result) ->
  exists input signature metadata base key,
    verification profile obs store message label inputs signatures input signature metadata base key /\
    result = with_algorithm (m_result metadata) (ResolvedAlgorithm key) /\
    if m_nonce metadata =s [] then store' = store
    else replay_Consume store (replay_observation obs) (replay_record metadata) = Some (store', None).
Proof.
  intros H. apply Verifier_Verify_cases in H as [(_ & e & [=] & _) |
    (input & signature & metadata & base & key & Hv & Hc)].
  exists input, signature, metadata, base, key. split; [done |].
  apply consume_nonce_cases in Hc as [(Hn & -> & [= <-]) | (Hn & err & Hc & Hr)].
  - split; [done |]. by rewrite bool_decide_eq_true_2.
  - destruct Hr as [(-> & _ & [= <-]) | (cause & _ & [=])].
    split; [done |]. by rewrite bool_decide_eq_false_2.
Qed.

(** ** Replays *)

(** The parameters that identify a signature in the replay store and fix how
    long it is retained. *)
Definition replay_parameters (input : SignatureInput)
  : option gostring * option gostring * option Z * option Z :=
  (stringParameter input "keyid", stringParameter input "nonce",
   integerParameter input "created", integerParameter input "expires").

Definition selected_input (label : gostring) (inputs : SignatureInputs) : option SignatureInput :=
  List.find (fun candidate => InputLabel candidate =s label) inputs.

Lemma selectSignature_input label inputs signatures input signature :
  selectSignature label inputs signatures = Some (input, signature) ->
  selected_input label inputs = Some input.
Proof.
  unfold selectSignature, selected_input. destruct (List.find _ inputs) as [i |]; [| done].
  destruct (List.find _ signatures); [| done]. intros [= <- _]. by rewrite cloneSignatureInput_id.
Qed.

Lemma accepted_expiration profile now input metadata :
  input_accepted profile now input metadata ->
  exists created replay,
    match integerParameter input "created" with
    | None => created = 0 /\ replay = 0
    | Some z => created = time_Unix z /\
        replay = created + (v_maxAge profile + v_clockSkew profile)
    end /\
    m_replayExpires metadata =
      match integerParameter input "expires" with
      | None => replay
      | Some z =>
          let e := time_Unix z + v_clockSkew profile in
          if (replay =? 0) || (e <? replay) then e else replay
      end.
Proof.
  intros []. destruct acc_created0 as (r & Hc & He).
  apply validate_created_Ok in Hc as [_ Hc]. apply validate_expires_Ok in He as [_ He].
  exists (VerifiedCreated (m_result metadata)), r. split.
  - destruct (integerParameter input "created"); [| done]. by destruct Hc as (? & _ & _ & ?).
  - destruct (integerParameter input "expires"); [| by destruct He].
    destruct He as (He & _ & _ & ->). by rewrite He.
Qed.

(** Neither the processing time nor the message decides how long a
    signature is retained. *)
Lemma same_replay_record profile now1 now2 input1 input2 m1 m2 :
  input_accepted profile now1 input1 m1 -> input_accepted profile now2 input2 m2 ->
  replay_parameters input1 = replay_parameters input2 ->
  replay_record m1 = replay_record m2.
Proof.
  intros H1 H2 [= Hk Hn Hc He]. unfold replay_record.
  destruct (accepted_expiration _ _ _ _ H1) as (c1 & r1 & Hr1 & ->).
  destruct (accepted_expiration _ _ _ _ H2) as (c2 & r2 & Hr2 & ->).
  destruct (acc_keyid _ _ _ _ H1) as [Hk1 _], (acc_keyid _ _ _ _ H2) as [Hk2 _].
  destruct (acc_nonce _ _ _ _ H1) as [_ Hn1], (acc_nonce _ _ _ _ H2) as [_ Hn2].
  rewrite <- Hc in Hr2. rewrite <- He, <- Hn in *.
  assert (m_keyID m1 = m_keyID m2) as -> by congruence.
  assert (m_nonce m1 = m_nonce m2) as ->.
  { destruct (stringParameter input1 "nonce"); [| congruence].
    destruct Hn1 as (? & _), Hn2 as (? & _). congruence. }
  assert (r1 = r2) as -> by (destruct (integerParameter input1 "created"); lia).
  done.
Qed.

Context `{RSL : !ReplayStoreLaws S Obs}.

(** C3: no signature is verified twice.  Take one profile and a store that
    keeps the [ReplayStore] promise.  After [Verify] accepted a signature
    with a nonce, and after any calls of [Consume], [Verify] does not
    succeed for a signature with the same keyid, nonce, created and expires
    parameters - for any message, clock readings, resolver answers and
    context outcomes. *)
Theorem no_signature_verified_twice profile
    obs1 store0 message1 label1 inputs1 signatures1 store1 result1 input1
    calls store2 errs
    obs2 message2 label2 inputs2 signatures2 input2 store3 result2 :
  store_wf store0 ->
  Verifier_Verify (Some profile) obs1 store0 message1 label1 inputs1 signatures1 =
    Some (store1, Ok result1) ->
  selected_input label1 inputs1 = Some input1 ->
  is_Some (stringParameter input1 "nonce") ->
  run store1 calls = Some (store2, errs) ->
  selected_input label2 inputs2 = Some input2 ->
  replay_parameters input1 = replay_parameters input2 ->
  Verifier_Verify (Some profile) obs2 store2 message2 label2 inputs2 signatures2 <>
    Some (store3, Ok result2).
Proof.
  intros Hwf H1 Hs1 [n Hn] Hrun Hs2 Hsame H2.
  apply Verifier_Verify_Ok in H1 as (i1 & sg1 & m1 & b1 & k1 & V1 & _ & C1).
  apply Verifier_Verify_Ok in H2 as (i2 & sg2 & m2 & b2 & k2 & V2 & _ & C2).
  pose proof (selectSignature_input _ _ _ _ _ (ver_selected _ _ _ _ _ _ _ _ _ _ _ _ V1)) as Hi1.
  pose proof (selectSignature_input _ _ _ _ _ (ver_selected _ _ _ _ _ _ _ _ _ _ _ _ V2)) as Hi2.
  assert (i1 = input1) as -> by congruence. assert (i2 = input2) as -> by congruence.
  pose proof (validateInput_Ok _ _ _ _ (ver_input _ _ _ _ _ _ _ _ _ _ _ _ V1)) as A1.
  pose proof (validateInput_Ok _ _ _ _ (ver_input _ _ _ _ _ _ _ _ _ _ _ _ V2)) as A2.
  pose proof (same_replay_record _ _ _ _ _ _ _ A1 A2 Hsame) as Hrec.
  destruct (acc_nonce _ _ _ _ A1) as [_ Hn1]. rewrite Hn in Hn1. destruct Hn1 as (Hn1 & Hne & _).
  rewrite bool_decide_eq_false_2 in C1 by congruence.
  assert (m_nonce m2 = n) as Hn2 by (injection Hrec; congruence).
  rewrite bool_decide_eq_false_2 in C2 by congruence.
  destruct (consume_total store0 (replay_observation obs1) (replay_record m1) Hwf)
    as (s' & ? & C1' & Hwf1 & _).
  assert (s' = store1) as -> by congruence.
  destruct (run_total store1 calls Hwf1) as (s'' & ? & Hrun' & Hwf2 & _).
  assert (s'' = store2) as -> by congruence.
  destruct (consume_reserves _ _ _ _ Hwf2 C2) as [_ Hlt].
  apply (run_no_replay store0 _ _ _ _ _ _ _ _ _ _ Hwf C1 Hrun C2); [by rewrite Hrec | | done].
  by rewrite Hrec.
Qed.

(** C7: what a success means.  If [Verify] returns a verified signature, the
    label is one of the input labels and of the signature labels; every
    component the profile requires is covered, up to the order of
    parameters; the resolved key was resolved for the signed keyid, is
    allowed, matches a signed alg parameter and is inside its lifetime; and
    the primitive of its algorithm accepts the signature bytes over the
    signature base of this message and input. *)
Theorem Verify_sound profile obs store message label inputs signatures store' result :
  Verifier_Verify (Some profile) obs store message label inputs signatures =
    Some (store', Ok result) ->
  exists input signature base key,
    input ∈ inputs /\ InputLabel input = label /\
    signature ∈ signatures /\ SignatureLabel signature = label /\
    (forall c, c ∈ v_requiredComponents profile ->
       exists c', c' ∈ Components input /\ componentComparisonKey c' = Ok (comparison_key c)) /\
    stringParameter input "keyid" = Some (VerifiedKeyID result) /\
    resolve obs (VerifiedKeyID result) = (key, None) /\
    ResolvedAlgorithm key ∈ v_algorithms profile /\
    VerifiedAlgorithm result = ResolvedAlgorithm key /\
    (forall a, stringParameter input "alg" = Some a -> a = ResolvedAlgorithm key) /\
    Revoked key = false /\
    NotBefore key - v_clockSkew profile <= now_key obs < NotAfter key + v_clockSkew profile /\
    now_key obs < FreshUntil key /\
    CreateSignatureBase message input = Ok base /\
    verify_switch (ResolvedAlgorithm key) (ResolvedMaterial key) base (SignatureBytes signature) =
      Ok true.
Proof.
  intros H. apply Verifier_Verify_Ok in H as (input & signature & md & base & key & V & -> & _).
  destruct V as [Hsel _ _ Hin Hbase [Hres _] Hkey Hcr].
  pose proof (validateInput_Ok _ _ _ _ Hin) as A.
  apply selectSignature_Some in Hsel as (? & ? & ? & ?).
  apply validateKey_None in Hkey as (Hu & Hka & Hmatch).
  destruct (acc_result _ _ _ _ A) as [_ Hk]. destruct (acc_keyid _ _ _ _ A) as [Hkid _].
  destruct (acc_algorithm _ _ _ _ A) as (_ & Ha & Hha).
  unfold unusable_key, After, Before, Add, IsZero in Hu. bool_to_prop.
  exists input, signature, base, key. cbn [with_algorithm VerifiedKeyID VerifiedAlgorithm].
  rewrite Hk. repeat (split; [done |]).
  split; [apply A |]. repeat (split; [done |]). split.
  { intros a Heq. destruct (Ha a Heq) as [_ <-]. apply Hmatch. by rewrite Hha, Heq. }
  split; [done |]. split; [lia |]. split; [lia |]. done.
Qed.

(** C35: the time window.  A verified signature with a created parameter was
    created at most [ClockSkew] after the processing time and, unless the
    window spans all of an [int64], at most [MaxAge + ClockSkew] before it;
    one with an expires parameter had not expired, up to [ClockSkew], and
    expires after it was created. *)
Theorem Verify_time_window profile obs store message label inputs signatures store' result :
  Verifier_Verify (Some profile) obs store message label inputs signatures =
    Some (store', Ok result) ->
  exists input, selected_input label inputs = Some input /\
    (forall z, integerParameter input "created" = Some z ->
       VerifiedCreated result = time_Unix z /\
       VerifiedCreated result <= now_input obs + v_clockSkew profile /\
       (minDuration <= v_maxAge profile + v_clockSkew profile < maxDuration ->
        now_input obs - VerifiedCreated result <= v_maxAge profile + v_clockSkew profile)) /\
    (forall z, integerParameter input "expires" = Some z ->
       VerifiedExpires result = time_Unix z /\
       now_input obs < VerifiedExpires result + v_clockSkew profile /\
       (is_Some (integerParameter input "created") ->
        VerifiedCreated result < VerifiedExpires result)).
Proof.
  intros H. apply Verifier_Verify_Ok in H as (input & signature & md & base & key & V & -> & _).
  pose proof (validateInput_Ok _ _ _ _ (ver_input _ _ _ _ _ _ _ _ _ _ _ _ V)) as A.
  destruct (acc_created _ _ _ _ A) as (r & Hc & He).
  apply validate_created_Ok in Hc as [_ Hc]. apply validate_expires_Ok in He as [_ He].
  exists input. split; [eapply selectSignature_input, V |].
  cbn [with_algorithm VerifiedCreated VerifiedExpires]. split.
  - intros z Hz. rewrite Hz in Hc. destruct Hc as (? & ? & Hs & _).
    split; [done |]. split; [done |]. intros Hw. by apply Sub_le in Hs.
  - intros z Hz. rewrite Hz in He. destruct He as (? & ? & Hce & _).
    split; [done |]. split; [done |]. intros [z' Hz']. apply Hce. by rewrite Hz'.
Qed.

(** ** What the policy asks, in its own words *)

(** A policy and whether the parameter is there. *)
Definition permitted (policy : ParameterPolicy) {A} (value : option A) : Prop :=
  (policy = ParameterRequired -> is_Some value) /\ (policy = ParameterForbidden -> value = None).

Lemma presenceAllowed_permitted policy {A} (value : option A) :
  presenceAllowed policy (negb (is_nil value)) = true -> permitted policy value.
Proof. destruct policy, value; cbn; split; intros; try done; eauto. Qed.

(** The profile's demands on the input at the time [now]. *)
Record policy_accepts (profile : VerificationProfile) (now : Time) (input : SignatureInput) : Prop := {
  pol_nonempty : Components input <> [] \/ v_allowEmptyCoverage profile = true;
  pol_coverage c : c ∈ v_requiredComponents profile ->
    exists c', c' ∈ Components input /\ componentComparisonKey c' = Ok (comparison_key c);
  pol_created : permitted (v_created profile) (integerParameter input "created") /\
    forall z, integerParameter input "created" = Some z ->
      time_Unix z <= now + v_clockSkew profile /\
      Sub now (time_Unix z) <= v_maxAge profile + v_clockSkew profile;
  pol_expires : permitted (v_expires profile) (integerParameter input "expires") /\
    forall z, integerParameter input "expires" = Some z ->
      now < time_Unix z + v_clockSkew profile /\
      forall z', integerParameter input "created" = Some z' -> time_Unix z' < time_Unix z;
  pol_algorithm : permitted (v_algorithmParameter profile) (stringParameter input "alg") /\
    forall a, stringParameter input "alg" = Some a -> a ∈ v_algorithms profile;
  pol_nonce : permitted (v_nonce profile) (stringParameter input "nonce") /\
    stringParameter input "nonce" <> Some [];
  pol_tag : permitted (v_tag profile) (stringParameter input "tag") /\
    forall t, stringParameter input "tag" = Some t -> t ∈ v_allowedTags profile
}.

(** The profile's demands on the resolved key at the time [now]. *)
Record key_accepted (profile : VerificationProfile) (now : Time) (input : SignatureInput)
  (key : ResolvedKey) : Prop := {
  key_algorithm : ResolvedAlgorithm key ∈ v_algorithms profile;
  key_matches a : stringParameter input "alg" = Some a -> a = ResolvedAlgorithm key;
  key_revoked : Revoked key = false;
  key_not_nil : key_is_nil (ResolvedMaterial key) = false;
  key_dated : NotBefore key <> 0 /\ NotAfter key <> 0 /\ FreshUntil key <> 0 /\ NotBefore key < NotAfter key;
  key_lifetime : NotBefore key - v_clockSkew profile <= now < NotAfter key + v_clockSkew profile;
  key_fresh : now < FreshUntil key;
  key_created z : integerParameter input "created" = Some z -> time_Unix z <> 0 ->
    NotBefore key - v_clockSkew profile <= time_Unix z < NotAfter key + v_clockSkew profile
}.

Lemma input_accepted_policy profile now input metadata :
  input_accepted profile now input metadata -> policy_accepts profile now input.
Proof.
  intros [Hne Hcov (r & Hc & He) (Hpa & Ha & Hha) _ [Hpn Hn] [Hpt Ht] _]. rewrite Hha in Hpa.
  apply validate_created_Ok in Hc as [Hpc Hc]. apply validate_expires_Ok in He as [Hpe He].
  split; [done | done | | | | |].
  - split; [by apply presenceAllowed_permitted |]. intros z Hz. rewrite Hz in Hc.
    by destruct Hc as (-> & ? & ? & _).
  - split; [by apply presenceAllowed_permitted |]. intros z Hz. rewrite Hz in He.
    destruct He as (-> & ? & Hlt & _). split; [done |]. intros z' Hz'. rewrite Hz' in Hc, Hlt.
    destruct Hc as (Hc & _). rewrite <- Hc. by apply Hlt.
  - split; [by apply presenceAllowed_permitted |]. intros a Heq. by apply Ha.
  - split; [by apply presenceAllowed_permitted |]. intros Heq. rewrite Heq in Hn. by destruct Hn as (_ & ? & _).
  - split; [by apply presenceAllowed_permitted | done].
Qed.

Lemma validateKey_accepted profile now now_input input metadata key :
  input_accepted profile now_input input metadata ->
  validateKey profile now key (m_algorithm metadata) (m_hasAlgorithm metadata)
    (VerifiedCreated (m_result metadata)) = None ->
  key_accepted profile now input key.
Proof.
  intros [_ _ (r & Hc & _) (_ & Ha & Hha) _ _ _ _] (Hu & Hka & Hmatch)%validateKey_None.
  apply validate_created_Ok in Hc as [_ Hc].
  unfold unusable_key, After, Before, Add, IsZero in Hu. bool_to_prop.
  split; [done | | done | done | lia | lia | lia |].
  - intros a Heq. destruct (Ha a Heq) as [_ <-]. apply Hmatch. by rewrite Hha, Heq.
  - intros z Hz Hnz. rewrite Hz in Hc. destruct Hc as (Hc & _). rewrite Hc in *. lia.
Qed.

(** How long the nonce of an input is retained: until the signature is too old,
    or until it has expired if that is earlier. *)
Definition replay_expiry (profile : VerificationProfile) (input : SignatureInput) : Time :=
  let aged := match integerParameter input "created" with
              | None => 0
              | Some z => time_Unix z + (v_maxAge profile + v_clockSkew profile)
              end in
  match integerParameter input "expires" with
  | None => aged
  | Some z =>
      let expired := time_Unix z + v_clockSkew profile in
      if (aged =? 0) || (expired <? aged) then expired else aged
  end.

Lemma accepted_replay_expiry profile now input metadata :
  input_accepted profile now input metadata -> m_replayExpires metadata = replay_expiry profile input.
Proof.
  intros (created & replay & Hc & ->)%accepted_expiration. unfold replay_expiry. cbv zeta.
  destruct (integerParameter input "created"); by destruct Hc as [-> ->].
Qed.

(** C8: authentication comes first.  Whatever [Verify] returns, either the
    replay store is untouched, or the profile had accepted the selected
    input: its coverage, parameters and times; the key, which the resolver
    returned for the signed keyid, was accepted: allowed, matching a signed
    alg, not revoked, in its lifetime and fresh; its primitive had accepted
    the signature over the base; and the store is what one [Consume] of the
    signed keyid and nonce made of it, until the signature is too old or has
    expired. *)
Theorem nonce_consumed_only_after_verification
    profile obs store message label inputs signatures store' r :
  Verifier_Verify (Some profile) obs store message label inputs signatures = Some (store', r) ->
  store' = store \/
  exists input signature base key keyid nonce err,
    selectSignature label inputs signatures = Some (input, signature) /\
    input ∈ inputs /\ InputLabel input = label /\ signature ∈ signatures /\ SignatureLabel signature = label /\
    policy_accepts profile (now_input obs) input /\
    stringParameter input "keyid" = Some keyid /\ resolve obs keyid = (key, None) /\
    key_accepted profile (now_key obs) input key /\
    CreateSignatureBase message input = Ok base /\
    verify_switch (ResolvedAlgorithm key) (ResolvedMaterial key) base (SignatureBytes signature) =
      Ok true /\
    stringParameter input "nonce" = Some nonce /\
    replay_Consume store (replay_observation obs) (mkReplayRecord keyid nonce (replay_expiry profile input)) =
      Some (store', err).
Proof.
  intros H. apply Verifier_Verify_cases in H as [[-> _] |
    (input & signature & md & base & key & V & Hc)]; [by left |].
  apply consume_nonce_cases in Hc as [(_ & -> & _) | (Hn & err & Hc & _)]; [by left |]. right.
  destruct V as [Hsel _ _ Hin Hbase [Hres _] Hkey Hcr].
  pose proof (validateInput_Ok _ _ _ _ Hin) as A. apply (validateKey_accepted _ _ _ _ _ _ A) in Hkey.
  destruct (selectSignature_Some _ _ _ _ _ Hsel) as (? & ? & ? & ?).
  destruct (acc_keyid _ _ _ _ A) as [Hkid _]. destruct (acc_nonce _ _ _ _ A) as [_ Hn'].
  destruct (stringParameter input "nonce") as [nonce |] eqn:Hnonce; [| done]. destruct Hn' as (<- & _).
  exists input, signature, base, key, (m_keyID md), (m_nonce md), err.
  rewrite <- (accepted_replay_expiry _ _ _ _ A).
  do 5 (split; [done |]). split; [by eapply input_accepted_policy |]. done.
Qed.

(** C39: failures disclose no diagnostics.  An error of [Verify] is a
    [VerificationError]; the cause of a key-resolution or replay failure is
    one of the documented sentinels and never the error the resolver or the
    backend returned. *)
Theorem Verify_error_redacted profile obs store message label inputs signatures store' e :
  Verifier_Verify (Some profile) obs store message label inputs signatures =
    Some (store', Err e) ->
  exists failure cause, e = verificationError failure cause /\
    (failure = VerificationKeyResolution -> cause ∈ resolution_causes) /\
    (failure = VerificationReplay -> cause ∈ replay_causes).
Proof.
  intros H. apply Verifier_Verify_cases in H as [(_ & e' & [= <-] & f & c & -> & Hf & Hc) |
    (input & signature & md & base & key & V & Hc)].
  { exists f, c. repeat split; try done. }
  apply consume_nonce_cases in Hc as [(_ & _ & [=]) | (_ & err & _ & Hr)].
  destruct Hr as [(_ & _ & [=]) | (cause & Hin & [= ->])].
  exists VerificationReplay, cause. repeat split; try done.
Qed.
End Facts.
