(* ===== verification/AlgorithmFacts.v ===== *)
(** * Correctness of the algorithm dispatch

    The round trip of [Sign] and [Verify] for each of the six algorithms from
    the correctness of the primitives, the exact behaviour of the HMAC branch,
    and the separation of private and public key material. *)

From S2P Require Import Prelude GoStrings Errors Httpsfv Digest Algorithm.
Open Scope Z_scope.

(** ** Fixed-width big-endian integers *)

Lemma fill_bytes_app size n acc : fill_bytes size n acc = fill_bytes size n [] ++ acc.
Proof.
  revert n acc. induction size as [| k IH]; intros n acc; [done |]. cbn [fill_bytes].
  rewrite IH, (IH _ [_]), <- app_assoc. done.
Qed.

Lemma length_fill_bytes size n : length (fill_bytes size n []) = size.
Proof.
  revert n. induction size as [| k IH]; intros n; [done |]. cbn [fill_bytes].
  rewrite fill_bytes_app, length_app, IH. cbn. lia.
Qed.

Lemma SetBytes_snoc s c : SetBytes (s ++ [c]) = 256 * SetBytes s + Z.of_N (N_of_ascii c).
Proof. unfold SetBytes. by rewrite fold_left_app. Qed.

Lemma SetBytes_fill_bytes size n :
  0 <= n < 256 ^ Z.of_nat size -> SetBytes (fill_bytes size n []) = n.
Proof.
  revert n. induction size as [| k IH]; intros n Hn.
  { cbn in *. lia. }
  rewrite Nat2Z.inj_succ, Z.pow_succ_r in Hn by lia. cbn [fill_bytes].
  pose proof (Z.mod_pos_bound n 256 ltac:(lia)).
  rewrite fill_bytes_app, SetBytes_snoc, IH.
  - rewrite N_ascii_embedding by lia. rewrite Z2N.id by lia. pose proof (Z.div_mod n 256). lia.
  - split; [apply Z.div_pos; lia | apply Z.div_lt_upper_bound; lia].
Qed.

(** A value below [256 ^ size] is written on [size] bytes and read back. *)
Lemma FillBytes_SetBytes n size :
  0 <= n < 256 ^ Z.of_nat size ->
  exists b, FillBytes n size = Some b /\ length b = size /\ SetBytes b = n.
Proof.
  intros Hn. unfold FillBytes. rewrite Z.abs_eq by lia.
  replace (n <? 256 ^ Z.of_nat size) with true by lia.
  eexists. split; [done |]. split; [apply length_fill_bytes | by apply SetBytes_fill_bytes].
Qed.

Section Facts.
Context `{CL : CryptoLaws}.

(** The key that verifies what a signing key signs. *)
Definition verification_key (key : Key) : option Key :=
  match key with
  | KeyRSAPrivate (Some k) => Some (KeyRSAPublic (Some (rsa_public k)))
  | KeyHMAC k => Some (KeyHMAC k)
  | KeyECDSAPrivate (Some k) => Some (KeyECDSAPublic (Some (ecdsa_public k)))
  | KeyEd25519Private k => Some (KeyEd25519Public (drop ed25519_SeedSize k))
  | _ => None
  end.

Lemma rsa_size_ok k signature :
  validRSAPublicKey (Some k) = true -> len signature = rsa_Size k ->
  validRSASignatureSize k signature = true.
Proof.
  unfold validRSAPublicKey, validRSAModulus, validRSASignatureSize, rsa_Size. intros Hv ->.
  destruct (rsa_N k) as [n |]; [| done]. cbn [default]. rewrite Z.eqb_refl, andb_true_r.
  destruct (_ || _); [done |]. cbn iota in Hv. bool_to_prop. apply Z.leb_le.
  unfold maxRSASignatureSize, maxRSAModulusBits in *. change (8192 / 8) with 1024.
  change (id n) with n. apply Z.lt_succ_r, Z.div_lt_upper_bound; lia.
Qed.

Lemma rsa_private_public k : validRSAPrivateKey (Some k) = true -> validRSAPublicKey (Some (rsa_public k)) = true.
Proof. cbn -[validRSAPublicKey]. by intros [? _]%andb_true_iff. Qed.

Lemma ecdsa_private_public k curve :
  validECDSAPrivateKey (Some k) curve = true -> validECDSAPublicKey (Some (ecdsa_public k)) curve = true.
Proof.
  cbn -[validECDSAPublicKey]. destruct (validECDSAPublicKey _ _); [done |].
  by rewrite orb_true_r.
Qed.

(** The curve's P1363 encoding round-trips. *)
Lemma signECDSA_verifies random k digest curve size :
  validECDSAPrivateKey (Some k) curve = true ->
  (curve, size) = (P256, 32%nat) \/ (curve, size) = (P384, 48%nat) ->
  signECDSA random k digest size = Some None \/
  exists signature, signECDSA random k digest size = Some (Some signature) /\
    verifyECDSA (ecdsa_public k) digest signature size = true.
Proof.
  intros Hk Hsize. unfold signECDSA. destruct (ecdsa_Sign random k digest) as [[r s] |] eqn:Hs; [| by left].
  right. destruct (ecdsa_correct random k digest r s curve (Z.of_nat size)) as (Hr & Hs' & Hv); [done | | done |].
  { destruct Hsize as [[= -> ->] | [= -> ->]]; auto. }
  destruct (FillBytes_SetBytes r size Hr) as (br & -> & HLr & HSr).
  destruct (FillBytes_SetBytes s size Hs') as (bs & -> & HLs & HSs).
  cbn [mbind option_bind]. eexists. split; [done |]. unfold verifyECDSA.
  replace (len (br ++ bs) =? Z.of_nat size * 2) with true by (rewrite len_app; unfold len; lia).
  cbn [negb]. rewrite <- HLr at 1 2. rewrite take_app_length, drop_app_length, HSr, HSs. done.
Qed.

Lemma ed25519_public_length k :
  validEd25519PrivateKey k = true -> len (drop ed25519_SeedSize k) = ed25519_PublicKeySize.
Proof.
  unfold validEd25519PrivateKey. destruct (len k =? ed25519_PrivateKeySize) eqn:Hl; [| done]. intros _.
  unfold len, ed25519_PrivateKeySize, ed25519_PublicKeySize, ed25519_SeedSize in *.
  rewrite length_drop. lia.
Qed.

(** The primitive of each branch signs what the same branch verifies. *)
Lemma switch_roundtrip random algorithm key base :
  exists r, sign_switch random algorithm key base = Some r /\
    forall signature, r = Ok (Some signature) ->
      exists public, verification_key key = Some public /\
        verify_switch algorithm public base signature = Ok true.
Proof.
  unfold sign_switch, verify_switch.
  destruct (algorithm =s RSAPSSSHA512).
  { destruct key as [| [k |] | | | | | | |]; try (eexists; split; [done | intros ? [=]]).
    destruct (validRSAPrivateKey (Some k)) eqn:Hk; eexists; (split; [done |]); intros signature [= Hs].
    destruct (pss_correct _ _ _ _ Hk Hs) as [Hl Hv]. eexists. split; [done |].
    pose proof (rsa_private_public k Hk) as Hp. cbn iota.
    by rewrite Hp, rsa_size_ok, Hv. }
  destruct (algorithm =s RSAV15SHA256).
  { destruct key as [| [k |] | | | | | | |]; try (eexists; split; [done | intros ? [=]]).
    destruct (validRSAPrivateKey (Some k)) eqn:Hk; eexists; (split; [done |]); intros signature [= Hs].
    destruct (v15_correct _ _ _ Hk Hs) as [Hl Hv]. eexists. split; [done |].
    pose proof (rsa_private_public k Hk) as Hp. cbn iota.
    by rewrite Hp, rsa_size_ok, Hv. }
  destruct (algorithm =s HMACSHA256).
  { destruct key as [| | | k | | | | |]; try (eexists; split; [done | intros ? [=]]).
    destruct (validHMACKey k) eqn:Hk; eexists; (split; [done |]); intros signature [= <-].
    eexists. split; [done |]. cbn iota. rewrite Hk. unfold ConstantTimeCompare.
    by rewrite Z.eqb_refl, bool_decide_eq_true_2. }
  destruct (algorithm =s ECDSAP256SHA256).
  { destruct key as [| | | | [k |] | | | |]; try (eexists; split; [done | intros ? [=]]).
    destruct (validECDSAPrivateKey (Some k) P256) eqn:Hk; [| eexists; split; [done | intros ? [=]]].
    destruct (signECDSA_verifies random k (Sum256 base) P256 32 Hk) as [-> | (sg & -> & Hv)]; [by left | |];
      (eexists; split; [done |]); intros signature [=]; subst.
    eexists. split; [done |]. cbn iota. by rewrite (ecdsa_private_public k P256 Hk), Hv. }
  destruct (algorithm =s ECDSAP384SHA384).
  { destruct key as [| | | | [k |] | | | |]; try (eexists; split; [done | intros ? [=]]).
    destruct (validECDSAPrivateKey (Some k) P384) eqn:Hk; [| eexists; split; [done | intros ? [=]]].
    destruct (signECDSA_verifies random k (Sum384 base) P384 48 Hk) as [-> | (sg & -> & Hv)]; [by right | |];
      (eexists; split; [done |]); intros signature [=]; subst.
    eexists. split; [done |]. cbn iota. by rewrite (ecdsa_private_public k P384 Hk), Hv. }
  destruct (algorithm =s Ed25519).
  { destruct key as [| | | | | | k | |]; try (eexists; split; [done | intros ? [=]]).
    destruct (validEd25519PrivateKey k) eqn:Hk; eexists; (split; [done |]); intros signature [= <-].
    destruct (ed25519_correct k base Hk) as [Hl Hv]. eexists. split; [done |]. cbn iota.
    by rewrite ed25519_public_length, Hl, Hv. }
  eexists. split; [done | intros ? [=]].
Qed.

Lemma Sign_Ok obs algorithm key base signature :
  Sign obs algorithm key base = Some (Ok signature) ->
  sign_switch (entropy obs) algorithm key base = Some (Ok (Some signature)).
Proof.
  unfold Sign, finishSignature. destruct (contextError _ _); [done |].
  destruct (sign_switch _ _ _ _) as [[[s |] | e] |]; cbn; try done.
  destruct (contextError _ _); [done | by intros [= ->]].
Qed.

Lemma Verify_valid obs algorithm key base signature :
  context_nil obs = false -> err_before obs = None -> err_after obs = None ->
  verify_switch algorithm key base signature = Ok true ->
  Verify obs algorithm key base signature = None.
Proof. intros Hn Hb Ha Hs. unfold Verify, contextError. by rewrite Hn, Hb, Hs, Ha. Qed.

(** C36: what [Sign] signs, [Verify] accepts.  Under the correctness of the
    primitives, [Sign] never panics, and a signature it returns for any of
    the six algorithms is accepted by [Verify] with the public half of the
    key (the same key for HMAC) over the same base. *)
Theorem Sign_Verify_roundtrip obs algorithm key base :
  exists r, Sign obs algorithm key base = Some r /\
    forall signature, r = Ok signature ->
      exists public, verification_key key = Some public /\
        forall obs', context_nil obs' = false -> err_before obs' = None -> err_after obs' = None ->
          Verify obs' algorithm public base signature = None.
Proof.
  destruct (switch_roundtrip (entropy obs) algorithm key base) as (r & Hr & Hv).
  destruct (Sign obs algorithm key base) as [r' |] eqn:Hs.
  - exists r'. split; [done |]. intros signature ->. apply Sign_Ok in Hs. rewrite Hs in Hr.
    injection Hr as <-. destruct (Hv signature eq_refl) as (public & ? & ?). exists public.
    split; [done |]. intros. by apply Verify_valid.
  - exfalso. unfold Sign in Hs. rewrite Hr in Hs. cbn in Hs. destruct (contextError _ _); done.
Qed.
End Facts.

Section Exactness.
Context `{CR : Crypto}.

(** The HMAC branch accepts exactly the MAC of the base under a key of 32
    to 64 bytes, whatever the other primitives do. *)
Theorem Verify_hmac_exact obs k base signature :
  context_nil obs = false -> err_before obs = None -> err_after obs = None ->
  Verify obs HMACSHA256 (KeyHMAC k) base signature =
  if bool_decide (32 <= len (material k) <= 64)
  then if signature =s hmac_sha256 (material k) base then None
       else Some (Sentinel ErrInvalidSignatureValue)
  else Some (Sentinel ErrIncompatibleKey).
Proof.
  intros Hn Hb Ha. unfold Verify, contextError. rewrite Hn, Hb, Ha.
  assert (validHMACKey k = bool_decide (32 <= len (material k) <= 64)) as Hk.
  { unfold validHMACKey, minHMACKeySize, maxHMACKeySize. case_bool_decide; lia. }
  unfold verify_switch. change (HMACSHA256 =s RSAPSSSHA512) with false.
  change (HMACSHA256 =s RSAV15SHA256) with false. change (HMACSHA256 =s HMACSHA256) with true.
  cbv iota. rewrite Hk. case_bool_decide; cbn [negb]; [| done].
  unfold ConstantTimeCompare. case_bool_decide as Hs; [by rewrite Hs, Z.eqb_refl |].
  by rewrite andb_false_r.
Qed.

(** The asymmetric private keys and the keys that are no keys. *)
Definition not_verification_material (key : Key) : bool :=
  match key with
  | KeyNil | KeyRSAPrivate _ | KeyECDSAPrivate _ | KeyEd25519Private _ | KeyOther _
  | KeyRSAPublic None | KeyECDSAPublic None => true
  | _ => false
  end.

(** Verification refuses private key material: for every supported
    algorithm, a private, nil or foreign key gives [ErrIncompatibleKey]. *)
Theorem Verify_refuses_private_keys obs algorithm key base signature :
  context_nil obs = false -> err_before obs = None ->
  supportedAlgorithm algorithm = true -> not_verification_material key = true ->
  Verify obs algorithm key base signature = Some (Sentinel ErrIncompatibleKey).
Proof.
  intros Hn Hb Hs Hk. unfold Verify, contextError. rewrite Hn, Hb.
  enough (verify_switch algorithm key base signature = Err (Sentinel ErrIncompatibleKey)) as -> by done.
  unfold supportedAlgorithm in Hs. apply bool_decide_eq_true in Hs.
  unfold verify_switch. rewrite !elem_of_cons, elem_of_nil in Hs.
  destruct key as [| [] | [] | | [] | [] | | |]; try done;
    repeat (case_bool_decide; [done |]); tauto.
Qed.
End Exactness.
