(* ===== verification/SignerFacts.v ===== *)
(** * Correctness of signing under a profile

    What the profile constructors guarantee, when field pairs combine, and the
    end-to-end round trip: a verifier whose policy admits the profile verifies
    what the signer signs. *)

From S2P Require Import Prelude GoStrings Errors Httpsfv StructuredFieldSafe SignatureFields.
From S2P Require Import HttpTypes MessageDerived MessageBase GoTime Digest Replay ReplayStore.
From S2P Require Import Algorithm AlgorithmFacts Signer Verifier VerifierFacts.
Open Scope Z_scope.

(** ** Constructed profiles *)

Lemma algorithm_set_Ok invalid seen l algorithms :
  algorithm_set invalid seen l = Ok algorithms <->
  Forall (fun a => supportedAlgorithm a = true) l /\ NoDup l /\ (forall a, a ∈ l -> a ∉ seen) /\
  algorithms = seen ∪ list_to_set l.
Proof.
  revert seen. induction l as [| a l IH]; intros seen; cbn [algorithm_set].
  { split; [intros [= <-] | intros (_ & _ & _ & ->)].
    - split; [done |]. split; [constructor |]. split; [intros a Ha; by apply elem_of_nil in Ha |].
      cbn. by rewrite (right_id_L ∅ (∪)).
    - cbn. by rewrite (right_id_L ∅ (∪)). }
  rewrite list.NoDup_cons, list.Forall_cons.
  destruct (supportedAlgorithm a) eqn:Hs; cbn [negb]. 2: { split; [done | by intros ([? _] & _)]. }
  case_bool_decide as Hin.
  { split; [done |]. intros (_ & _ & Hn & _). by destruct (Hn a (list_elem_of_here _ _)). }
  rewrite IH. cbn [list_to_set]. split.
  - intros (Hf & Hnd & Hn & ->). repeat split; try done.
    + intros Ha. destruct (Hn a Ha). set_solver.
    + intros b [-> | Hb]%elem_of_cons; [done |]. specialize (Hn b Hb). set_solver.
    + set_solver.
  - intros ([_ Hf] & [Ha Hnd] & Hn & ->). repeat split; try done; [| set_solver].
    intros b Hb Hb'. apply elem_of_union in Hb' as [->%elem_of_singleton | Hb']; [done |].
    by apply (Hn b (list_elem_of_further _ _ _ Hb)).
Qed.

Section Profiles.
Context `{SFV : Httpsfv}.

(** The components of a profile: all identifiable, admissible and pairwise
    different up to the order of parameters. *)
Lemma component_list_Ok invalid seen l components :
  component_list invalid seen l = Ok components ->
  components = l /\
  Forall (fun c => is_Ok (componentComparisonKey c) = true /\ validProfileComponent c = true) l /\
  NoDup (map comparison_key l) /\ (forall c, c ∈ l -> comparison_key c ∉ seen).
Proof.
  revert seen components. induction l as [| c l IH]; intros seen components; cbn [component_list].
  { intros [= <-]. repeat split; try constructor. intros c Hc. by apply elem_of_nil in Hc. }
  destruct (componentComparisonKey c) as [k |] eqn:Hk; [| done].
  destruct (validProfileComponent c) eqn:Hv; cbn [negb]; [| done].
  case_bool_decide as Hin; [done |]. intros (cs & Hcs & [= <-])%rbind_Ok.
  destruct (IH _ _ Hcs) as (-> & Hf & Hnd & Hn).
  assert (comparison_key c = k) as Hck by (unfold comparison_key; by rewrite Hk).
  split; [destruct c as [n p]; cbn; by rewrite cloneParameters_id |].
  split; [constructor; [by rewrite Hk | done] |]. cbn [map]. rewrite list.NoDup_cons, Hck.
  split; [split; [| done] |].
  - intros (c' & Heq & Hc')%list_elem_of_In%in_map_iff. apply list_elem_of_In in Hc'.
    specialize (Hn c' Hc'). rewrite Heq in Hn. set_solver.
  - intros c' Hc'. apply elem_of_cons in Hc' as [Heq | Hc'].
    + rewrite Heq, Hck. done.
    + specialize (Hn c' Hc'). set_solver.
Qed.

Lemma NewSigningProfile_Ok config profile :
  NewSigningProfile config = Ok profile ->
  s_components profile = S_CoveredComponents config /\
  Forall (fun c => is_Ok (componentComparisonKey c) = true /\ validProfileComponent c = true)
    (s_components profile) /\
  NoDup (map comparison_key (s_components profile)) /\
  (s_components profile = [] -> s_allowEmptyCoverage profile = true).
Proof.
  unfold NewSigningProfile. cbv zeta. case_match; [done |]. destruct (_ && negb _) eqn:Hne; [done |].
  case_match; [done |]. case_match; [done |].
  intros (algs & _ & (cs & Hcs & [= <-])%rbind_Ok)%rbind_Ok. cbn.
  destruct (component_list_Ok _ _ _ _ Hcs) as (-> & Hf & Hnd & _).
  repeat split; try done. intros Hnil. rewrite Hnil in Hne. cbn in Hne. by apply negb_false_iff in Hne.
Qed.

(** ** Combining signed fields *)

(** One label pair that may be combined. *)
Definition combinable (signed : SignedFields) : Prop :=
  validSignatureLabel (InputLabel (signed_input signed)) = true /\
  SignatureLabel (signed_signature signed) = InputLabel (signed_input signed) /\
  SignatureBytes (signed_signature signed) <> [].

Definition bare_signature (signed : SignedFields) : SignatureValue :=
  mkSignatureValue (SignatureLabel (signed_signature signed))
    (SignatureBytes (signed_signature signed)) [].

Lemma combine_loop_spec seen fields :
  combine_loop seen fields = Ok (map signed_input fields, map bare_signature fields) /\
    Forall combinable fields /\ NoDup (map (fun s => InputLabel (signed_input s)) fields) /\
    (forall s, s ∈ fields -> InputLabel (signed_input s) ∉ seen) \/
  combine_loop seen fields = Err (Sentinel ErrInvalidSignedFields) /\
    ~ (Forall combinable fields /\ NoDup (map (fun s => InputLabel (signed_input s)) fields) /\
       (forall s, s ∈ fields -> InputLabel (signed_input s) ∉ seen)).
Proof.
  revert seen. induction fields as [| s l IH]; intros seen; cbn [combine_loop].
  { left. repeat split; try constructor. intros s Hs. by apply elem_of_nil in Hs. }
  rewrite cloneSignatureInput_id. cbn [map].
  destruct (negb (validSignatureLabel (InputLabel (signed_input s))) || _ || _) eqn:Hbad.
  { right. split; [done |]. intros ([(Hl & Hsl & Hb) _]%list.Forall_cons & _).
    rewrite Hl, Hsl in Hbad. cbn in Hbad. rewrite bool_decide_eq_true_2 in Hbad by done.
    cbn in Hbad. apply Z.eqb_eq, len_0 in Hbad. done. }
  bool_to_prop.
  case_bool_decide as Hin.
  { right. split; [done |]. intros (_ & _ & Hn). by destruct (Hn s (list_elem_of_here _ _)). }
  assert (combinable s) as Hs.
  { split; [done |]. split; [done |]. intros Hnil. rewrite Hnil in *. done. }
  rewrite list.Forall_cons, list.NoDup_cons.
  destruct (IH ({[InputLabel (signed_input s)]} ∪ seen)) as [(-> & Hf & Hnd & Hn) | (-> & Hno)].
  - left. split; [done |]. split; [done |]. split; [split; [| done] |].
    + intros (s' & Heq & Hs')%list_elem_of_In%in_map_iff. apply list_elem_of_In in Hs'.
      specialize (Hn s' Hs'). cbn in Heq. rewrite Heq in Hn. set_solver.
    + intros s' [-> | Hs']%elem_of_cons; [done |]. specialize (Hn s' Hs'). set_solver.
  - right. split; [done |]. intros ([_ Hf] & [Hnew Hnd] & Hn). apply Hno. split; [done |]. split; [done |].
    intros s' Hs' Hx. apply elem_of_union in Hx as [Heq%elem_of_singleton | Hx].
    + apply Hnew. rewrite <- Heq. apply list_elem_of_In, in_map_iff. exists s'.
      split; [done | by apply list_elem_of_In].
    + by apply (Hn s' (list_elem_of_further _ _ _ Hs')).
Qed.

(** Field pairs combine exactly when there is at least one, every pair
    has a valid label common to both halves and a non-empty signature, and
    the labels are pairwise different; the result keeps the caller's order,
    and every refusal is [ErrInvalidSignedFields]. *)
Theorem CombineSignedFields_exact fields :
  (fields <> [] /\ Forall combinable fields /\
   NoDup (map (fun s => InputLabel (signed_input s)) fields) /\
   CombineSignedFields fields = Ok (map signed_input fields, map bare_signature fields)) \/
  (~ (fields <> [] /\ Forall combinable fields /\
      NoDup (map (fun s => InputLabel (signed_input s)) fields)) /\
   CombineSignedFields fields = Err (Sentinel ErrInvalidSignedFields)).
Proof.
  unfold CombineSignedFields. destruct (len fields =? 0) eqn:H0.
  { right. split; [| done]. intros (Hne & _). apply Hne, len_0. lia. }
  assert (fields <> []) by (intros ->; done).
  destruct (combine_loop_spec ∅ fields) as [(Hc & ? & ? & _) | (Hc & Hno)].
  - left. done.
  - right. split; [| done]. intros (_ & ? & ?). apply Hno. split; [done |]. split; [done |]. set_solver.
Qed.
End Profiles.

(** ** The signed metadata *)

Section Metadata.
Context (profile : SigningProfile) (options : SigningOptions) (key : SigningKey) (now : Time).
Context (label : gostring) (components : list ComponentIdentifier).

Let input := mkSignatureInput label components (signing_parameters profile options key now).
Let required (p : ParameterPolicy) {A} (a : A) : option A :=
  if policy_is p ParameterRequired then Some a else None.

Ltac lookup :=
  unfold integerParameter, stringParameter, input, signing_parameters, required;
  cbn [InputParameters];
  destruct (policy_is (s_expires profile) ParameterRequired),
    (policy_is (s_nonce profile) ParameterRequired),
    (policy_is (s_algorithmParameter profile) ParameterRequired),
    (policy_is (s_tag profile) ParameterRequired); reflexivity.

Lemma signed_created : integerParameter input "created" = Some (Unix now).
Proof. lookup. Qed.
Lemma signed_expires :
  integerParameter input "expires" = required (s_expires profile) (Unix (Add now (s_lifetime profile))).
Proof. lookup. Qed.
Lemma signed_nonce :
  stringParameter input "nonce" = required (s_nonce profile) (OptionNonce options).
Proof. lookup. Qed.
Lemma signed_keyid : stringParameter input "keyid" = Some (SigningKeyID key).
Proof. lookup. Qed.
Lemma signed_alg :
  stringParameter input "alg" = required (s_algorithmParameter profile) (SigningAlgorithm key).
Proof. lookup. Qed.
Lemma signed_tag :
  stringParameter input "tag" = required (s_tag profile) (s_tagValue profile).
Proof. lookup. Qed.
End Metadata.

(** ** End to end *)

Section EndToEnd.
Context `{SFV : Httpsfv} `{UC : UnicodeCase} `{NU : NetURL} `{CR : Crypto} `{CL : !CryptoLaws}.
Context {S Obs : Type} `{RS : ReplayStore S Obs}.

(** What a successful [Sign] establishes. *)
Lemma Signer_Sign_Ok profile obs message label options signed :
  Signer_Sign (Some profile) obs message label options = Some (Ok signed) ->
  let '(key, providerErr) := provider_result obs in
  let now := sign_now obs in
  let input :=
    mkSignatureInput label (s_components profile) (signing_parameters profile options key now) in
  providerErr = None /\ validSignatureLabel label = true /\
  (s_requireExternalRequest profile = true -> ExternalRequest message <> None) /\
  (s_nonce profile = ParameterRequired -> OptionNonce options <> []) /\
  SigningKeyID key <> [] /\ SigningRevoked key = false /\
  SigningNotBefore key <= now < SigningNotAfter key /\
  (s_expires profile = ParameterRequired -> now + s_lifetime profile <= SigningNotAfter key) /\
  SigningAlgorithm key ∈ s_algorithms profile /\
  exists base value, CreateSignatureBase message input = Ok base /\
    (exists cobs, Sign cobs (SigningAlgorithm key) (SigningMaterial key) base = Some (Ok value)) /\
    signed = mkSigned input (mkSignatureValue label value []).
Proof.
  unfold Signer_Sign. destruct (sign_ctx_nil obs); [done |]. destruct (sign_ctx_err obs); [done |].
  destruct (validSignatureLabel label) eqn:Hl; cbn [negb]; [| done].
  destruct (s_requireExternalRequest profile && is_nil (ExternalRequest message)) eqn:Hx; [done |].
  destruct (policy_is (s_nonce profile) ParameterRequired && _ || _) eqn:Hn; [done |].
  destruct (provider_result obs) as [key perr]. destruct (resolve_ctx_err obs); [done |].
  destruct perr; cbn [is_nil negb]; [done |]. cbv zeta.
  destruct (unusable_signing_key key (sign_now obs)) eqn:Hu; [done |].
  destruct (bool_decide (SigningAlgorithm key ∈ s_algorithms profile)) eqn:Ha; cbn [negb]; [| done].
  destruct (policy_is (s_expires profile) ParameterRequired && After _ _) eqn:He; [done |].
  destruct (CreateSignatureBase message _) as [base |] eqn:Hb; [| done].
  destruct (Sign _ _ _ base) as [[value |] |] eqn:Hs; [| done | done].
  cbn [mbind option_bind]. intros [= <-]. rewrite cloneSignatureInput_id.
  unfold unusable_signing_key, After, Before, IsZero, Add in *. bool_to_prop.
  split; [done |]. split; [done |]. split.
  { intros Hr Hnil. by rewrite Hr, Hnil in Hx. }
  split.
  { intros Hr Hnil. rewrite Hr, Hnil in *. done. }
  split; [done |]. split; [done |]. split; [lia |]. split.
  { intros Hr. rewrite Hr in He. change (policy_is ParameterRequired ParameterRequired) with true in He. lia. }
  split; [done |]. exists base, value. eauto.
Qed.

(** The verification key the resolver must return for a signing key. *)
Record key_published (vprofile : VerificationProfile) (now created : Time) (key : SigningKey)
  (resolved : ResolvedKey) : Prop := {
  pub_algorithm : ResolvedAlgorithm resolved = SigningAlgorithm key;
  pub_allowed : SigningAlgorithm key ∈ v_algorithms vprofile;
  pub_material : verification_key (SigningMaterial key) = Some (ResolvedMaterial resolved);
  pub_usable : unusable_key vprofile now resolved created = false
}.

Definition required_value {A} (p : ParameterPolicy) (a : A) : option A :=
  if policy_is p ParameterRequired then Some a else None.

(** The instants the verifier derives from what was signed at [now]. *)
Definition created_instant (now : Time) : Time := time_Unix (Unix now).
Definition expires_instant (profile : SigningProfile) (now : Time) : Time :=
  time_Unix (Unix (Add now (s_lifetime profile))).

(** The verification policy admits what the signing profile emits. *)
Record policy_admits (sprofile : SigningProfile) (vprofile : VerificationProfile)
  (message : MessageContext) : Prop := {
  adm_external : v_requireExternalRequest vprofile = true -> ExternalRequest message <> None;
  adm_components : forall c, c ∈ v_requiredComponents vprofile -> exists c',
    c' ∈ s_components sprofile /\ componentComparisonKey c' = Ok (comparison_key c);
  adm_empty : s_components sprofile = [] -> v_allowEmptyCoverage vprofile = true;
  adm_created : presenceAllowed (v_created vprofile) true = true;
  adm_expires : presenceAllowed (v_expires vprofile) (policy_is (s_expires sprofile) ParameterRequired) = true;
  adm_alg : presenceAllowed (v_algorithmParameter vprofile)
              (policy_is (s_algorithmParameter sprofile) ParameterRequired) = true;
  adm_nonce : presenceAllowed (v_nonce vprofile) (policy_is (s_nonce sprofile) ParameterRequired) = true;
  adm_replay : s_nonce sprofile = ParameterRequired -> v_has_replay vprofile = true;
  adm_tag : presenceAllowed (v_tag vprofile) (policy_is (s_tag sprofile) ParameterRequired) = true;
  adm_tag_value : s_tag sprofile = ParameterRequired -> s_tagValue sprofile ∈ v_allowedTags vprofile
}.

(** The verifier's clock reading is inside the window of a signature made at
    [signed]. *)
Record in_window (sprofile : SigningProfile) (vprofile : VerificationProfile) (signed now : Time)
  : Prop := {
  win_future : created_instant signed <= now + v_clockSkew vprofile;
  win_age : Sub now (created_instant signed) <= v_maxAge vprofile + v_clockSkew vprofile;
  win_expires : s_expires sprofile = ParameterRequired ->
    now < expires_instant sprofile signed + v_clockSkew vprofile /\
    created_instant signed < expires_instant sprofile signed
}.

(** How long the verifier retains the nonce. *)
Definition replay_expiration (sprofile : SigningProfile) (vprofile : VerificationProfile)
  (signed : Time) : Time :=
  let aged := created_instant signed + (v_maxAge vprofile + v_clockSkew vprofile) in
  let expired := expires_instant sprofile signed + v_clockSkew vprofile in
  if policy_is (s_expires sprofile) ParameterRequired
  then if (aged =? 0) || (expired <? aged) then expired else aged
  else aged.

Lemma covered_set_total components :
  Forall (fun c => is_Ok (componentComparisonKey c) = true) components ->
  exists covered, covered_set components = Ok covered.
Proof.
  induction 1 as [| c l Hc _ [cov IH]]; [by exists ∅ |]. cbn [covered_set].
  destruct (componentComparisonKey c); [| done]. rewrite IH. by eexists.
Qed.

Lemma required_value_cases {A} p (a : A) :
  p = ParameterRequired /\ required_value p a = Some a /\ policy_is p ParameterRequired = true \/
  p <> ParameterRequired /\ required_value p a = None /\ policy_is p ParameterRequired = false.
Proof.
  unfold required_value, policy_is. case_bool_decide; [left | right]; done.
Qed.

(** The metadata the verifier extracts from what was signed. *)
Definition signed_metadata (sprofile : SigningProfile) (vprofile : VerificationProfile)
  (options : SigningOptions) (key : SigningKey) (label : gostring) (signed : Time)
  : validatedMetadata :=
  mkMetadata
    (mkVerified label (SigningKeyID key) [] (created_instant signed)
       (if policy_is (s_expires sprofile) ParameterRequired then expires_instant sprofile signed else 0))
    (SigningKeyID key)
    (default [] (required_value (s_nonce sprofile) (OptionNonce options)))
    (default [] (required_value (s_algorithmParameter sprofile) (SigningAlgorithm key)))
    (policy_is (s_algorithmParameter sprofile) ParameterRequired)
    (replay_expiration sprofile vprofile signed).

Lemma validate_signed_times sprofile vprofile now t :
  presenceAllowed (v_created vprofile) true = true ->
  presenceAllowed (v_expires vprofile) (policy_is (s_expires sprofile) ParameterRequired) = true ->
  in_window sprofile vprofile t now ->
  validate_created vprofile now (Some (Unix t)) =
    Ok (created_instant t, created_instant t + (v_maxAge vprofile + v_clockSkew vprofile)) /\
  validate_expires vprofile now (Some (created_instant t))
    (created_instant t + (v_maxAge vprofile + v_clockSkew vprofile))
    (required_value (s_expires sprofile) (Unix (Add t (s_lifetime sprofile)))) =
    Ok (if policy_is (s_expires sprofile) ParameterRequired then expires_instant sprofile t else 0,
        replay_expiration sprofile vprofile t).
Proof.
  intros Hc He [Hw1 Hw2 Hw3]. split.
  - apply validate_created_Ok. repeat split; done.
  - apply validate_expires_Ok. unfold replay_expiration.
    destruct (required_value_cases (s_expires sprofile) (Unix (Add t (s_lifetime sprofile))))
      as [(Hp & -> & Hr) | (Hp & -> & Hr)]; rewrite Hr in *; (split; [exact He |]); [| done].
    destruct (Hw3 Hp). split; [done |]. split; [done |]. split; [| done]. by intros c [= <-].
Qed.

Lemma required_presence {A} (p : ParameterPolicy) (a : A) :
  negb (is_nil (required_value p a)) = policy_is p ParameterRequired.
Proof. destruct (required_value_cases p a) as [(_ & -> & ->) | (_ & -> & ->)]; done. Qed.

Lemma validateInput_signed sprofile vprofile message options key label t now :
  Forall (fun c => is_Ok (componentComparisonKey c) = true) (s_components sprofile) ->
  policy_admits sprofile vprofile message ->
  in_window sprofile vprofile t now ->
  (s_algorithmParameter sprofile = ParameterRequired -> SigningAlgorithm key ∈ v_algorithms vprofile) ->
  SigningKeyID key <> [] ->
  (s_nonce sprofile = ParameterRequired ->
     OptionNonce options <> [] /\ replay_expiration sprofile vprofile t <> 0) ->
  validateInput vprofile now
    (mkSignatureInput label (s_components sprofile) (signing_parameters sprofile options key t)) =
  Ok (signed_metadata sprofile vprofile options key label t).
Proof.
  intros Hkeys [_ Hcov Hempty Hc He Ha Hn _ Ht Htv] Hw Halg Hkid Hnonce.
  destruct (covered_set_total _ Hkeys) as [covered Hcs].
  destruct (covered_set_Ok _ _ Hcs) as [_ Hin].
  destruct (validate_signed_times sprofile vprofile now t Hc He Hw) as [H1 H2].
  unfold validateInput. cbn [Components InputLabel]. rewrite Hcs.
  rewrite signed_created, signed_expires, signed_alg, signed_keyid, signed_nonce, signed_tag.
  fold (@required_value Z) (@required_value gostring).
  change (if policy_is ?p ParameterRequired then Some ?a else None) with (required_value p a).
  assert ((len (s_components sprofile) =? 0) && negb (v_allowEmptyCoverage vprofile) = false) as ->.
  { destruct (len (s_components sprofile) =? 0) eqn:H0; [| done].
    rewrite Hempty; [done |]. apply len_0. lia. }
  cbn [rbind].
  assert (forallb (fun c => bool_decide (comparison_key c ∈ covered)) (v_requiredComponents vprofile) = true) as ->.
  { apply forallb_forall. intros c Hc'%list_elem_of_In. apply bool_decide_eq_true, Hin.
    destruct (Hcov c Hc') as (c' & ? & ?). eauto. }
  cbn [negb]. cbv zeta. rewrite H1. cbn [rbind]. rewrite H2. cbn [rbind].
  rewrite !required_presence, Ha, Hn, Ht. cbn [negb orb default].
  change (id ?x) with x. rewrite (bool_decide_eq_false_2 (SigningKeyID key = [])) by done.
  unfold signed_metadata.
  destruct (required_value_cases (s_algorithmParameter sprofile) (SigningAlgorithm key))
    as [(Hp & -> & ->) | (_ & -> & ->)];
    rewrite ?(bool_decide_eq_true_2 (SigningAlgorithm key ∈ v_algorithms vprofile)) by auto;
    cbn [negb default];
  (destruct (required_value_cases (s_nonce sprofile) (OptionNonce options))
    as [(Hq & -> & ->) | (_ & -> & ->)]; cbn [default andb];
   [destruct (Hnonce Hq) as [Hne Hz]; change (id ?x) with x; unfold IsZero;
    rewrite (bool_decide_eq_false_2 (OptionNonce options = [])), (proj2 (Z.eqb_neq _ _) Hz) by done
   |]);
  (destruct (required_value_cases (s_tag sprofile) (s_tagValue sprofile))
    as [(Hr & -> & _) | (_ & -> & _)]; [rewrite bool_decide_eq_true_2 by auto |]; done).
Qed.

(** A verifying call whose context, resolver and replay backend raise nothing. *)
Record undisturbed (obs : VerificationObservation (Obs := Obs)) : Prop := {
  quiet_nil : verify_ctx_nil obs = false;
  quiet_ctx : verify_ctx_err obs = None;
  quiet_resolve : resolve_context_err obs = None;
  quiet_before : crypto_err_before obs = None;
  quiet_after : crypto_err_after obs = None;
  quiet_replay : replay_context_err obs = None
}.

(** What the replay store answers to the signed nonce, if there is one. *)
Definition nonce_accepted (sprofile : SigningProfile) (vprofile : VerificationProfile)
  (obs : VerificationObservation (Obs := Obs)) (store store' : S) (key : SigningKey)
  (options : SigningOptions) (signed : Time) : Prop :=
  if policy_is (s_nonce sprofile) ParameterRequired
  then replay_expiration sprofile vprofile signed <> 0 /\
    replay_Consume store (replay_observation obs)
      (mkReplayRecord (SigningKeyID key) (OptionNonce options)
         (replay_expiration sprofile vprofile signed)) = Some (store', None)
  else store' = store.

Lemma selectSignature_single label input value :
  InputLabel input = label -> label <> [] ->
  selectSignature label [input] [mkSignatureValue label value []] =
    Some (input, mkSignatureValue label value []) /\
  matchingLabelSets [input] [mkSignatureValue label value []] = true.
Proof.
  intros <- Hne. unfold selectSignature, matchingLabelSets. cbn -[list_to_set].
  rewrite !(bool_decide_eq_true_2 (InputLabel input = InputLabel input)) by done.
  rewrite cloneSignatureInput_id. split; [done |].
  rewrite bool_decide_eq_true_2; [done |]. set_solver.
Qed.

Lemma authenticate_signed vprofile obs metadata base signature key resolved cobs now :
  resolve obs (m_keyID metadata) = (resolved, None) -> undisturbed obs ->
  key_published vprofile (now_key obs) (VerifiedCreated (m_result metadata)) key resolved ->
  (m_hasAlgorithm metadata = true -> m_algorithm metadata = SigningAlgorithm key) ->
  Sign cobs (SigningAlgorithm key) (SigningMaterial key) base = Some (Ok signature) ->
  now = now_key obs ->
  authenticate vprofile obs metadata base signature =
    Ok (with_algorithm (m_result metadata) (SigningAlgorithm key)).
Proof.
  intros Hres [] [Hpa Hal Hpm Hpu] Halg Hsign ->. unfold authenticate. rewrite Hres, quiet_resolve0.
  rewrite (proj2 (validateKey_None _ _ _ _ _ _)).
  2: { rewrite Hpa. done. }
  apply Sign_Ok in Hsign.
  destruct (switch_roundtrip (entropy cobs) (SigningAlgorithm key) (SigningMaterial key) base)
    as (r & Hr & Hv). rewrite Hsign in Hr. injection Hr as <-.
  destruct (Hv signature eq_refl) as (public & Hpub & Hvs). rewrite Hpm in Hpub. injection Hpub as <-.
  rewrite Hpa, Verify_valid; done.
Qed.

Lemma signer_verifies config sprofile vprofile sobs vobs store store' message label
    options signed resolved :
  NewSigningProfile config = Ok sprofile ->
  Signer_Sign (Some sprofile) sobs message label options = Some (Ok signed) ->
  policy_admits sprofile vprofile message ->
  in_window sprofile vprofile (sign_now sobs) (now_input vobs) ->
  undisturbed vobs ->
  resolve vobs (SigningKeyID (fst (provider_result sobs))) = (resolved, None) ->
  key_published vprofile (now_key vobs) (created_instant (sign_now sobs))
    (fst (provider_result sobs)) resolved ->
  nonce_accepted sprofile vprofile vobs store store' (fst (provider_result sobs)) options
    (sign_now sobs) ->
  Verifier_Verify (Some vprofile) vobs store message label
    [signed_input signed] [signed_signature signed] =
  Some (store', Ok (mkVerified label (SigningKeyID (fst (provider_result sobs)))
    (SigningAlgorithm (fst (provider_result sobs))) (created_instant (sign_now sobs))
    (if policy_is (s_expires sprofile) ParameterRequired
     then expires_instant sprofile (sign_now sobs) else 0))).
Proof.
  intros Hnew Hsign Hadm Hwin Hquiet Hres Hpub Hnonce.
  apply NewSigningProfile_Ok in Hnew as (_ & Hkeys & _ & _).
  apply Signer_Sign_Ok in Hsign. destruct (provider_result sobs) as [key perr]. cbn [fst] in *.
  cbv zeta in Hsign.
  destruct Hsign as (_ & Hlabel & _ & Hopt & Hkid & _ & _ & _ & _ & base & value & Hbase & [cobs Hs] & ->).
  cbn [signed_input signed_signature].
  assert (label <> []) as Hne by (intros ->; done).
  set (input := mkSignatureInput label _ _) in *.
  destruct (selectSignature_single label input value eq_refl Hne) as [Hsel Hmatch].
  pose proof Hquiet as []. unfold Verifier_Verify.
  rewrite quiet_nil0, quiet_ctx0, bool_decide_eq_false_2, Hmatch, Hsel by done. cbn [negb].
  assert (v_requireExternalRequest vprofile && is_nil (ExternalRequest message) = false) as ->.
  { pose proof (adm_external _ _ _ Hadm). destruct (v_requireExternalRequest vprofile); [| done].
    destruct (ExternalRequest message); [done |]. by destruct (H eq_refl). }
  unfold input at 1. rewrite (validateInput_signed sprofile vprofile message); [| | done | done | | done |].
  - rewrite Hbase. cbn [SignatureBytes].
    rewrite (authenticate_signed _ _ _ _ _ key resolved cobs (now_key vobs));
      [| done | done | done | | done | done].
    + unfold consume_nonce, nonce_accepted in *. cbn [m_nonce signed_metadata].
      destruct (required_value_cases (s_nonce sprofile) (OptionNonce options))
        as [(Hp & -> & Hr) | (Hp & -> & Hr)]; rewrite Hr in Hnonce; cbn [default].
      * change (id (OptionNonce options)) with (OptionNonce options).
        rewrite bool_decide_eq_false_2 by auto. rewrite (adm_replay _ _ _ Hadm Hp). cbn [negb].
        unfold replay_record. cbn [m_keyID m_nonce m_replayExpires signed_metadata].
        destruct (required_value_cases (s_nonce sprofile) (OptionNonce options))
          as [(_ & -> & _) | (? & _ & _)]; [| done]. cbn [default].
        change (id (OptionNonce options)) with (OptionNonce options).
        destruct Hnonce as [_ ->]. cbn [mbind option_bind]. by rewrite quiet_replay0.
      * subst store'. by rewrite bool_decide_eq_true_2.
    + cbn [m_hasAlgorithm m_algorithm signed_metadata]. intros Hp.
      by destruct (required_value_cases (s_algorithmParameter sprofile) (SigningAlgorithm key))
        as [(_ & -> & _) | (_ & _ & ?)]; [| congruence].
  - revert Hkeys. apply List.Forall_impl. by intros c [? _].
  - intros _. apply Hpub.
  - intros Hp. split; [auto |]. unfold nonce_accepted in Hnonce.
    rewrite Hp in Hnonce. by destruct Hnonce.
Qed.

(** C4: what the signer signs, the verifier verifies.  Let a constructed
    signing profile sign a message, and let a verification profile admit
    what the signing profile emits, the verifier's clock lie in the window of
    the signature, the resolver return the published half of the signing
    key, and the replay store accept the nonce when one is signed.  Then
    [Verify] of the same message with the signed pair succeeds, and reports
    the signed label, key, algorithm and times. *)
Theorem signed_message_verifies config sprofile vprofile sobs vobs store store' message label
    options signed resolved :
  NewSigningProfile config = Ok sprofile ->
  Signer_Sign (Some sprofile) sobs message label options = Some (Ok signed) ->
  policy_admits sprofile vprofile message ->
  in_window sprofile vprofile (sign_now sobs) (now_input vobs) ->
  undisturbed vobs ->
  resolve vobs (SigningKeyID (fst (provider_result sobs))) = (resolved, None) ->
  key_published vprofile (now_key vobs) (created_instant (sign_now sobs))
    (fst (provider_result sobs)) resolved ->
  nonce_accepted sprofile vprofile vobs store store' (fst (provider_result sobs)) options
    (sign_now sobs) ->
  Verifier_Verify (Some vprofile) vobs store message label
    [signed_input signed] [signed_signature signed] =
  Some (store', Ok (mkVerified label (SigningKeyID (fst (provider_result sobs)))
    (SigningAlgorithm (fst (provider_result sobs))) (created_instant (sign_now sobs))
    (if policy_is (s_expires sprofile) ParameterRequired
     then expires_instant sprofile (sign_now sobs) else 0))).
Proof. apply signer_verifies. Qed.
End EndToEnd.
