(* ===== verification/ProfileFacts.v ===== *)
(** * Profiles, and what they make of signing and verifying

    Exactly which configurations the constructors accept, that a verifier with
    a constructed profile always answers, and that what a signer emits is what
    its profile prescribes. *)

From S2P Require Import Prelude GoStrings Errors Httpsfv StructuredFieldSafe SignatureFields.
From S2P Require Import HttpTypes MessageDerived MessageBase GoTime Digest Replay ReplayStore.
From S2P Require Import Algorithm AlgorithmFacts Signer Verifier VerifierFacts SignerFacts.
Open Scope Z_scope.

(** ** Sets of tags and components *)

Lemma tag_set_Ok seen l tags :
  tag_set seen l = Ok tags <->
  Forall (fun t => t <> [] /\ validSFStringValue t = true) l /\ NoDup l /\
  (forall t, t ∈ l -> t ∉ seen) /\ tags = seen ∪ list_to_set l.
Proof.
  revert seen. induction l as [| t l IH]; intros seen; cbn [tag_set].
  { cbn [list_to_set]. rewrite (right_id_L ∅ (∪)). split.
    - intros [= <-]. split; [done |]. split; [constructor |]. split; [| done].
      intros t Ht. by apply elem_of_nil in Ht.
    - by intros (_ & _ & _ & ->). }
  rewrite list.NoDup_cons, list.Forall_cons.
  destruct ((t =s []) || negb (validSFStringValue t)) eqn:Ht.
  { split; [done |]. intros ([[Hne Hv] _] & _). rewrite Hv, bool_decide_eq_false_2 in Ht by done. done. }
  bool_to_prop. case_bool_decide as Hin.
  { split; [done |]. intros (_ & _ & Hn & _). by destruct (Hn t (list_elem_of_here _ _)). }
  rewrite IH. cbn [list_to_set]. split.
  - intros (Hf & Hnd & Hn & ->). repeat split; try done.
    + intros Hl. specialize (Hn t Hl). set_solver.
    + intros x [-> | Hx]%elem_of_cons; [done |]. specialize (Hn x Hx). set_solver.
    + set_solver.
  - intros ([_ Hf] & [Hnt Hnd] & Hn & ->). repeat split; try done; [| set_solver].
    intros x Hx. specialize (Hn x (list_elem_of_further _ _ _ Hx)). set_solver.
Qed.

Lemma tag_set_invalid seen l e :
  tag_set seen l = Err e -> e = Sentinel ErrInvalidVerificationProfile.
Proof.
  revert seen. induction l as [| a l IH]; intros seen; cbn [tag_set]; [done |].
  case_match; [by intros [= <-] |]. case_match; [by intros [= <-] |]. apply IH.
Qed.

Section Profiles.
Context `{SFV : Httpsfv}.

Lemma algorithm_set_invalid invalid seen l e : algorithm_set invalid seen l = Err e -> e = Sentinel invalid.
Proof.
  revert seen. induction l as [| a l IH]; intros seen; cbn [algorithm_set]; [done |].
  case_match; [by intros [= <-] |]. case_match; [by intros [= <-] |]. apply IH.
Qed.

Lemma component_list_invalid invalid seen l e : component_list invalid seen l = Err e -> e = Sentinel invalid.
Proof.
  revert seen. induction l as [| c l IH]; intros seen; cbn [component_list]; [done |].
  case_match; [| by intros [= <-]]. case_match; [by intros [= <-] |]. case_match; [by intros [= <-] |].
  unfold rbind. destruct (component_list _ _ l) eqn:Hl; [done |]. intros [= <-]. by eapply IH.
Qed.

(** Components a profile may name. *)
Definition profile_components (l : list ComponentIdentifier) : Prop :=
  Forall (fun c => is_Ok (componentComparisonKey c) = true /\ validProfileComponent c = true) l /\
  NoDup (map comparison_key l).

Lemma component_list_exact invalid l :
  (component_list invalid ∅ l = Ok l /\ profile_components l) \/
  (component_list invalid ∅ l = Err (Sentinel invalid) /\ ~ profile_components l).
Proof.
  destruct (component_list invalid ∅ l) as [cs | e] eqn:Hcs.
  { left. destruct (component_list_Ok _ _ _ _ Hcs) as (-> & Hf & Hnd & _). done. }
  right. split; [f_equal; by eapply component_list_invalid |]. intros [Hf Hnd].
  enough (forall seen, (forall c, c ∈ l -> comparison_key c ∉ seen) ->
    is_Ok (component_list invalid seen l) = true) as Hok.
  { specialize (Hok ∅ ltac:(set_solver)). by rewrite Hcs in Hok. }
  clear Hcs. induction Hf as [| c l [Hk Hv] _ IH]; intros seen Hseen; [done |]. cbn [component_list].
  cbn [map] in Hnd. apply list.NoDup_cons in Hnd as [Hc Hnd].
  destruct (componentComparisonKey c) as [k |] eqn:Hck; [| done].
  assert (comparison_key c = k) as Hkey by (unfold comparison_key; by rewrite Hck).
  rewrite Hv. cbn [negb]. rewrite bool_decide_eq_false_2.
  2: { rewrite <- Hkey. apply Hseen, list_elem_of_here. }
  specialize (IH Hnd ({[k]} ∪ seen)). destruct (component_list invalid ({[k]} ∪ seen) l); [done |].
  apply IH. intros x Hx. apply not_elem_of_union. split.
  - rewrite elem_of_singleton. intros Heq. apply Hc. rewrite Hkey, <- Heq.
    apply list_elem_of_In, in_map, list_elem_of_In, Hx.
  - apply Hseen. by apply list_elem_of_further.
Qed.

(** Algorithms a profile may name. *)
Definition profile_algorithms (l : list Algorithm) : Prop :=
  l <> [] /\ Forall (fun a => supportedAlgorithm a = true) l /\ NoDup l.

(** ** The constructors *)

(** The configurations [NewSigningProfile] is meant to accept. *)
Record signing_config_ok (c : SigningProfileConfig) : Prop := {
  sc_algorithms : profile_algorithms (S_AllowedAlgorithms c);
  sc_components : profile_components (S_CoveredComponents c);
  sc_coverage : S_CoveredComponents c = [] -> S_AllowEmptyCoverage c = true;
  sc_owners : S_HasNow c = true /\ S_HasProvider c = true /\ 0 < S_ResolveTimeout c;
  sc_policies : Forall (fun p => p = ParameterForbidden \/ p = ParameterRequired)
    [S_Expires c; S_AlgorithmParameter c; S_Nonce c; S_Tag c];
  sc_lifetime : if policy_is (S_Expires c) ParameterRequired
    then Second <= S_Lifetime c /\ S_Lifetime c mod Second = 0 else S_Lifetime c = 0;
  sc_tag : if policy_is (S_Tag c) ParameterRequired
    then S_TagValue c <> [] /\ validSFStringValue (S_TagValue c) = true else S_TagValue c = []
}.

Definition signing_profile_of (c : SigningProfileConfig) : SigningProfile := {|
  s_algorithms := list_to_set (S_AllowedAlgorithms c);
  s_components := S_CoveredComponents c;
  s_allowEmptyCoverage := S_AllowEmptyCoverage c;
  s_expires := S_Expires c;
  s_algorithmParameter := S_AlgorithmParameter c;
  s_nonce := S_Nonce c;
  s_tag := S_Tag c;
  s_tagValue := S_TagValue c;
  s_lifetime := S_Lifetime c;
  s_resolveTimeout := S_ResolveTimeout c;
  s_requireExternalRequest := S_RequireExternalRequestContext c
|}.

Lemma algorithm_set_exact invalid l :
  l <> [] ->
  (algorithm_set invalid ∅ l = Ok (list_to_set l) /\ profile_algorithms l) \/
  (algorithm_set invalid ∅ l = Err (Sentinel invalid) /\ ~ profile_algorithms l).
Proof.
  intros Hne. destruct (algorithm_set invalid ∅ l) as [s | e] eqn:Hs.
  - apply algorithm_set_Ok in Hs as (Hf & Hnd & _ & ->). left. rewrite (left_id_L ∅ (∪)). done.
  - right. split; [f_equal; by eapply algorithm_set_invalid |]. intros (_ & Hf & Hnd).
    assert (algorithm_set invalid ∅ l = Ok (∅ ∪ list_to_set l)) as Hs'.
    { apply algorithm_set_Ok. split; [done |]. split; [done |]. split; [| done].
      intros a _. apply not_elem_of_empty. }
    congruence.
Qed.

Lemma signing_policy_cases p :
  signingParameterPolicy p = true <-> p = ParameterForbidden \/ p = ParameterRequired.
Proof. unfold signingParameterPolicy, policy_is. destruct p; cbn; naive_solver. Qed.

(** The next guard of a constructor; a configuration that meets the condition
    of a guard passes it. *)
Ltac next_guard H :=
  match goal with |- context [if ?g then _ else _] => destruct g eqn:H end.
Ltac refute_guard H iff := apply not_false_iff_true in H; apply H; by apply iff.

(** The guards of both constructors, as conditions. *)
Lemma coverage_guard (l : list ComponentIdentifier) allow :
  (len l =? 0) && negb allow = false <-> (l = [] -> allow = true).
Proof.
  rewrite andb_false_iff, Z.eqb_neq, len_0, negb_false_iff.
  split; [naive_solver |]. intros H. destruct l; [right; by apply H | by left].
Qed.

Ltac policy_simpl :=
  change (policy_is ParameterForbidden ParameterForbidden) with true;
  change (policy_is ParameterRequired ParameterRequired) with true;
  change (policy_is ParameterForbidden ParameterRequired) with false;
  change (policy_is ParameterRequired ParameterForbidden) with false;
  cbn [andb orb]; cbv beta iota.

Lemma lifetime_guard p lifetime :
  p = ParameterForbidden \/ p = ParameterRequired ->
  policy_is p ParameterRequired && ((lifetime <? Second) || negb (Z.rem lifetime Second =? 0)) ||
  policy_is p ParameterForbidden && negb (lifetime =? 0) = false <->
  (if policy_is p ParameterRequired then Second <= lifetime /\ lifetime mod Second = 0 else lifetime = 0).
Proof.
  assert (0 < Second) by done. intros [-> | ->].
  - policy_simpl. rewrite negb_false_iff. apply Z.eqb_eq.
  - policy_simpl. rewrite orb_false_r, orb_false_iff, negb_false_iff, Z.ltb_ge, Z.eqb_eq. split; intros [Hl Hr].
    + split; [done |]. rewrite Z.rem_mod_nonneg in Hr by lia. done.
    + split; [done |]. rewrite Z.rem_mod_nonneg by lia. done.
Qed.

Lemma tag_guard p tag :
  p = ParameterForbidden \/ p = ParameterRequired ->
  policy_is p ParameterRequired && ((tag =s []) || negb (validSFStringValue tag)) ||
  policy_is p ParameterForbidden && (tag <>s []) = false <->
  (if policy_is p ParameterRequired then tag <> [] /\ validSFStringValue tag = true else tag = []).
Proof.
  intros [-> | ->].
  - policy_simpl. rewrite negb_false_iff. apply bool_decide_eq_true.
  - policy_simpl. rewrite orb_false_r, orb_false_iff, negb_false_iff. by rewrite bool_decide_eq_false.
Qed.

Lemma signing_owner_guard c :
  (len (S_AllowedAlgorithms c) =? 0) || negb (S_HasNow c) ||
  negb (S_HasProvider c) || (S_ResolveTimeout c <=? 0) ||
  negb (signingParameterPolicy (S_Expires c)) ||
  negb (signingParameterPolicy (S_AlgorithmParameter c)) ||
  negb (signingParameterPolicy (S_Nonce c)) || negb (signingParameterPolicy (S_Tag c)) = false <->
  S_AllowedAlgorithms c <> [] /\ (S_HasNow c = true /\ S_HasProvider c = true /\ 0 < S_ResolveTimeout c) /\
  Forall (fun p => p = ParameterForbidden \/ p = ParameterRequired)
    [S_Expires c; S_AlgorithmParameter c; S_Nonce c; S_Tag c].
Proof.
  rewrite !orb_false_iff, !negb_false_iff, Z.leb_gt, Z.eqb_neq, len_0, !signing_policy_cases.
  rewrite !list.Forall_cons. split; [intros H | intros H]; naive_solver.
Qed.

Lemma NewSigningProfile_cases c :
  (signing_config_ok c /\ NewSigningProfile c = Ok (signing_profile_of c)) \/
  (~ signing_config_ok c /\ NewSigningProfile c = Err (Sentinel ErrInvalidSigningProfile)).
Proof.
  unfold NewSigningProfile. cbv zeta.
  next_guard Hguard; [by right; split; [intros [[]]; refute_guard Hguard signing_owner_guard |] |].
  apply signing_owner_guard in Hguard as (Hne & Howners & Hpolicies).
  pose proof Hpolicies as Hp. rewrite !list.Forall_cons in Hp. destruct Hp as (He & _ & _ & Ht & _).
  next_guard Hguard; [by right; split; [intros []; refute_guard Hguard coverage_guard |] |].
  rewrite coverage_guard in Hguard. rename Hguard into Hcoverage.
  next_guard Hguard; [by right; split; [intros []; refute_guard Hguard lifetime_guard |] |].
  rewrite lifetime_guard in Hguard by done. rename Hguard into Hlifetime.
  next_guard Hguard; [by right; split; [intros []; refute_guard Hguard tag_guard |] |].
  rewrite tag_guard in Hguard by done.
  destruct (algorithm_set_exact ErrInvalidSigningProfile _ Hne) as [[-> Ha] | [-> Hno]];
    [cbn [rbind] | by right; split; [intros [] |]].
  destruct (component_list_exact ErrInvalidSigningProfile (S_CoveredComponents c))
    as [[-> Hc] | [-> Hno]]; [cbn [rbind] | by right; split; [intros [] |]].
  by left.
Qed.

(** What makes a signing profile.  [NewSigningProfile] accepts exactly the
    configurations with supported, pairwise different algorithms, valid and
    pairwise different components, every owner present, required-or-forbidden
    policies and a lifetime of whole seconds and a tag exactly when the
    parameter is required; the profile holds the configuration unchanged. *)
Theorem NewSigningProfile_exact c :
  (signing_config_ok c /\ NewSigningProfile c = Ok (signing_profile_of c)) \/
  (~ signing_config_ok c /\ NewSigningProfile c = Err (Sentinel ErrInvalidSigningProfile)).
Proof. apply NewSigningProfile_cases. Qed.

(** The configurations [NewVerificationProfile] is meant to accept. *)
Record verification_config_ok (c : VerificationProfileConfig) : Prop := {
  vc_algorithms : profile_algorithms (V_AllowedAlgorithms c);
  vc_components : profile_components (V_RequiredComponents c);
  vc_coverage : V_RequiredComponents c = [] -> V_AllowEmptyCoverage c = true;
  vc_owners : V_HasNow c = true /\ V_HasResolver c = true /\ 0 < V_ResolveTimeout c;
  vc_skew : 0 <= V_ClockSkew c /\ V_MaxAge c <= maxDuration - V_ClockSkew c;
  vc_policies : Forall (fun p => p <> ParameterInvalid)
    [V_Created c; V_Expires c; V_AlgorithmParameter c; V_Nonce c; V_Tag c];
  vc_age : if policy_is (V_Created c) ParameterForbidden then V_MaxAge c = 0 else 0 < V_MaxAge c;
  vc_replay : if policy_is (V_Nonce c) ParameterForbidden
    then V_HasReplay c = false /\ V_ReplayTimeout c = 0
    else V_HasReplay c = true /\ 0 < V_ReplayTimeout c;
  vc_tags : Forall (fun t => t <> [] /\ validSFStringValue t = true) (V_AllowedTags c) /\
    NoDup (V_AllowedTags c) /\
    (if policy_is (V_Tag c) ParameterForbidden then V_AllowedTags c = [] else V_AllowedTags c <> [])
}.

Definition verification_profile_of (c : VerificationProfileConfig) : VerificationProfile := {|
  v_algorithms := list_to_set (V_AllowedAlgorithms c);
  v_requiredComponents := V_RequiredComponents c;
  v_allowEmptyCoverage := V_AllowEmptyCoverage c;
  v_created := V_Created c;
  v_expires := V_Expires c;
  v_algorithmParameter := V_AlgorithmParameter c;
  v_nonce := V_Nonce c;
  v_tag := V_Tag c;
  v_allowedTags := list_to_set (V_AllowedTags c);
  v_maxAge := V_MaxAge c;
  v_clockSkew := V_ClockSkew c;
  v_resolveTimeout := V_ResolveTimeout c;
  v_replayTimeout := V_ReplayTimeout c;
  v_has_replay := V_HasReplay c;
  v_requireExternalRequest := V_RequireExternalRequestContext c
|}.

Lemma valid_policy_cases p : validParameterPolicy p = true <-> p <> ParameterInvalid.
Proof. unfold validParameterPolicy, policy_is. rewrite negb_true_iff. apply bool_decide_eq_false. Qed.

(** A condition per case of a policy. *)
Lemma policy_guard (b x y : bool) :
  b && x || negb b && y = false <-> if b then x = false else y = false.
Proof. by destruct b, x, y. Qed.

Lemma verification_owner_guard c :
  (len (V_AllowedAlgorithms c) =? 0) || negb (V_HasNow c) ||
  negb (V_HasResolver c) || (V_ResolveTimeout c <=? 0) || (V_ClockSkew c <? 0) ||
  (maxDuration - V_ClockSkew c <? V_MaxAge c) ||
  negb (validParameterPolicy (V_Created c)) || negb (validParameterPolicy (V_Expires c)) ||
  negb (validParameterPolicy (V_AlgorithmParameter c)) ||
  negb (validParameterPolicy (V_Nonce c)) || negb (validParameterPolicy (V_Tag c)) = false <->
  V_AllowedAlgorithms c <> [] /\ (V_HasNow c = true /\ V_HasResolver c = true /\ 0 < V_ResolveTimeout c) /\
  (0 <= V_ClockSkew c /\ V_MaxAge c <= maxDuration - V_ClockSkew c) /\
  Forall (fun p => p <> ParameterInvalid)
    [V_Created c; V_Expires c; V_AlgorithmParameter c; V_Nonce c; V_Tag c].
Proof.
  rewrite !orb_false_iff, !negb_false_iff, Z.leb_gt, !Z.ltb_ge, Z.eqb_neq, len_0, !valid_policy_cases.
  rewrite !list.Forall_cons. split; intros H; naive_solver.
Qed.

Lemma age_guard b age :
  b && negb (age =? 0) || negb b && (age <=? 0) = false <-> if b then age = 0 else 0 < age.
Proof. destruct b; cbn [andb orb negb]; lia. Qed.

Lemma replay_guard b has timeout :
  b && (has || negb (timeout =? 0)) || negb b && (negb has || (timeout <=? 0)) = false <->
  if b then has = false /\ timeout = 0 else has = true /\ 0 < timeout.
Proof. destruct b, has; cbn [andb orb negb]; lia. Qed.

Lemma tags_guard b (tags : list gostring) :
  b && negb (len tags =? 0) || negb b && (len tags =? 0) = false <->
  if b then tags = [] else tags <> [].
Proof.
  rewrite policy_guard. destruct b; [| by rewrite Z.eqb_neq, len_0].
  by rewrite negb_false_iff, Z.eqb_eq, len_0.
Qed.

Lemma tag_set_exact l :
  (tag_set ∅ l = Ok (list_to_set l) /\ Forall (fun t => t <> [] /\ validSFStringValue t = true) l /\ NoDup l) \/
  (tag_set ∅ l = Err (Sentinel ErrInvalidVerificationProfile) /\
   ~ (Forall (fun t => t <> [] /\ validSFStringValue t = true) l /\ NoDup l)).
Proof.
  destruct (tag_set ∅ l) as [tags | e] eqn:Hs.
  - apply tag_set_Ok in Hs as (Hf & Hnd & _ & ->). left. by rewrite (left_id_L ∅ (∪)).
  - right. split; [f_equal; by eapply tag_set_invalid |]. intros [Hf Hnd].
    assert (tag_set ∅ l = Ok (∅ ∪ list_to_set l)) as Hs'.
    { apply tag_set_Ok. split; [done |]. split; [done |]. split; [| done].
      intros a _. apply not_elem_of_empty. }
    congruence.
Qed.

Lemma NewVerificationProfile_cases c :
  (verification_config_ok c /\ NewVerificationProfile c = Ok (verification_profile_of c)) \/
  (~ verification_config_ok c /\ NewVerificationProfile c = Err (Sentinel ErrInvalidVerificationProfile)).
Proof.
  unfold NewVerificationProfile. cbv zeta.
  next_guard Hguard; [by right; split; [intros [[]]; refute_guard Hguard verification_owner_guard |] |].
  apply verification_owner_guard in Hguard as (Hne & Howners & Hskew & Hpolicies).
  next_guard Hguard; [by right; split; [intros []; refute_guard Hguard age_guard |] |].
  rewrite age_guard in Hguard. rename Hguard into Hage.
  next_guard Hguard; [by right; split; [intros []; refute_guard Hguard replay_guard |] |].
  rewrite replay_guard in Hguard. rename Hguard into Hreplay.
  next_guard Hguard; [by right; split; [intros [? ? ? ? ? ? ? ? (_ & _ & ?)]; refute_guard Hguard tags_guard |] |].
  rewrite tags_guard in Hguard. rename Hguard into Htags.
  next_guard Hguard; [by right; split; [intros []; refute_guard Hguard coverage_guard |] |].
  rewrite coverage_guard in Hguard.
  destruct (algorithm_set_exact ErrInvalidVerificationProfile _ Hne) as [[-> Ha] | [-> Hno]];
    [cbn [rbind] | by right; split; [intros [] |]].
  destruct (component_list_exact ErrInvalidVerificationProfile (V_RequiredComponents c))
    as [[-> Hc] | [-> Hno]]; [cbn [rbind] | by right; split; [intros [] |]].
  destruct (tag_set_exact (V_AllowedTags c)) as [[-> Ht] | [-> Hno]].
  - left. split; [| done]. constructor; try done. naive_solver.
  - right. split; [| done]. intros []. naive_solver.
Qed.

(** What makes a verification profile.  [NewVerificationProfile] accepts
    exactly the configurations with supported, pairwise different algorithms,
    valid and pairwise different components, valid and pairwise different tags
    exactly when a tag may appear, a maximum age exactly when created may
    appear, a replay store with a timeout exactly when a nonce may appear, and
    an age and skew whose sum is a duration; the profile holds the
    configuration unchanged. *)
Theorem NewVerificationProfile_exact c :
  (verification_config_ok c /\ NewVerificationProfile c = Ok (verification_profile_of c)) \/
  (~ verification_config_ok c /\ NewVerificationProfile c = Err (Sentinel ErrInvalidVerificationProfile)).
Proof. apply NewVerificationProfile_cases. Qed.

(** ** Verifying under a constructed profile *)

Context `{UC : UnicodeCase} `{NU : NetURL} `{CR : Crypto}.
Context {S Obs : Type} `{RS : ReplayStore S Obs} `{RSL : !ReplayStoreLaws S Obs}.

(** A nonce passes the profile only where a replay store was configured. *)
Lemma nonce_has_replay config input metadata now :
  verification_config_ok config ->
  validateInput (verification_profile_of config) now input = Ok metadata ->
  m_nonce metadata <> [] -> V_HasReplay config = true.
Proof.
  intros Hok Hv%validateInput_Ok Hn. destruct (acc_nonce _ _ _ _ Hv) as [Hp Hm].
  pose proof (vc_replay _ Hok) as Hr. cbn [v_nonce verification_profile_of] in Hp.
  destruct (V_Nonce config); try by destruct Hr.
  destruct (stringParameter input "nonce"); [done | by destruct Hn].
Qed.

(** C33: verification always answers.  Under a constructed profile and against
    any replay store that obeys the laws, [Verify] neither panics nor
    diverges, whatever the message, the label, the fields, the resolver, the
    clock and the context; the store stays well-formed and its time does not
    go back. *)
Theorem Verify_total config profile obs (store : S) message label inputs signatures :
  NewVerificationProfile config = Ok profile -> store_wf store ->
  exists store' r,
    Verifier_Verify (Some profile) obs store message label inputs signatures = Some (store', r) /\
    store_wf store' /\ reached store <= reached store'.
Proof.
  intros Hnew Hwf. destruct (NewVerificationProfile_cases config) as [[Hok Hp] | [_ He]]; [| congruence].
  assert (profile = verification_profile_of config) as -> by congruence. clear Hnew Hp.
  assert (forall r : res VerifiedSignature, exists store' r', Some (store, r) = Some (store', r') /\
    store_wf store' /\ reached store <= reached store') as Hstay by (intros r; exists store, r; auto using Z.le_refl).
  unfold Verifier_Verify. cbv zeta.
  destruct (verify_ctx_nil obs); [apply Hstay |]. destruct (verify_ctx_err obs); [apply Hstay |].
  destruct (label =s []); [apply Hstay |]. destruct (negb (matchingLabelSets _ _)); [apply Hstay |].
  destruct (selectSignature label inputs signatures) as [[input signature] |]; [| apply Hstay].
  case_match; [apply Hstay |].
  destruct (validateInput _ _ input) as [metadata | e] eqn:Hv; [| apply Hstay].
  destruct (CreateSignatureBase message input) as [base | e]; [| apply Hstay].
  destruct (authenticate _ _ _ _ _) as [result | e]; [| apply Hstay].
  unfold consume_nonce. case_bool_decide as Hn; [apply Hstay |].
  cbn [v_has_replay verification_profile_of].
  rewrite (nonce_has_replay config input metadata _ Hok Hv Hn). cbn [negb].
  destruct (consume_total store (replay_observation obs) (replay_record metadata) Hwf)
    as (store' & err & -> & Hwf' & Hle). cbn [mbind option_bind].
  destruct (replay_context_err obs); [by eexists _, _ |]. destruct err; by eexists _, _.
Qed.

(** ** Signing under a constructed profile *)

Context `{CL : !CryptoLaws}.

(** What a field pair signed under a configuration states. *)
Record prescribed (c : SigningProfileConfig) (obs : SigningObservation) (message : MessageContext)
  (label : gostring) (options : SigningOptions) (signed : SignedFields) : Prop := {
  pr_labels : InputLabel (signed_input signed) = label /\
    SignatureLabel (signed_signature signed) = label /\ validSignatureLabel label = true;
  pr_components : Components (signed_input signed) = S_CoveredComponents c;
  pr_created : integerParameter (signed_input signed) "created" = Some (Unix (sign_now obs));
  pr_expires : integerParameter (signed_input signed) "expires" =
    required_value (S_Expires c) (Unix (Add (sign_now obs) (S_Lifetime c)));
  pr_nonce : stringParameter (signed_input signed) "nonce" =
    required_value (S_Nonce c) (OptionNonce options) /\
    (S_Nonce c = ParameterRequired <-> OptionNonce options <> []);
  pr_keyid : stringParameter (signed_input signed) "keyid" =
    Some (SigningKeyID (fst (provider_result obs)));
  pr_alg : stringParameter (signed_input signed) "alg" =
    required_value (S_AlgorithmParameter c) (SigningAlgorithm (fst (provider_result obs)));
  pr_tag : stringParameter (signed_input signed) "tag" = required_value (S_Tag c) (S_TagValue c);
  pr_key : let key := fst (provider_result obs) in
    snd (provider_result obs) = None /\ SigningKeyID key <> [] /\ SigningRevoked key = false /\
    SigningAlgorithm key ∈ S_AllowedAlgorithms c /\
    SigningNotBefore key <= sign_now obs < SigningNotAfter key /\
    (S_Expires c = ParameterRequired -> sign_now obs + S_Lifetime c <= SigningNotAfter key);
  pr_signature : exists base cobs, CreateSignatureBase message (signed_input signed) = Ok base /\
    Sign cobs (SigningAlgorithm (fst (provider_result obs)))
      (SigningMaterial (fst (provider_result obs))) base =
    Some (Ok (SignatureBytes (signed_signature signed)))
}.

(** The errors [Sign] reports of its own accord. *)
Definition signing_errors : list error :=
  map Sentinel [Canceled; ErrSigningPolicy; ErrSigningProvider; ErrSigningKey; ErrSigningBase;
                ErrSigningCryptographic].

Lemma Sign_total obs algorithm key base : exists r, Sign obs algorithm key base = Some r.
Proof.
  unfold Sign. destruct (contextError _ _); [by eexists |].
  destruct (switch_roundtrip (entropy obs) algorithm key base) as (r & -> & _). by eexists.
Qed.

Lemma Sign_nonce_policy profile obs message label options signed :
  Signer_Sign (Some profile) obs message label options = Some (Ok signed) ->
  s_nonce profile = ParameterForbidden -> OptionNonce options = [].
Proof.
  unfold Signer_Sign. intros H Hp. rewrite Hp in H. policy_simpl.
  destruct (sign_ctx_nil obs); [done |]. destruct (sign_ctx_err obs); [done |].
  case_match; [done |]. case_match; [done |].
  change (policy_is ParameterForbidden ParameterRequired) with false in H.
  change (policy_is ParameterForbidden ParameterForbidden) with true in H. cbn [andb orb] in H.
  destruct (bool_decide (OptionNonce options = [])) eqn:Hn; [| done]. by apply bool_decide_eq_true in Hn.
Qed.

Lemma Signer_Sign_total profile obs message label options :
  exists r, Signer_Sign (Some profile) obs message label options = Some r /\
    forall e, r = Err e ->
      e ∈ signing_errors \/ sign_ctx_err obs = Some e \/ resolve_ctx_err obs = Some e.
Proof.
  assert (forall s, Sentinel s ∈ signing_errors -> exists r : res SignedFields, Some (Err (Sentinel s)) = Some r /\
    forall e, r = Err e ->
      e ∈ signing_errors \/ sign_ctx_err obs = Some e \/ resolve_ctx_err obs = Some e) as Hfail.
  { intros s Hs. eexists. split; [done |]. intros e [= <-]. by left. }
  unfold Signer_Sign.
  destruct (sign_ctx_nil obs); [apply Hfail; by set_solver |].
  destruct (sign_ctx_err obs) as [e |]; [eexists; split; [done |]; intros e' [= <-]; auto |].
  case_match; [apply Hfail; by set_solver |]. case_match; [apply Hfail; by set_solver |].
  case_match; [apply Hfail; by set_solver |]. destruct (provider_result obs) as [key perr].
  destruct (resolve_ctx_err obs) as [e |]; [eexists; split; [done |]; intros e' [= <-]; auto |].
  case_match; [apply Hfail; by set_solver |]. cbv zeta.
  case_match; [apply Hfail; by set_solver |]. case_match; [apply Hfail; by set_solver |].
  case_match; [apply Hfail; by set_solver |].
  destruct (CreateSignatureBase message _) as [base |]; [| apply Hfail; by set_solver].
  match goal with |- context [Sign ?o ?a ?k base] => destruct (Sign_total o a k base) as [r ->] end.
  cbn [mbind option_bind]. destruct r as [value | e]; eexists; (split; [done |]); [done |].
  intros e' [= <-]. left. unfold mapSigningError. case_match; set_solver.
Qed.

(** C34: what a signer emits.  Under a constructed profile [Sign] always
    returns.  A failure is one of the fixed signing errors or the error of the
    caller's or the resolution's context.  A success covers exactly the
    configured components in order, carries created and keyid and each other
    parameter exactly when required, with the configured lifetime and tag and
    the caller's nonce, uses an allowed, unrevoked key inside its validity that
    outlives the signature, and its value is the primitive's over the base. *)
Theorem Sign_follows_profile config profile obs message label options :
  NewSigningProfile config = Ok profile ->
  exists r, Signer_Sign (Some profile) obs message label options = Some r /\
    match r with
    | Ok signed => prescribed config obs message label options signed
    | Err e => e ∈ signing_errors \/ sign_ctx_err obs = Some e \/ resolve_ctx_err obs = Some e
    end.
Proof.
  intros Hnew. destruct (NewSigningProfile_cases config) as [[Hok Hp] | [_ He]]; [| congruence].
  assert (profile = signing_profile_of config) as -> by congruence. clear Hnew Hp.
  destruct (Signer_Sign_total (signing_profile_of config) obs message label options) as (r & Hr & Herr).
  exists r. split; [done |]. destruct r as [signed | e]; [| by apply Herr].
  pose proof (Sign_nonce_policy _ _ _ _ _ _ Hr) as Hforbidden.
  apply Signer_Sign_Ok in Hr. destruct (provider_result obs) as [key perr] eqn:Hk. cbv zeta in Hr.
  destruct Hr as (-> & Hl & _ & Hnonce & Hid & Hrev & Hwin & Hexp & Halg & base & value & Hb & [cobs Hs] & ->).
  cbn [s_components s_nonce s_expires s_lifetime s_algorithms signing_profile_of] in *.
  pose proof (sc_policies _ Hok) as Hpol. rewrite !list.Forall_cons in Hpol.
  split; rewrite ?Hk; cbn [signed_input signed_signature InputLabel SignatureLabel Components fst snd
                           SignatureBytes]; try done.
  - apply (signed_expires (signing_profile_of config) options key).
  - split; [apply (signed_nonce (signing_profile_of config) options key) |]. split; [done |]. destruct Hpol as (_ & _ & [Hf | Hf] & _); [| done].
    by rewrite (Hforbidden Hf).
  - apply (signed_keyid (signing_profile_of config) options key).
  - apply (signed_alg (signing_profile_of config) options key).
  - apply (signed_tag (signing_profile_of config) options key).
  - split; [done |]. split; [done |]. split; [done |]. split; [| done].
    by apply elem_of_list_to_set in Halg.
  - eauto.
Qed.
End Profiles.
