(* ===== verification/HttpFields.v ===== *)
(** * Protected fields of the HTTP adapters (http_integration.go, helpers)

    The fields an adapter reads or writes ([protectedHTTPFieldNames]) and their
    normalisation: before a policy looks at a message, each of them has one
    key, the canonical one, so that no reader of the header sees other values
    than the ones that were verified.  Also the composition of a new signature
    with the existing ones and the coverage of a response's digest.  A clone of
    a request is a new pointer ([fresh]) with the same fields. *)

From S2P Require Import Prelude GoStrings Errors Httpsfv StructuredFieldSafe SignatureFields.
From S2P Require Import HttpTypes MessageFields BaseFacts Digest Signer Verifier.
Open Scope Z_scope.

Definition protectedHTTPFieldNames : list gostring :=
  [str "Signature-Input"; str "Signature"; str "Accept-Signature"; str "Content-Digest"].

(** The loop of [protectedFieldValues] over the entries in iteration order. *)
Fixpoint protected_loop (name : gostring) (present : bool) (values : list gostring)
  (entries : list (gostring * list gostring)) : res (list gostring * bool) :=
  match entries with
  | [] => Ok (values, present)
  | (key, current) :: rest =>
      if negb (EqualFold key name) then protected_loop name present values rest
      else if present then Err (Sentinel ErrAmbiguousProtectedField)
      else protected_loop name true ([] ++ current) rest
  end.

Definition protectedFieldValues (header : Header) (name : gostring) : res (list gostring * bool) :=
  protected_loop name false [] (map_to_list header).

Definition deleteHeaderField (header : Header) (name : gostring) : Header :=
  filter (fun '(key, _) => EqualFold key name = false) header.

(** The loop of [normalizeProtectedHeader] over the protected names. *)
Fixpoint normalize_names (header : Header) (names : list gostring) (normalized : Header)
  : res Header :=
  match names with
  | [] => Ok normalized
  | name :: rest =>
      let? (values, present) := protectedFieldValues header name in
      let normalized := deleteHeaderField normalized name in
      let normalized :=
        if present : bool then <[CanonicalHeaderKey name := values]> normalized else normalized in
      normalize_names header rest normalized
  end.

Definition normalizeProtectedHeader (header : Header) : res Header :=
  normalize_names header protectedHTTPFieldNames header.

(** [request.Clone] with other headers and trailers. *)
Definition clone_request (fresh : nat) (request : Request) (header trailer : Header) : Request := {|
  RequestPtr := fresh;
  Method := Method request;
  RequestURL := RequestURL request;
  RequestProtoMajor := RequestProtoMajor request;
  RequestProtoMinor := RequestProtoMinor request;
  RequestHeader := header;
  RequestBody := RequestBody request;
  RequestContentLength := RequestContentLength request;
  RequestTransferEncoding := RequestTransferEncoding request;
  RequestClose := RequestClose request;
  Host := Host request;
  RequestTrailer := trailer;
  RequestURI := RequestURI request;
  RequestTLS := RequestTLS request
|}.

Definition normalizeProtectedRequest (fresh : nat) (request : Request) : res Request :=
  let? header := normalizeProtectedHeader (RequestHeader request) in
  let? trailer := normalizeProtectedHeader (RequestTrailer request) in
  Ok (clone_request fresh request header trailer).

Definition snapshotResponseRequest (fresh : nat) (request : option Request) : res Request :=
  match request with
  | None => Err (Sentinel ErrInvalidHTTPIntegration)
  | Some request =>
      if is_nil (RequestURL request) then Err (Sentinel ErrInvalidHTTPIntegration)
      else normalizeProtectedRequest fresh request
  end.

Definition responseTransitionsProtocol (request : Request) (response : Response) : bool :=
  (StatusCode response =? 101) ||
  (Method request =s "CONNECT") && (200 <=? StatusCode response) && (StatusCode response <=? 299).

(** ** Composition with existing signatures *)

(** [signatureByLabel]: a later signature of a label replaces an earlier one. *)
Definition signatures_by_label (signatures : Signatures) : gmap gostring SignatureValue :=
  fold_left (fun m signature => <[SignatureLabel signature := signature]> m) signatures ∅.

Fixpoint pair_fields (by_label : gmap gostring SignatureValue) (inputs : SignatureInputs)
  : res (list SignedFields) :=
  match inputs with
  | [] => Ok []
  | input :: rest =>
      match by_label !! InputLabel input with
      | None => Err (Sentinel ErrInvalidSignedFields)
      | Some signature =>
          let? pairs := pair_fields by_label rest in Ok (mkSigned input signature :: pairs)
      end
  end.

Definition appendSignedFields (inputs : SignatureInputs) (signatures : Signatures)
  (signed : SignedFields) : res (SignatureInputs * Signatures) :=
  let? pairs := pair_fields (signatures_by_label signatures) inputs in
  CombineSignedFields (pairs ++ [signed]).

(** ** Coverage of a response's Content-Digest *)

Definition componentParameterTrue (component : ComponentIdentifier) (name : gostring) : bool :=
  match List.find (fun p => ParamName p =s name) (ComponentParams component) with
  | Some p => match ParamValue p with ABool b => b | _ => false end
  | None => false
  end.

(** [covered], [wholeField] and [keyedAlgorithms]. *)
Fixpoint content_digest_loop (components : list ComponentIdentifier) (covered whole : bool)
  (keyed : gset gostring) : bool * bool * gset gostring :=
  match components with
  | [] => (covered, whole, keyed)
  | component :: rest =>
      if (ComponentName component <>s "content-digest") || componentParameterTrue component "req" ||
         componentParameterTrue component "tr"
      then content_digest_loop rest covered whole keyed
      else
        match parameter (ComponentParams component) "key" with
        | None => content_digest_loop rest true true keyed
        | Some (AString algorithm) => content_digest_loop rest true whole ({[algorithm]} ∪ keyed)
        | Some _ => content_digest_loop rest true whole keyed
        end
  end.

Definition responseContentDigestCoverage (input : SignatureInput) : bool * bool * gset gostring :=
  content_digest_loop (Components input) false false ∅.

Definition signatureInputCoversResponseContentDigest (input : SignatureInput) : bool :=
  let '(covered, _, _) := responseContentDigestCoverage input in covered.

Definition signatureInputAuthenticatesResponseContentDigest (input : SignatureInput)
  (algorithms : list DigestAlgorithm) : bool * bool :=
  let '(covered, wholeField, keyedAlgorithms) := responseContentDigestCoverage input in
  if negb covered then (false, false)
  else if wholeField then (true, true)
  else (true, forallb (fun algorithm => bool_decide (algorithm ∈ keyedAlgorithms)) algorithms).

Definition responseDigestBufferingConfigured (verifiesContent : bool)
  (algorithms : list DigestAlgorithm) (maxBufferedBytes : Z) : bool :=
  if negb verifiesContent then true
  else negb (len algorithms =? 0) && (0 <? maxBufferedBytes).

(** ** Names up to case *)

Lemma is_ascii_cons c s : asciiString_list (c :: s) = true -> is_ascii c = true /\ asciiString_list s = true.
Proof. apply andb_true_iff. Qed.

(** A key that folds to two ASCII names folds to names equal up to case. *)
Lemma EqualFold_same k a b :
  EqualFold k a = true -> EqualFold k b = true -> map lower_ascii a = map lower_ascii b.
Proof.
  revert k b. induction a as [| d a IH]; intros k b.
  { destruct k; [| done]. destruct b; [done |]. done. }
  destruct k as [| c k]; [done |]. destruct b as [| e b]; [done |]. cbn [EqualFold map].
  destruct (is_ascii c).
  { intros [Hd Ha]%andb_true_iff [He Hb]%andb_true_iff. apply char_eqb_eq in Hd, He.
    f_equal; [congruence | by apply (IH k)]. }
  destruct k as [| c2 k]; [done |].
  destruct (char_eqb (lower_ascii d) "s" && char_eqb c "197" && char_eqb c2 "191") eqn:Hd.
  - apply andb_true_iff in Hd as [[Hd Hc]%andb_true_iff Hc2]. rewrite Hc, Hc2, !andb_true_r.
    intros Ha. destruct (char_eqb (lower_ascii e) "s") eqn:He.
    + intros Hb. apply char_eqb_eq in Hd, He. f_equal; [congruence | by apply (IH k)].
    + destruct k as [| c3 k]; [done |]. apply char_eqb_eq in Hc. subst c. cbn.
      by rewrite andb_false_r.
  - destruct k as [| c3 k]; [done |]. intros Ha.
    repeat (apply andb_true_iff in Ha as [Ha ?]). apply char_eqb_eq in Ha.
    assert (c = "226"%char) as -> by (by apply char_eqb_eq).
    replace (char_eqb "226" "197") with false by done. rewrite andb_false_r. cbn [andb].
    intros Hb. repeat (apply andb_true_iff in Hb as [Hb ?]). apply char_eqb_eq in Hb.
    f_equal; [congruence | by apply (IH k)].
Qed.

(** The four names are canonical and pairwise different up to case. *)
Lemma protected_canonical name :
  name ∈ protectedHTTPFieldNames -> CanonicalHeaderKey name = name /\ EqualFold name name = true.
Proof.
  intros Hn. repeat (apply elem_of_cons in Hn as [-> | Hn]; [split; vm_compute; reflexivity |]).
  by apply elem_of_nil in Hn.
Qed.

Lemma protected_apart k a b :
  a ∈ protectedHTTPFieldNames -> b ∈ protectedHTTPFieldNames ->
  EqualFold k a = true -> EqualFold k b = true -> a = b.
Proof.
  intros Ha Hb Hka Hkb. pose proof (EqualFold_same k a b Hka Hkb) as Heq. clear Hka Hkb.
  repeat (apply elem_of_cons in Ha as [-> | Ha]; [repeat (apply elem_of_cons in Hb as [-> | Hb];
    [first [reflexivity | vm_compute in Heq; discriminate] |]); by apply elem_of_nil in Hb |]).
  by apply elem_of_nil in Ha.
Qed.

(** ** Lookup *)

Lemma protected_loop_ci name present values entries :
  protected_loop name present values entries =
  match ci_loop name present values entries with
  | Ok v => Ok (v, present || existsb (fun '(k, _) => EqualFold k name) entries)
  | Err _ => Err (Sentinel ErrAmbiguousProtectedField)
  end.
Proof.
  revert present values. induction entries as [| [k v] l IH]; intros present values;
    cbn [protected_loop ci_loop existsb].
  { by rewrite orb_false_r. }
  destruct (EqualFold k name); cbn [negb orb]; [| apply IH].
  destruct present; [done |]. rewrite IH. cbn. by destruct (ci_loop _ _ _ _).
Qed.

(** A name that at most one key of the header folds to. *)
Definition unambiguous (header : Header) (name : gostring) : Prop :=
  forall k k', is_Some (header !! k) -> is_Some (header !! k') ->
    EqualFold k name = true -> EqualFold k' name = true -> k = k'.

Lemma protectedFieldValues_cases header name :
  (unambiguous header name /\ exists values present, protectedFieldValues header name = Ok (values, present) /\
   if present : bool then exists k, header !! k = Some values /\ EqualFold k name = true
   else values = [] /\ forall k, is_Some (header !! k) -> EqualFold k name = false) \/
  (~ unambiguous header name /\
   protectedFieldValues header name = Err (Sentinel ErrAmbiguousProtectedField)).
Proof.
  unfold protectedFieldValues. rewrite protected_loop_ci. cbn [orb].
  assert (existsb (fun '(k, _) => EqualFold k name) (map_to_list header) = true <->
    exists k, is_Some (header !! k) /\ EqualFold k name = true) as Hex.
  { rewrite existsb_exists. split.
    - intros ([k v] & Hin%list_elem_of_In%elem_of_map_to_list & Hk). eauto.
    - intros (k & [v Hv] & Hk). exists (k, v). split; [| done].
      by apply list_elem_of_In, elem_of_map_to_list. }
  fold (caseInsensitiveHeaderValues header name).
  destruct (caseInsensitiveHeaderValues_cases header name) as [[-> Hno] | [(k & v & -> & Hv & Hk & Hu) | [Hf (k1 & k2 & Hne & H1 & H2 & Hk1 & Hk2)]]].
  - left. split; [intros k k' Hk _ Hf; rewrite Hno in Hf by done; done |].
    eexists _, _. split; [done |]. destruct (existsb _ _) eqn:He; [| done].
    destruct (proj1 Hex eq_refl) as (k & Hs & Hk). by rewrite Hno in Hk.
  - left. split; [intros k1 k2 H1 H2 Hk1 Hk2; by rewrite (Hu k1 H1 Hk1), (Hu k2 H2 Hk2) |].
    eexists _, _. split; [done |]. rewrite (proj2 Hex); eauto.
  - right. split; [intros Hun; apply Hne; by apply Hun |].
    by destruct (caseInsensitiveHeaderValues header name).
Qed.

Lemma lookup_deleteHeaderField header name k :
  deleteHeaderField header name !! k = if EqualFold k name then None else header !! k.
Proof.
  unfold deleteHeaderField. destruct (EqualFold k name) eqn:Hk.
  - apply map_lookup_filter_None. right. intros v _. by rewrite Hk.
  - destruct (header !! k) as [v |] eqn:Hv.
    + by apply map_lookup_filter_Some.
    + apply map_lookup_filter_None. by left.
Qed.

(** ** Normalization *)

(** A header in which every protected field has only its canonical key. *)
Record normalized_from (header normalized : Header) (names : list gostring) (rest : Header) : Prop := {
  norm_protected name k v : name ∈ names -> EqualFold k name = true ->
    (normalized !! k = Some v <->
     k = name /\ exists k0, header !! k0 = Some v /\ EqualFold k0 name = true);
  norm_other k : (forall name, name ∈ names -> EqualFold k name = false) ->
    normalized !! k = rest !! k
}.

Lemma normalize_one header name values (present : bool) n k :
  unambiguous header name -> name ∈ protectedHTTPFieldNames ->
  protectedFieldValues header name = Ok (values, present) ->
  let n' := if present then <[CanonicalHeaderKey name := values]> (deleteHeaderField n name)
            else deleteHeaderField n name in
  if EqualFold k name
  then forall v, n' !! k = Some v <->
         k = name /\ exists k0, header !! k0 = Some v /\ EqualFold k0 name = true
  else n' !! k = n !! k.
Proof.
  intros Hun Hname Hv. destruct (protected_canonical name Hname) as [Hcan Hself].
  destruct (protectedFieldValues_cases header name) as [(_ & v' & p' & Hv' & Hp) | [Hno _]]; [| done].
  assert (v' = values /\ p' = present) as [-> ->] by (split; congruence). cbv zeta. rewrite Hcan.
  destruct (EqualFold k name) eqn:Hk.
  - intros v. destruct present.
    + destruct Hp as (k0 & Hk0 & Hf0). destruct (decide (k = name)) as [-> | Hne].
      * rewrite lookup_insert_eq. split.
        -- intros [= <-]. eauto.
        -- intros (_ & k1 & Hk1 & Hf1). assert (k1 = k0) as -> by (apply Hun; eauto). congruence.
      * rewrite lookup_insert_ne by done. rewrite lookup_deleteHeaderField, Hk. by split; [| intros []].
    + rewrite lookup_deleteHeaderField, Hk. split; [done |]. intros (_ & k0 & Hk0 & Hf0).
      destruct Hp as [_ Hp]. by rewrite (Hp k0) in Hf0 by eauto.
  - assert (name <> k) by congruence. destruct present.
    + rewrite lookup_insert_ne by done. by rewrite lookup_deleteHeaderField, Hk.
    + by rewrite lookup_deleteHeaderField, Hk.
Qed.

Lemma normalize_names_cases header names rest :
  NoDup names -> (forall name, name ∈ names -> name ∈ protectedHTTPFieldNames) ->
  ((forall name, name ∈ names -> unambiguous header name) /\
   exists n, normalize_names header names rest = Ok n /\ normalized_from header n names rest) \/
  (~ (forall name, name ∈ names -> unambiguous header name) /\
   normalize_names header names rest = Err (Sentinel ErrAmbiguousProtectedField)).
Proof.
  revert rest. induction names as [| name names IH]; intros rest Hnd Hin; cbn [normalize_names].
  { left. split; [intros name Hn; by apply elem_of_nil in Hn |]. exists rest. split; [done |].
    split; [intros name k v Hn; by apply elem_of_nil in Hn | done]. }
  apply list.NoDup_cons in Hnd as [Hnew Hnd].
  assert (name ∈ protectedHTTPFieldNames) as Hname by apply Hin, list_elem_of_here.
  destruct (protectedFieldValues_cases header name) as [(Hun & v & p & Hv & _) | [Hno ->]].
  2: { right. split; [| done]. intros H. apply Hno, H, list_elem_of_here. }
  rewrite Hv. cbn [rbind].
  pose proof (fun k => normalize_one header name v p rest k Hun Hname Hv) as Hone. cbv zeta in Hone.
  set (n' := if p then _ else _) in *. clearbody n'.
  destruct (IH n' Hnd) as [[Huns (n & Hn & Hnorm)] | [Hno Hn]].
  - intros x Hx. by apply Hin, list_elem_of_further.
  - left. split; [intros x [-> | Hx]%elem_of_cons; auto |]. exists n. split; [done |]. split.
    + intros x k w [-> | Hx]%elem_of_cons Hk.
      * specialize (Hone k). rewrite Hk in Hone. rewrite (norm_other _ _ _ _ Hnorm); [apply Hone |].
        intros y Hy. apply not_true_is_false. intros Hky.
        assert (name = y) as -> by (apply (protected_apart k); [done | by apply Hin, list_elem_of_further | done | done]).
        done.
      * by apply (norm_protected _ _ _ _ Hnorm).
    + intros k Hk. rewrite (norm_other _ _ _ _ Hnorm).
      * specialize (Hone k). by rewrite (Hk name) in Hone by apply list_elem_of_here.
      * intros x Hx. by apply Hk, list_elem_of_further.
  - right. split; [| done]. intros H. apply Hno. intros x Hx. by apply H, list_elem_of_further.
Qed.

Lemma protected_NoDup : NoDup protectedHTTPFieldNames.
Proof. apply (bool_decide_eq_true_1 _). vm_compute. reflexivity. Qed.

Lemma normalized_unambiguous header n name :
  normalized_from header n protectedHTTPFieldNames header -> name ∈ protectedHTTPFieldNames ->
  unambiguous n name.
Proof.
  intros Hn Hname k k' [v Hv] [v' Hv'] Hk Hk'.
  apply (norm_protected _ _ _ _ Hn name) in Hv as [-> _]; [| done | done].
  by apply (norm_protected _ _ _ _ Hn name) in Hv' as [-> _].
Qed.

Lemma normalizeProtectedHeader_cases header :
  ((forall name, name ∈ protectedHTTPFieldNames -> unambiguous header name) /\
   exists n, normalizeProtectedHeader header = Ok n /\
     normalized_from header n protectedHTTPFieldNames header) \/
  (~ (forall name, name ∈ protectedHTTPFieldNames -> unambiguous header name) /\
   normalizeProtectedHeader header = Err (Sentinel ErrAmbiguousProtectedField)).
Proof. apply normalize_names_cases; [apply protected_NoDup | done]. Qed.

(** ** Normalized headers *)

Definition canonical (header : Header) : Prop := forall name k,
  name ∈ protectedHTTPFieldNames -> EqualFold k name = true -> is_Some (header !! k) -> k = name.

Lemma normalized_is_canonical from n :
  normalized_from from n protectedHTTPFieldNames from -> canonical n.
Proof.
  intros Hn name k Hname Hk [v Hv]. by apply (norm_protected _ _ _ _ Hn name k v Hname Hk) in Hv as [-> _].
Qed.

(** Normalization leaves a canonical header as it is. *)
Lemma normalize_canonical header : canonical header -> normalizeProtectedHeader header = Ok header.
Proof.
  intros Hcan. destruct (normalizeProtectedHeader_cases header) as [[_ (n & Hn & Hnorm)] | [Hno _]].
  2: { destruct Hno. intros name Hname k k' Hk Hk' Hf Hf'. by rewrite (Hcan name k), (Hcan name k'). }
  rewrite Hn. f_equal. apply map_eq. intros k.
  destruct (decide (Exists (fun name => EqualFold k name = true) protectedHTTPFieldNames)) as [He | Hne].
  - apply list.Exists_exists in He as (name & Hname & Hk). apply option_eq. intros v.
    rewrite (norm_protected _ _ _ _ Hnorm name k v Hname Hk). split.
    + intros (-> & k0 & Hk0 & Hf). by rewrite <- (Hcan name k0 Hname Hf) by eauto.
    + intros Hv. assert (k = name) as -> by (apply (Hcan name k Hname Hk); eauto). split; [done |]. by exists name.
  - apply (norm_other _ _ _ _ Hnorm). intros name Hname. apply not_true_is_false. intros Hk.
    apply Hne, list.Exists_exists. eauto.
Qed.

(** Setting a protected field keeps a header canonical. *)
Lemma canonical_set header name value :
  name ∈ protectedHTTPFieldNames -> canonical header -> canonical (Header_Set header name value).
Proof.
  intros Hname Hcan n k Hn Hk Hs. destruct (protected_canonical name Hname) as [Hc Hself].
  unfold Header_Set in Hs. rewrite Hc in Hs. destruct (decide (k = name)) as [-> | Hne].
  - by apply (protected_apart name).
  - rewrite lookup_insert_ne in Hs by congruence. by apply Hcan.
Qed.

(** One key per protected field.  Normalization succeeds exactly when no two
    keys of the header are the same protected name up to case.  In its result
    a protected field has only its canonical key, with the values the header
    had for the field, every other key is as it was, and normalizing again
    changes nothing. *)
Theorem normalizeProtectedHeader_exact header :
  ((forall name, name ∈ protectedHTTPFieldNames -> unambiguous header name) /\
   exists n, normalizeProtectedHeader header = Ok n /\
     normalized_from header n protectedHTTPFieldNames header /\
     normalizeProtectedHeader n = Ok n) \/
  (~ (forall name, name ∈ protectedHTTPFieldNames -> unambiguous header name) /\
   normalizeProtectedHeader header = Err (Sentinel ErrAmbiguousProtectedField)).
Proof.
  destruct (normalizeProtectedHeader_cases header) as [[Hun (n & Hn & Hnorm)] | Hno]; [left | by right].
  split; [done |]. exists n. split; [done |]. split; [done |].
  by eapply normalize_canonical, normalized_is_canonical.
Qed.
