(* ===== verification/BodyReader.v ===== *)
(** * Bounded reading of a body (body_integration.go, [readBoundedAndClose])

    A body is the script of its [Read] calls and the result of its [Close].
    The loop has no bound of its own: the theorem at the end shows that every
    script, however long, is read at most as often as the limit has bytes, and
    says exactly which scripts give content. *)

From S2P Require Import Prelude Errors.
Open Scope Z_scope.

(** [make([]byte, 32*1024)]. *)
Definition readBufferSize : Z := 32 * 1024.

(** A call of [Read]: the bytes it put at the start of the buffer, as many as
    the count it returned, or a count that is negative or above the buffer. *)
Inductive read_result : Type :=
| Read (data : gostring) (err : option error)
| ReadOutOfRange (err : option error).

(** The [n]th iteration sees [ctx.Err()] and then a call of [Read]; an
    adversarial body never ends. *)
Record body_observation := mkBody {
  script : nat -> option error * read_result;
  close_err : option error
}.

(** The loop; [None] would be an exhausted fuel. *)
Fixpoint read_loop (fuel : nat) (maxBytes : Z) (body : body_observation) (n : nat)
  (content : gostring) : option (res gostring) :=
  match fuel with
  | O => None
  | S fuel =>
      let '(ctxErr, result) := script body n in
      match ctxErr with
      | Some err => Some (Err err)
      | None =>
          let remaining := maxBytes - len content in
          match result with
          | ReadOutOfRange _ => Some (Err (Sentinel ErrBodyRead))
          | Read data err =>
              if readBufferSize <? len data then Some (Err (Sentinel ErrBodyRead))
              else if remaining <? len data then Some (Err (Sentinel ErrBodyTooLarge))
              else
                let content := content ++ data in
                match err with
                | Some err =>
                    if errors_Is err EOF then Some (Ok content)
                    else Some (Err (Wrap (Sentinel ErrBodyRead)))
                | None =>
                    if len data =? 0 then Some (Err (Sentinel ErrBodyRead))
                    else read_loop fuel maxBytes body (S n) content
                end
          end
      end
  end.

(** The deferred [Close]: it runs on every path of a body that is not nil. *)
Definition close_result (body : body_observation) (result : res gostring) : res gostring :=
  match result, close_err body with
  | Ok _, Some _ => Err (Sentinel ErrBodyRead)
  | _, _ => result
  end.

(** [body] is [None] for a nil body. *)
Definition readBoundedAndClose (ctx_nil : bool) (body : option body_observation) (maxBytes : Z)
  : option (res gostring) :=
  match body with
  | None => Some (Ok [])
  | Some body =>
      close_result body <$>
      (if ctx_nil || (maxBytes <=? 0) then Some (Err (Sentinel ErrInvalidBodyIntegration))
       else read_loop (S (Z.to_nat maxBytes)) maxBytes body 0 [])
  end.

(** ** What is read *)

(** From the [n]th call on, the body gives [content] and then ends. *)
Inductive gives (body : body_observation) : nat -> gostring -> Prop :=
| gives_end n data err :
    script body n = (None, Read data (Some err)) -> errors_Is err EOF = true ->
    len data <= readBufferSize -> gives body n data
| gives_more n data rest :
    script body n = (None, Read data None) -> data <> [] -> len data <= readBufferSize ->
    gives body (S n) rest -> gives body n (data ++ rest).

Lemma gives_unique body n c1 c2 : gives body n c1 -> gives body n c2 -> c1 = c2.
Proof.
  intros H1. revert c2. induction H1 as [n d e Hs He Hl | n d r Hs Hd Hl _ IH]; intros c2 H2;
    inversion H2; subst; try congruence. f_equal; [congruence | by apply IH].
Qed.

(** Inversion of [gives], with the equation for the script at hand. *)
Ltac invert_gives Hg Hs :=
  inversion Hg; clear Hg;
  match goal with H : script _ _ = (None, Read _ _) |- _ => rewrite Hs in H; simplify_eq end.

Lemma read_loop_total fuel maxBytes body n content :
  len content <= maxBytes -> maxBytes - len content < Z.of_nat fuel ->
  exists r, read_loop fuel maxBytes body n content = Some r /\
    match r with
    | Ok c => len c <= maxBytes /\ exists rest, c = content ++ rest /\ gives body n rest
    | Err e => forall rest, gives body n rest -> len content + len rest <= maxBytes -> False
    end.
Proof.
  revert n content. induction fuel as [| fuel IH]; intros n content Hmax Hf; [lia |]. cbn [read_loop].
  destruct (script body n) as [ctxErr result] eqn:Hs.
  assert (forall e0 : error, (forall rest, gives body n rest -> len content + len rest <= maxBytes -> False) ->
    exists r' : res gostring, Some (Err e0) = Some r' /\ match r' with
    | Ok c => len c <= maxBytes /\ exists rest, c = content ++ rest /\ gives body n rest
    | Err e => forall rest, gives body n rest -> len content + len rest <= maxBytes -> False
    end) as Hfail by (intros e0 He0; by eexists).
  destruct ctxErr as [e |]; [apply Hfail; intros rest Hg _; invert_gives Hg Hs |].
  destruct result as [data err | err]; [| apply Hfail; intros rest Hg _; invert_gives Hg Hs].
  destruct (readBufferSize <? len data) eqn:Hb.
  { apply Hfail. intros rest Hg _. invert_gives Hg Hs; lia. }
  destruct (maxBytes - len content <? len data) eqn:Hr.
  { apply Hfail. intros rest Hg Hlen. invert_gives Hg Hs; [lia |].
    rewrite len_app in Hlen. pose proof (len_nonneg rest0). lia. }
  assert (len (content ++ data) <= maxBytes) as Hle by (rewrite len_app; lia).
  destruct err as [e |].
  - destruct (errors_Is e EOF) eqn:He.
    + eexists. split; [done |]. split; [done |]. exists data. split; [done |].
      by apply (gives_end body n data e); [| | lia].
    + apply Hfail. intros rest Hg _. invert_gives Hg Hs; congruence.
  - destruct (len data =? 0) eqn:H0.
    { apply Z.eqb_eq, len_0 in H0. apply Hfail. intros rest Hg _. invert_gives Hg Hs. }
    destruct (IH (S n) (content ++ data) Hle) as (r & Hloop & Hspec).
    { rewrite len_app. pose proof (len_nonneg data). lia. }
    exists r. split; [done |]. destruct r as [c | e].
    + destruct Hspec as (Hc & rest & -> & Hg). split; [done |]. exists (data ++ rest).
      split; [by rewrite app_assoc |]. apply gives_more; [done | | lia | done].
      intros ->. by rewrite len_nil in H0.
    + intros rest Hg Hlen. invert_gives Hg Hs.
      apply (Hspec rest0); [done |]. rewrite !len_app in *. lia.
Qed.

Lemma readBoundedAndClose_cases ctx_nil body maxBytes :
  exists r, readBoundedAndClose ctx_nil body maxBytes = Some r /\
    forall content, r = Ok content <->
      match body with
      | None => content = []
      | Some body =>
          ctx_nil = false /\ 0 < maxBytes /\ gives body 0 content /\ len content <= maxBytes /\
          close_err body = None
      end.
Proof.
  unfold readBoundedAndClose. destruct body as [body |].
  2: { exists (Ok []). split; [done |]. intros c. split; [by intros [= <-] | by intros ->]. }
  destruct (ctx_nil || (maxBytes <=? 0)) eqn:Hg.
  { eexists. split; [done |]. intros c. split; [done |]. intros (-> & ? & _). cbn in Hg. lia. }
  apply orb_false_iff in Hg as [-> Hpos].
  destruct (read_loop_total (S (Z.to_nat maxBytes)) maxBytes body 0 []) as (r & -> & Hr);
    [rewrite len_nil; lia | rewrite len_nil; lia |].
  eexists. split; [done |]. intros c. destruct r as [c' | e]; cbn.
  - destruct Hr as (Hle & rest & -> & Hgive). cbn [app] in *. destruct (close_err body).
    + split; [done |]. by intros (_ & _ & _ & _ & ?).
    + split; [intros [= <-]; repeat split; try done; lia |].
      intros (_ & _ & Hg & _). f_equal. by eapply gives_unique.
  - split; [done |]. intros (_ & _ & Hg & Hle & _). exfalso. apply (Hr c Hg). rewrite len_nil. lia.
Qed.

(** C27: bounded reading.  Whatever the body does, [readBoundedAndClose] returns.
    It returns content exactly when the calls of [Read] give that content and
    then the end of the file, without a cancellation, a failure, an empty read
    or a count out of range, the content fits the limit and [Close] succeeds;
    a nil body gives no bytes. *)
Theorem readBoundedAndClose_exact ctx_nil body maxBytes :
  exists r, readBoundedAndClose ctx_nil body maxBytes = Some r /\
    forall content, r = Ok content <->
      match body with
      | None => content = []
      | Some body =>
          ctx_nil = false /\ 0 < maxBytes /\ gives body 0 content /\ len content <= maxBytes /\
          close_err body = None
      end.
Proof. apply readBoundedAndClose_cases. Qed.
