(* ===== verification/HttpIntegration.v ===== *)
(** * HTTP adapters (http_integration.go)

    [SigningRoundTripper], [RequestVerificationMiddleware] and
    [VerifyingRoundTripper].  The callbacks of a configuration and what the
    wrapped transport, the body and the context do are observations; an
    outcome says what the adapter hands on: the delegated request, the request
    the next handler serves, the released response, or the error, and how
    often it closed the body it owns.  [None] is a panic.  [fresh] is the
    address of the first clone. *)

From S2P Require Import Prelude GoStrings Errors Httpsfv StructuredFieldSafe SignatureFields.
From S2P Require Import HttpTypes GoTime ReplayStore Digest Algorithm Signer Verifier.
From S2P Require Import HttpFields BodyReader.
Open Scope Z_scope.

(** [ExistingSignaturesPolicy]; the zero value and the values above 2 are not
    policies. *)
Inductive ExistingSignaturesPolicy : Set :=
| ExistingSignaturesReject
| ExistingSignaturesAppend
| ExistingSignaturesInvalid.

#[export] Instance ExistingSignaturesPolicy_eq_dec : EqDecision ExistingSignaturesPolicy.
Proof. solve_decision. Defined.

(** ** Snapshots for callbacks *)

Definition cloneRequestSnapshot (fresh : nat) (request : Request) : Request := {|
  RequestPtr := fresh;
  Method := Method request;
  RequestURL := RequestURL request;
  RequestProtoMajor := RequestProtoMajor request;
  RequestProtoMinor := RequestProtoMinor request;
  RequestHeader := RequestHeader request;
  RequestBody := BodyNil;
  RequestContentLength := RequestContentLength request;
  RequestTransferEncoding := RequestTransferEncoding request;
  RequestClose := RequestClose request;
  Host := Host request;
  RequestTrailer := RequestTrailer request;
  RequestURI := RequestURI request;
  RequestTLS := false
|}.

(** A response with another header, trailer, body, length and request. *)
Definition update_response (response : Response) (header trailer : Header) (body : Body)
  (length : Z) (request : option Request) : Response := {|
  StatusCode := StatusCode response;
  ResponseProtoMajor := ResponseProtoMajor response;
  ResponseProtoMinor := ResponseProtoMinor response;
  ResponseHeader := header;
  ResponseBody := body;
  ResponseContentLength := length;
  ResponseTransferEncoding := ResponseTransferEncoding response;
  ResponseClose := ResponseClose response;
  Uncompressed := Uncompressed response;
  ResponseTrailer := trailer;
  ResponseRequest := request
|}.

Definition responseCallbackSnapshot (fresh : nat) (response : Response) (request : Request)
  : Response :=
  update_response response (ResponseHeader response) (ResponseTrailer response) BodyNil
    (ResponseContentLength response) (Some (cloneRequestSnapshot fresh request)).

Definition request_message (request : Request) (external : option ExternalRequestContext)
  : MessageContext :=
  mkMessage (Some request) None None external ∅ ResponseTransportUnspecified 0.

Definition received_message (response : Response) (related : Request)
  (external : option ExternalRequestContext) : MessageContext :=
  mkMessage None (Some response) (Some related) external ∅ ResponseTransportReceived 0.

(** [fmt.Errorf("%w: %w", ErrHTTPIntegrationVerification, cause)]. *)
Definition response_error (cause : error) : error :=
  Wrap2 (Sentinel ErrHTTPIntegrationVerification) cause.

Definition set_request_header (request : Request) (header : Header) : Request :=
  clone_request (RequestPtr request) request header (RequestTrailer request).

(** [Close] of a body that is not nil. *)
Definition closes (body : Body) : nat := if bool_decide (body = BodyNil) then 0%nat else 1%nat.

(** An optional callback for the external context. *)
Definition external_of {A} (callback : option (A -> res (option ExternalRequestContext))) (a : A)
  : res (option ExternalRequestContext) :=
  match callback with None => Ok None | Some f => f a end.

Section Adapters.
Context `{SFV : Httpsfv} `{UC : UnicodeCase} `{NU : NetURL} `{CR : Crypto} `{HS : Hashes}.
Context {S Obs : Type} `{RS : ReplayStore S Obs}.

(** ** Outbound requests *)

Record SigningRoundTripper := mkSigningRoundTripper {
  srt_signer : option SigningProfile;
  srt_label : gostring;
  srt_existing : ExistingSignaturesPolicy;
  srt_options : Request -> res SigningOptions;
  srt_externalContext : option (Request -> res (option ExternalRequestContext))
}.

(** The configuration: [None] is a nil [Signer] or [Options]. *)
Record SigningRoundTripperConfig := mkSigningRoundTripperConfig {
  src_has_transport : bool;
  src_signer : option (option SigningProfile);
  src_label : gostring;
  src_existing : ExistingSignaturesPolicy;
  src_options : option (Request -> res SigningOptions);
  src_externalContext : option (Request -> res (option ExternalRequestContext))
}.

Definition NewSigningRoundTripper (config : SigningRoundTripperConfig) : res SigningRoundTripper :=
  match src_has_transport config, src_signer config, src_options config with
  | true, Some signer, Some options =>
      if negb (validSignatureLabel (src_label config)) ||
         bool_decide (src_existing config = ExistingSignaturesInvalid)
      then Err (Sentinel ErrInvalidHTTPIntegration)
      else Ok (mkSigningRoundTripper signer (src_label config) (src_existing config) options
                 (src_externalContext config))
  | _, _, _ => Err (Sentinel ErrInvalidHTTPIntegration)
  end.

(** What the transport gets, or the error and how often the body was closed. *)
Inductive outbound :=
| Delegated (request : Request)
| Refused (err : error) (closed : nat).

(** The existing field pairs of a request, when there are any. *)
Definition existing_fields (existing : ExistingSignaturesPolicy) (header : Header)
  : res (option (SignatureInputs * Signatures)) :=
  let inputValues := Header_Values header "Signature-Input" in
  let signatureValues := Header_Values header "Signature" in
  if (len inputValues =? 0) && (len signatureValues =? 0) then Ok None
  else if bool_decide (existing = ExistingSignaturesReject) then Err (Sentinel ErrExistingSignatures)
  else
    match ParseSignatureInputs inputValues with
    | Err _ => Err (Sentinel ErrExistingSignatures)
    | Ok inputs =>
        match ParseSignatures signatureValues with
        | Err _ => Err (Sentinel ErrExistingSignatures)
        | Ok signatures =>
            if negb (matchingLabelSets inputs signatures) then Err (Sentinel ErrExistingSignatures)
            else Ok (Some (inputs, signatures))
        end
    end.

(** The header with the new signature, after the existing ones if any. *)
Definition signed_header (existing : option (SignatureInputs * Signatures)) (header : Header)
  (signed : SignedFields) : option (res Header) :=
  match existing with
  | Some (inputs, signatures) =>
      match appendSignedFields inputs signatures signed with
      | Err _ => Some (Err (Sentinel ErrExistingSignatures))
      | Ok (combinedInputs, combinedSignatures) =>
          inputField ← SignatureInputs_String combinedInputs;
          signatureField ← Signatures_String combinedSignatures;
          Some (Ok (Header_Set (Header_Set header "Signature-Input" inputField)
                      "Signature" signatureField))
      end
  | None =>
      inputField ← SignatureInputField signed;
      signatureField ← SignatureField signed;
      Some (Ok (Header_Set (Header_Set header "Signature-Input" inputField)
                  "Signature" signatureField))
  end.

Definition SigningRoundTripper_RoundTrip (transport : option SigningRoundTripper) (fresh : nat)
  (obs : SigningObservation) (request : option Request) : option outbound :=
  match transport, request with
  | Some transport, Some request =>
      let refuse err := Some (Refused err (closes (RequestBody request))) in
      match normalizeProtectedRequest fresh request with
      | Err err => refuse err
      | Ok clone =>
      match existing_fields (srt_existing transport) (RequestHeader clone) with
      | Err err => refuse err
      | Ok existing =>
      match srt_options transport request with
      | Err _ => refuse (Sentinel ErrHTTPIntegrationSigning)
      | Ok options =>
      match external_of (srt_externalContext transport) request with
      | Err _ => refuse (Sentinel ErrHTTPIntegrationSigning)
      | Ok external =>
          signed ← Signer_Sign (srt_signer transport) obs (request_message clone external)
                     (srt_label transport) options;
          match signed with
          | Err _ => refuse (Sentinel ErrHTTPIntegrationSigning)
          | Ok signed =>
              header ← signed_header existing (RequestHeader clone) signed;
              match header with
              | Err err => refuse err
              | Ok header => Some (Delegated (set_request_header clone header))
              end
          end
      end
      end
      end
      end
  | _, _ => Some (Refused (Sentinel ErrInvalidHTTPIntegration) 0)
  end.

(** ** Inbound requests *)

Record RequestVerificationMiddlewareConfig := mkRequestVerificationConfig {
  rvc_verifier : option (option VerificationProfile);
  rvc_selectLabel : option (Request -> SignatureInputs -> Signatures -> res gostring);
  rvc_externalContext : option (Request -> res (option ExternalRequestContext));
  rvc_has_mapError : bool
}.

(** The closure a constructed middleware keeps. *)
Record RequestVerificationMiddleware := mkRequestVerification {
  rvm_verifier : option VerificationProfile;
  rvm_selectLabel : Request -> SignatureInputs -> Signatures -> res gostring;
  rvm_externalContext : option (Request -> res (option ExternalRequestContext))
}.

Definition NewRequestVerificationMiddleware (config : RequestVerificationMiddlewareConfig)
  : res RequestVerificationMiddleware :=
  match rvc_verifier config, rvc_selectLabel config, rvc_has_mapError config with
  | Some verifier, Some selectLabel, true =>
      Ok (mkRequestVerification verifier selectLabel (rvc_externalContext config))
  | _, _, _ => Err (Sentinel ErrInvalidHTTPIntegration)
  end.

(** The request the next handler serves with the metadata in its context, or
    the error given to [MapError]. *)
Inductive inbound :=
| Served (request : Request) (verified : VerifiedSignature)
| Mapped (err : error).

(** The label the application selects, checked. *)
Definition checked_label (selected : res gostring) : option gostring :=
  match selected with
  | Ok label => if validSignatureLabel label then Some label else None
  | Err _ => None
  end.

Definition RequestVerification_ServeHTTP (middleware : RequestVerificationMiddleware) (fresh : nat)
  (obs : VerificationObservation (Obs := Obs)) (store : S) (has_next : bool)
  (request : option Request) : option (S * inbound) :=
  let reject err := Some (store, Mapped err) in
  match has_next, request with
  | true, Some request =>
      match normalizeProtectedRequest fresh request with
      | Err err => reject err
      | Ok verifiedRequest =>
      match ParseSignatureInputs (Header_Values (RequestHeader verifiedRequest) "Signature-Input") with
      | Err err => reject err
      | Ok inputs =>
      match ParseSignatures (Header_Values (RequestHeader verifiedRequest) "Signature") with
      | Err err => reject err
      | Ok signatures =>
      let snapshot := cloneRequestSnapshot (fresh + 1) verifiedRequest in
      match checked_label (rvm_selectLabel middleware snapshot inputs signatures) with
      | None => reject (Sentinel ErrInvalidHTTPIntegration)
      | Some label =>
      match external_of (rvm_externalContext middleware) snapshot with
      | Err _ => reject (Sentinel ErrInvalidHTTPIntegration)
      | Ok external =>
          '(store, verified) ← Verifier_Verify (rvm_verifier middleware) obs store
                                 (request_message verifiedRequest external) label inputs signatures;
          match verified with
          | Err err => Some (store, Mapped err)
          | Ok verified => Some (store, Served verifiedRequest verified)
          end
      end
      end
      end
      end
      end
  | _, _ => reject (Sentinel ErrInvalidHTTPIntegration)
  end.

(** ** Inbound responses *)

Record VerifyingRoundTripperConfig := mkVerifyingRoundTripperConfig {
  vrc_has_transport : bool;
  vrc_verifier : option (option VerificationProfile);
  vrc_selectLabel : option (Request -> Response -> SignatureInputs -> Signatures -> res gostring);
  vrc_contentDigestAlgorithms : list DigestAlgorithm;
  vrc_maxBufferedBytes : Z;
  vrc_externalContext : option (Request * Response -> res (option ExternalRequestContext))
}.

Record VerifyingRoundTripper := mkVerifyingRoundTripper {
  vrt_verifier : option VerificationProfile;
  vrt_selectLabel : Request -> Response -> SignatureInputs -> Signatures -> res gostring;
  vrt_contentDigestAlgorithms : list DigestAlgorithm;
  vrt_maxBufferedBytes : Z;
  vrt_externalContext : option (Request * Response -> res (option ExternalRequestContext))
}.

Definition NewVerifyingRoundTripper (config : VerifyingRoundTripperConfig)
  : res VerifyingRoundTripper :=
  match vrc_has_transport config, vrc_verifier config, vrc_selectLabel config with
  | true, Some verifier, Some selectLabel =>
      let digestPolicyConfigured :=
        negb (len (vrc_contentDigestAlgorithms config) =? 0) ||
        negb (vrc_maxBufferedBytes config =? 0) in
      if digestPolicyConfigured &&
         ((vrc_maxBufferedBytes config <=? 0) ||
          negb (is_Ok (ComputeDigests (vrc_contentDigestAlgorithms config) [])))
      then Err (Sentinel ErrInvalidHTTPIntegration)
      else Ok (mkVerifyingRoundTripper verifier selectLabel ([] ++ vrc_contentDigestAlgorithms config)
                 (vrc_maxBufferedBytes config) (vrc_externalContext config))
  | _, _, _ => Err (Sentinel ErrInvalidHTTPIntegration)
  end.

(** What the wrapped transport returns, the content of the response's body and
    the trailers it leaves in the response after the body was read. *)
Record exchange := mkExchange {
  received : option Response;
  transport_err : option error;
  received_body : body_observation;
  trailer_after : Header
}.

(** The transport's error unchanged, a refusal with the number of calls of
    [Close] on the received body, or the response with the metadata in its
    request's context; [content] is what a replaced body holds. *)
Inductive inbound_response :=
| Upstream (response : option Response) (err : error)
| Withheld (err : error) (closed : nat)
| Released (response : Response) (content : option gostring) (verified : VerifiedSignature).

(** The verified and replaced body of a response: [wire] is what the verifier
    sees, with the length on the wire. *)
Record buffered := mkBuffered {
  buffered_response : Response;
  wire_response : Response;
  buffered_content : gostring
}.

(** The content branch: digest policy, bounded read and digest comparison.
    [inr] is an error with the calls of [Close]. *)
Definition buffer_content (transport : VerifyingRoundTripper) (fresh : nat) (ctx_nil : bool)
  (exchange : exchange) (response : Response) (related : Request) (authenticated : bool)
  : option (buffered + error * nat) :=
  let fail cause := Some (inr (response_error cause, closes (ResponseBody response))) in
  let failed cause := Some (inr (response_error cause, closes (ResponseBody response))) in
  if negb (responseDigestBufferingConfigured true (vrt_contentDigestAlgorithms transport)
             (vrt_maxBufferedBytes transport))
  then fail (verificationError VerificationPolicy (Sentinel ErrInvalidHTTPIntegration))
  else if negb authenticated
  then fail (verificationError VerificationPolicy (Sentinel ErrInvalidHTTPIntegration))
  else if responseTransitionsProtocol related response
  then fail (verificationError VerificationPolicy (Sentinel ErrInvalidHTTPIntegration))
  else if Uncompressed response
  then fail (verificationError VerificationBase (Sentinel ErrInvalidBodyIntegration))
  else
    match ParseDigestFields (Header_Values (ResponseHeader response) "Content-Digest") with
    | Err _ => fail (verificationError VerificationBase (Sentinel ErrInvalidDigestField))
    | Ok digestField =>
        content ← readBoundedAndClose ctx_nil
                    (if bool_decide (ResponseBody response = BodyNil) then None
                     else Some (received_body exchange)) (vrt_maxBufferedBytes transport);
        match content with
        | Err readErr => failed readErr
        | Ok content =>
            match DigestField_Verify digestField content (vrt_contentDigestAlgorithms transport) with
            | Some digestErr => failed digestErr
            | None =>
                match normalizeProtectedHeader (trailer_after exchange) with
                | Err readErr => failed readErr
                | Ok trailer =>
                    let buffered :=
                      update_response response (ResponseHeader response) trailer
                        (BodyReader (fresh + 3)) (len content) (ResponseRequest response) in
                    let snapshot := responseCallbackSnapshot (fresh + 4) buffered related in
                    Some (inl (mkBuffered buffered
                      (update_response snapshot (ResponseHeader snapshot) (ResponseTrailer snapshot)
                         (ResponseBody snapshot) (ResponseContentLength response)
                         (ResponseRequest snapshot)) content))
                end
            end
        end
    end.

(** The body is buffered when the selected signature covers the digest. *)
Definition message_response (transport : VerifyingRoundTripper) (fresh : nat) (ctx_nil : bool)
  (exchange : exchange) (response : Response) (related : Request) (input : SignatureInput)
  : option (Response * Response * option gostring + error * nat) :=
  let '(verifiesContent, authenticated) :=
    signatureInputAuthenticatesResponseContentDigest input (vrt_contentDigestAlgorithms transport) in
  if verifiesContent : bool then
    buffered ← buffer_content transport fresh ctx_nil exchange response related authenticated;
    Some (match buffered with
          | inl b => inl (buffered_response b, wire_response b, Some (buffered_content b))
          | inr failure => inr failure
          end)
  else Some (inl (response, response, None)).

Definition VerifyingRoundTripper_RoundTrip (transport : option VerifyingRoundTripper) (fresh : nat)
  (obs : VerificationObservation (Obs := Obs)) (store : S) (ctx_nil : bool) (exchange : exchange)
  (request : option Request) : option (S * inbound_response) :=
  match transport, request with
  | Some transport, Some request =>
  match transport_err exchange, received exchange with
  | Some err, response => Some (store, Upstream response err)
  | None, None => Some (store, Withheld (Sentinel ErrHTTPIntegrationVerification) 0)
  | None, Some response =>
      let closed := closes (ResponseBody response) in
      let fail cause := Some (store, Withheld (response_error cause) closed) in
      let invalid failure := fail (verificationError failure (Sentinel ErrInvalidHTTPIntegration)) in
      match snapshotResponseRequest fresh (ResponseRequest response) with
      | Err _ => invalid VerificationBase
      | Ok related =>
      match normalizeProtectedHeader (ResponseHeader response) with
      | Err err => fail (verificationError VerificationBase err)
      | Ok header =>
      match normalizeProtectedHeader (ResponseTrailer response) with
      | Err err => fail (verificationError VerificationBase err)
      | Ok _ =>
      let response :=
        update_response response header (ResponseTrailer response) (ResponseBody response)
          (ResponseContentLength response) (ResponseRequest response) in
      match ParseSignatureInputs (Header_Values header "Signature-Input") with
      | Err _ => fail (verificationError VerificationSelection (Sentinel ErrInvalidSignatureInput))
      | Ok inputs =>
      match ParseSignatures (Header_Values header "Signature") with
      | Err _ => fail (verificationError VerificationSelection (Sentinel ErrInvalidSignature))
      | Ok signatures =>
      match checked_label
              (vrt_selectLabel transport (cloneRequestSnapshot (fresh + 1) related)
                 (responseCallbackSnapshot (fresh + 2) response related) inputs signatures) with
      | None => invalid VerificationSelection
      | Some label =>
      match selectSignature label inputs signatures with
      | None => fail (verificationError VerificationSelection (Sentinel ErrInvalidSignedFields))
      | Some (selectedInput, _) =>
          prepared ← message_response transport fresh ctx_nil exchange response related selectedInput;
          match prepared with
          | inr (err, closed) => Some (store, Withheld err closed)
          | inl (response, messageResponse, content) =>
              match external_of (vrt_externalContext transport)
                      (cloneRequestSnapshot (fresh + 5) related,
                       responseCallbackSnapshot (fresh + 6) response related) with
              | Err _ => invalid VerificationBase
              | Ok external =>
                  '(store, verified) ← Verifier_Verify (vrt_verifier transport) obs store
                                         (received_message messageResponse related external)
                                         label inputs signatures;
                  match verified with
                  | Err err => Some (store, Withheld (response_error err) closed)
                  | Ok verified =>
                      Some (store, Released
                        (update_response response (ResponseHeader response)
                           (ResponseTrailer response) (ResponseBody response)
                           (ResponseContentLength response)
                           (Some (clone_request (fresh + 7) related (RequestHeader related)
                                    (RequestTrailer related)))) content verified)
                  end
              end
          end
      end
      end
      end
      end
      end
      end
      end
  end
  | _, _ => Some (store, Withheld (Sentinel ErrInvalidHTTPIntegration) 0)
  end.
End Adapters.
