(* ===== verification/ResponseSigning.v ===== *)
(** * Buffered response signing (http_integration.go 260-625)

    [ResponseSigningMiddleware] runs a handler against a buffer, signs the
    finished response and copies it to the client.  A handler is the trace of
    its calls on the writer, whatever it decides between them, and the method
    it leaves in the request, which the code reads again after it.  An outcome
    is the error given to [MapError] or the response written to the client;
    [None] is a panic. *)

From S2P Require Import Prelude GoStrings Errors Httpsfv StructuredFieldSafe SignatureFields.
From S2P Require Import HttpTypes GoTime Digest Algorithm Signer HttpFields HttpIntegration.
Open Scope Z_scope.

(** ** The buffer *)

Record bufferedResponseWriter := mkBufferedWriter {
  buf_header : Header;
  committedHeader : option Header;
  buf_body : gostring;
  buf_status : Z;
  buf_maxBytes : Z;
  tooLarge : bool
}.

(** [newBufferedResponseWriter] with the header the middleware gives it. *)
Definition newBufferedResponseWriter (header : Header) (maxBytes : Z) : bufferedResponseWriter :=
  mkBufferedWriter header None [] 0 maxBytes false.

Definition responseBodyAllowed (status : Z) : bool :=
  (200 <=? status) && negb (status =? 204) && negb (status =? 205) && negb (status =? 304).

Definition valid_status (status : Z) : bool := negb ((status <? 100) || (999 <? status)).

Definition buffered_WriteHeader (writer : bufferedResponseWriter) (status : Z)
  : option bufferedResponseWriter :=
  if (status <? 100) || (999 <? status) then None
  else if (100 <=? status) && (status <=? 199) && negb (status =? 101) then Some writer
  else if negb (buf_status writer =? 0) then Some writer
  else Some (mkBufferedWriter (buf_header writer) (Some (buf_header writer)) (buf_body writer)
               status (buf_maxBytes writer) (tooLarge writer)).

Definition buffered_Write (writer : bufferedResponseWriter) (content : gostring)
  : option (bufferedResponseWriter * (Z * option error)) :=
  writer ← (if buf_status writer =? 0 then buffered_WriteHeader writer 200 else Some writer);
  if negb (responseBodyAllowed (buf_status writer))
  then Some (writer, (0, Some (Sentinel ErrBodyNotAllowed)))
  else if tooLarge writer || (buf_maxBytes writer - len (buf_body writer) <? len content)
  then Some (mkBufferedWriter (buf_header writer) (committedHeader writer) (buf_body writer)
               (buf_status writer) (buf_maxBytes writer) true,
             (0, Some (Sentinel ErrResponseBodyTooLarge)))
  else Some (mkBufferedWriter (buf_header writer) (committedHeader writer)
               (buf_body writer ++ content) (buf_status writer) (buf_maxBytes writer)
               (tooLarge writer), (len content, None)).

(** A handler's calls; [MutateHeader] is any change through [Header()]. *)
Inductive writer_op :=
| MutateHeader (f : Header -> Header)
| WriteHeader (status : Z)
| Write (content : gostring).

Definition buffered_op (writer : bufferedResponseWriter) (op : writer_op)
  : option bufferedResponseWriter :=
  match op with
  | MutateHeader f =>
      Some (mkBufferedWriter (f (buf_header writer)) (committedHeader writer) (buf_body writer)
              (buf_status writer) (buf_maxBytes writer) (tooLarge writer))
  | WriteHeader status => buffered_WriteHeader writer status
  | Write content => fst <$> buffered_Write writer content
  end.

Fixpoint buffered_run (writer : bufferedResponseWriter) (ops : list writer_op)
  : option bufferedResponseWriter :=
  match ops with
  | [] => Some writer
  | op :: rest => writer ← buffered_op writer op; buffered_run writer rest
  end.

(** [bufferedResponseWriter.response]; [body] is the new reader. *)
Definition buffered_response_of (writer : bufferedResponseWriter) (body : nat) (request : Request)
  : Response := {|
  StatusCode := if buf_status writer =? 0 then 200 else buf_status writer;
  ResponseProtoMajor := 0;
  ResponseProtoMinor := 0;
  ResponseHeader := default (buf_header writer) (committedHeader writer);
  ResponseBody := BodyReader body;
  ResponseContentLength := len (buf_body writer);
  ResponseTransferEncoding := [];
  ResponseClose := false;
  Uncompressed := false;
  ResponseTrailer := ∅;
  ResponseRequest := Some request
|}.

(** ** Framing *)

(** [http.TrailerPrefix]. *)
Definition TrailerPrefix : gostring := str "Trailer:".

(** The first of the names that is in the header, or ambiguous. *)
Fixpoint reject_names (header : Header) (names : list gostring) : option error :=
  match names with
  | [] => None
  | name :: rest =>
      match protectedFieldValues header name with
      | Err err => Some err
      | Ok (_, present) =>
          if present : bool then Some (Sentinel ErrInvalidHTTPIntegration)
          else reject_names header rest
      end
  end.

Definition rejectBufferedResponseManagedFraming (header : Header) : option error :=
  match reject_names header [str "Transfer-Encoding"; str "Trailer"] with
  | Some err => Some err
  | None =>
      if existsb (fun '(name, _) => HasPrefix name TrailerPrefix) (map_to_list header)
      then Some (Sentinel ErrInvalidHTTPIntegration) else None
  end.

(** [deleteHeaderField] and [Header.Set] of Content-Length. *)
Definition set_content_length (header : Header) (length : Z) : Header :=
  Header_Set (deleteHeaderField header "Content-Length") "Content-Length" (FormatInt length).

Definition normalizeBufferedContentLength (header : Header) (contentLength : Z) (required : bool)
  : res Header :=
  let? (values, present) := protectedFieldValues header "Content-Length" in
  let expected := FormatInt contentLength in
  if (present : bool) && negb (bool_decide (values = [expected]))
  then Err (Sentinel ErrInvalidHTTPIntegration)
  else if present || required then Ok (set_content_length header contentLength) else Ok header.

(** [strconv.ParseInt(s, 10, 64)]. *)
Definition ParseInt (s : gostring) : option Z :=
  let '(neg, digits) :=
    match s with
    | c :: rest => if char_eqb c "-" then (true, rest) else if char_eqb c "+" then (false, rest)
                   else (false, s)
    | [] => (false, s)
    end in
  n ← ParseUint digits 64;
  if neg : bool
  then if (2 ^ 63 <? n)%N then None else Some (- Z.of_N n)
  else if (2 ^ 63 <=? n)%N then None else Some (Z.of_N n).

Definition normalizeBufferedRepresentationContentLength (header : Header) (fallback : Z)
  : res (Header * Z) :=
  let? (values, present) := protectedFieldValues header "Content-Length" in
  if negb (present : bool) then
    Ok (if 0 <? fallback then Header_Set header "Content-Length" (FormatInt fallback) else header,
        fallback)
  else
    match values with
    | [value] =>
        if (value =s []) || (Trim value "0123456789" <>s [])
        then Err (Sentinel ErrInvalidHTTPIntegration)
        else
          match ParseInt value with
          | None => Err (Sentinel ErrInvalidHTTPIntegration)
          | Some contentLength => Ok (set_content_length header contentLength, contentLength)
          end
    | _ => Err (Sentinel ErrInvalidHTTPIntegration)
    end.

Definition rejectBufferedContentLength (header : Header) : option error :=
  reject_names header [str "Content-Length"].

(** The switch on what the response may carry: the response with its header and
    length, and the content to be written. *)
Definition framed_response (method : gostring) (response : Response) (body : gostring)
  : res (Response * gostring) :=
  let framed header length :=
    update_response response header (ResponseTrailer response) (ResponseBody response) length
      (ResponseRequest response) in
  let header := ResponseHeader response in
  if method =s "HEAD" then
    let? (header, length) :=
      normalizeBufferedRepresentationContentLength header (ResponseContentLength response) in
    Ok (framed header length, [])
  else if StatusCode response =? 304 then
    let? (header, length) := normalizeBufferedRepresentationContentLength header 0 in
    Ok (framed header length, [])
  else if negb (responseBodyAllowed (StatusCode response)) then
    match rejectBufferedContentLength header with
    | Some err => Err err
    | None => Ok (framed header 0, [])
    end
  else
    let? header :=
      normalizeBufferedContentLength header (ResponseContentLength response) true in
    Ok (framed header (ResponseContentLength response), body).

(** [MessageContext] of a response to be written. *)
Definition written_message (response : Response) (related : Request)
  (external : option ExternalRequestContext) : MessageContext :=
  mkMessage None (Some response) (Some related) external ∅ ResponseTransportWrite 0.

Definition set_response_header (response : Response) (header : Header) : Response :=
  update_response response header (ResponseTrailer response) (ResponseBody response)
    (ResponseContentLength response) (ResponseRequest response).

(** The header of the client's writer before the handler runs. *)
Definition outer_header (header : Header) : res Header :=
  let? outerHeader := normalizeProtectedHeader header in
  if negb (len (Header_Values outerHeader "Content-Digest") =? 0)
  then Err (Sentinel ErrExistingDigest)
  else if negb (len (Header_Values outerHeader "Signature-Input") =? 0) ||
          negb (len (Header_Values outerHeader "Signature") =? 0)
  then Err (Sentinel ErrExistingSignatures)
  else
    match reject_names header [str "Content-Length"; str "Transfer-Encoding"; str "Trailer"] with
    | Some err => Err err
    | None => Ok outerHeader
    end.

Section Middleware.
Context `{SFV : Httpsfv} `{UC : UnicodeCase} `{NU : NetURL} `{CR : Crypto} `{HS : Hashes}.

Record ResponseSigningMiddlewareConfig := mkResponseSigningConfig {
  rsc_signer : option (option SigningProfile);
  rsc_label : gostring;
  rsc_existing : ExistingSignaturesPolicy;
  rsc_maxBufferedBytes : Z;
  rsc_contentDigestAlgorithms : list DigestAlgorithm;
  rsc_options : option (Request -> Response -> res SigningOptions);
  rsc_externalContext : option (Request * Response -> res (option ExternalRequestContext));
  rsc_has_mapError : bool;
  rsc_has_reportError : bool
}.

(** The closure a constructed middleware keeps. *)
Record ResponseSigningMiddleware := mkResponseSigning {
  rsm_signer : option SigningProfile;
  rsm_label : gostring;
  rsm_existing : ExistingSignaturesPolicy;
  rsm_maxBufferedBytes : Z;
  rsm_digestAlgorithms : list DigestAlgorithm;
  rsm_options : Request -> Response -> res SigningOptions;
  rsm_externalContext : option (Request * Response -> res (option ExternalRequestContext))
}.

Definition signingProfileCoversComponent (profile : SigningProfile) (want : ComponentIdentifier)
  : bool :=
  match componentComparisonKey want with
  | Err _ => false
  | Ok wantSerialized =>
      existsb (fun component =>
        match componentComparisonKey component with
        | Ok serialized => serialized =s wantSerialized
        | Err _ => false
        end) (s_components profile)
  end.

Definition NewResponseSigningMiddleware (config : ResponseSigningMiddlewareConfig)
  : res ResponseSigningMiddleware :=
  match rsc_signer config, rsc_options config, rsc_has_mapError config, rsc_has_reportError config with
  | Some signer, Some options, true, true =>
      if negb (validSignatureLabel (rsc_label config)) || (rsc_maxBufferedBytes config <=? 0) ||
         bool_decide (rsc_existing config = ExistingSignaturesInvalid)
      then Err (Sentinel ErrInvalidHTTPIntegration)
      else
        let digestAlgorithms := [] ++ rsc_contentDigestAlgorithms config in
        if negb (len digestAlgorithms =? 0) &&
           (match signer with
            | None => true
            | Some profile =>
                negb (signingProfileCoversComponent profile (mkComponent "content-digest" []))
            end || negb (is_Ok (ComputeDigests digestAlgorithms [])))
        then Err (Sentinel ErrInvalidHTTPIntegration)
        else Ok (mkResponseSigning signer (rsc_label config) (rsc_existing config)
                   (rsc_maxBufferedBytes config) digestAlgorithms options
                   (rsc_externalContext config))
  | _, _, _, _ => Err (Sentinel ErrInvalidHTTPIntegration)
  end.

(** The response after the handler, normalized and framed. *)
Definition finished_response (buffer : bufferedResponseWriter) (body : nat) (method : gostring)
  (related : Request) : res (Response * gostring) :=
  if tooLarge buffer then Err (Sentinel ErrResponseBodyTooLarge)
  else
    let response := buffered_response_of buffer body related in
    if responseTransitionsProtocol related response then Err (Sentinel ErrInvalidHTTPIntegration)
    else
      let? header := normalizeProtectedHeader (ResponseHeader response) in
      match rejectBufferedResponseManagedFraming header with
      | Some err => Err err
      | None => framed_response method (set_response_header response header) (buf_body buffer)
      end.

(** The Content-Digest of the content, when algorithms are configured. *)
Definition digested_response (algorithms : list DigestAlgorithm) (response : Response)
  (content : gostring) : option (res Response) :=
  if len algorithms =? 0 then Some (Ok response)
  else if negb (len (Header_Values (ResponseHeader response) "Content-Digest") =? 0)
  then Some (Err (Sentinel ErrExistingDigest))
  else
    let digests := match ComputeDigests algorithms content with Ok d => d | Err _ => [] end in
    field ← DigestField_String digests;
    Some (Ok (set_response_header response
                (Header_Set (ResponseHeader response) "Content-Digest" field))).

Definition response_signed (middleware : ResponseSigningMiddleware) (fresh : nat)
  (obs : SigningObservation) (related : Request) (response : Response) : option (res Header) :=
  match existing_fields (rsm_existing middleware) (ResponseHeader response) with
  | Err err => Some (Err err)
  | Ok existing =>
  let snapshot := cloneRequestSnapshot fresh related in
  let responseSnapshot := responseCallbackSnapshot (fresh + 1) response related in
  match rsm_options middleware snapshot responseSnapshot with
  | Err _ => Some (Err (Sentinel ErrHTTPIntegrationSigning))
  | Ok options =>
  match external_of (rsm_externalContext middleware)
          (cloneRequestSnapshot (fresh + 2) related,
           responseCallbackSnapshot (fresh + 3) response related) with
  | Err _ => Some (Err (Sentinel ErrHTTPIntegrationSigning))
  | Ok external =>
      signed ← Signer_Sign (rsm_signer middleware) obs (written_message response related external)
                 (rsm_label middleware) options;
      match signed with
      | Err _ => Some (Err (Sentinel ErrHTTPIntegrationSigning))
      | Ok signed => signed_header existing (ResponseHeader response) signed
      end
  end
  end
  end.

(** The calls of the handler and the method of the request after it. *)
Record handler_run := mkHandlerRun {
  handler_ops : list writer_op;
  method_after : gostring
}.

(** The error given to [MapError], or what the client's writer got, with the
    error given to [ReportError]. *)
Inductive response_outcome :=
| ResponseMapped (err : error)
| Emitted (header : Header) (status : Z) (content : gostring) (reported : option error).

(** [copyResponse]: the client's header is emptied and filled, and [wrote] is
    what its [Write] returned. *)
Definition copyResponse (response : Response) (header : Header) (body : gostring)
  (wrote : Z * option error) : response_outcome :=
  Emitted header (StatusCode response) body
    (if negb (is_nil (snd wrote)) || negb (fst wrote =? len body)
     then Some (Sentinel ErrBodyRead) else None).

Definition ResponseSigning_ServeHTTP (middleware : ResponseSigningMiddleware) (fresh : nat)
  (obs : SigningObservation) (outer : Header) (has_next : bool) (handler : handler_run)
  (wrote : Z * option error) (request : option Request) : option response_outcome :=
  match has_next, request with
  | true, Some request =>
      match outer_header outer with
      | Err err => Some (ResponseMapped err)
      | Ok outerHeader =>
      match normalizeProtectedRequest fresh request with
      | Err err => Some (ResponseMapped err)
      | Ok related =>
          buffer ← buffered_run
                     (newBufferedResponseWriter outerHeader (rsm_maxBufferedBytes middleware))
                     (handler_ops handler);
          match finished_response buffer (fresh + 1) (method_after handler) related with
          | Err err => Some (ResponseMapped err)
          | Ok (response, content) =>
              digested ← digested_response (rsm_digestAlgorithms middleware) response content;
              match digested with
              | Err err => Some (ResponseMapped err)
              | Ok response =>
                  header ← response_signed middleware (fresh + 2) obs related response;
                  match header with
                  | Err err => Some (ResponseMapped err)
                  | Ok header => Some (copyResponse response header content wrote)
                  end
              end
          end
      end
      end
  | _, _ => Some (ResponseMapped (Sentinel ErrInvalidHTTPIntegration))
  end.
End Middleware.
