(* ===== verification/BodyDigest.v ===== *)
(** * Buffered body digests (body_integration.go 34-196)

    [BufferedContentDigestRoundTripper] drains a request body and delegates a
    copy with its Content-Digest; [BufferedContentDigestVerificationMiddleware]
    drains the body of a request and serves a copy when its Content-Digest
    matches.  The body, and the trailers the request has once its body was
    read, are observations. *)

From S2P Require Import Prelude GoStrings Errors Httpsfv StructuredFieldSafe SignatureFields.
From S2P Require Import HttpTypes Digest HttpFields BodyReader HttpIntegration.
Open Scope Z_scope.

(** A clone with another header, trailer, body, length and encoding. *)
Definition update_request (fresh : nat) (request : Request) (header trailer : Header) (body : Body)
  (length : Z) (encoding : list gostring) : Request := {|
  RequestPtr := fresh;
  Method := Method request;
  RequestURL := RequestURL request;
  RequestProtoMajor := RequestProtoMajor request;
  RequestProtoMinor := RequestProtoMinor request;
  RequestHeader := header;
  RequestBody := body;
  RequestContentLength := length;
  RequestTransferEncoding := encoding;
  RequestClose := RequestClose request;
  Host := Host request;
  RequestTrailer := trailer;
  RequestURI := RequestURI request;
  RequestTLS := RequestTLS request
|}.

(** What the request's body and trailers do when the body is read. *)
Record drained := mkDrained {
  drained_ctx_nil : bool;
  drained_body : body_observation;
  trailers_after : Header
}.

(** [readBoundedAndClose] on the body of a message. *)
Definition drain (input : drained) (body : Body) (maxBytes : Z) : option (res gostring) :=
  readBoundedAndClose (drained_ctx_nil input)
    (if bool_decide (body = BodyNil) then None else Some (drained_body input)) maxBytes.

(** The calls of [Close] on the body of a request that may be nil. *)
Definition closeRequestBody (request : option Request) : nat :=
  match request with Some request => closes (RequestBody request) | None => 0 end.

(** The header without the fields that frame the body. *)
Definition delete_framing (header : Header) : Header :=
  deleteHeaderField
    (deleteHeaderField (deleteHeaderField header "Content-Length") "Transfer-Encoding") "Trailer".

Section Digesting.
Context `{SFV : Httpsfv} `{HS : Hashes}.

(** ** Outbound *)

Record BufferedContentDigestRoundTripperConfig := mkDigestRoundTripperConfig {
  bdc_has_transport : bool;
  bdc_algorithms : list DigestAlgorithm;
  bdc_maxBytes : Z
}.

Record BufferedContentDigestRoundTripper := mkDigestRoundTripper {
  bdr_algorithms : list DigestAlgorithm;
  bdr_maxBytes : Z
}.

Definition NewBufferedContentDigestRoundTripper (config : BufferedContentDigestRoundTripperConfig)
  : res BufferedContentDigestRoundTripper :=
  if negb (bdc_has_transport config) || (bdc_maxBytes config <=? 0)
  then Err (Sentinel ErrInvalidBodyIntegration)
  else
    match ComputeDigests (bdc_algorithms config) [] with
    | Err _ => Err (Sentinel ErrInvalidBodyIntegration)
    | Ok _ => Ok (mkDigestRoundTripper ([] ++ bdc_algorithms config) (bdc_maxBytes config))
    end.

(** The request the transport gets, whose body and [GetBody] yield [content],
    or the error and how often the adapter closed the caller's body. *)
Inductive digest_outbound :=
| DigestDelegated (request : Request) (content : gostring)
| DigestRefused (err : error) (closed : nat).

(** The request with its digest and with the framing of its content. *)
Definition digested_request (fresh : nat) (clone : Request) (trailer : Header) (field : gostring)
  (content : gostring) : Request :=
  let header := delete_framing (Header_Set (RequestHeader clone) "Content-Digest" field) in
  if Nat.eqb (size trailer) 0
  then update_request (RequestPtr clone) clone header trailer (BodyReader fresh) (len content) []
  else update_request (RequestPtr clone) clone header trailer (BodyReader fresh) (-1)
         [str "chunked"].

Definition BufferedContentDigest_RoundTrip (transport : option BufferedContentDigestRoundTripper)
  (fresh : nat) (input : drained) (request : option Request) : option digest_outbound :=
  match transport, request with
  | Some transport, Some request =>
      let closed := closeRequestBody (Some request) in
      match normalizeProtectedRequest fresh request with
      | Err err => Some (DigestRefused err closed)
      | Ok clone =>
          if negb (len (Header_Values (RequestHeader clone) "Content-Digest") =? 0)
          then Some (DigestRefused (Sentinel ErrExistingDigest) closed)
          else
            content ← drain input (RequestBody request) (bdr_maxBytes transport);
            match content with
            | Err err => Some (DigestRefused err closed)
            | Ok content =>
            match normalizeProtectedHeader (trailers_after input) with
            | Err err => Some (DigestRefused err closed)
            | Ok trailer =>
            match ComputeDigests (bdr_algorithms transport) content with
            | Err _ => Some (DigestRefused (Sentinel ErrInvalidBodyIntegration) closed)
            | Ok digests =>
                field ← DigestField_String digests;
                Some (DigestDelegated (digested_request (fresh + 1) clone trailer field content)
                        content)
            end
            end
            end
      end
  | _, _ => Some (DigestRefused (Sentinel ErrInvalidBodyIntegration) 0)
  end.

(** ** Inbound *)

Record BufferedContentDigestVerificationMiddlewareConfig := mkDigestVerificationConfig {
  bvc_requiredAlgorithms : list DigestAlgorithm;
  bvc_maxBytes : Z;
  bvc_has_mapError : bool
}.

(** The closure a constructed middleware keeps. *)
Record BufferedContentDigestVerificationMiddleware := mkDigestVerification {
  bvm_algorithms : list DigestAlgorithm;
  bvm_maxBytes : Z
}.

Definition NewBufferedContentDigestVerificationMiddleware
  (config : BufferedContentDigestVerificationMiddlewareConfig)
  : res BufferedContentDigestVerificationMiddleware :=
  if (bvc_maxBytes config <=? 0) || negb (bvc_has_mapError config)
  then Err (Sentinel ErrInvalidBodyIntegration)
  else
    match ComputeDigests (bvc_requiredAlgorithms config) [] with
    | Err _ => Err (Sentinel ErrInvalidBodyIntegration)
    | Ok _ => Ok (mkDigestVerification ([] ++ bvc_requiredAlgorithms config) (bvc_maxBytes config))
    end.

(** The request the next handler serves, whose body and [GetBody] yield
    [content], or the error given to [MapError] and the calls of [Close]. *)
Inductive digest_inbound :=
| DigestServed (request : Request) (content : gostring)
| DigestMapped (err : error) (closed : nat).

Definition BufferedContentDigestVerification_ServeHTTP
  (middleware : BufferedContentDigestVerificationMiddleware) (fresh : nat) (input : drained)
  (has_next : bool) (request : option Request) : option digest_inbound :=
  match has_next, request with
  | true, Some request =>
      let closed := closeRequestBody (Some request) in
      match normalizeProtectedRequest fresh request with
      | Err err => Some (DigestMapped err closed)
      | Ok verifiedRequest =>
      match ParseDigestFields (Header_Values (RequestHeader verifiedRequest) "Content-Digest") with
      | Err _ => Some (DigestMapped (Sentinel ErrInvalidDigestField) closed)
      | Ok field =>
          content ← drain input (RequestBody verifiedRequest) (bvm_maxBytes middleware);
          match content with
          | Err err => Some (DigestMapped err closed)
          | Ok content =>
          match normalizeProtectedHeader (trailers_after input) with
          | Err err => Some (DigestMapped err closed)
          | Ok trailer =>
          match DigestField_Verify field content (bvm_algorithms middleware) with
          | Some err => Some (DigestMapped err closed)
          | None =>
              Some (DigestServed
                (update_request (fresh + 1) verifiedRequest (RequestHeader verifiedRequest) trailer
                   (BodyReader (fresh + 2)) (RequestContentLength verifiedRequest)
                   (RequestTransferEncoding verifiedRequest)) content)
          end
          end
          end
      end
      end
  | _, _ => Some (DigestMapped (Sentinel ErrInvalidBodyIntegration) 0)
  end.
End Digesting.
