(* ===== verification/HttpFacts.v ===== *)
(** * What the HTTP adapters let through

    A handler serves, and a client gets, only what was verified, byte for byte;
    what a signing transport delegates is the caller's request with one more
    signature. *)

From S2P Require Import Prelude GoStrings Errors Httpsfv StructuredFieldSafe SignatureFields.
From S2P Require Import HttpTypes MessageBase GoTime ReplayStore Digest DigestFacts Algorithm.
From S2P Require Import Signer SignerFacts Verifier VerifierFacts HttpFields BodyReader HttpIntegration.
Open Scope Z_scope.

(** ** Composition of signatures *)

Lemma pair_fields_Ok by_label inputs pairs :
  pair_fields by_label inputs = Ok pairs ->
  map signed_input pairs = inputs /\
  Forall (fun p => by_label !! InputLabel (signed_input p) = Some (signed_signature p)) pairs.
Proof.
  revert pairs. induction inputs as [| i l IH]; intros pairs; cbn [pair_fields]; [by intros [= <-] |].
  destruct (by_label !! InputLabel i) as [s |] eqn:Hs; [| done].
  intros (ps & Hps & [= <-])%rbind_Ok. destruct (IH _ Hps) as [<- Hf]. split; [done |].
  by constructor.
Qed.

Lemma signatures_by_label_elem (signatures : Signatures) label s :
  signatures_by_label signatures !! label = Some s -> s ∈ signatures /\ SignatureLabel s = label.
Proof.
  unfold signatures_by_label.
  assert (forall (all rest : Signatures) (m : gmap gostring SignatureValue), (forall x, x ∈ rest -> x ∈ all) ->
    (forall l x, m !! l = Some x -> x ∈ all /\ SignatureLabel x = l) ->
    forall l x, fold_left (fun m s => <[SignatureLabel s := s]> m) rest m !! l = Some x ->
      x ∈ all /\ SignatureLabel x = l) as Hfold.
  { intros all rest. induction rest as [| y rest IH]; intros m Hsub Hm; [done |]. cbn [fold_left].
    apply IH; [intros x Hx; by apply Hsub, list_elem_of_further |]. intros l x Hx.
    destruct (decide (SignatureLabel y = l)) as [<- | Hne].
    - rewrite lookup_insert_eq in Hx. injection Hx as <-. split; [by apply Hsub, list_elem_of_here | done].
    - rewrite lookup_insert_ne in Hx by done. by apply Hm. }
  apply Hfold; [done |]. intros l x Hx. by rewrite lookup_empty in Hx.
Qed.

Lemma appendSignedFields_Ok inputs signatures signed combinedInputs combinedSignatures :
  appendSignedFields inputs signatures signed = Ok (combinedInputs, combinedSignatures) ->
  combinedInputs = inputs ++ [signed_input signed] /\
  NoDup (map InputLabel combinedInputs) /\
  map SignatureLabel combinedSignatures = map InputLabel combinedInputs /\
  (exists rest, combinedSignatures = rest ++ [bare_signature signed] /\
   forall s, s ∈ rest -> exists s', s' ∈ signatures /\ SignatureLabel s' = SignatureLabel s /\
     SignatureBytes s' = SignatureBytes s).
Proof.
  unfold appendSignedFields. intros (pairs & Hp & Hc)%rbind_Ok.
  destruct (pair_fields_Ok _ _ _ Hp) as [<- Hf]. unfold CombineSignedFields in Hc.
  destruct (len (pairs ++ [signed]) =? 0); [done |].
  destruct (combine_loop_spec ∅ (pairs ++ [signed])) as [(He & Hcomb & Hnd & _) | (He & _)]; [| congruence].
  rewrite He in Hc. injection Hc as <- <-. split; [by rewrite map_app |].
  split; [by rewrite map_map |]. split.
  - rewrite !map_map. apply map_ext_in. intros p Hin%list_elem_of_In.
    by destruct (proj1 (list.Forall_forall _ _) Hcomb p Hin) as (_ & ? & _).
  - exists (map bare_signature pairs). split; [by rewrite map_app |].
    intros s (p & <- & Hin)%list_elem_of_In%in_map_iff. apply list_elem_of_In in Hin.
    pose proof (proj1 (list.Forall_forall _ _) Hf p Hin) as Hl.
    apply signatures_by_label_elem in Hl as [? _]. by exists (signed_signature p).
Qed.

(** ** Coverage of the digest *)

(** A component that covers the response's own Content-Digest. *)
Definition covers_content_digest (c : ComponentIdentifier) : Prop :=
  ComponentName c = str "content-digest" /\ componentParameterTrue c "req" = false /\
  componentParameterTrue c "tr" = false.

(** The whole field, or its member for [algorithm]. *)
Definition covers_digest_of (c : ComponentIdentifier) (algorithm : DigestAlgorithm) : Prop :=
  covers_content_digest c /\
  (parameter (ComponentParams c) "key" = None \/
   parameter (ComponentParams c) "key" = Some (AString algorithm)).

Lemma content_digest_loop_spec components covered whole keyed :
  let '(covered', whole', keyed') := content_digest_loop components covered whole keyed in
  (covered' = true <-> covered = true \/ exists c, c ∈ components /\ covers_content_digest c) /\
  (whole' = true <-> whole = true \/ exists c, c ∈ components /\ covers_content_digest c /\
     parameter (ComponentParams c) "key" = None) /\
  (forall a, a ∈ keyed' <-> a ∈ keyed \/ exists c, c ∈ components /\ covers_content_digest c /\
     parameter (ComponentParams c) "key" = Some (AString a)).
Proof.
  revert covered whole keyed. induction components as [| c l IH]; intros covered whole keyed.
  { cbn. split; [| split; [| intros a]]; (split; [by left |]; intros [? | (c & Hc & _)]; [done |];
      by apply elem_of_nil in Hc). }
  cbn [content_digest_loop].
  assert ((exists c', c' ∈ c :: l /\ covers_content_digest c') <->
    covers_content_digest c \/ exists c', c' ∈ l /\ covers_content_digest c') as E1.
  { setoid_rewrite elem_of_cons. naive_solver. }
  assert (forall v, (exists c', c' ∈ c :: l /\ covers_content_digest c' /\ parameter (ComponentParams c') "key" = v) <->
    (covers_content_digest c /\ parameter (ComponentParams c) "key" = v) \/
    exists c', c' ∈ l /\ covers_content_digest c' /\ parameter (ComponentParams c') "key" = v) as E2.
  { intros v. setoid_rewrite elem_of_cons. naive_solver. }
  destruct ((ComponentName c <>s "content-digest") || _ || _) eqn:Hskip.
  - assert (~ covers_content_digest c) as Hno.
    { intros (Hn & Hr & Ht). rewrite Hn, Hr, Ht, bool_decide_eq_true_2 in Hskip by done. done. }
    specialize (IH covered whole keyed). destruct (content_digest_loop l covered whole keyed) as [[c' w'] k'].
    destruct IH as (I1 & I2 & I3).
    split; [| split; [| intros a]]; rewrite ?I1, ?I2, ?I3, ?E1, ?E2; tauto.
  - assert (covers_content_digest c) as Hyes.
    { unfold covers_content_digest. bool_to_prop. done. }
    destruct (parameter (ComponentParams c) "key") as [v |] eqn:Hkey.
    + assert (forall keyed1, (forall a, a ∈ keyed1 <-> a ∈ keyed \/ v = AString a) ->
        let '(covered', whole', keyed') := content_digest_loop l true whole keyed1 in
        (covered' = true <-> covered = true \/ exists c', c' ∈ c :: l /\ covers_content_digest c') /\
        (whole' = true <-> whole = true \/ exists c', c' ∈ c :: l /\ covers_content_digest c' /\
           parameter (ComponentParams c') "key" = None) /\
        (forall a, a ∈ keyed' <-> a ∈ keyed \/ exists c', c' ∈ c :: l /\ covers_content_digest c' /\
           parameter (ComponentParams c') "key" = Some (AString a))) as Hgoal.
      { intros keyed1 Hk. specialize (IH true whole keyed1).
        destruct (content_digest_loop l true whole keyed1) as [[c' w'] k']. destruct IH as (I1 & I2 & I3).
        split; [| split; [| intros a]]; rewrite ?I1, ?I2, ?I3, ?E1, ?E2, ?Hk, ?Hkey; intuition congruence. }
      destruct v; try (apply Hgoal; intros a; split; [by left | intros [Ha | [=]]; exact Ha]).
      apply Hgoal. intros a. rewrite elem_of_union, elem_of_singleton.
      split; [intros [-> | Ha]; auto | intros [Ha | [= ->]]; auto].
    + specialize (IH true true keyed). destruct (content_digest_loop l true true keyed) as [[c' w'] k'].
      destruct IH as (I1 & I2 & I3).
      split; [| split; [| intros a]]; rewrite ?I1, ?I2, ?I3, ?E1, ?E2, ?Hkey; intuition congruence.
Qed.

Lemma response_digest_cases input algorithms :
  let '(covered, authenticated) :=
    signatureInputAuthenticatesResponseContentDigest input algorithms in
  (covered = true <-> exists c, c ∈ Components input /\ covers_content_digest c) /\
  (covered = true ->
   (authenticated = true <->
    (exists c, c ∈ Components input /\ covers_content_digest c /\
       parameter (ComponentParams c) "key" = None) \/
    forall a, a ∈ algorithms -> exists c, c ∈ Components input /\ covers_digest_of c a)).
Proof.
  unfold signatureInputAuthenticatesResponseContentDigest, responseContentDigestCoverage.
  pose proof (content_digest_loop_spec (Components input) false false ∅) as H.
  destruct (content_digest_loop _ _ _ _) as [[covered whole] keyed]. destruct H as (H1 & H2 & H3).
  destruct covered; cbn [negb]. 2: { split; [| done]. rewrite H1. naive_solver. }
  destruct whole.
  - split; [naive_solver |]. intros _. split; [| done]. intros _. left. naive_solver.
  - split; [naive_solver |]. intros _. rewrite forallb_forall. split.
    + intros Hall. right. intros a Ha%list_elem_of_In. specialize (Hall a Ha).
      apply bool_decide_eq_true, H3 in Hall as [Hx | (c & Hc & Hd & Hk)].
      * by apply not_elem_of_empty in Hx.
      * exists c. unfold covers_digest_of. auto.
    + intros [Hw | Hall] a Ha.
      * assert (false = true) by (apply H2; by right). done.
      * apply bool_decide_eq_true, H3. right. apply list_elem_of_In in Ha.
        destruct (Hall a Ha) as (c & Hc & Hd & [Hk | Hk]); [| eauto].
        assert (false = true) by (apply H2; right; eauto). done.
Qed.

(** When a signature authenticates the response's content.  It covers the
    content exactly when it covers the response's Content-Digest field or a
    member of it, and it authenticates the configured algorithms exactly when
    for each of them it covers the field or that algorithm's member. *)
Theorem response_digest_authenticated input algorithms :
  let '(covered, authenticated) :=
    signatureInputAuthenticatesResponseContentDigest input algorithms in
  (covered = true <-> exists c, c ∈ Components input /\ covers_content_digest c) /\
  (covered = true ->
   (authenticated = true <->
    (exists c, c ∈ Components input /\ covers_content_digest c /\
       parameter (ComponentParams c) "key" = None) \/
    forall a, a ∈ algorithms -> exists c, c ∈ Components input /\ covers_digest_of c a)).
Proof. apply response_digest_cases. Qed.

(** ** Adapters *)

(** A request with its protected fields normalized and nothing else changed. *)
Definition normalized_request (request normalized : Request) : Prop :=
  normalized = clone_request (RequestPtr normalized) request (RequestHeader normalized)
                 (RequestTrailer normalized) /\
  normalized_from (RequestHeader request) (RequestHeader normalized) protectedHTTPFieldNames
    (RequestHeader request) /\
  normalized_from (RequestTrailer request) (RequestTrailer normalized) protectedHTTPFieldNames
    (RequestTrailer request).

Lemma normalizeProtectedHeader_Ok header n :
  normalizeProtectedHeader header = Ok n ->
  normalized_from header n protectedHTTPFieldNames header.
Proof.
  intros Hn. destruct (normalizeProtectedHeader_cases header) as [[_ (n' & Hn' & ?)] | [_ ?]]; congruence.
Qed.

Lemma normalizeProtectedRequest_Ok fresh request n :
  normalizeProtectedRequest fresh request = Ok n -> normalized_request request n.
Proof.
  intros (h & Hh & (t & Ht & [= <-])%rbind_Ok)%rbind_Ok.
  split; [done |]. split; by apply normalizeProtectedHeader_Ok.
Qed.

Lemma checked_label_Some selected label :
  checked_label selected = Some label -> selected = Ok label /\ validSignatureLabel label = true.
Proof. unfold checked_label. destruct selected; [| done]. case_match; [by intros [= <-] | done]. Qed.

Section Adapters.
Context `{SFV : Httpsfv} `{UC : UnicodeCase} `{NU : NetURL} `{CR : Crypto} `{HS : Hashes}.
Context {S Obs : Type} `{RS : ReplayStore S Obs}.

Implicit Types (obs : VerificationObservation (Obs := Obs)) (store : S).

(** A message whose signature the profile accepted, with the nonce consumed. *)
Definition accepted (verifier : option VerificationProfile) obs store store' (message : MessageContext)
  (label : gostring) (inputs : SignatureInputs) (signatures : Signatures) (input : SignatureInput)
  (verified : VerifiedSignature) : Prop :=
  exists profile signature metadata base key,
    verifier = Some profile /\
    verification profile obs store message label inputs signatures input signature metadata base key /\
    verified = with_algorithm (m_result metadata) (ResolvedAlgorithm key) /\
    if m_nonce metadata =s [] then store' = store
    else replay_Consume store (replay_observation obs) (replay_record metadata) = Some (store', None).

Lemma Verifier_Verify_accepted verifier obs store message label inputs signatures store' verified :
  Verifier_Verify verifier obs store message label inputs signatures = Some (store', Ok verified) ->
  exists input, accepted verifier obs store store' message label inputs signatures input verified.
Proof.
  destruct verifier as [profile |].
  2: { unfold Verifier_Verify. cbv zeta. destruct (verify_ctx_nil obs); [done |]. by destruct (verify_ctx_err obs). }
  intros (input & signature & metadata & base & key & Hv & -> & Hs)%Verifier_Verify_Ok.
  exists input, profile, signature, metadata, base, key. done.
Qed.

(** C11: a handler serves only verified requests.  When the middleware calls the
    next handler, the request it passes is the received one, unchanged but for
    the normalization of its protected fields; the fields are parsed from
    that request, the application selected the label and gave the external
    context, and the verifier's profile accepted the selected signature over that very request and
    consumed its nonce; the metadata in the context are those of the check. *)
Theorem handler_serves_verified middleware fresh obs store has_next request store' served verified :
  RequestVerification_ServeHTTP middleware fresh obs store has_next (Some request) =
    Some (store', Served served verified) ->
  normalized_request request served /\
  exists inputs signatures label external input,
    ParseSignatureInputs (Header_Values (RequestHeader served) "Signature-Input") = Ok inputs /\
    ParseSignatures (Header_Values (RequestHeader served) "Signature") = Ok signatures /\
    rvm_selectLabel middleware (cloneRequestSnapshot (fresh + 1) served) inputs signatures = Ok label /\
    external_of (rvm_externalContext middleware) (cloneRequestSnapshot (fresh + 1) served) = Ok external /\
    accepted (rvm_verifier middleware) obs store store' (request_message served external) label
      inputs signatures input verified.
Proof.
  unfold RequestVerification_ServeHTTP. destruct has_next; [| done].
  destruct (normalizeProtectedRequest fresh request) as [req |] eqn:Hn; [| done].
  destruct (ParseSignatureInputs _) as [inputs |] eqn:Hi; [| done].
  destruct (ParseSignatures _) as [signatures |] eqn:Hs; [| done]. cbv zeta.
  destruct (checked_label _) as [label |] eqn:Hl; [| done].
  destruct (external_of _ _) as [external |] eqn:Hext; [| done].
  destruct (Verifier_Verify _ _ _ _ _ _ _) as [[store1 result] |] eqn:Hv; cbn [mbind option_bind]; [| done].
  destruct result as [metadata |]; [| done]. intros [= -> <- <-]. apply checked_label_Some in Hl as [Hl _].
  destruct (Verifier_Verify_accepted _ _ _ _ _ _ _ _ _ Hv) as [input Ha].
  split; [by eapply normalizeProtectedRequest_Ok |]. by exists inputs, signatures, label, external, input.
Qed.

(** What a delegated header holds: the new signature after the existing ones. *)
Definition signature_appended (existing : option (SignatureInputs * Signatures))
  (signed : SignedFields) (inputField signatureField : gostring) : Prop :=
  match existing with
  | None => SignatureInputField signed = Some inputField /\ SignatureField signed = Some signatureField
  | Some (inputs, signatures) =>
      exists combined, NoDup (map InputLabel (inputs ++ [signed_input signed])) /\
        SignatureInputs_String (inputs ++ [signed_input signed]) = Some inputField /\
        Signatures_String (combined ++ [bare_signature signed]) = Some signatureField /\
        map SignatureLabel combined = map InputLabel inputs /\
        forall s, s ∈ combined -> exists s', s' ∈ signatures /\ SignatureLabel s' = SignatureLabel s /\
          SignatureBytes s' = SignatureBytes s
  end.

Lemma signed_header_Ok existing header signed header' :
  signed_header existing header signed = Some (Ok header') ->
  exists inputField signatureField,
    header' = Header_Set (Header_Set header "Signature-Input" inputField) "Signature" signatureField /\
    signature_appended existing signed inputField signatureField.
Proof.
  destruct existing as [[inputs signatures] |]; cbn [signed_header signature_appended].
  - destruct (appendSignedFields inputs signatures signed) as [[ci cs] |] eqn:Ha; [| done].
    apply appendSignedFields_Ok in Ha as (-> & Hnd & Hlabels & rest & -> & Hrest).
    destruct (SignatureInputs_String _) as [i |] eqn:Hi; [| done]. cbn [mbind option_bind].
    destruct (Signatures_String _) as [s |] eqn:Hs; [| done]. intros [= <-].
    exists i, s. split; [done |]. exists rest. split; [done |]. split; [done |]. split; [done |].
    split; [| done]. rewrite !map_app in Hlabels. cbn [map] in Hlabels.
    by apply app_inj_tail in Hlabels as [-> _].
  - destruct (SignatureInputField signed) as [i |]; [| done]. cbn [mbind option_bind].
    destruct (SignatureField signed) as [s |]; [| done]. intros [= <-]. by exists i, s.
Qed.

Lemma existing_fields_append existing header fields :
  existing_fields existing header = Ok fields -> fields <> None -> existing <> ExistingSignaturesReject.
Proof.
  intros He Hne Hr. unfold existing_fields in He. rewrite Hr in He. destruct (_ && _); [congruence |].
  by rewrite bool_decide_eq_true_2 in He.
Qed.


Lemma read_body_cases ctx_nil body exchange maxBytes :
  exists r, readBoundedAndClose ctx_nil
      (if bool_decide (body = BodyNil) then None else Some (received_body exchange)) maxBytes = Some r /\
    forall content, r = Ok content ->
      if bool_decide (body = BodyNil) then content = []
      else gives (received_body exchange) 0 content /\ len content <= maxBytes.
Proof.
  destruct (readBoundedAndClose_cases ctx_nil
    (if bool_decide (body = BodyNil) then None else Some (received_body exchange)) maxBytes) as (r & Hr & Hc).
  exists r. split; [exact Hr |]. intros content H. apply Hc in H.
  case_bool_decide; [done |]. by destruct H as (_ & _ & ? & ? & _).
Qed.

(** The content of a released response and what makes it authentic. *)
Definition authentic_content (transport : VerifyingRoundTripper) (exchange : exchange)
  (response released : Response) (input : SignatureInput) (content : option gostring) : Prop :=
  match content with
  | None =>
      (forall c, c ∈ Components input -> ~ covers_content_digest c) /\
      ResponseBody released = ResponseBody response
  | Some content =>
      (if bool_decide (ResponseBody response = BodyNil) then content = []
       else gives (received_body exchange) 0 content /\ len content <= vrt_maxBufferedBytes transport) /\
      vrt_contentDigestAlgorithms transport <> [] /\
      exists field,
        ParseDigestFields (Header_Values (ResponseHeader released) "Content-Digest") = Ok field /\
        forall a, a ∈ vrt_contentDigestAlgorithms transport ->
          digest_matches field content a /\
          exists c, c ∈ Components input /\ covers_digest_of c a
  end.

Lemma buffer_content_Ok transport fresh ctx_nil exchange response related authenticated b :
  buffer_content transport fresh ctx_nil exchange response related authenticated = Some (inl b) ->
  authenticated = true /\
  buffered_response b = update_response response (ResponseHeader response)
    (ResponseTrailer (buffered_response b)) (BodyReader (fresh + 3)) (len (buffered_content b))
    (ResponseRequest response) /\
  normalized_from (trailer_after exchange) (ResponseTrailer (buffered_response b)) protectedHTTPFieldNames
    (trailer_after exchange) /\
  (exists body request, wire_response b = update_response response (ResponseHeader response)
    (ResponseTrailer (buffered_response b)) body (ResponseContentLength response) request) /\
  (if bool_decide (ResponseBody response = BodyNil) then buffered_content b = []
   else gives (received_body exchange) 0 (buffered_content b) /\
     len (buffered_content b) <= vrt_maxBufferedBytes transport) /\
  vrt_contentDigestAlgorithms transport <> [] /\
  exists field, ParseDigestFields (Header_Values (ResponseHeader response) "Content-Digest") = Ok field /\
    forall a, a ∈ vrt_contentDigestAlgorithms transport -> digest_matches field (buffered_content b) a.
Proof.
  unfold buffer_content. destruct (responseDigestBufferingConfigured _ _ _) eqn:Hconf; cbn [negb]; [| done].
  destruct authenticated; cbn [negb]; [| done]. case_match; [done |]. case_match; [done |].
  destruct (ParseDigestFields _) as [field |]; [| done].
  destruct (read_body_cases ctx_nil (ResponseBody response) exchange (vrt_maxBufferedBytes transport))
    as (r & -> & Hr). cbn [mbind option_bind].
  destruct r as [content |]; [| done]. specialize (Hr content eq_refl).
  destruct (DigestField_Verify _ _ _) eqn:Hd; [done |].
  destruct (normalizeProtectedHeader _) as [trailer |] eqn:Ht; [| done]. cbv zeta. intros [= <-]. cbn.
  apply normalizeProtectedHeader_Ok in Ht.
  do 3 (split; [done |]). split; [by eexists _, _ |]. split; [done |]. unfold DigestField_Verify in Hd.
  destruct (len _ =? 0) eqn:Hlen; [done |]. split; [intros Hnil; by rewrite Hnil in Hlen |].
  apply verify_loop_None in Hd as (_ & _ & Hall). by exists field.
Qed.

(** The trailers, the body and the length of a released response: those after
    the body when its content was checked, otherwise the received ones. *)
Definition released_rest (exchange : exchange) (response released : Response) (content : option gostring)
  : Prop :=
  match content with
  | None => ResponseTrailer released = ResponseTrailer response /\
      ResponseBody released = ResponseBody response /\
      ResponseContentLength released = ResponseContentLength response
  | Some content =>
      normalized_from (trailer_after exchange) (ResponseTrailer released) protectedHTTPFieldNames
        (trailer_after exchange) /\
      ResponseBody released <> BodyNil /\ ResponseContentLength released = len content
  end.

Lemma message_response_Ok transport fresh ctx_nil exchange response related input r wire content :
  message_response transport fresh ctx_nil exchange response related input = Some (inl (r, wire, content)) ->
  r = update_response response (ResponseHeader response) (ResponseTrailer r) (ResponseBody r)
        (ResponseContentLength r) (ResponseRequest response) /\
  released_rest exchange response r content /\
  (exists body request, wire = update_response response (ResponseHeader response) (ResponseTrailer r)
     body (ResponseContentLength response) request) /\
  authentic_content transport exchange response r input content.
Proof.
  unfold message_response. pose proof (response_digest_cases input (vrt_contentDigestAlgorithms transport)) as Hcov.
  destruct (signatureInputAuthenticatesResponseContentDigest _ _) as [covered authenticated].
  destruct Hcov as [Hcov Hauth]. destruct covered.
  - destruct (buffer_content _ _ _ _ _ _ _) as [[b | f] |] eqn:Hb; cbn [mbind option_bind]; [| done | done].
    intros [= <- <- <-]. apply buffer_content_Ok in Hb as (-> & Hr & Ht & Hw & Hc & Hne & field & Hf & Hd).
    split; [by rewrite Hr |]. split; [split; [done |]; by rewrite Hr |]. split; [done |].
    cbn. split; [done |]. split; [done |]. rewrite Hr. cbn [ResponseHeader update_response].
    exists field. split; [done |]. intros a Ha. split; [auto |].
    destruct (proj1 (Hauth eq_refl) eq_refl) as [(c & Hin & Hcc & Hk) | Hall]; [| auto].
    exists c. unfold covers_digest_of. auto.
  - intros [= <- <- <-]. split; [by destruct response |]. split; [done |].
    split; [exists (ResponseBody response), (ResponseRequest response); by destruct response |]. cbn. split; [| done]. intros c Hin Hc.
    assert (false = true) by (apply Hcov; eauto). done.
Qed.

(** C12: a client gets only verified responses.  When the transport releases a
    response, it is the received one, with its protected fields normalized and
    the request it answers in place of its request, normalized too; trailers,
    body and length are untouched unless the content was checked.  The fields
    are parsed from it, the application selected the label and gave the
    external context, and the profile accepted the selected signature over its
    status, fields and trailers and the length on the wire, related to the
    normalized request.  If the signature covers the response's
    Content-Digest, the body was drained within the limit and replaced by
    exactly its content, the trailers are those after it, and for every
    configured algorithm a covered member of the field is the checksum of
    that content. *)
Theorem released_response_authentic transport fresh obs store ctx_nil exchange request store' released
    content verified :
  VerifyingRoundTripper_RoundTrip (Some transport) fresh obs store ctx_nil exchange (Some request) =
    Some (store', Released released content verified) ->
  exists response original related inputs signatures label external wire input,
    let normalized := update_response response (ResponseHeader released) (ResponseTrailer response)
      (ResponseBody response) (ResponseContentLength response) (ResponseRequest response) in
    received exchange = Some response /\ transport_err exchange = None /\
    ResponseRequest response = Some original /\ normalized_request original related /\
    normalized_from (ResponseHeader response) (ResponseHeader released) protectedHTTPFieldNames
      (ResponseHeader response) /\
    released = update_response response (ResponseHeader released) (ResponseTrailer released)
      (ResponseBody released) (ResponseContentLength released)
      (Some (clone_request (fresh + 7) related (RequestHeader related) (RequestTrailer related))) /\
    released_rest exchange response released content /\
    ParseSignatureInputs (Header_Values (ResponseHeader released) "Signature-Input") = Ok inputs /\
    ParseSignatures (Header_Values (ResponseHeader released) "Signature") = Ok signatures /\
    vrt_selectLabel transport (cloneRequestSnapshot (fresh + 1) related)
      (responseCallbackSnapshot (fresh + 2) normalized related) inputs signatures = Ok label /\
    external_of (vrt_externalContext transport)
      (cloneRequestSnapshot (fresh + 5) related,
       responseCallbackSnapshot (fresh + 6) released related) = Ok external /\
    accepted (vrt_verifier transport) obs store store' (received_message wire related external) label
      inputs signatures input verified /\
    (exists body r, wire = update_response response (ResponseHeader released) (ResponseTrailer released)
       body (ResponseContentLength response) r) /\
    authentic_content transport exchange response released input content.
Proof.
  unfold VerifyingRoundTripper_RoundTrip. cbv zeta.
  destruct (transport_err exchange); [done |]. destruct (received exchange) as [response |]; [| done].
  destruct (snapshotResponseRequest _ _) as [related |] eqn:Hrel; [| done].
  destruct (normalizeProtectedHeader (ResponseHeader response)) as [header |] eqn:Hh; [| done].
  destruct (normalizeProtectedHeader (ResponseTrailer response)); [| done].
  destruct (ParseSignatureInputs _) as [inputs |] eqn:Hi; [| done].
  destruct (ParseSignatures _) as [signatures |] eqn:Hs; [| done].
  destruct (checked_label _) as [label |] eqn:Hl; [| done]. apply checked_label_Some in Hl as [Hl _].
  destruct (selectSignature _ _ _) as [[selected sel] |] eqn:Hsel; [| done].
  destruct (message_response _ _ _ _ _ _ _) as [[p | f] |] eqn:Hm; cbn [mbind option_bind]; [| by destruct f | done].
  destruct p as [[r wire] c]. destruct (external_of _ _) as [external |] eqn:Hext; [| done].
  destruct (Verifier_Verify _ _ _ _ _ _ _) as [[store1 result] |] eqn:Hv; cbn [mbind option_bind]; [| done].
  destruct result as [metadata |]; [| done]. intros [= -> <- <- <-].
  apply message_response_Ok in Hm as (Hr & Hrest & Hwire & Hauth). cbn in Hwire.
  destruct (Verifier_Verify_accepted _ _ _ _ _ _ _ _ _ Hv) as [input Ha].
  assert (input = selected) as ->.
  { destruct Ha as (? & ? & ? & ? & ? & _ & Hver & _). pose proof (ver_selected _ _ _ _ _ _ _ _ _ _ _ _ Hver).
    congruence. }
  unfold snapshotResponseRequest in Hrel. destruct (ResponseRequest response) as [original |] eqn:Hreq; [| done].
  destruct (is_nil (RequestURL original)); [done |]. apply normalizeProtectedRequest_Ok in Hrel.
  apply normalizeProtectedHeader_Ok in Hh.
  assert (ResponseHeader r = header) as Hhr by (by rewrite Hr).
  exists response, original, related, inputs, signatures, label, external, wire, selected. cbv zeta.
  cbn [StatusCode ResponseHeader ResponseTrailer ResponseBody ResponseContentLength update_response]. rewrite Hhr.
  do 5 (split; [done |]). split; [by rewrite Hr |]. split; [by destruct c |].
  do 3 (split; [first [done | by rewrite Hreq in Hl] |]).
  split; [by rewrite <- Hhr |].
  do 2 (split; [done |]). rewrite <- Hhr. exact Hauth.
Qed.
End Adapters.
