(* ===== verification/ResponseFacts.v ===== *)
(** * What the response-signing middleware writes

    The buffered writer keeps exactly what the handler wrote, and the response
    that reaches the client is the handler's, framed by its content, with the
    digest of that content and a signature over all of it. *)

From S2P Require Import Prelude GoStrings Errors Httpsfv StructuredFieldSafe SignatureFields.
From S2P Require Import HttpTypes GoTime Digest DigestFacts Algorithm Signer HttpFields.
From S2P Require Import HttpIntegration HttpFacts ResponseSigning.
Open Scope Z_scope.

(** ** The buffered writer *)

Definition informational (status : Z) : bool :=
  (100 <=? status) && (status <=? 199) && negb (status =? 101).

(** The status and the header the calls commit to: those at the first final
    [WriteHeader] or [Write]. *)
Fixpoint commits (header : Header) (ops : list writer_op) : option (Z * Header) :=
  match ops with
  | [] => None
  | MutateHeader f :: rest => commits (f header) rest
  | WriteHeader status :: rest =>
      if informational status then commits header rest else Some (status, header)
  | Write _ :: _ => Some (200, header)
  end.

Fixpoint written_bytes (ops : list writer_op) : gostring :=
  match ops with
  | [] => []
  | Write content :: rest => content ++ written_bytes rest
  | _ :: rest => written_bytes rest
  end.

(** The header after all changes. *)
Fixpoint mutated (header : Header) (ops : list writer_op) : Header :=
  match ops with
  | [] => header
  | MutateHeader f :: rest => mutated (f header) rest
  | _ :: rest => mutated header rest
  end.

(** The status and header of a handler's answer. *)
Definition answer (header : Header) (ops : list writer_op) : Z * Header :=
  default (200, mutated header ops) (commits header ops).

(** The state of a writer after writes of [total] and a commitment. *)
Definition buffer_holds (maxBytes : Z) (total : gostring) (commitment : option (Z * Header))
  (w : bufferedResponseWriter) : Prop :=
  buf_maxBytes w = maxBytes /\ len (buf_body w) <= maxBytes /\
  match commitment with
  | None =>
      buf_status w = 0 /\ committedHeader w = None /\ buf_body w = [] /\ tooLarge w = false /\
      total = []
  | Some (status, header) =>
      buf_status w = status /\ status <> 0 /\ committedHeader w = Some header /\
      tooLarge w = responseBodyAllowed status && (maxBytes <? len total) /\
      (tooLarge w = false -> buf_body w = if responseBodyAllowed status then total else []) /\
      (tooLarge w = true -> responseBodyAllowed status = true)
  end.

Lemma holds_WriteHeader maxBytes total commitment w status :
  0 <= maxBytes -> buffer_holds maxBytes total commitment w ->
  match buffered_WriteHeader w status with
  | None => ~ 100 <= status <= 999
  | Some w' => 100 <= status <= 999 /\ buf_header w' = buf_header w /\
      buffer_holds maxBytes total
        (match commitment with
         | Some c => Some c
         | None => if informational status then None else Some (status, buf_header w)
         end) w'
  end.
Proof.
  intros Hmax (Hm & Hl & Hc). unfold buffered_WriteHeader.
  destruct ((status <? 100) || (999 <? status)) eqn:Hv; [lia |].
  fold (informational status). destruct (informational status) eqn:Hi.
  { split; [lia |]. split; [done |]. split; [done |]. split; [done |]. by destruct commitment. }
  destruct commitment as [[s h] |].
  - destruct Hc as (Hs & Hs0 & Hrest). replace (buf_status w =? 0) with false by lia. cbn [negb].
    split; [lia |]. split; [done |]. done.
  - destruct Hc as (Hs & Hn & Hb & Ht & ->). rewrite Hs. cbn [negb Z.eqb].
    split; [lia |]. split; [done |]. split; [done |]. split; [done |]. cbn [buf_status committedHeader buf_body tooLarge].
    split; [done |]. split; [lia |]. split; [done |].
    rewrite Ht, Hb, len_nil. replace (maxBytes <? 0) with false by lia. rewrite andb_false_r.
    split; [done |]. split; [by destruct (responseBodyAllowed status) | done].
Qed.

Lemma holds_Write maxBytes total status header w content :
  buffer_holds maxBytes total (Some (status, header)) w ->
  exists w' r, buffered_Write w content = Some (w', r) /\ buf_header w' = buf_header w /\
    buffer_holds maxBytes (total ++ content) (Some (status, header)) w'.
Proof.
  intros (Hm & Hl & Hs & Hs0 & Hh & Ht & Hb & Ha). unfold buffered_Write.
  replace (buf_status w =? 0) with false by lia. cbn [mbind option_bind]. rewrite Hs.
  pose proof (len_nonneg content) as Hc0. destruct (responseBodyAllowed status) eqn:Hallow; cbn [negb].
  2: { eexists _, _. split; [done |]. split; [done |]. unfold buffer_holds. rewrite Hallow. cbn [andb] in *. by repeat split. }
  cbn [andb] in Ht. destruct (tooLarge w || _) eqn:Hfull.
  - eexists _, _. split; [done |]. split; [done |]. split; [done |]. split; [done |].
    cbn [buf_status committedHeader buf_body tooLarge]. rewrite Hallow, len_app. cbn [andb].
    repeat split; try done. destruct (tooLarge w); [lia |]. rewrite Hb in Hfull by done. lia.
  - apply orb_false_iff in Hfull as [Ht' Hfit]. rewrite Ht' in *. rewrite Hb in * by done.
    eexists _, _. split; [done |]. split; [done |]. unfold buffer_holds.
    cbn [buf_status committedHeader buf_body tooLarge buf_maxBytes]. rewrite Hallow, len_app. cbn [andb].
    repeat split; try done; lia.
Qed.

Lemma buffered_run_spec maxBytes ops : forall total commitment w,
  0 <= maxBytes -> buffer_holds maxBytes total commitment w ->
  match buffered_run w ops with
  | None => exists status, WriteHeader status ∈ ops /\ ~ 100 <= status <= 999
  | Some w' =>
      (forall status, WriteHeader status ∈ ops -> 100 <= status <= 999) /\
      buffer_holds maxBytes (total ++ written_bytes ops)
        (match commitment with Some c => Some c | None => commits (buf_header w) ops end) w'
  end.
Proof.
  induction ops as [| op ops IH]; intros total commitment w Hmax Hw; cbn [buffered_run].
  { split; [intros s Hs; by apply elem_of_nil in Hs |]. cbn [written_bytes commits]. rewrite app_nil_r.
    by destruct commitment. }
  assert (forall w' total' c', buffer_holds maxBytes total' c' w' ->
    (forall s, op = WriteHeader s -> 100 <= s <= 999) ->
    total' ++ written_bytes ops = total ++ written_bytes (op :: ops) ->
    match c' with Some c => Some c | None => commits (buf_header w') ops end =
      match commitment with Some c => Some c | None => commits (buf_header w) (op :: ops) end ->
    match buffered_run w' ops with
    | None => exists status, WriteHeader status ∈ op :: ops /\ ~ 100 <= status <= 999
    | Some w'' => (forall status, WriteHeader status ∈ op :: ops -> 100 <= status <= 999) /\
        buffer_holds maxBytes (total ++ written_bytes (op :: ops))
          (match commitment with Some c => Some c | None => commits (buf_header w) (op :: ops) end) w''
    end) as Hstep.
  { intros w' total' c' H' Hop <- <-. specialize (IH total' c' w' Hmax H').
    destruct (buffered_run w' ops).
    - destruct IH as [Hall Hres]. split; [| done]. intros s [<- | Hs]%elem_of_cons; [by apply Hop | by apply Hall].
    - destruct IH as (s & Hs & ?). exists s. split; [by apply list_elem_of_further | done]. }
  destruct op as [f | status | content]; cbn [buffered_op mbind option_bind].
  - apply (Hstep _ total commitment); [| done | done | by destruct commitment].
    destruct Hw as (? & ? & Hc). split; [done |]. split; [done |]. by destruct commitment as [[] |].
  - pose proof (holds_WriteHeader _ _ _ _ status Hmax Hw) as Hh.
    destruct (buffered_WriteHeader w status) as [w' |]; cbn [mbind option_bind].
    2: { exists status. split; [apply list_elem_of_here | done]. }
    destruct Hh as (Hv & Hhd & Hh). apply (Hstep _ total _ Hh); [by intros ? [= <-] | done |].
    destruct commitment; [done |]. cbn [commits]. rewrite Hhd. by destruct (informational status).
  - unfold buffered_op. assert (exists w1, (if buf_status w =? 0 then buffered_WriteHeader w 200 else Some w) = Some w1 /\
      buf_header w1 = buf_header w /\ exists c, buffer_holds maxBytes total (Some c) w1 /\
      Some c = match commitment with Some c => Some c | None => Some (200, buf_header w) end) as (w1 & E1 & Hhd & c & H1 & Hc).
    { destruct commitment as [[s h] |]; pose proof Hw as (_ & _ & Hs).
      - destruct Hs as (Hs & ? & _). replace (buf_status w =? 0) with false by lia. eauto 10.
      - destruct Hs as (Hs & _). rewrite Hs. cbn [Z.eqb].
        pose proof (holds_WriteHeader _ _ _ _ 200 Hmax Hw) as Hh.
        destruct (buffered_WriteHeader w 200) as [w1 |]; [| lia]. destruct Hh as (_ & ? & ?).
        exists w1. split; [done |]. split; [done |]. by exists (200, buf_header w). }
    destruct c as [s h]. destruct (holds_Write _ _ _ _ _ content H1) as (w2 & r & E2 & Hhd2 & H2).
    assert (buffered_Write w content = Some (w2, r)) as ->.
    { rewrite <- E2. unfold buffered_Write. rewrite E1. cbn [mbind option_bind].
      destruct H1 as (_ & _ & Hs & Hs0 & _). by replace (buf_status w1 =? 0) with false by lia. }
    cbn [fmap option_fmap option_map fst mbind option_bind].
    apply (Hstep _ _ _ H2); [done | cbn [written_bytes]; by rewrite app_assoc | ].
    destruct commitment; cbn [commits]; congruence.
Qed.

Lemma buffered_writer_cases header maxBytes ops :
  0 <= maxBytes ->
  match buffered_run (newBufferedResponseWriter header maxBytes) ops with
  | None => exists status, WriteHeader status ∈ ops /\ ~ 100 <= status <= 999
  | Some w =>
      (forall status, WriteHeader status ∈ ops -> 100 <= status <= 999) /\
      buffer_holds maxBytes (written_bytes ops) (commits header ops) w
  end.
Proof.
  intros Hmax. apply (buffered_run_spec maxBytes ops [] None); [done |].
  split; [done |]. split; [exact Hmax | done].
Qed.

Lemma buffered_run_header ops : forall w w',
  buffered_run w ops = Some w' -> buf_header w' = mutated (buf_header w) ops.
Proof.
  induction ops as [| op ops IH]; intros w w'; cbn [buffered_run]; [by intros [= <-] |].
  intros (w1 & H1 & H)%bind_Some. rewrite (IH _ _ H). clear IH H.
  assert (forall u s v, buffered_WriteHeader u s = Some v -> buf_header v = buf_header u) as Hwh.
  { intros u s v. unfold buffered_WriteHeader. repeat case_match; by intros [= <-]. }
  destruct op as [f | status | content]; cbn [buffered_op mutated] in *.
  - by injection H1 as <-.
  - by rewrite (Hwh _ _ _ H1).
  - apply fmap_Some in H1 as ([w2 r] & H1 & ->). unfold buffered_Write in H1.
    apply bind_Some in H1 as (u & Hu & H1).
    assert (buf_header u = buf_header w) as <- by (destruct (buf_status w =? 0); [eauto | congruence]).
    by repeat case_match; simplify_eq.
Qed.

(** C23: the buffered writer.  For every sequence of calls of a handler: the
    writer panics exactly when a status is out of range; it commits to the
    status and header of the first final [WriteHeader] or [Write]; it never
    holds more than its limit; it reports the overflow exactly when the
    handler wrote more than the limit under a status that allows a body; and
    otherwise it holds exactly the bytes written, or none when the status
    allows none. *)
Theorem buffered_writer_exact header maxBytes ops :
  0 <= maxBytes ->
  match buffered_run (newBufferedResponseWriter header maxBytes) ops with
  | None => exists status, WriteHeader status ∈ ops /\ ~ 100 <= status <= 999
  | Some w =>
      (forall status, WriteHeader status ∈ ops -> 100 <= status <= 999) /\
      buffer_holds maxBytes (written_bytes ops) (commits header ops) w
  end.
Proof. apply buffered_writer_cases. Qed.

(** ** Headers *)

(** No key of the header is the name up to case. *)
Definition absent (header : Header) (name : gostring) : Prop :=
  forall k, EqualFold k name = true -> header !! k = None.

(** The only key that is the name up to case is the canonical one, with one
    value. *)
Definition only_value (header : Header) (name value : gostring) : Prop :=
  header !! CanonicalHeaderKey name = Some [value] /\
  forall k, EqualFold k name = true -> k <> CanonicalHeaderKey name -> header !! k = None.

Lemma protectedFieldValues_absent header name values :
  protectedFieldValues header name = Ok (values, false) -> absent header name.
Proof.
  intros H k Hk. destruct (protectedFieldValues_cases header name) as [(_ & v & p & Hv & Hp) | [_ ?]]; [| congruence].
  assert (p = false) as -> by congruence. destruct Hp as [_ Hno].
  destruct (header !! k) as [v0 |] eqn:Hv0; [| done]. by rewrite (Hno k) in Hk by eauto.
Qed.

Lemma reject_names_None header names :
  reject_names header names = None -> Forall (absent header) names.
Proof.
  induction names as [| name names IH]; cbn [reject_names]; [by constructor |].
  destruct (protectedFieldValues header name) as [[values present] |] eqn:Hv; [| done].
  destruct present; [done |]. intros H. constructor; [by eapply protectedFieldValues_absent | by apply IH].
Qed.

Lemma only_value_set header name value :
  (forall k, EqualFold k name = true -> k <> CanonicalHeaderKey name -> header !! k = None) ->
  only_value (Header_Set header name value) name value.
Proof.
  intros Hno. split; [by unfold Header_Set; rewrite lookup_insert_eq |].
  intros k Hk Hne. unfold Header_Set. rewrite lookup_insert_ne by done. by apply Hno.
Qed.

Lemma only_value_set_content_length header length :
  only_value (set_content_length header length) "Content-Length" (FormatInt length).
Proof. apply only_value_set. intros k Hk _. by rewrite lookup_deleteHeaderField, Hk. Qed.

(** Setting a field keeps what is known of other names. *)
Lemma absent_set header name other value :
  EqualFold (CanonicalHeaderKey other) name = false ->
  absent header name -> absent (Header_Set header other value) name.
Proof.
  intros Hne Habs k Hk. unfold Header_Set. rewrite lookup_insert_ne; [by apply Habs | congruence].
Qed.

Lemma only_value_set_other header name value other v :
  EqualFold (CanonicalHeaderKey name) name = true ->
  EqualFold (CanonicalHeaderKey other) name = false ->
  only_value header name value -> only_value (Header_Set header other v) name value.
Proof.
  intros Hself Hne [H1 H2]. unfold Header_Set. split.
  - rewrite lookup_insert_ne; [done |]. intros Heq. by rewrite Heq, Hself in Hne.
  - intros k Hk Hk'. rewrite lookup_insert_ne; [by apply H2 |]. intros <-. congruence.
Qed.

Lemma absent_content_length header length name :
  EqualFold (str "Content-Length") name = false ->
  absent header name -> absent (set_content_length header length) name.
Proof.
  intros Hne Habs. apply absent_set; [exact Hne |]. intros k Hk.
  rewrite lookup_deleteHeaderField. destruct (EqualFold k "Content-Length"); [done | by apply Habs].
Qed.

Lemma lookup_set_content_length header length k :
  EqualFold k "Content-Length" = false -> set_content_length header length !! k = header !! k.
Proof.
  intros Hk. unfold set_content_length, Header_Set. rewrite lookup_insert_ne.
  - by rewrite lookup_deleteHeaderField, Hk.
  - intros <-. revert Hk. vm_compute. discriminate.
Qed.

(** ** The framed response *)

(** The response without its header and length, and the content it carries:
    a length that is signed is the one that is written. *)
Record framed_as (method : gostring) (response r : Response) (body content : gostring) : Prop := {
  framed_status : StatusCode r = StatusCode response;
  framed_content :
    content = if (method =s "HEAD") || negb (responseBodyAllowed (StatusCode response)) then [] else body;
  framed_length :
    (method =s "HEAD") || negb (responseBodyAllowed (StatusCode response)) = false ->
    only_value (ResponseHeader r) "Content-Length" (FormatInt (ResponseContentLength response)) /\
    ResponseContentLength r = ResponseContentLength response;
  framed_other k : EqualFold k "Content-Length" = false ->
    ResponseHeader r !! k = ResponseHeader response !! k;
  framed_absent name : EqualFold (str "Content-Length") name = false ->
    absent (ResponseHeader response) name -> absent (ResponseHeader r) name;
  framed_rest : ResponseTrailer r = ResponseTrailer response /\ ResponseRequest r = ResponseRequest response
}.

Lemma representation_length_other header fallback header' length :
  normalizeBufferedRepresentationContentLength header fallback = Ok (header', length) ->
  (forall k, EqualFold k "Content-Length" = false -> header' !! k = header !! k) /\
  (forall name, EqualFold (str "Content-Length") name = false -> absent header name -> absent header' name).
Proof.
  unfold normalizeBufferedRepresentationContentLength. intros ([values present] & _ & H)%rbind_Ok.
  destruct present; cbn [negb] in H.
  - destruct values as [| value [|]]; [done | | done]. destruct (_ || _); [done |].
    destruct (ParseInt value); [| done]. injection H as <- <-.
    split; [intros; by apply lookup_set_content_length | intros; by apply absent_content_length].
  - injection H as <- <-. destruct (0 <? fallback); [| done]. split.
    + intros k Hk. unfold Header_Set. rewrite lookup_insert_ne; [done |]. intros <-. revert Hk. vm_compute. discriminate.
    + intros name Hn Habs. by apply absent_set.
Qed.

Lemma framed_response_Ok method response body r content :
  framed_response method response body = Ok (r, content) -> framed_as method response r body content.
Proof.
  unfold framed_response. cbv zeta. destruct (method =s "HEAD") eqn:Hm.
  { intros ([h l] & Hh & [= <- <-])%rbind_Ok. apply representation_length_other in Hh as [H1 H2].
    split; cbn; rewrite ?Hm; done. }
  destruct (StatusCode response =? 304) eqn:H304.
  { intros ([h l] & Hh & [= <- <-])%rbind_Ok. apply representation_length_other in Hh as [H1 H2].
    assert (StatusCode response = 304) as E by lia.
    split; cbn; rewrite ?Hm, ?E; done. }
  destruct (responseBodyAllowed (StatusCode response)) eqn:Ha; cbn [negb].
  - intros (h & Hh & [= <- <-])%rbind_Ok. unfold normalizeBufferedContentLength in Hh.
    apply rbind_Ok in Hh as ([values present] & _ & Hh). destruct (_ && _); [done |].
    rewrite orb_true_r in Hh. injection Hh as <-.
    split; cbn; rewrite ?Hm, ?Ha; try done.
    + intros _. split; [apply only_value_set_content_length | done].
    + intros k Hk. by apply lookup_set_content_length.
    + intros name Hn Habs. by apply absent_content_length.
  - destruct (rejectBufferedContentLength _); [done |]. intros [= <- <-].
    split; cbn; rewrite ?Hm, ?Ha; done.
Qed.

(** What a finished buffer holds, in terms of the handler's calls. *)
Lemma answered header maxBytes ops buffer :
  0 <= maxBytes -> buffered_run (newBufferedResponseWriter header maxBytes) ops = Some buffer ->
  tooLarge buffer = false ->
  (if buf_status buffer =? 0 then 200 else buf_status buffer) = fst (answer header ops) /\
  default (buf_header buffer) (committedHeader buffer) = snd (answer header ops) /\
  (responseBodyAllowed (fst (answer header ops)) = true -> buf_body buffer = written_bytes ops) /\
  len (buf_body buffer) <= maxBytes.
Proof.
  intros Hmax Hrun Hsmall. pose proof (buffered_writer_cases header maxBytes ops Hmax) as Hspec.
  pose proof (buffered_run_header _ _ _ Hrun) as Hhd. rewrite Hrun in Hspec.
  destruct Hspec as (_ & _ & Hl & Hc). unfold answer. destruct (commits header ops) as [[s h] |]; cbn [fst snd default from_option].
  - destruct Hc as (Hs & Hs0 & -> & _ & Hb & _). replace (buf_status buffer =? 0) with false by lia.
    split; [done |]. split; [done |]. split; [| done]. intros Ha. cbn in Ha. rewrite Hb by done. by rewrite Ha.
  - destruct Hc as (-> & -> & -> & _ & ->). split; [done |]. split; [done |]. split; [done | rewrite len_nil; lia].
Qed.

Section Middleware.
Context `{SFV : Httpsfv} `{UC : UnicodeCase} `{NU : NetURL} `{CR : Crypto} `{HS : Hashes}.

Implicit Types (middleware : ResponseSigningMiddleware).

(** The header carries the digests of the content. *)
Definition carries_digest (algorithms : list DigestAlgorithm) (content : gostring) (header : Header)
  : Prop :=
  exists digests field, ComputeDigests algorithms content = Ok digests /\
    DigestField_String digests = Some field /\
    Header_Values header "Content-Digest" = [field].

Lemma digested_response_Ok algorithms response content r :
  algorithms = [] \/ is_Ok (ComputeDigests algorithms []) = true ->
  digested_response algorithms response content = Some (Ok r) ->
  (algorithms = [] /\ r = response) \/
  (carries_digest algorithms content (ResponseHeader r) /\ exists field,
   r = set_response_header response (Header_Set (ResponseHeader response) "Content-Digest" field)).
Proof.
  intros Hok. unfold digested_response. destruct (len algorithms =? 0) eqn:H0.
  { intros [= <-]. left. split; [apply len_0; lia | done]. }
  destruct Hok as [-> | Hok]; [done |]. destruct (ComputeDigests algorithms []) as [d0 |] eqn:Hd0; [| done].
  destruct (ComputeDigests_any _ _ content _ Hd0) as [digests Hd]. rewrite Hd.
  destruct (negb _); [done |]. destruct (DigestField_String digests) as [field |] eqn:Hf; [| done].
  intros [= <-]. right. split; [| by exists field]. exists digests, field. split; [done |]. split; [done |].
  unfold Header_Values, Header_Set. cbn [ResponseHeader set_response_header update_response].
  by rewrite lookup_insert_eq.
Qed.

Lemma response_signed_Ok middleware fresh obs related response header :
  response_signed middleware fresh obs related response = Some (Ok header) ->
  exists existing options external signed inputField signatureField,
    existing_fields (rsm_existing middleware) (ResponseHeader response) = Ok existing /\
    (existing <> None -> rsm_existing middleware <> ExistingSignaturesReject) /\
    rsm_options middleware (cloneRequestSnapshot fresh related)
      (responseCallbackSnapshot (fresh + 1) response related) = Ok options /\
    external_of (rsm_externalContext middleware)
      (cloneRequestSnapshot (fresh + 2) related,
       responseCallbackSnapshot (fresh + 3) response related) = Ok external /\
    Signer_Sign (rsm_signer middleware) obs (written_message response related external)
      (rsm_label middleware) options = Some (Ok signed) /\
    header = Header_Set (Header_Set (ResponseHeader response) "Signature-Input" inputField)
               "Signature" signatureField /\
    signature_appended existing signed inputField signatureField.
Proof.
  unfold response_signed. destruct (existing_fields _ _) as [existing |] eqn:He; [| done]. cbv zeta.
  destruct (rsm_options _ _ _) as [options |] eqn:Ho; [| done].
  destruct (external_of _ _) as [external |] eqn:Hext; [| done].
  destruct (Signer_Sign _ _ _ _ _) as [[signed |] |] eqn:Hs; cbn [mbind option_bind]; [| done | done].
  intros Hh. apply signed_header_Ok in Hh as (i & s & -> & Happ).
  exists existing, options, external, signed, i, s. split; [done |]. split; [by eapply existing_fields_append | done].
Qed.

(** What the handler's calls give before the digest. *)
Lemma finished_response_Ok buffer fresh method related r content :
  finished_response buffer fresh method related = Ok (r, content) ->
  tooLarge buffer = false /\ exists n,
    normalized_from (default (buf_header buffer) (committedHeader buffer)) n protectedHTTPFieldNames
      (default (buf_header buffer) (committedHeader buffer)) /\
    absent n "Transfer-Encoding" /\ absent n "Trailer" /\
    framed_as method (set_response_header (buffered_response_of buffer fresh related) n) r
      (buf_body buffer) content.
Proof.
  unfold finished_response. destruct (tooLarge buffer); [done |]. cbv zeta.
  destruct (responseTransitionsProtocol _ _); [done |]. intros (n & Hn & H)%rbind_Ok.
  unfold rejectBufferedResponseManagedFraming in H.
  destruct (reject_names n _) eqn:Hr; [done |]. destruct (existsb _ _); [done |].
  apply reject_names_None, list.Forall_cons in Hr as [H1 Hr].
  apply list.Forall_cons in Hr as [H2 _].
  split; [done |]. exists n. split; [by apply normalizeProtectedHeader_Ok in Hn |].
  split; [done |]. split; [done |]. by apply framed_response_Ok.
Qed.

Lemma constructed_middleware config middleware :
  NewResponseSigningMiddleware config = Ok middleware ->
  0 < rsm_maxBufferedBytes middleware /\
  (rsm_digestAlgorithms middleware = [] \/
   is_Ok (ComputeDigests (rsm_digestAlgorithms middleware) []) = true).
Proof.
  unfold NewResponseSigningMiddleware. destruct (rsc_signer config) as [signer |]; [| done].
  destruct (rsc_options config); [| done]. destruct (rsc_has_mapError config); [| done].
  destruct (rsc_has_reportError config); [| done].
  destruct (negb (validSignatureLabel _) || _ || _) eqn:Hc; [done |]. cbv zeta. cbn [app].
  destruct (_ && _) eqn:Hd; [done |]. intros [= <-]. cbn. split; [lia |].
  destruct (len (rsc_contentDigestAlgorithms config) =? 0) eqn:H0; [left; apply len_0; lia | right].
  cbn [negb andb] in Hd. apply orb_false_iff in Hd as [_ Hd]. by apply negb_false_iff in Hd.
Qed.

(** The digest touches one field of the framed response. *)
Lemma digested_same algorithms content framed response name value :
  (algorithms = [] /\ response = framed) \/
  (carries_digest algorithms content (ResponseHeader response) /\ exists field,
   response = set_response_header framed (Header_Set (ResponseHeader framed) "Content-Digest" field)) ->
  EqualFold (CanonicalHeaderKey name) name = true -> EqualFold (str "Content-Digest") name = false ->
  StatusCode response = StatusCode framed /\
  ResponseContentLength response = ResponseContentLength framed /\
  (algorithms = [] \/ carries_digest algorithms content (ResponseHeader response)) /\
  (forall k, k <> str "Content-Digest" -> ResponseHeader response !! k = ResponseHeader framed !! k) /\
  (absent (ResponseHeader framed) name -> absent (ResponseHeader response) name) /\
  (only_value (ResponseHeader framed) name value -> only_value (ResponseHeader response) name value).
Proof.
  intros [[-> ->] | [Hc [field Hr]]] Hself Hne; [by do 2 (split; [done |]); split; [by left |] |]. rewrite Hr in *.
  cbn [StatusCode ResponseContentLength ResponseHeader set_response_header update_response] in *.
  split; [done |]. split; [done |]. split; [by right |]. split; [| split].
  - intros k Hk. unfold Header_Set. by rewrite lookup_insert_ne.
  - by apply absent_set.
  - by apply only_value_set_other.
Qed.

Lemma reported_None (wrote : Z * option error) (content : gostring) :
  (if negb (is_nil (snd wrote)) || negb (fst wrote =? len content)
   then Some (Sentinel ErrBodyRead) else None) = None <-> wrote = (len content, None).
Proof.
  destruct wrote as [count [e |]]; cbn [fst snd is_nil negb orb]; [done |].
  destruct (count =? len content) eqn:Hc; cbn [negb]; [| split; [done | intros [= ->]; lia]].
  split; [| done]. intros _. do 2 f_equal. lia.
Qed.

(** C16: the response a client gets from the signing middleware.  It has the
    status and, but for the normalized protected fields and the framing, the
    header the handler committed to; the content is exactly what the handler
    wrote, within the limit, or none for HEAD and the statuses without a body;
    a body is framed by one Content-Length, its length, with no
    Transfer-Encoding and no Trailer; configured digests are those of that
    content; the signature is the signer's over this very response, status,
    fields and length, with the options and the external context the
    application gave for it, after the signatures read from the response's own
    header, none under the policy that rejects them; and a failed or short
    write is reported. *)
Theorem emitted_response_signed config middleware fresh obs outer handler wrote request header status
    content reported :
  NewResponseSigningMiddleware config = Ok middleware ->
  ResponseSigning_ServeHTTP middleware fresh obs outer true handler wrote (Some request) =
    Some (Emitted header status content reported) ->
  exists outerHeader related n response existing options external signed inputField signatureField,
    let bodiless := (method_after handler =s "HEAD") || negb (responseBodyAllowed status) in
    outer_header outer = Ok outerHeader /\ normalized_request request related /\
    status = fst (answer outerHeader (handler_ops handler)) /\ StatusCode response = status /\
    ResponseTrailer response = ∅ /\ ResponseRequest response = Some related /\
    content = (if bodiless then [] else written_bytes (handler_ops handler)) /\
    len content <= rsm_maxBufferedBytes middleware /\
    normalized_from (snd (answer outerHeader (handler_ops handler))) n protectedHTTPFieldNames
      (snd (answer outerHeader (handler_ops handler))) /\
    (forall k, EqualFold k "Content-Length" = false -> k <> str "Content-Digest" ->
       ResponseHeader response !! k = n !! k) /\
    absent header "Transfer-Encoding" /\ absent header "Trailer" /\
    (bodiless = false -> only_value header "Content-Length" (FormatInt (len content)) /\
       ResponseContentLength response = len content) /\
    (rsm_digestAlgorithms middleware = [] \/
     carries_digest (rsm_digestAlgorithms middleware) content (ResponseHeader response)) /\
    existing_fields (rsm_existing middleware) (ResponseHeader response) = Ok existing /\
    (existing <> None -> rsm_existing middleware <> ExistingSignaturesReject) /\
    rsm_options middleware (cloneRequestSnapshot (fresh + 2) related)
      (responseCallbackSnapshot (fresh + 3) response related) = Ok options /\
    external_of (rsm_externalContext middleware)
      (cloneRequestSnapshot (fresh + 4) related,
       responseCallbackSnapshot (fresh + 5) response related) = Ok external /\
    Signer_Sign (rsm_signer middleware) obs (written_message response related external)
      (rsm_label middleware) options = Some (Ok signed) /\
    header = Header_Set (Header_Set (ResponseHeader response) "Signature-Input" inputField)
               "Signature" signatureField /\
    signature_appended existing signed inputField signatureField /\
    (reported = None <-> wrote = (len content, None)).
Proof.
  intros Hconf Hserve. apply constructed_middleware in Hconf as [Hmax Hdig].
  unfold ResponseSigning_ServeHTTP in Hserve.
  destruct (outer_header outer) as [outerHeader |] eqn:Ho; [| done].
  destruct (normalizeProtectedRequest fresh request) as [related |] eqn:Hrel; [| done].
  destruct (buffered_run _ _) as [buffer |] eqn:Hrun; cbn [mbind option_bind] in Hserve; [| done].
  destruct (finished_response _ _ _ _) as [[framed body] |] eqn:Hfin; [| done].
  destruct (digested_response _ _ _) as [[response |] |] eqn:Hdg; cbn [mbind option_bind] in Hserve; [| done | done].
  destruct (response_signed _ _ _ _ _) as [[hd |] |] eqn:Hsig; cbn [mbind option_bind] in Hserve; [| done | done].
  unfold copyResponse in Hserve. injection Hserve as -> <- -> <-.
  apply finished_response_Ok in Hfin as (Hsmall & n & Hn & Hte & Htr & Hframed).
  apply answered in Hrun as (Hstatus & Hcommitted & Hbody & Hlen); [| lia | done].
  destruct Hframed as [Hfs Hfc Hfl Hfo Hfa [Hft Hfr]].
  cbn [StatusCode ResponseHeader ResponseContentLength set_response_header update_response buffered_response_of] in *.
  rewrite Hstatus in *. rewrite Hcommitted in Hn.
  apply (digested_response_Ok _ _ _ _ Hdig) in Hdg.
  assert (ResponseTrailer response = ∅ /\ ResponseRequest response = Some related) as [Htrl Hrq]
    by (destruct Hdg as [[_ ->] | [_ [field ->]]]; done).
  pose proof (fun name value => digested_same _ _ _ _ name value Hdg) as Hsame. clear Hdg.
  destruct (Hsame (str "Content-Length") (FormatInt (len content)) eq_refl eq_refl) as (Hs1 & Hs2 & Hs3 & Hs4 & _ & Hs5).
  destruct (Hsame (str "Transfer-Encoding") [] eq_refl eq_refl) as (_ & _ & _ & _ & Hte' & _).
  destruct (Hsame (str "Trailer") [] eq_refl eq_refl) as (_ & _ & _ & _ & Htr' & _).
  apply response_signed_Ok in Hsig as (existing & options & external & signed & i & g & He & Hrej & Hop & Hext & Hsign & -> & Happ).
  exists outerHeader, related, n, response, existing, options, external, signed, i, g. cbv zeta.
  rewrite Hs1, Hfs in *. split; [done |]. split; [by eapply normalizeProtectedRequest_Ok |].
  do 4 (split; [done |]). split.
  { rewrite Hfc. destruct (_ || _) eqn:Hb; [done |]. apply orb_false_iff in Hb as [_ Hb].
    apply Hbody. by apply negb_false_iff in Hb. }
  split; [rewrite Hfc; destruct (_ || _); [rewrite len_nil; lia | done] |]. split; [done |].
  split; [intros k Hk1 Hk2; by rewrite Hs4, Hfo |].
  do 2 (split; [do 2 (apply absent_set; [done |]); auto |]). split.
  { intros Hb. rewrite Hb in Hfc. subst content. destruct (Hfl Hb) as [H1 H2]. rewrite Hs2.
    split; [| done]. apply only_value_set_other; [done | done |].
    apply only_value_set_other; [done | done |]. by apply Hs5. }
  replace (fresh + 2 + 1)%nat with (fresh + 3)%nat in Hop by lia.
  replace (fresh + 2 + 2)%nat with (fresh + 4)%nat in Hext by lia.
  replace (fresh + 2 + 3)%nat with (fresh + 5)%nat in Hext by lia. do 8 (split; [done |]). apply reported_None.
Qed.
End Middleware.
