(* ===== verification/BodyDigestFacts.v ===== *)
(** * What the buffered digest adapters pass on

    The transport delegates the drained body with its own digest and framing,
    the middleware serves a drained body only with matching digests, and what
    the transport delegates the middleware serves. *)

From S2P Require Import Prelude GoStrings Errors Httpsfv StructuredFieldSafe SignatureFields.
From S2P Require Import FieldText FieldRoundtrip HttpTypes Digest DigestFacts HttpFields BodyReader HttpIntegration HttpFacts.
From S2P Require Import ResponseSigning ResponseFacts BodyDigest.
Open Scope Z_scope.

(** The body gives exactly the content, in the limit, and closes. *)
Definition drains (input : drained) (body : Body) (maxBytes : Z) (content : gostring) : Prop :=
  if bool_decide (body = BodyNil) then content = []
  else drained_ctx_nil input = false /\ gives (drained_body input) 0 content /\
    len content <= maxBytes /\ close_err (drained_body input) = None.

Lemma drain_cases input body maxBytes :
  0 < maxBytes ->
  exists r, drain input body maxBytes = Some r /\
    forall content, r = Ok content <-> drains input body maxBytes content.
Proof.
  intros Hmax. unfold drain, drains.
  destruct (readBoundedAndClose_cases (drained_ctx_nil input)
    (if bool_decide (body = BodyNil) then None else Some (drained_body input)) maxBytes) as (r & Hr & Hc).
  exists r. split; [done |]. intros content. rewrite Hc. case_bool_decide; [done |]. tauto.
Qed.

Lemma lookup_delete_framing header k :
  delete_framing header !! k =
    if EqualFold k "Content-Length" || EqualFold k "Transfer-Encoding" || EqualFold k "Trailer"
    then None else header !! k.
Proof.
  unfold delete_framing. rewrite !lookup_deleteHeaderField.
  destruct (EqualFold k "Content-Length"), (EqualFold k "Transfer-Encoding"), (EqualFold k "Trailer"); done.
Qed.

Lemma delete_framing_absent header :
  absent (delete_framing header) "Content-Length" /\
  absent (delete_framing header) "Transfer-Encoding" /\ absent (delete_framing header) "Trailer".
Proof.
  repeat split; intros k Hk; rewrite lookup_delete_framing, Hk;
    by destruct (EqualFold k "Content-Length"), (EqualFold k "Transfer-Encoding"), (EqualFold k "Trailer").
Qed.

Lemma delete_framing_digest header : Header_Values (delete_framing header) "Content-Digest" =
  Header_Values header "Content-Digest".
Proof. unfold Header_Values. by rewrite lookup_delete_framing. Qed.

Section Digesting.
Context `{SFV : Httpsfv} `{HS : Hashes}.

Implicit Types (transport : BufferedContentDigestRoundTripper)
  (middleware : BufferedContentDigestVerificationMiddleware).

Lemma constructed_transport config transport :
  NewBufferedContentDigestRoundTripper config = Ok transport ->
  0 < bdr_maxBytes transport /\ exists digests, ComputeDigests (bdr_algorithms transport) [] = Ok digests.
Proof.
  unfold NewBufferedContentDigestRoundTripper. destruct (_ || _) eqn:Hc; [done |].
  destruct (ComputeDigests _ _) as [d |] eqn:Hd; [| done]. intros [= <-]. cbn.
  apply orb_false_iff in Hc as [_ Hc]. split; [lia | eauto].
Qed.

Lemma constructed_digest_middleware config middleware :
  NewBufferedContentDigestVerificationMiddleware config = Ok middleware ->
  0 < bvm_maxBytes middleware /\ exists digests, ComputeDigests (bvm_algorithms middleware) [] = Ok digests.
Proof.
  unfold NewBufferedContentDigestVerificationMiddleware. destruct (_ || _) eqn:Hc; [done |].
  destruct (ComputeDigests _ _) as [d |] eqn:Hd; [| done]. intros [= <-]. cbn.
  apply orb_false_iff in Hc as [Hc _]. split; [lia | eauto].
Qed.

(** The delegated request: the caller's with its digest, framed by its content
    or, when it has trailers, chunked. *)
Record delegated_with_digest (transport : BufferedContentDigestRoundTripper) (input : drained)
  (request delegated : Request) (content : gostring) : Prop := {
  dd_drains : drains input (RequestBody request) (bdr_maxBytes transport) content;
  dd_digest : exists digests field, ComputeDigests (bdr_algorithms transport) content = Ok digests /\
    DigestField_String digests = Some field /\
    RequestHeader delegated !! str "Content-Digest" = Some [field];
  dd_header : exists clone, normalized_request request clone /\
    Header_Values (RequestHeader clone) "Content-Digest" = [] /\
    RequestHeader delegated = delete_framing (RequestHeader delegated) /\
    forall k, k <> str "Content-Digest" ->
      RequestHeader delegated !! k = delete_framing (RequestHeader clone) !! k;
  dd_trailer : normalized_from (trailers_after input) (RequestTrailer delegated)
    protectedHTTPFieldNames (trailers_after input);
  dd_framing :
    (RequestContentLength delegated, RequestTransferEncoding delegated) =
      if Nat.eqb (size (RequestTrailer delegated)) 0 then (len content, []) else (-1, [str "chunked"]);
  dd_rest : exists ptr header trailer body length encoding,
    delegated = update_request ptr request header trailer body length encoding /\ body <> BodyNil
}.

Lemma delegated_Ok transport fresh input request delegated content :
  0 < bdr_maxBytes transport ->
  BufferedContentDigest_RoundTrip (Some transport) fresh input (Some request) =
    Some (DigestDelegated delegated content) ->
  delegated_with_digest transport input request delegated content.
Proof.
  intros Hmax. unfold BufferedContentDigest_RoundTrip. cbv zeta.
  destruct (normalizeProtectedRequest fresh request) as [clone |] eqn:Hn; [| done].
  destruct (negb _) eqn:Hno; [done |].
  destruct (drain_cases input (RequestBody request) (bdr_maxBytes transport) Hmax) as (r & -> & Hr).
  cbn [mbind option_bind]. destruct r as [c |]; [| done].
  destruct (normalizeProtectedHeader (trailers_after input)) as [trailer |] eqn:Ht; [| done].
  destruct (ComputeDigests _ c) as [digests |] eqn:Hd; [| done].
  destruct (DigestField_String digests) as [field |] eqn:Hf; cbn [mbind option_bind]; [| done].
  intros [= <- <-]. apply negb_false_iff, Z.eqb_eq, len_0 in Hno.
  apply normalizeProtectedRequest_Ok in Hn. pose proof Hn as [Heq _].
  set (h := delete_framing (Header_Set (RequestHeader clone) "Content-Digest" field)).
  assert (digested_request (fresh + 1) clone trailer field c =
    update_request (RequestPtr clone) clone h trailer (BodyReader (fresh + 1))
      (if Nat.eqb (size trailer) 0 then len c else -1)
      (if Nat.eqb (size trailer) 0 then [] else [str "chunked"])) as ->
    by (unfold digested_request; by destruct (Nat.eqb _ _)).
  split; cbn [RequestHeader RequestTrailer RequestContentLength RequestTransferEncoding update_request].
  - by apply Hr.
  - exists digests, field. split; [done |]. split; [done |]. unfold h. rewrite lookup_delete_framing. exact (lookup_insert_eq _ _ _).
  - exists clone. split; [done |]. split; [done |]. split.
    + apply map_eq. intros k. unfold h. rewrite !lookup_delete_framing. by destruct (_ || _).
    + intros k Hk. unfold h, Header_Set. rewrite !lookup_delete_framing. by rewrite lookup_insert_ne.
  - by apply normalizeProtectedHeader_Ok.
  - by destruct (Nat.eqb _ _).
  - rewrite Heq. by eexists _, _, _, _, _, _.
Qed.

(** The served request: the received one with its protected fields normalized
    and its digests checked against the content of the drained body. *)
Record served_with_digest (middleware : BufferedContentDigestVerificationMiddleware) (input : drained)
  (request served : Request) (content : gostring) : Prop := {
  sd_drains : drains input (RequestBody request) (bvm_maxBytes middleware) content;
  sd_digest : exists field,
    ParseDigestFields (Header_Values (RequestHeader served) "Content-Digest") = Ok field /\
    bvm_algorithms middleware <> [] /\
    forall a, a ∈ bvm_algorithms middleware -> digest_matches field content a;
  sd_header : normalized_from (RequestHeader request) (RequestHeader served) protectedHTTPFieldNames
    (RequestHeader request);
  sd_trailer : normalized_from (trailers_after input) (RequestTrailer served) protectedHTTPFieldNames
    (trailers_after input);
  sd_rest : exists ptr body,
    served = update_request ptr request (RequestHeader served) (RequestTrailer served) body
      (RequestContentLength request) (RequestTransferEncoding request)
}.

Lemma served_Ok middleware fresh input has_next request served content :
  0 < bvm_maxBytes middleware ->
  BufferedContentDigestVerification_ServeHTTP middleware fresh input has_next (Some request) =
    Some (DigestServed served content) ->
  served_with_digest middleware input request served content.
Proof.
  intros Hmax. unfold BufferedContentDigestVerification_ServeHTTP. destruct has_next; [| done]. cbv zeta.
  destruct (normalizeProtectedRequest fresh request) as [verified |] eqn:Hn; [| done].
  destruct (ParseDigestFields _) as [field |] eqn:Hp; [| done].
  apply normalizeProtectedRequest_Ok in Hn as (Heq & Hh & _).
  assert (RequestBody verified = RequestBody request) as Hbody by (by rewrite Heq). rewrite Hbody.
  destruct (drain_cases input (RequestBody request) (bvm_maxBytes middleware) Hmax) as (r & -> & Hr).
  cbn [mbind option_bind]. destruct r as [c |]; [| done].
  destruct (normalizeProtectedHeader (trailers_after input)) as [trailer |] eqn:Ht; [| done].
  destruct (DigestField_Verify field c _) eqn:Hv; [done |]. intros [= <- <-].
  apply DigestField_Verify_cases in Hv as (Hne & _ & Hall).
  split; cbn [RequestHeader RequestTrailer update_request].
  - by apply Hr.
  - by exists field.
  - done.
  - by apply normalizeProtectedHeader_Ok.
  - eexists _, _. rewrite Heq. done.
Qed.

(** What the digest transport delegates.  A delegated request is the caller's with its protected fields
    normalized, no digest before, and the digests of exactly the content that
    its body gives now, framed by the length of that content, or chunked when
    it has trailers; every refusal has closed the caller's body once. *)
Theorem delegated_digest_exact config transport fresh input request outcome :
  NewBufferedContentDigestRoundTripper config = Ok transport ->
  BufferedContentDigest_RoundTrip (Some transport) fresh input (Some request) = Some outcome ->
  match outcome with
  | DigestDelegated delegated content =>
      delegated_with_digest transport input request delegated content
  | DigestRefused err closed => closed = closes (RequestBody request)
  end.
Proof.
  intros [Hmax _]%constructed_transport Hrun. destruct outcome as [delegated content | err closed].
  { by eapply delegated_Ok. }
  unfold BufferedContentDigest_RoundTrip in Hrun. cbv zeta in Hrun.
  destruct (normalizeProtectedRequest _ _); [| by simplify_eq]. destruct (negb _); [by simplify_eq |].
  destruct (drain _ _ _) as [[c |] |]; cbn [mbind option_bind] in Hrun; [| by simplify_eq | done].
  destruct (normalizeProtectedHeader _); [| by simplify_eq].
  destruct (ComputeDigests _ c); [| by simplify_eq]. by destruct (DigestField_String _).
Qed.

(** C20: a handler behind the digest middleware is served only matching content.
    The request is the received one with its protected fields normalized, its
    body is replaced by exactly the content it gave within the limit, and for
    every required algorithm, of which there is at least one, the last digest
    of its Content-Digest is the checksum of that content. *)
Theorem served_content_matches config middleware fresh input has_next request served content :
  NewBufferedContentDigestVerificationMiddleware config = Ok middleware ->
  BufferedContentDigestVerification_ServeHTTP middleware fresh input has_next (Some request) =
    Some (DigestServed served content) ->
  served_with_digest middleware input request served content.
Proof. intros [Hmax _]%constructed_digest_middleware. by apply served_Ok. Qed.

Lemma ComputeDigests_policy algorithms content digests :
  ComputeDigests algorithms content = Ok digests -> algorithms <> [] /\ NoDup algorithms.
Proof.
  unfold ComputeDigests. destruct (len algorithms =? 0) eqn:H0; [done |].
  intros (es & (_ & Hnd & _)%compute_loop_Ok & _)%rbind_Ok. split; [by intros -> | done].
Qed.

Context `{HL : !HttpsfvLaws} `{HR : !HttpsfvReads} `{HSL : !HashLaws}.

(** C19: what the digest transport delegates, the digest middleware serves.  When
    the delegated request arrives with its trailers and a body that gives the
    delegated content in the middleware's limit, when the policy requires
    only algorithms that were computed, then the digests the transport printed
    are parsed back, match, and the handler is served exactly the delegated
    request, its fields and trailers unchanged, with that content as its
    body. *)
Theorem delegated_digest_served config transport config' middleware fresh fresh' input input' request
    delegated content :
  NewBufferedContentDigestRoundTripper config = Ok transport ->
  NewBufferedContentDigestVerificationMiddleware config' = Ok middleware ->
  bvm_algorithms middleware ⊆ bdr_algorithms transport ->
  BufferedContentDigest_RoundTrip (Some transport) fresh input (Some request) =
    Some (DigestDelegated delegated content) ->
  drains input' (RequestBody delegated) (bvm_maxBytes middleware) content ->
  trailers_after input' = RequestTrailer delegated ->
  BufferedContentDigestVerification_ServeHTTP middleware fresh' input' true (Some delegated) =
    Some (DigestServed
      (update_request (fresh' + 1) delegated (RequestHeader delegated) (RequestTrailer delegated)
         (BodyReader (fresh' + 2)) (RequestContentLength delegated) (RequestTransferEncoding delegated))
      content).
Proof.
  intros [Hmax _]%constructed_transport [Hmax' [d0 Hd0]]%constructed_digest_middleware Hsub Hrun Hdr Htr.
  destruct (ComputeDigests_policy _ _ _ Hd0) as [Hne Hnd].
  apply delegated_Ok in Hrun as [_ (digests & field & Hd & Hf & Hfield) (clone & (_ & Hclone & _) & _ & _ & Hother) Htrailer _ _]; [| done].
  apply normalized_is_canonical in Htrailer.
  assert (canonical (RequestHeader delegated)) as Hcan.
  { intros name k Hname Hk Hs. destruct (decide (k = str "Content-Digest")) as [-> | Hne'].
    - apply (protected_apart (str "Content-Digest")); [by do 3 apply list_elem_of_further; apply list_elem_of_here | done | done | done].
    - rewrite Hother, lookup_delete_framing in Hs by done. destruct (_ || _); [by destruct Hs |].
      by apply (normalized_is_canonical _ _ Hclone). }
  unfold BufferedContentDigestVerification_ServeHTTP, normalizeProtectedRequest. cbv zeta.
  rewrite (normalize_canonical _ Hcan), (normalize_canonical _ Htrailer). cbn [rbind RequestHeader RequestBody clone_request].
  assert (Header_Values (RequestHeader delegated) "Content-Digest" = [field]) as ->.
  { unfold Header_Values. change (CanonicalHeaderKey "Content-Digest") with (str "Content-Digest"). by rewrite Hfield. }
  rewrite (computed_digests_parse _ _ _ _ Hd Hf).
  destruct (drain_cases input' (RequestBody delegated) (bvm_maxBytes middleware) Hmax') as (r & -> & Hr).
  apply Hr in Hdr as ->. cbn [mbind option_bind]. rewrite Htr, (normalize_canonical _ Htrailer).
  by rewrite (ComputeDigests_Verify_cases _ _ _ _ Hd Hne Hnd Hsub).
Qed.
End Digesting.
