(* ===== verification/EndToEnd.v ===== *)
(** * From the signing transport to the verifying handler

    What a signing transport delegates, a verifying handler serves: the two
    signature fields it sets are printed and parsed again, the protected
    fields are already normalized, and the signature base of the covered
    components does not see the fields that were added. *)

From S2P Require Import Prelude GoStrings Codecs Errors SyntaxLimits Httpsfv StructuredFieldSafe.
From S2P Require Import SignatureFields SignatureFacts FieldText FieldRoundtrip.
From S2P Require Import HttpTypes MessageLimits MessageFields MessageDerived MessageBase BaseFacts.
From S2P Require Import GoTime ReplayStore Digest Algorithm Signer Verifier VerifierFacts AlgorithmFacts SignerFacts.
From S2P Require Import HttpFields HttpIntegration HttpFacts.
Open Scope Z_scope.

(** ** Header lookup after a field was added *)

(** Folding looks at the lowercase letters of its right operand only. *)
Lemma EqualFold_lower s t t' : map lower_ascii t = map lower_ascii t' -> EqualFold s t = EqualFold s t'.
Proof.
  revert s t'. induction t as [| d t IH]; intros s [| d' t']; cbn [map]; try done.
  intros Heq. assert (lower_ascii d = lower_ascii d' /\ map lower_ascii t = map lower_ascii t') as [Hd Ht]
    by (split; congruence). destruct s as [| c s]; [done |]. cbn [EqualFold]. rewrite Hd.
  destruct (is_ascii c); [by rewrite (IH s t' Ht) |]. destruct s as [| c2 s]; [done |].
  rewrite (IH s t' Ht). destruct (_ && _ && _); [done |]. destruct s as [| c3 s]; [done |]. by rewrite (IH s t' Ht).
Qed.

Lemma ci_loop_error wanted found values entries e :
  ci_loop wanted found values entries = Err e -> e = New "covered field has case-colliding map keys".
Proof.
  revert found values. induction entries as [| [k v] l IH]; intros found values; cbn [ci_loop]; [done |].
  destruct (EqualFold k wanted); cbn [negb]; [destruct found; [by intros [= <-] |] |]; apply IH.
Qed.

Lemma caseInsensitiveHeaderValues_error h wanted :
  is_Ok (caseInsensitiveHeaderValues h wanted) = false ->
  caseInsensitiveHeaderValues h wanted = Err (New "covered field has case-colliding map keys").
Proof.
  destruct (caseInsensitiveHeaderValues h wanted) as [| e] eqn:He; [done |]. intros _. f_equal.
  by eapply ci_loop_error.
Qed.

(** Lookup depends only on the keys that fold to the name. *)
Lemma caseInsensitiveHeaderValues_agree h h' wanted :
  (forall k, EqualFold k wanted = true -> h !! k = h' !! k) ->
  caseInsensitiveHeaderValues h wanted = caseInsensitiveHeaderValues h' wanted.
Proof.
  intros Hk. assert (forall k, is_Some (h !! k) -> EqualFold k wanted = true -> is_Some (h' !! k)) as Hto.
  { intros k Hs Hf. by rewrite <- Hk. }
  assert (forall k, is_Some (h' !! k) -> EqualFold k wanted = true -> is_Some (h !! k)) as Hfrom.
  { intros k Hs Hf. by rewrite Hk. }
  destruct (caseInsensitiveHeaderValues_cases h wanted)
    as [[-> Hno] | [(k & v & -> & Hv & Hf & Hu) | [He (k1 & k2 & Hne & H1 & H2 & Hf1 & Hf2)]]];
    destruct (caseInsensitiveHeaderValues_cases h' wanted)
      as [[-> Hno'] | [(k' & v' & -> & Hv' & Hf' & Hu') | [He' (k3 & k4 & Hne' & H3 & H4 & Hf3 & Hf4)]]].
  - done.
  - rewrite (Hno k') in Hf' by eauto. done.
  - rewrite (Hno k3) in Hf3 by eauto. done.
  - rewrite (Hno' k) in Hf by eauto. done.
  - assert (k' = k) as -> by eauto. f_equal. rewrite Hk in Hv by done. congruence.
  - destruct Hne'. rewrite (Hu k3), (Hu k4) by eauto. done.
  - rewrite (Hno' k1) in Hf1 by eauto. done.
  - destruct Hne. rewrite (Hu' k1), (Hu' k2) by eauto. done.
  - by rewrite !caseInsensitiveHeaderValues_error.
Qed.

(** The header [h'] is [h] with fields added whose names no key of [h] holds a
    value for. *)
Definition adds_fields (h h' : Header) : Prop := forall wanted,
  caseInsensitiveHeaderValues h' wanted = caseInsensitiveHeaderValues h wanted \/
  caseInsensitiveHeaderValues h wanted = Ok [] /\
  EqualFold wanted "user-agent" = false /\ EqualFold wanted "connection" = false.

(** ** Messages whose components resolve alike *)

Section Resolve.
Context `{SFV : Httpsfv} `{UC : UnicodeCase} `{NU : NetURL}.

Context (message message' : MessageContext).

Lemma base_lines_resolve components :
  (forall c budget value, c ∈ components -> resolveComponent message c budget = Ok value ->
     resolveComponent message' c budget = Ok value) ->
  forall seen remaining text, base_lines message seen remaining components = Ok text ->
  base_lines message' seen remaining components = Ok text.
Proof.
  induction components as [| c cs IH]; intros Hres seen remaining text; [done |].
  cbn [base_lines]. destruct (negb (structuredItemFits _ _ _)); [done |].
  destruct (serializeComponentIdentifier c) as [identifier |]; [| done]. cbv zeta.
  destruct (bool_decide _); [done |]. destruct (consumeSize _ _) as [budget |]; [| done].
  destruct (resolveComponent message c budget) as [value | e] eqn:Hv; [| by destruct (errors_Is e _)].
  rewrite (Hres _ _ _ (list_elem_of_here _ _) Hv). destruct (negb _); [done |].
  intros ([t b] & Ht & H)%rbind_Ok. rewrite (IH (fun c b v Hc => Hres c b v (list_elem_of_further _ _ _ Hc)) _ _ _ Ht).
  exact H.
Qed.

(** A message of the same kind whose covered components resolve to the same
    values has the same signature base. *)
Lemma CreateSignatureBase_resolve input base :
  is_nil (MessageRequest message') = is_nil (MessageRequest message) ->
  is_nil (MessageResponse message') = is_nil (MessageResponse message) ->
  ResponseTransport_out_of_range (ResponseTransport message') = false ->
  is_nil (MessageRequest message') = true \/ ResponseTransport message' = ResponseTransportUnspecified ->
  MaxSignatureBaseBytes message' = MaxSignatureBaseBytes message ->
  (forall c budget value, c ∈ Components input -> resolveComponent message c budget = Ok value ->
     resolveComponent message' c budget = Ok value) ->
  CreateSignatureBase message input = Ok base -> CreateSignatureBase message' input = Ok base.
Proof.
  intros H1 H2 H3 H4 H5 Hres. unfold CreateSignatureBase. rewrite <- H1, <- H2, H3, H5. cbv zeta.
  set (limit := if MaxSignatureBaseBytes message =? 0 then _ else _). clearbody limit.
  destruct (Bool.eqb _ _); [done |]. destruct (_ || _); [done |].
  assert (negb (is_nil (MessageRequest message')) &&
    negb (bool_decide (ResponseTransport message' = ResponseTransportUnspecified)) = false) as ->.
  { destruct H4 as [-> | H4]; [done |]. by rewrite (bool_decide_eq_true_2 _ H4), andb_false_r. }
  cbn [orb]. destruct (limit <? 0); [done |].
  intros ([text remaining] & Ht & H)%rbind_Ok. by rewrite (base_lines_resolve _ Hres _ _ _ Ht).
Qed.
End Resolve.

(** ** The signature base does not see added fields *)

Section Base.
Context `{SFV : Httpsfv} `{UC : UnicodeCase} `{NU : NetURL}.

Context (ptr : nat) (request : Request) (external : option ExternalRequestContext) (h' t' : Header).
Hypothesis (Hadds : adds_fields (RequestHeader request) h').
Hypothesis (Hadds_trailer : adds_fields (RequestTrailer request) t').

(** The message, and the message with the added fields and trailers. *)
Let message := request_message request external.
Let message' := request_message (clone_request ptr request h' t') external.

(** The names of added trailers show only in the field Trailer. *)
Definition unannounced (wanted : gostring) : Prop :=
  t' = RequestTrailer request \/ EqualFold wanted "trailer" = false.

Lemma requestTransport_adds wanted :
  unannounced wanted ->
  requestTransportFieldValues (clone_request ptr request h' t') wanted = requestTransportFieldValues request wanted.
Proof.
  unfold unannounced. intros Hun.
  unfold requestTransportFieldValues. cbn [RequestBody RequestTransferEncoding RequestURI RequestTrailer RequestHeader
    RequestClose clone_request requestUsesChunkedTransferEncoding].
  destruct (EqualFold wanted "transfer-encoding"); [done |].
  destruct (EqualFold wanted "trailer"); [destruct Hun as [-> | [=]]; done |].
  destruct (Hadds wanted) as [-> | (_ & -> & ->)]; done.
Qed.

Lemma field_values_adds field parameters owned :
  unannounced field ->
  field_values message' field parameters owned = field_values message field parameters owned \/
  field_values message field parameters owned = Ok [].
Proof.
  intros Hun.
  unfold field_values, managedFieldValues, requestForComponent, headerForComponent.
  cbn [message message' request_message MessageRequest MessageResponse RelatedRequest].
  destruct (req parameters); [destruct owned; by left |].
  assert (caseInsensitiveHeaderValues h' field = caseInsensitiveHeaderValues (RequestHeader request) field \/
    caseInsensitiveHeaderValues (RequestHeader request) field = Ok []) as Hci.
  { destruct (Hadds field) as [? | [? _]]; auto. }
  assert (caseInsensitiveHeaderValues t' field = caseInsensitiveHeaderValues (RequestTrailer request) field \/
    caseInsensitiveHeaderValues (RequestTrailer request) field = Ok []) as Hct.
  { destruct (Hadds_trailer field) as [? | [? _]]; auto. }
  rewrite requestTransport_adds by done. cbn [Host RequestURL RequestHeader RequestTrailer clone_request].
  change (requestContentLength (Some (clone_request ptr request h' t')))
    with (requestContentLength (Some request)).
  destruct owned.
  - destruct (EqualFold field "host"); [left; by repeat case_match |].
    destruct (EqualFold field "content-length"); [left; by destruct (requestContentLength _) |].
    destruct (requestTransportFieldValues request field); [by left |]. by destruct (tr parameters).
  - by destruct (tr parameters).
Qed.

Lemma resolveField_adds field parameters maxBytes value :
  unannounced field -> resolveField message field parameters maxBytes = Ok value ->
  resolveField message' field parameters maxBytes = Ok value.
Proof.
  intros Hun. unfold resolveField. destruct (hasName parameters); [done |]. cbv zeta.
  change (is_nil (MessageRequest message')) with (is_nil (MessageRequest message)).
  assert (componentHTTPMajor message' (req parameters) = componentHTTPMajor message (req parameters)) as ->
    by (by destruct (req parameters)).
  set (owned := negb (tr parameters) && _).
  destruct (field_values_adds field parameters owned Hun) as [-> | ->]; [done |]. done.
Qed.

Lemma resolveDerived_adds component parameters maxBytes :
  resolveDerived message' component parameters maxBytes = resolveDerived message component parameters maxBytes.
Proof.
  assert (forall r context, MessageRequest context = Some r -> externalForRequest context (Some r) = ExternalRequest context)
    as Hext.
  { intros r context Hr. unfold externalForRequest. rewrite Hr. cbn [same_request]. by rewrite Nat.eqb_refl. }
  unfold resolveDerived, requestForComponent.
  cbn [message message' request_message MessageRequest MessageResponse RelatedRequest].
  destruct (req parameters); [reflexivity |]. cbn [is_Ok negb andb].
  rewrite !Hext by done. reflexivity.
Qed.

Lemma resolveComponent_adds component maxBytes value :
  unannounced (ComponentName component) -> resolveComponent message component maxBytes = Ok value ->
  resolveComponent message' component maxBytes = Ok value.
Proof.
  intros Hun. unfold resolveComponent. destruct (_ =s "@signature-params"); [done |].
  intros (ps & -> & H)%rbind_Ok. cbn [rbind]. destruct (HasPrefix _ "@").
  - by rewrite resolveDerived_adds.
  - by apply resolveField_adds.
Qed.

Lemma CreateSignatureBase_adds input base :
  (forall c, c ∈ Components input -> unannounced (ComponentName c)) ->
  CreateSignatureBase message input = Ok base -> CreateSignatureBase message' input = Ok base.
Proof.
  intros Hun. apply CreateSignatureBase_resolve; [done | done | done | by right | done |].
  intros c budget value Hc. by apply resolveComponent_adds, Hun.
Qed.
End Base.

(** ** What the profile covers *)

Section Profile.
Context `{SFV : Httpsfv}.

Lemma parameter_set_valid result parameters result' :
  parameter_set result parameters = Ok result' ->
  validComponentParameters parameters = true /\ forallb plain_param parameters = true /\
  Forall (fun p => ParamName p ∈ [str "bs"; str "sf"; str "tr"; str "req"; str "key"; str "name"]) parameters.
Proof.
  revert result. induction parameters as [| [n v] ps IH]; intros result; [by split |].
  cbn [parameter_set ParamName ParamValue]. unfold name_in.
  case_bool_decide as Hflag.
  { destruct (is_true v) eqn:Ht; [| done]. intros (Hv & Hp & Hn)%IH.
    unfold validComponentParameters in *. cbn [forallb ParamName ParamValue].
    assert (name_in n [str "sf"; str "bs"; str "tr"; str "req"] = true) as ->.
    { apply bool_decide_eq_true_2. set_solver. }
    rewrite Ht, Hv. destruct v as [| b | | | | | | |]; try done. cbn. rewrite Hp.
    do 2 (split; [done |]). constructor; [cbn; set_solver | done]. }
  assert (name_in n [str "sf"; str "bs"; str "tr"; str "req"] = false) as Hno.
  { apply bool_decide_eq_false_2. set_solver. }
  assert (forall s, v = AString s -> n ∈ [str "key"; str "name"] -> forall r,
    parameter_set r ps = Ok result' ->
    validComponentParameters (mkParam n v :: ps) = true /\ forallb plain_param (mkParam n v :: ps) = true /\
    Forall (fun p => ParamName p ∈ [str "bs"; str "sf"; str "tr"; str "req"; str "key"; str "name"]) (mkParam n v :: ps)) as Hgen.
  { intros s -> Hn r (Hv & Hp & Hall)%IH. unfold validComponentParameters in *. cbn [forallb ParamName ParamValue].
    rewrite Hno. assert (name_in n [str "key"; str "name"] = true) as -> by (by apply bool_decide_eq_true_2).
    rewrite Hv, Hp. do 2 (split; [done |]). constructor; [cbn; set_solver | done]. }
  case_bool_decide as Hkey.
  { destruct v; try done. intros H. eapply Hgen; [done | rewrite Hkey; set_solver | done]. }
  case_bool_decide as Hname; [| done].
  destruct v; try done. intros H. eapply Hgen; [done | rewrite Hname; set_solver | done].
Qed.

Lemma comparison_key_name component k :
  componentComparisonKey component = Ok k -> validComponentName (ComponentName component) = true.
Proof.
  unfold componentComparisonKey, serializeComponentIdentifier. cbn [ComponentName].
  by destruct (validComponentName _).
Qed.

(** A component of a constructed profile that names each parameter once. *)
Lemma profile_component_wf component :
  is_Ok (componentComparisonKey component) = true -> validProfileComponent component = true ->
  NoDup (map ParamName (ComponentParams component)) ->
  component_wf DefaultSyntaxLimits component /\ plain_component component = true.
Proof.
  intros Hk Hv Hnd. destruct (componentComparisonKey component) as [k |] eqn:He; [| done].
  unfold validProfileComponent, componentParameterSet in Hv.
  destruct (parameter_set noParameters (ComponentParams component)) as [r |] eqn:Hr; [| done].
  apply parameter_set_valid in Hr as (Hvalid & Hplain & Hnames). split; [| done].
  split; [by eapply comparison_key_name |]. split; [done |]. split; [| done].
  assert (length (map ParamName (ComponentParams component)) <= 6)%nat as Hlen.
  { etrans; [apply (submseteq_length _ [str "bs"; str "sf"; str "tr"; str "req"; str "key"; str "name"]) | done].
    apply NoDup_submseteq; [done |]. intros n (p & <- & Hp)%list_elem_of_In%in_map_iff.
    rewrite list.Forall_forall in Hnames. by apply Hnames, list_elem_of_In. }
  rewrite length_map in Hlen. cbn. unfold len. lia.
Qed.

(** The parameters a signer emits. *)
Lemma signing_parameters_wf profile options key now :
  parameters_wf DefaultSyntaxLimits (signing_parameters profile options key now) /\
  validSignatureParameters (signing_parameters profile options key now) = true /\
  forallb plain_param (signing_parameters profile options key now) = true.
Proof.
  assert (forall names : list gostring, bool_decide (NoDup names) = true -> NoDup names) as Hdec.
  { intros names. apply bool_decide_eq_true_1. }
  unfold signing_parameters, parameters_wf. repeat case_match; (split; [split; [cbn; unfold len; cbn; lia |] | done]);
    apply Hdec; vm_compute; reflexivity.
Qed.
End Profile.

(** ** Folding of ASCII names *)

Lemma lower_is_ascii c : is_ascii (lower_ascii c) = is_ascii c.
Proof. by all_ascii c. Qed.

Lemma EqualFold_ascii a b :
  asciiString_list a = true -> EqualFold a b = bool_decide (map lower_ascii a = map lower_ascii b).
Proof.
  revert b. induction a as [| c a IH]; intros [| d b]; cbn [EqualFold map]; try done.
  intros [Hc Ha]%is_ascii_cons. rewrite Hc, IH by done. apply eq_true_iff_eq.
  rewrite andb_true_iff, !bool_decide_eq_true, char_eqb_eq. split; [by intros [-> ->] |]. intros Heq. split; congruence.
Qed.

(** A name that an ASCII name folds to. *)
Lemma EqualFold_wanted n wanted :
  asciiString_list n = true -> EqualFold n wanted = true ->
  (forall k, EqualFold k wanted = EqualFold k n) /\
  forall t, EqualFold wanted t = bool_decide (map lower_ascii n = map lower_ascii t).
Proof.
  intros Hn Hf. rewrite EqualFold_ascii in Hf by done. apply bool_decide_eq_true in Hf.
  split; [intros k; by apply EqualFold_lower |]. intros t. rewrite EqualFold_ascii; [by rewrite Hf |].
  assert (forall s, asciiString_list (map lower_ascii s) = asciiString_list s) as Hl.
  { intros s. unfold asciiString_list. induction s as [| c s IH]; [done |]. cbn. by rewrite lower_is_ascii, IH. }
  by rewrite <- Hl, <- Hf, Hl.
Qed.

Lemma caseInsensitiveHeaderValues_fold h a b :
  (forall k, EqualFold k a = EqualFold k b) -> caseInsensitiveHeaderValues h a = caseInsensitiveHeaderValues h b.
Proof.
  intros Hab. unfold caseInsensitiveHeaderValues. generalize (@nil gostring) false.
  induction (map_to_list h) as [| [k v] l IH]; intros values found; [done |]. cbn [ci_loop].
  rewrite Hab. repeat case_match; auto.
Qed.

(** Setting a protected field without values adds a field. *)
Lemma canonical_adds header name value wanted :
  name ∈ protectedHTTPFieldNames -> asciiString_list name = true -> canonical header ->
  Header_Values header name = [] ->
  caseInsensitiveHeaderValues (Header_Set header name value) wanted = caseInsensitiveHeaderValues header wanted \/
  caseInsensitiveHeaderValues header wanted = Ok [] /\ EqualFold name wanted = true.
Proof.
  intros Hname Hascii Hcan Hnil. destruct (protected_canonical name Hname) as [Hc Hself].
  unfold Header_Set, Header_Values in *. rewrite Hc in *. destruct (EqualFold name wanted) eqn:Hf.
  - right. split; [| done]. destruct (EqualFold_wanted name wanted Hascii Hf) as [Hsame _].
    rewrite (caseInsensitiveHeaderValues_fold _ _ _ Hsame).
    destruct (caseInsensitiveHeaderValues_cases header name)
      as [[-> _] | [(k & v & -> & Hv & Hk & _) | [_ (k1 & k2 & Hne & H1 & H2 & Hf1 & Hf2)]]]; [done | |].
    + assert (k = name) as -> by (apply Hcan; eauto). rewrite Hv in Hnil. cbn in Hnil. by rewrite Hnil.
    + destruct Hne. by rewrite (Hcan name k1), (Hcan name k2).
  - left. apply caseInsensitiveHeaderValues_agree. intros k Hk.
    rewrite lookup_insert_ne; [done |]. intros ->. congruence.
Qed.

(** ** The round trip *)

Section Served.
Context `{SFV : Httpsfv} `{HL : !HttpsfvLaws} `{HR : !HttpsfvReads} `{UC : UnicodeCase} `{NU : NetURL}.
Context `{CR : Crypto} `{CL : !CryptoLaws} `{HS : Hashes}.
Context {S Obs : Type} `{RS : ReplayStore S Obs}.

(** Verification looks at a message through its signature base and the
    presence of an external context. *)
Lemma Verify_same_base profile (obs : VerificationObservation (Obs := Obs)) (store store' : S)
    message message' label input signature verified :
  is_nil (ExternalRequest message') = is_nil (ExternalRequest message) ->
  (forall base, CreateSignatureBase message input = Ok base -> CreateSignatureBase message' input = Ok base) ->
  Verifier_Verify (Some profile) obs store message label [input] [signature] = Some (store', Ok verified) ->
  Verifier_Verify (Some profile) obs store message' label [input] [signature] = Some (store', Ok verified).
Proof.
  intros Hext Hbase. unfold Verifier_Verify. cbv zeta. destruct (verify_ctx_nil obs); [done |].
  destruct (verify_ctx_err obs); [done |]. destruct (label =s []); [done |].
  destruct (negb (matchingLabelSets _ _)); [done |].
  destruct (selectSignature label [input] [signature]) as [[i s] |] eqn:Hsel; [| done].
  apply selectSignature_input in Hsel. unfold selected_input in Hsel. cbn [List.find] in Hsel.
  destruct (InputLabel input =s label); [| done]. injection Hsel as <-. rewrite Hext.
  destruct (_ && _); [done |]. destruct (validateInput _ _ _); [| done].
  destruct (CreateSignatureBase message input) as [base |] eqn:Hb; [| done]. by rewrite (Hbase base).
Qed.

(** What the profile signs is small enough to be read again: each component
    names a parameter once, there are at most as many as a parser reads, and
    the field lines and the signature have an allowed length. *)
Record readable (profile : SigningProfile) (key : SigningKey) (header : Header) : Prop := {
  read_components : Forall (fun c => NoDup (map ParamName (ComponentParams c))) (s_components profile);
  read_count : len (s_components profile) <= MaxComponentsPerSignature DefaultSyntaxLimits;
  read_lines name v : name ∈ [str "Signature-Input"; str "Signature"] ->
    v ∈ Header_Values header name -> len v <= MaxFieldBytes DefaultSyntaxLimits;
  read_signature obs base value :
    Sign obs (SigningAlgorithm key) (SigningMaterial key) base = Some (Ok value) ->
    1 <= len value <= MaxBinaryBytes DefaultSyntaxLimits
}.

Lemma signed_fields_parse config profile key header obs message label options signed i g :
  NewSigningProfile config = Ok profile ->
  Signer_Sign (Some profile) obs message label options = Some (Ok signed) ->
  readable profile key header -> key = fst (provider_result obs) ->
  SignatureInputField signed = Some i -> SignatureField signed = Some g ->
  Header_Values header "Signature-Input" = [i] ->
  Header_Values header "Signature" = [g] ->
  ParseSignatureInputs [i] = Ok [signed_input signed] /\ ParseSignatures [g] = Ok [signed_signature signed].
Proof.
  intros Hnew Hsign [Hdup Hcount Hlines Hvalue] -> Hi Hg Hvi Hvg.
  apply NewSigningProfile_Ok in Hnew as (_ & Hkeys & Hnd & _). apply Signer_Sign_Ok in Hsign.
  destruct (provider_result obs) as [key perr]. cbn [fst] in *. cbv zeta in Hsign.
  destruct Hsign as (_ & Hlabel & _ & _ & _ & _ & _ & _ & _ & base & value & _ & [cobs Hs] & ->).
  apply Hvalue in Hs. unfold SignatureInputField, SignatureField in *. cbn [signed_input signed_signature InputLabel
    SignatureLabel SignatureBytes] in *. rewrite Hlabel in *. rewrite cloneSignatureInput_id in Hi.
  replace (len value =? 0) with false in Hg by lia. cbn [negb orb app] in *.
  assert (Validate DefaultSyntaxLimits = None) as Hval by done. split.
  - apply parseSignatureMetadata_String; [done | | done | apply (Hlines "Signature-Input"); rewrite ?Hvi; set_solver].
    destruct (signing_parameters_wf profile options key (sign_now obs)) as (Hwf & Hok & Hplain).
    assert (Forall (fun c => component_wf DefaultSyntaxLimits c /\ plain_component c = true) (s_components profile)) as Hc.
    { apply list.Forall_forall. intros c Hin. rewrite list.Forall_forall in Hkeys, Hdup.
      destruct (Hkeys c Hin) as [Hk Hp]. by apply profile_component_wf, Hdup. }
    rewrite list.Forall_forall in Hc. split; [done | cbn; apply NoDup_singleton | |].
    + constructor; [| done]. split; cbn; [| done | done | done | done].
      apply list.Forall_forall. intros c Hin. by apply Hc.
    + cbn [forallb]. unfold plain_input. cbn [Components InputParameters]. rewrite Hplain, !andb_true_r.
      apply forallb_forall. intros c Hin%list_elem_of_In. by apply Hc.
  - apply ParseSignatures_String; [done | done | cbn; apply NoDup_singleton | | done |
      apply (Hlines "Signature"); rewrite ?Hvg; set_solver].
    constructor; [| done]. split; [cbn [SignatureBytes]; lia |]. split; [split; [done | cbn; constructor] | done].
Qed.

(** The pair a signer returns. *)
Lemma Signer_Sign_pair profile obs message label options signed :
  Signer_Sign (Some profile) obs message label options = Some (Ok signed) ->
  signed_input signed = mkSignatureInput label (s_components profile)
    (signing_parameters profile options (fst (provider_result obs)) (sign_now obs)) /\
  (exists value, signed_signature signed = mkSignatureValue label value []) /\
  validSignatureLabel label = true.
Proof.
  intros Hsign%Signer_Sign_Ok. destruct (provider_result obs) as [key perr]. cbv zeta in Hsign.
  destruct Hsign as (_ & ? & _ & _ & _ & _ & _ & _ & _ & base & value & _ & _ & ->). cbn. eauto.
Qed.

(** How the two sides are configured: the application's callbacks agree. *)
Record sides_agree (transport : SigningRoundTripper) (middleware : RequestVerificationMiddleware)
  (sprofile : SigningProfile) (vprofile : VerificationProfile) (request : Request)
  (options : SigningOptions) (external : option ExternalRequestContext) : Prop := {
  agree_signer : srt_signer transport = Some sprofile;
  agree_existing : srt_existing transport = ExistingSignaturesReject;
  agree_options : srt_options transport request = Ok options;
  agree_external : external_of (srt_externalContext transport) request = Ok external;
  agree_verifier : rvm_verifier middleware = Some vprofile;
  agree_label snapshot inputs signatures :
    rvm_selectLabel middleware snapshot inputs signatures = Ok (srt_label transport);
  agree_external' snapshot : external_of (rvm_externalContext middleware) snapshot = Ok external
}.

Lemma existing_reject header fields :
  existing_fields ExistingSignaturesReject header = Ok fields ->
  fields = None /\ Header_Values header "Signature-Input" = [] /\ Header_Values header "Signature" = [].
Proof.
  unfold existing_fields. cbv zeta. destruct (_ && _) eqn:Hl; [| done]. intros [= <-].
  apply andb_true_iff in Hl as [H1 H2]. split; [done |]. split; apply len_0; lia.
Qed.

(** The header a signing transport delegates. *)
Lemma signed_header_adds header i g :
  canonical header -> Header_Values header "Signature-Input" = [] -> Header_Values header "Signature" = [] ->
  let header' := Header_Set (Header_Set header "Signature-Input" i) "Signature" g in
  canonical header' /\ adds_fields header header' /\
  Header_Values header' "Signature-Input" = [i] /\ Header_Values header' "Signature" = [g].
Proof.
  intros Hcan Hni Hng. cbv zeta. set (h1 := Header_Set header "Signature-Input" i).
  assert (str "Signature-Input" ∈ protectedHTTPFieldNames /\ str "Signature" ∈ protectedHTTPFieldNames) as [Hi Hg] by set_solver.
  assert (canonical h1) as Hcan1 by (by apply canonical_set).
  assert (Header_Values h1 "Signature" = []) as Hng1.
  { unfold Header_Values, h1, Header_Set. by rewrite lookup_insert_ne. }
  split; [by apply canonical_set |]. split.
  - intros wanted. destruct (canonical_adds h1 "Signature" g wanted) as [-> | [Hnil Hf]]; try done.
    + destruct (canonical_adds header "Signature-Input" i wanted) as [Heq | [Hnil Hf]]; try done; [by left |].
      right. split; [done |]. by destruct (EqualFold_wanted (str "Signature-Input") wanted eq_refl Hf) as [_ Ht]; rewrite !Ht.
    + right. destruct (EqualFold_wanted (str "Signature") wanted eq_refl Hf) as [_ Ht]. split; [| by rewrite !Ht].
      destruct (canonical_adds header "Signature-Input" i wanted) as [Heq | [? _]]; try done.
      fold h1 in Heq. congruence.
  - unfold Header_Values, h1, Header_Set. split; [rewrite lookup_insert_ne by done |]; by rewrite lookup_insert_eq.
Qed.

(** C5: from transport to handler.  A signing transport that rejects existing
    signatures and whose profile was constructed delegates a request.  Let the
    handler receive that request, let the callbacks and the verification
    policy agree with the transport's, the clock lie in the window, the key be
    the published half, the replay store accept the nonce, and the fields be
    small enough to be read.  Then the middleware calls the next handler with
    that request, header and trailers unchanged, and with the metadata of
    the signature that the transport made: label, key, algorithm, times. *)
Theorem delegated_request_served config sprofile vprofile transport middleware fresh fresh' sobs
    (vobs : VerificationObservation (Obs := Obs)) (store store' : S) request delegated options external resolved :
  NewSigningProfile config = Ok sprofile ->
  sides_agree transport middleware sprofile vprofile request options external ->
  SigningRoundTripper_RoundTrip (Some transport) fresh sobs (Some request) = Some (Delegated delegated) ->
  policy_admits sprofile vprofile (request_message delegated external) ->
  in_window sprofile vprofile (sign_now sobs) (now_input vobs) ->
  undisturbed vobs ->
  resolve vobs (SigningKeyID (fst (provider_result sobs))) = (resolved, None) ->
  key_published vprofile (now_key vobs) (created_instant (sign_now sobs)) (fst (provider_result sobs)) resolved ->
  nonce_accepted sprofile vprofile vobs store store' (fst (provider_result sobs)) options (sign_now sobs) ->
  readable sprofile (fst (provider_result sobs)) (RequestHeader delegated) ->
  exists verified,
    RequestVerification_ServeHTTP middleware fresh' vobs store true (Some delegated) =
      Some (store', Served (clone_request fresh' delegated (RequestHeader delegated) (RequestTrailer delegated)) verified) /\
    verified = mkVerified (srt_label transport) (SigningKeyID (fst (provider_result sobs)))
      (SigningAlgorithm (fst (provider_result sobs))) (created_instant (sign_now sobs))
      (if policy_is (s_expires sprofile) ParameterRequired then expires_instant sprofile (sign_now sobs) else 0).
Proof.
  intros Hnew [Hsg Hex Hopt Hext Hvf Hlab Hext'] Htrip Hadm Hwin Hquiet Hres Hpub Hnonce Hread.
  cbn [SigningRoundTripper_RoundTrip] in Htrip.
  destruct (normalizeProtectedRequest fresh request) as [clone |] eqn:Hn; [| done].
  apply normalizeProtectedRequest_Ok in Hn as (_ & Hnh & Hnt).
  destruct (existing_fields _ _) as [existing |] eqn:He; [| done]. rewrite Hex in He.
  apply existing_reject in He as (-> & Hni & Hng). rewrite Hopt, Hext, Hsg in Htrip.
  destruct (Signer_Sign _ _ _ _ _) as [[signed |] |] eqn:Hsign; cbn [mbind option_bind] in Htrip; [| done | done].
  destruct (signed_header _ _ _) as [[header |] |] eqn:Hh; cbn [mbind option_bind] in Htrip; [| done | done].
  injection Htrip as <-. apply signed_header_Ok in Hh as (i & g & -> & Hi & Hg).
  apply normalized_is_canonical in Hnh, Hnt.
  destruct (signed_header_adds _ i g Hnh Hni Hng) as (Hcan & Hadds & Hvi & Hvg).
  set (header := Header_Set _ "Signature" g) in *. cbn [RequestHeader RequestTrailer set_request_header clone_request] in *.
  destruct (signed_fields_parse _ _ _ _ _ _ _ _ _ i g Hnew Hsign Hread eq_refl Hi Hg Hvi Hvg) as [Hpi Hpg].
  pose proof (signer_verifies config sprofile vprofile sobs vobs store store' _ _ _ _ resolved Hnew Hsign
    ltac:(destruct Hadm; by split) Hwin Hquiet Hres Hpub Hnonce) as Hver.
  eexists. split; [| reflexivity]. unfold RequestVerification_ServeHTTP, normalizeProtectedRequest. cbv zeta.
  cbn [RequestHeader RequestTrailer set_request_header clone_request].
  rewrite (normalize_canonical header Hcan), (normalize_canonical _ Hnt). cbn [rbind RequestHeader clone_request].
  rewrite Hvi, Hvg, Hpi, Hpg. rewrite Hlab. cbn [checked_label].
  destruct (Signer_Sign_pair _ _ _ _ _ _ Hsign) as (_ & _ & ->). rewrite Hext', Hvf.
  erewrite Verify_same_base; [| | | exact Hver]; [done | done |].
  intros base. apply (CreateSignatureBase_adds fresh' clone external header (RequestTrailer clone) Hadds); [by intros wanted; left |].
  intros c _. by left.
Qed.
End Served.
