(* ===== verification/ResponseEndToEnd.v ===== *)
(** * From the signing handler to the verifying client

    A response that the signing middleware writes is read by a client's
    transport: the received message has the signature base that was signed,
    the fields and the digest parse back, the content matches, and the response
    is released with the metadata of the signature. *)

From S2P Require Import Prelude GoStrings Codecs Errors SyntaxLimits Httpsfv StructuredFieldSafe SignatureFields SerializationFacts.
From S2P Require Import FieldText FieldRoundtrip HttpsfvRefReads HttpTypes MessageLimits MessageFields MessageDerived MessageBase.
From S2P Require Import BaseFacts GoTime ReplayStore Digest DigestFacts Algorithm Signer Verifier VerifierFacts.
From S2P Require Import SignerFacts HttpFields BodyReader HttpIntegration HttpFacts ResponseSigning ResponseFacts BodyDigestFacts EndToEnd.
Open Scope Z_scope.

(** ** Headers *)

(** A header whose only key of a name is the canonical one reads its value. *)
Lemma only_value_reads header name value wanted :
  only_value header name value -> (forall k, EqualFold k wanted = EqualFold k name) ->
  EqualFold (CanonicalHeaderKey name) name = true ->
  caseInsensitiveHeaderValues header wanted = Ok [value].
Proof.
  intros [Hv Hno] Hsame Hself.
  destruct (caseInsensitiveHeaderValues_cases header wanted)
    as [[_ Hnone] | [(k & v & -> & Hk & Hf & _) | [_ (k1 & k2 & Hne & [v1 H1] & [v2 H2] & Hf1 & Hf2)]]].
  - rewrite <- (Hsame (CanonicalHeaderKey name)), Hnone in Hself by eauto. done.
  - rewrite Hsame in Hf. destruct (decide (k = CanonicalHeaderKey name)) as [-> | Hk'].
    + rewrite Hv in Hk. by injection Hk as <-.
    + by rewrite Hno in Hk.
  - rewrite Hsame in Hf1, Hf2. destruct Hne.
    destruct (decide (k1 = CanonicalHeaderKey name)) as [-> | E1]; [| by rewrite Hno in H1].
    destruct (decide (k2 = CanonicalHeaderKey name)) as [-> | E2]; [done | by rewrite Hno in H2].
Qed.

(** A canonical header reads a protected field under its canonical key. *)
Lemma canonical_reads header name :
  name ∈ protectedHTTPFieldNames -> canonical header ->
  caseInsensitiveHeaderValues header name = Ok (Header_Values header name).
Proof.
  intros Hname Hcan. destruct (protected_canonical name Hname) as [Hc Hself].
  unfold Header_Values. rewrite Hc.
  destruct (caseInsensitiveHeaderValues_cases header name)
    as [[-> Hnone] | [(k & v & -> & Hk & Hf & _) | [_ (k1 & k2 & Hne & H1 & H2 & Hf1 & Hf2)]]].
  - destruct (header !! name) eqn:Hv; [| done]. by rewrite (Hnone name) in Hself by eauto.
  - assert (k = name) as -> by (apply Hcan; eauto). by rewrite Hk.
  - destruct Hne. by rewrite (Hcan name k1), (Hcan name k2).
Qed.

(** A field with values is read the same where fields were added. *)
Lemma adds_fields_values h h' name :
  name ∈ protectedHTTPFieldNames -> canonical h -> canonical h' -> adds_fields h h' ->
  Header_Values h name <> [] -> Header_Values h' name = Header_Values h name.
Proof.
  intros Hname Hc Hc' Hadds Hne. pose proof (canonical_reads h name Hname Hc) as H1.
  pose proof (canonical_reads h' name Hname Hc') as H2.
  destruct (Hadds name) as [Heq | [Hnil _]]; [| congruence]. rewrite Heq, H1 in H2. by injection H2.
Qed.

Lemma FormatInt_trimmed n : 0 <= n < 2 ^ 63 -> ParseUint (TrimSpace (FormatInt n)) 63 = Some (Z.to_N n).
Proof.
  intros Hn. assert (FormatInt n = FormatUint (Z.to_N n)) as -> by (destruct n; [done | done | lia]).
  pose proof (FormatUint_digits (Z.to_N n)) as Hd. pose proof (FormatUint_nonempty (Z.to_N n)) as Hne.
  assert (forallb graphic (FormatUint (Z.to_N n)) = true) as Hg.
  { revert Hd. apply forallb_weaken. intros c. by all_ascii c. }
  assert (TrimSpace (FormatUint (Z.to_N n)) = FormatUint (Z.to_N n)) as ->.
  { destruct (FormatUint (Z.to_N n)) as [| c t] eqn:Ht; [done |].
    apply TrimSpace_solid; [by apply andb_true_iff in Hg as [? _] | by apply solid_all]. }
  pose proof (FormatUint_value (Z.to_N n)) as Hv. unfold ParseUint.
  destruct (FormatUint (Z.to_N n)) as [| c t]; [done |]. rewrite Hd. cbv zeta. rewrite Hv.
  assert ((Z.to_N n <? 2 ^ 63)%N = true) as -> by lia. done.
Qed.

(** ** What a component reads of the related request *)

Section Related.
Context `{SFV : Httpsfv} `{UC : UnicodeCase} `{NU : NetURL}.

Context (request request' : Request) (external : option ExternalRequestContext).

(** The values of a field of a request on the wire, or of its trailers. *)
Definition request_field (r : Request) (field : gostring) (trailer : bool) : res (list gostring) :=
  if trailer then caseInsensitiveHeaderValues (RequestTrailer r) field
  else field_values (request_message r None) field noParameters true.

(** The same method and the same target: the one of a common external context,
    or that of the requests. *)
Definition same_target : Prop :=
  Method request' = Method request /\ RequestURL request' <> None /\
  (external <> None \/
   Host request' = Host request /\ RequestURL request' = RequestURL request /\
   RequestURI request' = RequestURI request /\ RequestTLS request' = RequestTLS request).

Definition same_field (field : gostring) : Prop :=
  RequestProtoMajor request' = RequestProtoMajor request /\
  forall trailer, request_field request' field trailer = request_field request field trailer.

(** No component of the related request, or one that both requests show
    alike. *)
Definition seen_alike (c : ComponentIdentifier) : Prop :=
  str "req" ∉ map ParamName (ComponentParams c) \/
  if HasPrefix (ComponentName c) "@" then same_target else same_field (ComponentName c).

Lemma related_field_values response mode field parameters r :
  req parameters = true ->
  field_values (mkMessage None (Some response) (Some r) external ∅ mode 0) field parameters
    (negb (tr parameters)) = request_field r field (tr parameters).
Proof.
  intros Hreq. unfold request_field. destruct (tr parameters) eqn:Htr; cbn [negb];
    unfold field_values, managedFieldValues, headerForComponent, requestForComponent; rewrite Hreq, ?Htr;
    cbn [MessageRequest MessageResponse RelatedRequest request_message rbind tr req noParameters]; [done |].
  by repeat case_match.
Qed.

Lemma resolve_target_external e method target scheme authority t :
  resolve_target method (Some e) target scheme authority = Ok t ->
  target_scheme t = scheme /\ target_authority t = authority.
Proof.
  unfold resolve_target, absolute_target, connect_target. intros H.
  repeat case_match; try done; by injection H as <-.
Qed.

Lemma requestParts_alike parts :
  same_target -> requestParts (Some request) external = Ok parts ->
  requestParts (Some request') external = Ok parts.
Proof.
  intros (Hm & Hu & Hsame). unfold requestParts.
  destruct (RequestURL request') as [u' |] eqn:Hu'; [| done].
  destruct Hsame as [Hext | (-> & <- & -> & ->)]; [| by rewrite Hm].
  destruct (RequestURL request); [| done]. destruct external as [e |]; [| done]. rewrite Hm.
  destruct (ExternalScheme e =s []) eqn:H1; [done |]. destruct (ExternalAuthority e =s []) eqn:H2; [done |].
  destruct (ExternalRequestTarget e =s []); [done |]. cbn [rbind]. intros (t & Ht & H)%rbind_Ok. rewrite Ht.
  apply resolve_target_external in Ht as [Ht1 Ht2]. cbn [rbind]. rewrite Ht1, Ht2, H1, H2 in H |- *. exact H.
Qed.

Lemma derivedSourceFits_alike parts component maxBytes :
  same_target -> requestParts (Some request) external = Ok parts ->
  derivedSourceFits (Some request') external component maxBytes =
  derivedSourceFits (Some request) external component maxBytes.
Proof.
  intros (_ & Hu & Hsame). unfold requestParts, derivedSourceFits.
  destruct (RequestURL request') as [u' |] eqn:Hu'; [| done].
  destruct Hsame as [Hext | (-> & <- & -> & ->)]; [| done].
  destruct (RequestURL request); [| done]. destruct external as [e |]; [| done].
  by destruct (ExternalScheme e =s []).
Qed.
End Related.

(** ** The signature base does not see the connection *)

Section Base.
Context `{SFV : Httpsfv} `{UC : UnicodeCase} `{NU : NetURL}.

Context (written received : Response) (related related' : Request).
Context (external : option ExternalRequestContext).

(** A response of a known length without trailers on a connection that stays
    open. *)
Definition plain_response (r : Response) : Prop :=
  ResponseTransferEncoding r = [] /\ ResponseClose r = false /\ ResponseTrailer r = ∅.

Hypothesis (Hwritten : plain_response written) (Hreceived : plain_response received).
Hypothesis Hstatus : StatusCode received = StatusCode written.
Hypothesis Hlength : ResponseContentLength received = ResponseContentLength written.
Hypothesis Hmajor : ResponseProtoMajor written = 0.
Hypothesis Hbounds : 0 <= ResponseContentLength written < 2 ^ 63.
Hypothesis Hbody : ResponseBody written <> BodyNil /\ ResponseBody written <> NoBody.
Hypothesis Hframed :
  only_value (ResponseHeader written) "Content-Length" (FormatInt (ResponseContentLength written)).
Hypothesis Hadds : adds_fields (ResponseHeader written) (ResponseHeader received).

Let message := written_message written related external.
Let message' := received_message received related' external.

Lemma content_length_received values :
  writeResponseContentLengthFieldValues written = Ok values -> values <> [] ->
  receivedResponseContentLengthFieldValues received = Ok values.
Proof.
  destruct Hwritten as (Hte & _ & _), Hreceived as (Hte' & _ & _), Hbody as [Hb1 Hb2].
  unfold writeResponseContentLengthFieldValues, responseUsesChunkedTransferEncoding.
  rewrite Hte, !(bool_decide_eq_false_2 _ Hb1), !(bool_decide_eq_false_2 _ Hb2). cbn [hasChunkedTransferEncoding negb andb].
  rewrite !andb_true_r, !andb_false_r. cbn [andb]. destruct (_ =? 0) eqn:H0; [done |].
  replace (0 <? ResponseContentLength written) with true by lia. intros [= <-] _.
  unfold receivedResponseContentLengthFieldValues, preservedResponseContentLengthFieldValues.
  assert (caseInsensitiveHeaderValues (ResponseHeader written) "content-length" =
    Ok [FormatInt (ResponseContentLength written)]) as Hci.
  { apply (only_value_reads _ (str "Content-Length")); [done | | done]. intros k. by apply EqualFold_lower. }
  destruct (Hadds "content-length") as [-> | [Hnil _]]; [| congruence]. rewrite Hci. cbn [rbind].
  rewrite (FormatInt_trimmed _ Hbounds), Hte'. cbn [len negb Z.eqb length Z.of_nat default from_option id].
  rewrite (FormatInt_trimmed _ Hbounds). cbn [default from_option id]. rewrite Hlength, Z2N.id by lia. replace (ResponseContentLength written <? 0) with false by lia.
  rewrite (Z.eqb_refl (ResponseContentLength written)). cbn [negb orb]. by rewrite andb_false_r.
Qed.

Lemma field_values_received field parameters values :
  req parameters = false -> field_values message field parameters false = Ok values -> values <> [] ->
  field_values message' field parameters false = Ok values.
Proof.
  destruct Hwritten as (Hte & Hcl & Htr), Hreceived as (Hte' & Hcl' & Htr').
  intros Hreq. unfold field_values, managedFieldValues, headerForComponent.
  cbn [message message' written_message received_message MessageRequest MessageResponse ResponseTransport].
  rewrite Hreq. destruct (tr parameters).
  { rewrite Htr. intros Heq Hne. unfold caseInsensitiveHeaderValues in Heq. rewrite map_to_list_empty in Heq.
    cbn in Heq. by injection Heq as <-. }
  destruct (EqualFold field "content-length"); [by apply content_length_received |].
  unfold responseTransportFieldValues.
  destruct (EqualFold field "transfer-encoding").
  { unfold responseTransferEncodingFieldValues, writeResponseTransferEncodingFieldValues, responseUsesChunkedTransferEncoding.
    cbn [select_mode]. rewrite Hte. cbn [hasChunkedTransferEncoding negb len length Z.of_nat Z.eqb orb]. by intros [= <-]. }
  destruct (EqualFold field "trailer").
  { unfold responseTrailerFieldValues, responseUsesChunkedTransferEncoding. cbn [select_mode].
    rewrite Hte. cbn [hasChunkedTransferEncoding negb andb]. by intros [= <-]. }
  destruct (EqualFold field "connection").
  { unfold responseConnectionFieldValues. cbn [select_mode]. rewrite Hcl'. unfold responseWriteClosesConnection.
    rewrite Hcl. replace (ResponseContentLength written =? -1) with false by lia. cbn [orb andb].
    unfold responseCloseFieldValues. cbn [negb].
    destruct (Hadds "connection") as [-> | (_ & _ & [=])]; done. }
  destruct (Hadds field) as [-> | [-> _]]; [done |]. by intros [= <-].
Qed.

Lemma resolveField_received field parameters maxBytes value :
  req parameters = false -> resolveField message field parameters maxBytes = Ok value ->
  resolveField message' field parameters maxBytes = Ok value.
Proof.
  intros Hreq. unfold resolveField. destruct (hasName parameters); [done |]. cbv zeta.
  change (is_nil (MessageRequest message')) with true. change (is_nil (MessageRequest message)) with true.
  rewrite Hreq. cbn [negb orb]. rewrite !andb_false_r. cbn [andb]. intros (values & Hv & H)%rbind_Ok.
  destruct (len values =? 0) eqn:H0; [done |].
  rewrite (field_values_received _ _ _ Hreq Hv) by (by intros ->). cbn [rbind]. rewrite H0.
  destruct (_ && _ && _); [done |]. cbn [rbind] in *. destruct (negb (fieldValuesFit _ _ _)); [done |].
  assert (existsb (fun value => ContainsAny value [c_cr; c_lf]) values = false) as Hb.
  { change (componentHTTPMajor message false) with (ResponseProtoMajor written) in H. rewrite Hmajor in H.
    by destruct (existsb _ _). }
  rewrite Hb, andb_false_r in H |- *. exact H.
Qed.

(** A field of the related request reads the same where both requests have it. *)
Lemma resolveField_related field parameters maxBytes value :
  req parameters = true -> same_field related related' field ->
  resolveField message field parameters maxBytes = Ok value ->
  resolveField message' field parameters maxBytes = Ok value.
Proof.
  intros Hreq [Hmaj Hf]. unfold resolveField. destruct (hasName parameters); [done |]. cbv zeta.
  rewrite Hreq. cbn [orb]. rewrite !andb_true_r.
  unfold message, message', written_message, received_message. rewrite !related_field_values, Hf by done.
  unfold componentHTTPMajor, requestForComponent. cbn [orb MessageResponse RelatedRequest]. by rewrite Hmaj.
Qed.

Lemma resolveDerived_related component parameters maxBytes value :
  req parameters = true -> same_target related related' external ->
  resolveDerived message component parameters maxBytes = Ok value ->
  resolveDerived message' component parameters maxBytes = Ok value.
Proof.
  intros Hreq Hsame. unfold resolveDerived, requestForComponent, externalForRequest, message, message'. rewrite Hreq.
  cbn [written_message received_message MessageRequest MessageResponse RelatedRequest ExternalRequest is_Ok negb andb
    orb same_request]. rewrite !Nat.eqb_refl. cbn [orb].
  destruct (_ || _ || _ || _); [done |]. destruct (_ && _); [done |].
  destruct (component =s "@method"); [by rewrite (proj1 Hsame) |].
  destruct (name_in _ _); [| done].
  destruct (derivedSourceFits _ _ _ _) eqn:Hfit; [| done]. cbn [negb]. intros (parts & Hp & H)%rbind_Ok.
  rewrite (derivedSourceFits_alike _ _ _ _ _ _ Hsame Hp), Hfit, (requestParts_alike _ _ _ _ Hsame Hp). exact H.
Qed.

Lemma resolveDerived_received component parameters maxBytes value :
  req parameters = false -> resolveDerived message component parameters maxBytes = Ok value ->
  resolveDerived message' component parameters maxBytes = Ok value.
Proof.
  intros Hreq. unfold resolveDerived, requestForComponent. rewrite Hreq.
  cbn [message message' written_message received_message MessageRequest MessageResponse is_Ok negb andb orb].
  destruct (_ || _); [done |]. destruct (_ && _); [done |].
  destruct (decide (component = str "@status")) as [-> | Hne].
  - rewrite Hstatus. exact id.
  - assert ((component <>s "@status") = true) as ->; [| done].
    by rewrite bool_decide_eq_false_2.
Qed.

Lemma parameter_set_req ps : forall r r',
  parameter_set r ps = Ok r' -> str "req" ∉ map ParamName ps -> req r' = req r.
Proof.
  induction ps as [| [n v] ps IH]; intros r r'; cbn [parameter_set map ParamName ParamValue]; [by intros [= <-] |].
  intros H [Hne Hno]%not_elem_of_cons. repeat case_match; try done; rewrite (IH _ _ H Hno); try done.
  unfold set_flag. cbn [req]. rewrite (bool_decide_eq_false_2 (n = str "req")) by congruence. by rewrite orb_false_r.
Qed.

Lemma resolveComponent_received component maxBytes value :
  seen_alike related related' external component -> resolveComponent message component maxBytes = Ok value ->
  resolveComponent message' component maxBytes = Ok value.
Proof.
  intros Halike. unfold resolveComponent. destruct (_ =s "@signature-params"); [done |].
  intros (ps & Hps & H)%rbind_Ok. rewrite Hps. cbn [rbind].
  destruct (req ps) eqn:Hreq.
  - destruct Halike as [Hof | Halike].
    { unfold componentParameterSet in Hps. apply rbind_Ok in Hps as (r & Hr & Hps).
      destruct (_ && _); [done |]. injection Hps as <-. by rewrite (parameter_set_req _ _ _ Hr Hof) in Hreq. }
    destruct (HasPrefix _ "@"); [by apply resolveDerived_related | by apply resolveField_related].
  - destruct (HasPrefix _ "@"); [by apply resolveDerived_received | by apply resolveField_received].
Qed.

Lemma CreateSignatureBase_received input base :
  Forall (seen_alike related related' external) (Components input) ->
  CreateSignatureBase message input = Ok base -> CreateSignatureBase message' input = Ok base.
Proof.
  intros Hall. apply CreateSignatureBase_resolve; [done | done | done | by left | done |].
  intros c budget value Hc. apply resolveComponent_received. rewrite list.Forall_forall in Hall. by apply Hall.
Qed.
End Base.

(** ** What the middleware emits *)

Lemma canonical_content_length header length :
  canonical header -> canonical (set_content_length header length).
Proof.
  intros Hcan name k Hname Hk Hs. destruct (EqualFold k "Content-Length") eqn:Hf.
  - destruct (decide (k = str "Content-Length")) as [-> | Hne].
    + exfalso. revert Hk. repeat (apply elem_of_cons in Hname as [-> | Hname]; [done |]). by apply elem_of_nil in Hname.
    + unfold set_content_length, Header_Set in Hs.
      change (CanonicalHeaderKey "Content-Length") with (str "Content-Length") in Hs.
      rewrite lookup_insert_ne, lookup_deleteHeaderField, Hf in Hs by congruence. by destruct Hs.
  - rewrite lookup_set_content_length in Hs by done. by apply Hcan.
Qed.

Lemma framed_response_body method response body r content :
  method <> str "HEAD" -> responseBodyAllowed (StatusCode response) = true ->
  framed_response method response body = Ok (r, content) ->
  content = body /\
  r = set_response_header response (set_content_length (ResponseHeader response) (ResponseContentLength response)).
Proof.
  intros Hm Ha. unfold framed_response. cbv zeta. rewrite (bool_decide_eq_false_2 _ Hm).
  assert ((StatusCode response =? 304) = false) as ->.
  { apply Z.eqb_neq. intros H304. by rewrite H304 in Ha. }
  rewrite Ha. cbn [negb]. intros (h & Hh & [= <- <-])%rbind_Ok. split; [done |].
  unfold normalizeBufferedContentLength in Hh. apply rbind_Ok in Hh as ([values present] & _ & Hh).
  destruct (_ && _); [done |]. rewrite orb_true_r in Hh. by injection Hh as <-.
Qed.

(** A signature is over a base of the message. *)
Lemma Signer_Sign_base `{SFV : Httpsfv} `{UC : UnicodeCase} `{NU : NetURL} `{CR : Crypto} profile obs message
    label options signed :
  Signer_Sign (Some profile) obs message label options = Some (Ok signed) ->
  exists base, CreateSignatureBase message (signed_input signed) = Ok base.
Proof.
  intros Hsign%Signer_Sign_Ok. destruct (provider_result obs) as [key perr]. cbv zeta in Hsign.
  destruct Hsign as (_ & _ & _ & _ & _ & _ & _ & _ & _ & base & value & Hb & _ & ->). by exists base.
Qed.

Section Emitted.
Context `{SFV : Httpsfv} `{UC : UnicodeCase} `{NU : NetURL} `{CR : Crypto} `{HS : Hashes}.

(** The signed response behind an emitted one that carries content. *)
Record signed_response (middleware : ResponseSigningMiddleware) (fresh : nat) (obs : SigningObservation)
  (request : Request) (status : Z) (content : gostring) (header : Header)
  (related : Request) (response : Response) (options : SigningOptions)
  (external : option ExternalRequestContext) (signed : SignedFields) (i g : gostring) : Prop := {
  sr_related : normalizeProtectedRequest fresh request = Ok related;
  sr_status : StatusCode response = status;
  sr_plain : plain_response response;
  sr_major : ResponseProtoMajor response = 0;
  sr_body : ResponseBody response <> BodyNil /\ ResponseBody response <> NoBody;
  sr_length : ResponseContentLength response = len content;
  sr_fits : len content <= rsm_maxBufferedBytes middleware;
  sr_framed : only_value (ResponseHeader response) "Content-Length" (FormatInt (len content));
  sr_canonical : canonical (ResponseHeader response);
  sr_unsigned : Header_Values (ResponseHeader response) "Signature-Input" = [] /\
    Header_Values (ResponseHeader response) "Signature" = [];
  sr_digest : carries_digest (rsm_digestAlgorithms middleware) content (ResponseHeader response);
  sr_transition : responseTransitionsProtocol related response = false;
  sr_options : exists a b, rsm_options middleware a b = Ok options;
  sr_external : exists a, external_of (rsm_externalContext middleware) a = Ok external;
  sr_signed : Signer_Sign (rsm_signer middleware) obs (written_message response related external)
    (rsm_label middleware) options = Some (Ok signed);
  sr_input_text : SignatureInputField signed = Some i;
  sr_signature_text : SignatureField signed = Some g;
  sr_header : header = Header_Set (Header_Set (ResponseHeader response) "Signature-Input" i) "Signature" g
}.

Lemma emitted_signed config middleware fresh obs outer handler wrote request header status content reported :
  NewResponseSigningMiddleware config = Ok middleware ->
  rsm_digestAlgorithms middleware <> [] -> rsm_existing middleware = ExistingSignaturesReject ->
  method_after handler <> str "HEAD" -> responseBodyAllowed status = true ->
  ResponseSigning_ServeHTTP middleware fresh obs outer true handler wrote (Some request) =
    Some (Emitted header status content reported) ->
  exists related response options external signed i g,
    signed_response middleware fresh obs request status content header related response options external signed i g.
Proof.
  intros [Hmax Hdig]%constructed_middleware Hne Hex Hhead Hallow Hserve.
  unfold ResponseSigning_ServeHTTP in Hserve.
  destruct (outer_header outer) as [outerHeader |]; [| done].
  destruct (normalizeProtectedRequest fresh request) as [related |] eqn:Hrel; [| done].
  destruct (buffered_run _ _) as [buffer |] eqn:Hrun; cbn [mbind option_bind] in Hserve; [| done].
  destruct (finished_response _ _ _ _) as [[framed body] |] eqn:Hfin; [| done].
  destruct (digested_response _ _ _) as [[response |] |] eqn:Hdg; cbn [mbind option_bind] in Hserve; [| done | done].
  destruct (response_signed _ _ _ _ _) as [[hd |] |] eqn:Hsig; cbn [mbind option_bind] in Hserve; [| done | done].
  unfold copyResponse in Hserve. injection Hserve as -> <- -> _.
  apply (digested_response_Ok _ _ _ _ Hdig) in Hdg as [[? _] | [Hcarry [field ->]]]; [done |].
  unfold finished_response in Hfin. destruct (tooLarge buffer) eqn:Hsmall; [done |]. cbv zeta in Hfin.
  apply answered in Hrun as (_ & _ & _ & Hfits); [| lia | done].
  destruct (responseTransitionsProtocol _ _) eqn:Htrans; [done |].
  apply rbind_Ok in Hfin as (n & Hn & Hfin). destruct (rejectBufferedResponseManagedFraming n); [done |].
  apply normalizeProtectedHeader_Ok, normalized_is_canonical in Hn.
  assert (StatusCode framed = StatusCode (buffered_response_of buffer (fresh + 1) related)) as Hst.
  { apply framed_response_Ok in Hfin as [-> _ _ _ _]. done. }
  cbn [StatusCode set_response_header update_response] in Hallow. rewrite Hst in Hallow.
  apply framed_response_body in Hfin as [-> ->]; [| done | done].
  unfold response_signed in Hsig. destruct (existing_fields _ _) as [existing |] eqn:He; [| done]. cbv zeta in Hsig.
  rewrite Hex in He. apply existing_reject in He as (-> & Hni & Hng).
  destruct (rsm_options _ _ _) as [options |] eqn:Ho; [| done].
  destruct (external_of _ _) as [external |] eqn:Hext; [| done].
  destruct (Signer_Sign _ _ _ _ _) as [[signed |] |] eqn:Hs; cbn [mbind option_bind] in Hsig; [| done | done].
  apply signed_header_Ok in Hsig as (i & g & -> & Hi & Hg).
  eexists related, _, options, external, signed, i, g.
  split; [done | reflexivity | done | done | done | done | done | | | done | done | done | by eauto | by eauto |
    exact Hs | exact Hi | exact Hg | reflexivity];
    cbn [ResponseHeader set_response_header update_response].
  - apply only_value_set_other; [done | done |]. apply only_value_set_content_length.
  - apply canonical_set; [set_solver |]. by apply canonical_content_length.
Qed.
End Emitted.

(** ** What the client reads *)

Lemma adds_fields_trans h h' h'' : adds_fields h h' -> adds_fields h' h'' -> adds_fields h h''.
Proof.
  intros H1 H2 wanted. destruct (H1 wanted) as [E1 | R1]; [| by right].
  destruct (H2 wanted) as [E2 | (E2 & R)]; [left; congruence | right; split; [congruence | done]].
Qed.

(** The digest field covered as a whole decides the coverage. *)
Lemma covers_whole_digest components : forall covered whole keyed,
  (mkComponent "content-digest" [] ∈ components \/ covered = true /\ whole = true) ->
  exists keyed', content_digest_loop components covered whole keyed = (true, true, keyed').
Proof.
  induction components as [| c cs IH]; intros covered whole keyed H; cbn [content_digest_loop].
  { destruct H as [H%elem_of_nil | [-> ->]]; [done | by eexists]. }
  destruct H as [[<- | H]%elem_of_cons | [-> ->]].
  - apply IH. by right.
  - repeat case_match; apply IH; by left.
  - repeat case_match; apply IH; by right.
Qed.

Section Released.
Context `{SFV : Httpsfv} `{HL : !HttpsfvLaws} `{HR : !HttpsfvReads} `{UC : UnicodeCase} `{NU : NetURL}.
Context `{CR : Crypto} `{CL : !CryptoLaws} `{HS : Hashes} `{HSL : !HashLaws}.
Context {S Obs : Type} `{RS : ReplayStore S Obs}.

(** The two sides: the middleware rejects existing signatures and adds a digest
    that the profile covers as a whole; the client asks for some of its
    digests; the callbacks answer alike whatever they are given. *)
Record response_sides (middleware : ResponseSigningMiddleware) (transport : VerifyingRoundTripper)
  (sprofile : SigningProfile) (vprofile : VerificationProfile) (options : SigningOptions)
  (external : option ExternalRequestContext) : Prop := {
  sides_signer : rsm_signer middleware = Some sprofile;
  sides_existing : rsm_existing middleware = ExistingSignaturesReject;
  sides_options a b : rsm_options middleware a b = Ok options;
  sides_external a : external_of (rsm_externalContext middleware) a = Ok external;
  sides_digest : mkComponent "content-digest" [] ∈ s_components sprofile;
  sides_verifier : vrt_verifier transport = Some vprofile;
  sides_label a b inputs signatures : vrt_selectLabel transport a b inputs signatures = Ok (rsm_label middleware);
  sides_external' a : external_of (vrt_externalContext transport) a = Ok external;
  sides_required : vrt_contentDigestAlgorithms transport <> [];
  sides_algorithms : vrt_contentDigestAlgorithms transport ⊆ rsm_digestAlgorithms middleware
}.

(** The client's transport hands over the emitted response on a connection
    that stays open: the fields as they were written, perhaps more of other
    names, and the content, which fits the client's limit. *)
Record arrives (header : Header) (status : Z) (content : gostring) (maxBytes : Z) (fresh : nat)
  (exchange : exchange) (response : Response) (related : Request) : Prop := {
  arr_response : received exchange = Some response;
  arr_error : transport_err exchange = None;
  arr_request : snapshotResponseRequest fresh (ResponseRequest response) = Ok related;
  arr_status : StatusCode response = status;
  arr_transition : responseTransitionsProtocol related response = false;
  arr_plain : plain_response response;
  arr_coded : Uncompressed response = false;
  arr_length : ResponseContentLength response = len content;
  arr_body : ResponseBody response <> BodyNil;
  arr_content : gives (received_body exchange) 0 content;
  arr_close : close_err (received_body exchange) = None;
  arr_fits : len content <= maxBytes;
  arr_trailer : trailer_after exchange = ∅;
  arr_canonical : canonical (ResponseHeader response);
  arr_fields : adds_fields header (ResponseHeader response)
}.

Lemma constructed_client config transport :
  NewVerifyingRoundTripper config = Ok transport -> vrt_contentDigestAlgorithms transport <> [] ->
  0 < vrt_maxBufferedBytes transport /\ NoDup (vrt_contentDigestAlgorithms transport).
Proof.
  unfold NewVerifyingRoundTripper. destruct (vrc_has_transport config); [| done].
  destruct (vrc_verifier config); [| done]. destruct (vrc_selectLabel config); [| done]. cbv zeta.
  destruct (_ && _) eqn:Hc; [done |]. intros [= <-]. cbn [vrt_contentDigestAlgorithms vrt_maxBufferedBytes app].
  intros Hne. assert ((len (vrc_contentDigestAlgorithms config) =? 0) = false) as H0.
  { apply Z.eqb_neq. by intros ?%len_0. }
  rewrite H0 in Hc. cbn [negb orb andb] in Hc. apply orb_false_iff in Hc as [Hpos Hd].
  split; [lia |]. destruct (ComputeDigests _ _) as [d |] eqn:He; [| done].
  by apply ComputeDigests_policy in He as [_ ?].
Qed.

(** The body is drained, its digests match, and the verifier sees the length
    on the wire. *)
Lemma buffer_content_matches transport fresh exchange response related content algorithms :
  0 < vrt_maxBufferedBytes transport -> NoDup (vrt_contentDigestAlgorithms transport) ->
  vrt_contentDigestAlgorithms transport <> [] -> vrt_contentDigestAlgorithms transport ⊆ algorithms ->
  responseTransitionsProtocol related response = false -> Uncompressed response = false ->
  ResponseBody response <> BodyNil -> gives (received_body exchange) 0 content ->
  close_err (received_body exchange) = None -> len content <= vrt_maxBufferedBytes transport ->
  trailer_after exchange = ∅ -> carries_digest algorithms content (ResponseHeader response) ->
  exists buffered wire,
    buffer_content transport fresh false exchange response related true =
      Some (inl (mkBuffered buffered wire content)) /\
    buffered = update_response response (ResponseHeader response) ∅ (BodyReader (fresh + 3)) (len content)
      (ResponseRequest response) /\
    exists body request, wire = update_response response (ResponseHeader response) ∅ body
      (ResponseContentLength response) request.
Proof.
  intros Hmax Hnd Hne Hsub Htr Hun Hb Hgives Hclose Hfits Htrailer (digests & field & Hd & Hf & Hfield).
  unfold buffer_content, responseDigestBufferingConfigured. cbv zeta. cbn [negb].
  assert ((len (vrt_contentDigestAlgorithms transport) =? 0) = false) as ->.
  { apply Z.eqb_neq. by intros ?%len_0. }
  replace (0 <? vrt_maxBufferedBytes transport) with true by lia. cbn [negb andb].
  rewrite Htr, Hun, Hfield, (computed_digests_parse _ _ _ _ Hd Hf), (bool_decide_eq_false_2 _ Hb).
  destruct (readBoundedAndClose_cases false (Some (received_body exchange)) (vrt_maxBufferedBytes transport))
    as (r & -> & Hr). rewrite (proj2 (Hr content)) by done. cbn [mbind option_bind].
  rewrite (ComputeDigests_Verify_cases _ _ _ _ Hd Hne Hnd Hsub), Htrailer.
  rewrite normalize_canonical by (intros name k _ _ [v Hv]; by rewrite lookup_empty in Hv).
  eexists _, _. split; [reflexivity |]. split; [reflexivity |]. by eexists _, _.
Qed.

Lemma update_response_same r :
  update_response r (ResponseHeader r) (ResponseTrailer r) (ResponseBody r) (ResponseContentLength r)
    (ResponseRequest r) = r.
Proof. by destruct r. Qed.

(** The client's steps up to the verifier, for a single signature that covers
    the digest. *)
Lemma verified_is_released transport fresh (obs : VerificationObservation (Obs := Obs)) (store store' : S)
    exchange response related request' input value label buffered wire content external verified :
  transport_err exchange = None -> received exchange = Some response ->
  snapshotResponseRequest fresh (ResponseRequest response) = Ok related ->
  canonical (ResponseHeader response) -> ResponseTrailer response = ∅ ->
  ParseSignatureInputs (Header_Values (ResponseHeader response) "Signature-Input") = Ok [input] ->
  ParseSignatures (Header_Values (ResponseHeader response) "Signature") = Ok [mkSignatureValue label value []] ->
  InputLabel input = label -> validSignatureLabel label = true ->
  (forall a b inputs signatures, vrt_selectLabel transport a b inputs signatures = Ok label) ->
  (forall a, external_of (vrt_externalContext transport) a = Ok external) ->
  mkComponent "content-digest" [] ∈ Components input ->
  buffer_content transport fresh false exchange response related true =
    Some (inl (mkBuffered buffered wire content)) ->
  Verifier_Verify (vrt_verifier transport) obs store (received_message wire related external) label [input]
    [mkSignatureValue label value []] = Some (store', Ok verified) ->
  VerifyingRoundTripper_RoundTrip (Some transport) fresh obs store false exchange (Some request') =
    Some (store', Released (update_response buffered (ResponseHeader buffered) (ResponseTrailer buffered)
      (ResponseBody buffered) (ResponseContentLength buffered)
      (Some (clone_request (fresh + 7) related (RequestHeader related) (RequestTrailer related))))
      (Some content) verified).
Proof.
  intros Herr Hresp Hrel Hcan Htr Hpi Hpg Hin Hvalid Hlab Hext Hcov Hbuf Hver.
  cbn [VerifyingRoundTripper_RoundTrip]. rewrite Herr, Hresp, Hrel, (normalize_canonical _ Hcan), Htr.
  rewrite normalize_canonical by (intros name k _ _ [v Hv]; by rewrite lookup_empty in Hv).
  rewrite <- Htr, update_response_same, Hpi, Hpg, Hlab. cbn [checked_label]. rewrite Hvalid.
  destruct (selectSignature_single label input value Hin) as [-> _]; [by intros -> |].
  unfold message_response, signatureInputAuthenticatesResponseContentDigest, responseContentDigestCoverage.
  destruct (covers_whole_digest (Components input) false false ∅ (or_introl Hcov)) as [keyed ->].
  cbn [negb]. rewrite Hbuf. cbn [mbind option_bind buffered_response wire_response buffered_content].
  by rewrite Hext, Hver.
Qed.

(** C6: from handler to client.  A constructed signing middleware that digests
    content and rejects existing signatures writes a response with content,
    for a method and a status that allow it.  Let the client's transport read
    it on a connection that stays open, without chunks and trailers, the fields
    as written, perhaps with others added, and the content; let the callbacks
    and the verification policy agree with the middleware's, Content-Digest be
    covered as a whole, every component of the related request be one that the
    requests of both sides show alike, the clock lie in the window, the key be
    the published half, the replay store accept the nonce and the fields be
    small enough to be read.  Then the response as it was signed, before it
    was written, and the response on the wire as it was received have the same
    signature base, and the verifying transport releases the received response
    with exactly that content, and with the metadata of the signature the
    middleware made. *)
Theorem emitted_response_released sconfig sprofile vprofile config middleware config' transport fresh fresh'
    sobs (vobs : VerificationObservation (Obs := Obs)) (store store' : S) outer handler wrote request header
    status content reported exchange response related' options external resolved request' :
  NewSigningProfile sconfig = Ok sprofile ->
  NewResponseSigningMiddleware config = Ok middleware ->
  NewVerifyingRoundTripper config' = Ok transport ->
  rsm_maxBufferedBytes middleware < 2 ^ 63 ->
  response_sides middleware transport sprofile vprofile options external ->
  ResponseSigning_ServeHTTP middleware fresh sobs outer true handler wrote (Some request) =
    Some (Emitted header status content reported) ->
  method_after handler <> str "HEAD" -> responseBodyAllowed status = true ->
  arrives header status content (vrt_maxBufferedBytes transport) fresh' exchange response related' ->
  policy_admits sprofile vprofile (received_message response related' external) ->
  in_window sprofile vprofile (sign_now sobs) (now_input vobs) ->
  undisturbed vobs ->
  resolve vobs (SigningKeyID (fst (provider_result sobs))) = (resolved, None) ->
  key_published vprofile (now_key vobs) (created_instant (sign_now sobs)) (fst (provider_result sobs)) resolved ->
  nonce_accepted sprofile vprofile vobs store store' (fst (provider_result sobs)) options (sign_now sobs) ->
  readable sprofile (fst (provider_result sobs)) header ->
  (forall related, normalizeProtectedRequest fresh request = Ok related ->
     Forall (seen_alike related related' external) (s_components sprofile)) ->
  exists related written signed inputField signatureField base wire,
    signed_response middleware fresh sobs request status content header related written options external
      signed inputField signatureField /\
    CreateSignatureBase (written_message written related external) (signed_input signed) = Ok base /\
    CreateSignatureBase (received_message wire related' external) (signed_input signed) = Ok base /\
    (exists body r, wire = update_response response (ResponseHeader response) ∅ body
       (ResponseContentLength response) r) /\
    VerifyingRoundTripper_RoundTrip (Some transport) fresh' vobs store false exchange (Some request') =
      Some (store', Released
        (update_response response (ResponseHeader response) ∅ (BodyReader (fresh' + 3)) (len content)
           (Some (clone_request (fresh' + 7) related' (RequestHeader related') (RequestTrailer related'))))
        (Some content)
        (mkVerified (rsm_label middleware) (SigningKeyID (fst (provider_result sobs)))
           (SigningAlgorithm (fst (provider_result sobs))) (created_instant (sign_now sobs))
           (if policy_is (s_expires sprofile) ParameterRequired then expires_instant sprofile (sign_now sobs)
            else 0))).
Proof.
  intros Hnew Hmid Hclient Hint [Hsg Hex Hopt Hext Hcov Hvf Hlab Hext' Hne Hsub] Hserve Hhead Hallow Harr
    Hadm Hwin Hquiet Hres Hpub Hnonce Hread Halike.
  assert (rsm_digestAlgorithms middleware <> []) as Hne'.
  { intros Heq. rewrite Heq in Hsub. destruct (vrt_contentDigestAlgorithms transport) as [| a l]; [done |].
    by specialize (Hsub a (list_elem_of_here _ _)) as ?%elem_of_nil. }
  apply (emitted_signed _ _ _ _ _ _ _ _ _ _ _ _ Hmid Hne' Hex Hhead Hallow) in Hserve
    as (related & w & options' & external' & signed & i & g & Hsr).
  pose proof Hsr as [Hnr Hst Hplain Hmajor Hbody Hlen Hfits Hframed Hcanw
        [Hni Hng] Hdig _ (sa & sb & Ho) [sc He] Hsign Hi Hg Hheader].
  assert (options' = options) as -> by (rewrite Hopt in Ho; congruence).
  assert (external' = external) as -> by (rewrite Hext in He; congruence). clear Ho He.
  destruct (signed_header_adds _ i g Hcanw Hni Hng) as (Hcanh & Hadds & Hvi & Hvg).
  rewrite <- Hheader in *. rewrite Hsg in Hsign.
  destruct Harr as [Hresp Herr Hrel Hst' Htrans Hplain' Hun Hlen' Hb' Hgives Hclose Hlimit Htrailer Hcanr Hfields].
  destruct (constructed_client _ _ Hclient Hne) as [Hmax Hnd].
  assert (Header_Values (ResponseHeader response) "Signature-Input" = [i]) as Hri.
  { rewrite <- Hvi. apply adds_fields_values; [set_solver | done | done | done | by rewrite Hvi]. }
  assert (Header_Values (ResponseHeader response) "Signature" = [g]) as Hrg.
  { rewrite <- Hvg. apply adds_fields_values; [set_solver | done | done | done | by rewrite Hvg]. }
  destruct (signed_fields_parse _ _ _ _ _ _ _ _ _ i g Hnew Hsign Hread eq_refl Hi Hg Hvi Hvg) as [Hpi Hpg].
  pose proof (signer_verifies sconfig sprofile vprofile sobs vobs store store' _ _ _ _ resolved Hnew Hsign
    ltac:(destruct Hadm; by split) Hwin Hquiet Hres Hpub Hnonce) as Hver.
  destruct (Signer_Sign_pair _ _ _ _ _ _ Hsign) as (Hin & [value Hvalue] & Hlabel).
  assert (carries_digest (rsm_digestAlgorithms middleware) content (ResponseHeader response)) as Hdig'.
  { destruct Hdig as (digests & field & Hd & Hf & Hfield). exists digests, field. split; [done |]. split; [done |].
    rewrite <- Hfield. apply adds_fields_values; [set_solver | done | done | by eapply adds_fields_trans | by rewrite Hfield]. }
  destruct (buffer_content_matches transport fresh' exchange response related' content _ Hmax Hnd Hne Hsub Htrans Hun Hb'
    Hgives Hclose Hlimit Htrailer Hdig') as (buffered & wire & Hbuf & Hb1 & body & wrequest & Hwire).
  assert (forall base, CreateSignatureBase (written_message w related external) (signed_input signed) = Ok base ->
    CreateSignatureBase (received_message wire related' external) (signed_input signed) = Ok base) as Hbase.
  { intros base. rewrite Hwire, Hin. rewrite <- Hlen in Hframed. pose proof (len_nonneg content).
    apply CreateSignatureBase_received; cbn [StatusCode ResponseContentLength ResponseHeader update_response];
      [done | by destruct Hplain' as (? & ? & ?) | congruence | congruence | done | lia | done | done |
       by eapply adds_fields_trans | by apply Halike]. }
  destruct (Signer_Sign_base _ _ _ _ _ _ Hsign) as [base Hb].
  exists related, w, signed, i, g, base, wire. split; [exact Hsr |]. split; [exact Hb |]. split; [by apply Hbase |].
  split; [by exists body, wrequest |]. rewrite Hin, Hvalue in *.
  eapply Verify_same_base with (message' := received_message wire related' external) in Hver; [| done | exact Hbase].
  rewrite <- Hvf in Hver.
  eapply verified_is_released in Hver as Hrun; [| exact Herr | exact Hresp | exact Hrel | exact Hcanr | apply Hplain' |
    by rewrite Hri | by rewrite Hrg | done | done | exact Hlab | exact Hext' | exact Hcov | exact Hbuf].
  subst buffered. exact Hrun.
Qed.
End Released.
