(* ===== verification/TrailerFields.v ===== *)
(** * Trailer fields (body_integration.go 571-639, 986-1057, 1317-1327)

    Which names may be trailers, how the trailers of a message are normalized
    and compared, which names a response announces, and which profiles cover
    the digest in the trailers.  A loop over a header takes its entries in
    some order; the theorem shows where the order does not matter. *)

From S2P Require Import Prelude GoStrings Errors Httpsfv StructuredFieldSafe SignatureFields.
From S2P Require Import HttpTypes MessageFields Signer Verifier HttpFields ResponseSigning.
Open Scope Z_scope.

(** Names that frame, route or control a message, and conditional requests. *)
Definition forbidden_trailers : list gostring :=
  map str ["Authorization"; "Cache-Control"; "Connection"; "Content-Encoding"; "Content-Length";
    "Content-Range"; "Content-Type"; "Expect"; "Host"; "Keep-Alive"; "Max-Forwards"; "Pragma";
    "Proxy-Authenticate"; "Proxy-Authorization"; "Proxy-Connection"; "Range"; "Realm"; "Te";
    "Trailer"; "Transfer-Encoding"; "Www-Authenticate"]%string.

Definition validResponseTrailerName (name : gostring) : bool :=
  if HasPrefix name "If-" then false else negb (bool_decide (name ∈ forbidden_trailers)).

(** The test of a trailer's name and of its canonical form. *)
Definition trailer_name (name : gostring) : bool :=
  negb (name =s []) && validHTTPToken name && validResponseTrailerName (CanonicalHeaderKey name).

Fixpoint normalize_trailers (entries : list (gostring * list gostring)) (normalized : Header)
  : res Header :=
  match entries with
  | [] => Ok normalized
  | (name, values) :: rest =>
      let canonical := CanonicalHeaderKey name in
      if negb (trailer_name name) then Err (Sentinel ErrInvalidBodyIntegration)
      else if negb (is_nil (normalized !! canonical)) then Err (Sentinel ErrAmbiguousProtectedField)
      else normalize_trailers rest (<[canonical := [] ++ values]> normalized)
  end.

Definition normalizeTrailerFields (header : Header) : res Header :=
  normalize_trailers (map_to_list header) ∅.

(** Content-Digest, Signature-Input and Signature. *)
Definition signing_names : list gostring :=
  [str "Content-Digest"; str "Signature-Input"; str "Signature"].

Definition applicationTrailerNames (header : Header) : gset gostring :=
  list_to_set (List.filter (fun canonical => negb (bool_decide (canonical ∈ signing_names)))
    (map (fun '(name, _) => CanonicalHeaderKey name) (map_to_list header))).

Definition sameTrailerNames (a b : gset gostring) : bool :=
  Nat.eqb (size a) (size b) && forallb (fun name => bool_decide (name ∈ b)) (elements a).

Definition hasSignatureOrDigestFields (header : Header) : bool :=
  existsb (fun name =>
    match protectedFieldValues header name with
    | Err _ => true
    | Ok (values, present) => (present : bool) && negb (len values =? 0)
    end) signing_names.

(** ** Announced names of a response *)

Fixpoint trailer_line (names : gset gostring) (raw : list gostring) : res (gset gostring) :=
  match raw with
  | [] => Ok names
  | rawName :: rest =>
      let name := Trim rawName [" "%char; "009"%char] in
      if negb (trailer_name name) then Err (Sentinel ErrInvalidBodyIntegration)
      else trailer_line ({[CanonicalHeaderKey name]} ∪ names) rest
  end.

Fixpoint trailer_lines (names : gset gostring) (values : list gostring) : res (gset gostring) :=
  match values with
  | [] => Ok names
  | value :: rest => let? names := trailer_line names (Split value ",") in trailer_lines names rest
  end.

Definition responseTrailerNames (header : Header) : res (list gostring) :=
  let? (values, present) := protectedFieldValues header "Trailer" in
  let names : gset gostring := list_to_set signing_names in
  let? names := if present : bool then trailer_lines names values else Ok names in
  Ok (sort_by id (elements names)).

(** [clearHTTPHeader]. *)
Definition clearHTTPHeader (header : Header) : Header := ∅.

Definition removeTrailerSigningFields (header : Header) : Header :=
  filter (fun '(name, _) => HasPrefix name TrailerPrefix = false)
    (fold_left deleteHeaderField (signing_names ++ [str "Trailer"]) header).

(** ** Coverage by profiles *)

(** The component [content-digest] with the parameter [tr]. *)
Definition trailer_digest : ComponentIdentifier :=
  mkComponent "content-digest" [mkParam "tr" (ABool true)].

Definition signingProfileCoversTrailerDigest `{Httpsfv} (profile : SigningProfile) : bool :=
  existsb (fun component => comparison_key component =s comparison_key trailer_digest)
    (s_components profile).

Definition protocol_dependent : list gostring :=
  map str ["connection"; "content-length"; "keep-alive"; "proxy-connection"; "te"; "trailer";
    "transfer-encoding"; "upgrade"]%string.

Definition signingProfileCoversProtocolDependentTrailerField (profile : SigningProfile) : bool :=
  existsb (fun component => bool_decide (ComponentName component ∈ protocol_dependent))
    (s_components profile).

Definition verificationProfileCoversTrailerDigest `{Httpsfv} (profile : VerificationProfile) : bool :=
  existsb (fun component => comparison_key component =s comparison_key trailer_digest)
    (v_requiredComponents profile).

(** ** Normalization does not depend on the order of the map *)

(** What the loop needs: valid names with new and different canonical forms. *)
Definition fresh_trailers (entries : list (gostring * list gostring)) (normalized : Header) : Prop :=
  (Forall (fun '(name, _) => trailer_name name = true) entries) /\
  NoDup (map (fun '(name, _) => CanonicalHeaderKey name) entries) /\
  (Forall (fun c => normalized !! c = None) (map (fun '(name, _) => CanonicalHeaderKey name) entries)).

Lemma fresh_trailers_cons k v l normalized :
  fresh_trailers ((k, v) :: l) normalized <->
  trailer_name k = true /\ normalized !! CanonicalHeaderKey k = None /\
  fresh_trailers l (<[CanonicalHeaderKey k := [] ++ v]> normalized).
Proof.
  unfold fresh_trailers. cbn [map]. rewrite list.NoDup_cons, !list.Forall_cons, !list.Forall_forall.
  set (names := map _ l).
  assert ((forall c, c ∈ names -> <[CanonicalHeaderKey k := [] ++ v]> normalized !! c = None) <->
    (CanonicalHeaderKey k ∉ names) /\ forall c, c ∈ names -> normalized !! c = None) as Hnew; [| tauto].
  split.
  - intros H. split.
    + intros Hin. specialize (H _ Hin). by rewrite lookup_insert_eq in H.
    + intros c Hin. specialize (H c Hin). destruct (decide (CanonicalHeaderKey k = c)) as [<- | Hne]; [by rewrite lookup_insert_eq in H |].
      by rewrite lookup_insert_ne in H.
  - intros [Hno H] c Hin. rewrite lookup_insert_ne by (intros Heq; apply Hno; by rewrite Heq). by apply H.
Qed.

Lemma normalize_trailers_cases entries normalized :
  (fresh_trailers entries normalized /\ exists n, normalize_trailers entries normalized = Ok n /\
    forall c v, n !! c = Some v <->
      normalized !! c = Some v \/ exists k, (k, v) ∈ entries /\ CanonicalHeaderKey k = c) \/
  (~ fresh_trailers entries normalized /\ is_Ok (normalize_trailers entries normalized) = false).
Proof.
  revert normalized. induction entries as [| [k v] l IH]; intros normalized; cbn [normalize_trailers].
  { left. split; [by repeat split; constructor |]. exists normalized. split; [done |].
    intros c w. split; [by left |]. intros [? | (k & Hk & _)]; [done | by apply elem_of_nil in Hk]. }
  rewrite fresh_trailers_cons. destruct (trailer_name k) eqn:Hk; cbn [negb]; [| by right; split; [intros [? _] |]].
  destruct (normalized !! CanonicalHeaderKey k) eqn:Hc; cbn [is_nil negb]; [by right; split; [intros (_ & ? & _) |] |].
  destruct (IH (<[CanonicalHeaderKey k := [] ++ v]> normalized)) as [[Hf (n & Hn & Hspec)] | [Hno Herr]];
    [left | right; split; [by intros (_ & _ & ?) | done]].
  split; [done |]. exists n. split; [done |]. intros c w. rewrite Hspec. split.
  - intros [Hl | (k' & Hin & Hk')].
    + destruct (decide (CanonicalHeaderKey k = c)) as [<- | Hne].
      * rewrite lookup_insert_eq in Hl. injection Hl as <-. right. exists k. split; [apply list_elem_of_here | done].
      * rewrite lookup_insert_ne in Hl by done. by left.
    + right. exists k'. split; [by apply list_elem_of_further | done].
  - intros [Hl | (k' & [Heq | Hin]%elem_of_cons & Hk')].
    + left. rewrite lookup_insert_ne; [done |]. intros <-. congruence.
    + injection Heq as -> ->. subst c. left. by rewrite lookup_insert_eq.
    + right. eauto.
Qed.

(** Every key is a valid trailer name and no two have one canonical form. *)
Definition trailer_fields (header : Header) : Prop :=
  (forall k, is_Some (header !! k) -> trailer_name k = true) /\
  forall k k', is_Some (header !! k) -> is_Some (header !! k') ->
    CanonicalHeaderKey k = CanonicalHeaderKey k' -> k = k'.

(** The header under canonical names. *)
Definition canonical_fields (header normalized : Header) : Prop :=
  forall c v, normalized !! c = Some v <-> exists k, header !! k = Some v /\ CanonicalHeaderKey k = c.

(** What the loop needs of its entries, as a property of the header. *)
Lemma entries_trailer_fields header entries :
  entries ≡ₚ map_to_list header ->
  (Forall (fun '(name, _) => trailer_name name = true) entries /\
   NoDup (map (fun '(name, _) => CanonicalHeaderKey name) entries)) <-> trailer_fields header.
Proof.
  intros Hperm.
  assert (forall k v, (k, v) ∈ entries <-> header !! k = Some v) as Hin
    by (intros k v; rewrite Hperm; apply elem_of_map_to_list).
  assert (NoDup entries) as Hnd by (rewrite Hperm; apply NoDup_map_to_list).
  unfold trailer_fields. rewrite list.Forall_forall. apply ZifyClasses.and_morph.
  - split.
    + intros H k [v Hv]. exact (H (k, v) (proj2 (Hin k v) Hv)).
    + intros H [k v] Hv. apply H. exists v. by apply Hin.
  - split.
    + intros H k k' [v Hv] [v' Hv'] Heq. apply Hin in Hv, Hv'.
      apply list_elem_of_lookup in Hv as [i Hi], Hv' as [j Hj].
      assert (i = j) as ->; [| congruence]. eapply NoDup_lookup; [exact H | |].
      * erewrite list_lookup_fmap, Hi. done.
      * erewrite list_lookup_fmap, Hj. cbn. by rewrite Heq.
    + intros H. apply NoDup_fmap_2_strong; [| done]. intros [k v] [k' v'] Hv Hv' Heq.
      apply Hin in Hv, Hv'. assert (k = k') as <- by (apply H; eauto). congruence.
Qed.

Lemma normalize_trailers_perm header entries :
  entries ≡ₚ map_to_list header ->
  (trailer_fields header /\ exists n, normalize_trailers entries ∅ = Ok n /\ canonical_fields header n) \/
  (~ trailer_fields header /\ is_Ok (normalize_trailers entries ∅) = false).
Proof.
  intros Hperm. pose proof (normalize_trailers_cases entries ∅) as H. cbv zeta in H.
  pose proof (entries_trailer_fields header entries Hperm) as Hfields.
  destruct (normalize_trailers_cases entries ∅) as [[(H1 & H2 & _) (n & Hn & Hspec)] | [Hno Herr]].
  - left. split; [by apply Hfields |]. exists n. split; [done |]. intros c v. rewrite Hspec. split.
    + intros [Hl | (k & Hin & Hk)]; [by rewrite lookup_empty in Hl |]. exists k. split; [| done].
      by rewrite Hperm, elem_of_map_to_list in Hin.
    + intros (k & Hl & Hk). right. exists k. split; [| done]. by rewrite Hperm, elem_of_map_to_list.
  - right. split; [| done]. intros [H1 H2]%Hfields. apply Hno. split; [done |]. split; [done |].
    apply list.Forall_forall. intros c _. apply lookup_empty.
Qed.

Lemma canonical_fields_unique header n n' : canonical_fields header n -> canonical_fields header n' -> n = n'.
Proof. intros H H'. apply map_eq. intros c. apply option_eq. intros v. by rewrite (H c v), (H' c v). Qed.

Lemma normalizeTrailerFields_cases header :
  (trailer_fields header /\ exists n, normalizeTrailerFields header = Ok n /\ canonical_fields header n) \/
  (~ trailer_fields header /\ is_Ok (normalizeTrailerFields header) = false).
Proof. by apply normalize_trailers_perm. Qed.

(** C25: normalization of trailers, in any order of the map.  It succeeds exactly
    when every key is a valid trailer name and no two have one canonical
    form, and its result has each field under its canonical name; the order
    in which Go visits the map can only change which error is returned. *)
Theorem normalizeTrailerFields_exact header entries :
  entries ≡ₚ map_to_list header ->
  (trailer_fields header /\ exists n, canonical_fields header n /\
     normalizeTrailerFields header = Ok n /\ normalize_trailers entries ∅ = Ok n) \/
  (~ trailer_fields header /\ is_Ok (normalizeTrailerFields header) = false /\
     is_Ok (normalize_trailers entries ∅) = false).
Proof.
  intros Hperm. destruct (normalizeTrailerFields_cases header) as [[Hf (n & Hn & Hc)] | [Hno Herr]];
    destruct (normalize_trailers_perm header entries Hperm) as [[Hf' (n' & Hn' & Hc')] | [Hno' Herr']]; try done.
  - left. split; [done |]. exists n. rewrite (canonical_fields_unique _ _ _ Hc Hc') in *. done.
  - by right.
Qed.
