(* ===== verification/TrailerBody.v ===== *)
(** * The streaming signing body (body_integration.go, [trailerSigningBody])

    The body that [TrailerSigningRoundTripper] gives to the transport hashes
    what the transport reads and, at the end of the file, has the digests
    signed into the trailers.  The transport reads from one goroutine and may
    close the body from another at any time; the mutex protects the state, but
    not the wrapped body and not the finalization.  The steps below are the
    sections between the lock operations, in any interleaving.  A hash is the
    text written to it: [Sum] is the checksum of that text. *)

From stdpp Require Import relations.
From S2P Require Import Prelude GoStrings Errors Digest DigestFacts BodyReader.
Open Scope Z_scope.

Section Body.
Context `{HA : Hashes}.

Record digestWriter := mkDigestWriter {
  writer_algorithm : DigestAlgorithm;
  writer_text : gostring
}.

Definition newDigestWriter (algorithm : DigestAlgorithm) : res digestWriter :=
  if (algorithm =s SHA256) || (algorithm =s SHA512) then Ok (mkDigestWriter algorithm [])
  else Err (Sentinel ErrUnsupportedDigestAlgorithm).

Definition writer_Write (w : digestWriter) (data : gostring) : digestWriter :=
  mkDigestWriter (writer_algorithm w) (writer_text w ++ data).

(** [writer.hash.Sum(nil)]: the hash is the one [newDigestWriter] chose. *)
Definition writer_Sum (w : digestWriter) : gostring :=
  match checksum (writer_algorithm w) (writer_text w) with Ok v => v | Err _ => [] end.

(** What the mutex protects. *)
Record trailerSigningBody := mkTrailerBody {
  written : Z;
  writers : list digestWriter;
  terminal : bool;
  eofObserved : bool;
  result_err : option error
}.

Definition newTrailerBody (ws : list digestWriter) : trailerSigningBody :=
  mkTrailerBody 0 ws false false None.

Definition completeLocked (body : trailerSigningBody) (result : option error) : trailerSigningBody :=
  if terminal body then body
  else mkTrailerBody (written body) (writers body) true (eofObserved body) result.

Definition accept (body : trailerSigningBody) (data : gostring) : trailerSigningBody :=
  mkTrailerBody (written body + len data) (map (fun w => writer_Write w data) (writers body))
    (terminal body) (eofObserved body) (result_err body).

Definition observe_eof (body : trailerSigningBody) : trailerSigningBody :=
  mkTrailerBody (written body) (writers body) (terminal body) true (result_err body).

(** The digests of the writers, sorted by algorithm. *)
Definition writers_digests (ws : list digestWriter) : DigestField :=
  sort_by DigestAlgorithmKey (map (fun w => mkDigest (writer_algorithm w) (writer_Sum w) []) ws).

Definition digest_field (body : trailerSigningBody) : DigestField := writers_digests (writers body).

(** What a section of [Read] leads to: a return of some bytes and an error, or
    the finalization with the bytes still to be returned. *)
Inductive read_next :=
| Return (data : gostring) (err : option error)
| Finalize (data : gostring) (field : DigestField).

(** The result of a terminal body: its error, or the end of the file. *)
Definition terminal_error (body : trailerSigningBody) : error :=
  default (Sentinel EOF) (result_err body).

(** The locked section of [Read] after the call of the wrapped [Read]. *)
Definition read_locked (maxBytes : Z) (body : trailerSigningBody) (data : gostring)
  (err : option error) : trailerSigningBody * read_next :=
  let refuse body e := (completeLocked body (Some e), Return [] (Some e)) in
  if terminal body then (body, Return [] (Some (terminal_error body)))
  else if maxBytes - written body <? len data then refuse body (Sentinel ErrBodyTooLarge)
  else if (len data =? 0) && is_nil err then refuse body (Sentinel ErrBodyRead)
  else
    let body := accept body data in
    match err with
    | None => (body, Return data None)
    | Some err =>
        if errors_Is err EOF
        then let body := observe_eof body in (body, Finalize data (digest_field body))
        else (completeLocked body (Some (Sentinel ErrBodyRead)),
              Return data (Some (Sentinel ErrBodyRead)))
    end.

(** [Close]: [close_err] is what the wrapped [Close] returned, once. *)
Definition close_locked (body : trailerSigningBody) (close_err : option error) : trailerSigningBody :=
  if negb (is_nil close_err) || negb (eofObserved body)
  then completeLocked body (Some (Sentinel ErrBodyRead)) else body.

(** ** Goroutines *)

(** Where the reading goroutine stands. *)
Inductive read_point :=
| Idle
| Checked
| Failing (err : error)
| InBody
| Finalizing (data : gostring) (field : DigestField).

(** The body, the reader, what [Read] has returned, and the calls of
    [finalize] with their results. *)
Record stream := mkStream {
  body : trailerSigningBody;
  point : read_point;
  returned : list (gostring * option error);
  finalized : list (DigestField * option error)
}.

Definition delivered (c : stream) : gostring := concat (map fst (returned c)).

Definition at_point (c : stream) (b : trailerSigningBody) (p : read_point) : stream :=
  mkStream b p (returned c) (finalized c).

Definition returns (c : stream) (b : trailerSigningBody) (data : gostring) (err : option error)
  : stream :=
  mkStream b Idle (returned c ++ [(data, err)]) (finalized c).

(** The environment chooses the context's error, what the wrapped [Read]
    returns, what [finalize] returns and when [Close] is called. *)
Inductive step (maxBytes : Z) (close_err : option error) : stream -> stream -> Prop :=
| step_ended c :
    point c = Idle -> terminal (body c) = true ->
    step maxBytes close_err c (returns c (body c) [] (Some (terminal_error (body c))))
| step_check c :
    point c = Idle -> terminal (body c) = false ->
    step maxBytes close_err c (at_point c (body c) Checked)
| step_context c err :
    point c = Checked -> step maxBytes close_err c (at_point c (body c) (Failing err))
| step_call c :
    point c = Checked -> step maxBytes close_err c (at_point c (body c) InBody)
| step_out_of_range c :
    point c = InBody ->
    step maxBytes close_err c (at_point c (body c) (Failing (Sentinel ErrBodyRead)))
| step_fail c err :
    point c = Failing err ->
    step maxBytes close_err c (returns c (completeLocked (body c) (Some err)) [] (Some err))
| step_return c data err b data' err' :
    point c = InBody -> read_locked maxBytes (body c) data err = (b, Return data' err') ->
    step maxBytes close_err c (returns c b data' err')
| step_eof c data err b data' field :
    point c = InBody -> read_locked maxBytes (body c) data err = (b, Finalize data' field) ->
    step maxBytes close_err c (at_point c b (Finalizing data' field))
| step_finalize c data field err :
    point c = Finalizing data field ->
    step maxBytes close_err c
      (mkStream (completeLocked (body c) err) Idle
         (returned c ++ [(data, Some (default (Sentinel EOF) err))]) (finalized c ++ [(field, err)]))
| step_close c :
    step maxBytes close_err c (at_point c (close_locked (body c) close_err) (point c)).

Definition opened (ws : list digestWriter) : stream := mkStream (newTrailerBody ws) Idle [] [].

(** The writers of [TrailerSigningRoundTripper.RoundTrip]. *)
Fixpoint new_writers (algorithms : list DigestAlgorithm) : res (list digestWriter) :=
  match algorithms with
  | [] => Ok []
  | a :: rest => let? w := newDigestWriter a in let? ws := new_writers rest in Ok (w :: ws)
  end.

Definition reachable (maxBytes : Z) (close_err : option error) (algorithms : list DigestAlgorithm)
  (c : stream) : Prop :=
  exists ws, new_writers algorithms = Ok ws /\ rtc (step maxBytes close_err) (opened ws) c.

(** ** The invariant *)

(** Bytes accepted from the wrapped body and not yet returned. *)
Definition pending (c : stream) : gostring :=
  match point c with Finalizing data _ => data | _ => [] end.

Record stream_inv (maxBytes : Z) (algorithms : list DigestAlgorithm) (c : stream) : Prop := {
  inv_text : Forall (fun w => writer_text w = delivered c ++ pending c) (writers (body c));
  inv_algorithms : map writer_algorithm (writers (body c)) = algorithms;
  inv_written : written (body c) = len (delivered c ++ pending c) /\ written (body c) <= maxBytes;
  inv_phase :
    match point c with
    | Finalizing _ field => finalized c = [] /\ eofObserved (body c) = true /\ field = digest_field (body c)
    | _ => True
    end;
  inv_open : finalized c = [] -> terminal (body c) = true -> result_err (body c) <> None;
  inv_done : finalized c <> [] -> point c = Idle /\ terminal (body c) = true /\
    exists err, finalized c = [(digest_field (body c), err)] /\ (result_err (body c) = None -> err = None)
}.

Lemma completeLocked_same b e :
  written (completeLocked b e) = written b /\ writers (completeLocked b e) = writers b /\
  eofObserved (completeLocked b e) = eofObserved b /\ terminal (completeLocked b e) = true /\
  result_err (completeLocked b e) = (if terminal b then result_err b else e).
Proof. unfold completeLocked. by destruct (terminal b) eqn:Ht. Qed.

Lemma delivered_returns c b data err : delivered (returns c b data err) = delivered c ++ data.
Proof. unfold delivered, returns. cbn [returned]. rewrite map_app, concat_app. cbn [map concat fst]. by rewrite app_nil_r. Qed.

(** A step that ends the read without bytes, or only completes the body. *)
Lemma complete_inv maxBytes algorithms c e p :
  stream_inv maxBytes algorithms c -> p = point c \/ (p = Idle /\ pending c = []) ->
  stream_inv maxBytes algorithms (at_point c (completeLocked (body c) (Some e)) p).
Proof.
  intros [Ht Ha Hw Hp Ho Hd] Hpoint.
  destruct (completeLocked_same (body c) (Some e)) as (E1 & E2 & E3 & E4 & E5).
  assert (pending (at_point c (completeLocked (body c) (Some e)) p) = pending c) as Hpend.
  { destruct Hpoint as [-> | [-> Hnil]]; [done | by rewrite Hnil]. }
  assert (digest_field (completeLocked (body c) (Some e)) = digest_field (body c)) as Hfield
    by (unfold digest_field; by rewrite E2).
  split; rewrite ?Hpend; cbn [at_point body point finalized]; rewrite ?E1, ?E2, ?E3, ?E4, ?E5, ?Hfield.
  - exact Ht.
  - exact Ha.
  - exact Hw.
  - destruct Hpoint as [-> | [-> _]]; [exact Hp | done].
  - intros Hf _. destruct (terminal (body c)) eqn:Hterm; [by apply Ho | done].
  - intros Hf. destruct (Hd Hf) as (Hidle & Hterm & err & Hfin & Hres). rewrite Hterm.
    split; [destruct Hpoint as [-> | [-> _]]; done |]. split; [done |]. by exists err.
Qed.

(** Moving the reader without touching the body, before the finalization. *)
Lemma move_inv maxBytes algorithms c p :
  stream_inv maxBytes algorithms c -> finalized c = [] \/ p = Idle -> pending c = [] ->
  match p with Finalizing _ _ => False | _ => True end ->
  stream_inv maxBytes algorithms (at_point c (body c) p).
Proof.
  intros [Ht Ha Hw Hp Ho Hd] Hfin Hpend Hnot.
  assert (pending (at_point c (body c) p) = pending c) as Hsame by (rewrite Hpend; by destruct p).
  split; rewrite ?Hsame; cbn [at_point body point finalized]; [done | done | done | by destruct p | done |].
  intros Hf. destruct Hfin as [Hnil | ->]; [done |]. destruct (Hd Hf) as (_ & ?). done.
Qed.

(** Returning from a read without bytes. *)
Lemma return_inv maxBytes algorithms c err :
  stream_inv maxBytes algorithms c -> pending c = [] ->
  stream_inv maxBytes algorithms (returns c (body c) [] err).
Proof.
  intros Hinv Hpend. apply (move_inv _ _ _ Idle) in Hinv; [| by right | done | done].
  destruct Hinv as [Ht Ha Hw Hp Ho Hd].
  assert (delivered (returns c (body c) [] err) = delivered c) as Hdel
    by (by rewrite delivered_returns, app_nil_r).
  split; [| exact Ha | | exact Hp | exact Ho | exact Hd].
  - rewrite Hdel. exact Ht.
  - rewrite Hdel. exact Hw.
Qed.

Lemma accept_text b data text :
  Forall (fun w => writer_text w = text) (writers b) ->
  Forall (fun w => writer_text w = text ++ data) (writers (accept b data)) /\
  map writer_algorithm (writers (accept b data)) = map writer_algorithm (writers b).
Proof.
  intros Ht. cbn [writers accept]. split.
  - apply List.Forall_map. revert Ht. apply List.Forall_impl. intros w Hw. cbn. by rewrite Hw.
  - rewrite map_map. done.
Qed.

Lemma not_finalized maxBytes algorithms c :
  stream_inv maxBytes algorithms c -> point c <> Idle \/ terminal (body c) = false -> finalized c = [].
Proof.
  intros Hinv Hcase. destruct (finalized c) eqn:Hf; [done |].
  destruct (inv_done _ _ _ Hinv) as (Hidle & Hterm & _); [by rewrite Hf |].
  destruct Hcase; congruence.
Qed.

(** Bytes accepted into the body, with the reader at [p]. *)
Lemma accept_inv maxBytes algorithms c data :
  stream_inv maxBytes algorithms c -> point c = InBody -> terminal (body c) = false ->
  len data <= maxBytes - written (body c) ->
  (forall err, stream_inv maxBytes algorithms (returns c (accept (body c) data) data err)) /\
  stream_inv maxBytes algorithms
    (at_point c (observe_eof (accept (body c) data))
       (Finalizing data (digest_field (observe_eof (accept (body c) data))))).
Proof.
  intros Hinv Hp Hterm Hlen. pose proof (not_finalized _ _ _ Hinv) as Hfin.
  specialize (Hfin ltac:(right; done)). destruct Hinv as [Ht Ha [Hw Hmax] _ _ _].
  unfold pending in Ht, Hw. rewrite Hp, app_nil_r in Ht, Hw.
  destruct (accept_text (body c) data _ Ht) as [Ht' Ha'].
  assert (written (accept (body c) data) = len (delivered c ++ data)) as Hw'.
  { cbn [written accept]. by rewrite Hw, len_app. }
  assert (written (accept (body c) data) <= maxBytes) by (cbn [written accept]; lia).
  split; [intros err |]; split; cbn [returns at_point body point finalized pending]; try done.
  - rewrite delivered_returns. unfold pending. cbn [point returns]. by rewrite app_nil_r.
  - by rewrite Ha'.
  - rewrite delivered_returns. unfold pending. cbn [point returns]. by rewrite app_nil_r.
  - intros _ Hx. cbn in Hx. congruence.
  - by rewrite <- Ha.
  - intros _ Hx. cbn in Hx. congruence.
Qed.

Lemma read_inv maxBytes algorithms c data err b next :
  stream_inv maxBytes algorithms c -> point c = InBody ->
  read_locked maxBytes (body c) data err = (b, next) ->
  match next with
  | Return data' err' => stream_inv maxBytes algorithms (returns c b data' err')
  | Finalize data' field => stream_inv maxBytes algorithms (at_point c b (Finalizing data' field))
  end.
Proof.
  intros Hinv Hp. assert (pending c = []) as Hpend by (unfold pending; by rewrite Hp).
  assert (forall e, stream_inv maxBytes algorithms
    (returns c (completeLocked (body c) (Some e)) [] (Some e))) as Hrefuse.
  { intros e. apply (complete_inv _ _ _ e Idle) in Hinv; [| by right].
    apply (return_inv _ _ _ (Some e)) in Hinv; [exact Hinv | done]. }
  unfold read_locked. destruct (terminal (body c)) eqn:Hterm.
  { intros [= <- <-]. by apply return_inv. }
  destruct (maxBytes - written (body c) <? len data) eqn:Hlen; [intros [= <- <-]; apply Hrefuse |].
  destruct ((len data =? 0) && is_nil err); [intros [= <- <-]; apply Hrefuse |].
  destruct (accept_inv maxBytes algorithms c data Hinv Hp Hterm ltac:(lia)) as [Hret Heof].
  destruct err as [e |]; [| intros [= <- <-]; apply Hret].
  destruct (errors_Is e EOF); intros [= <- <-]; [exact Heof |].
  specialize (Hret (Some (Sentinel ErrBodyRead))).
  apply (complete_inv _ _ _ ErrBodyRead Idle) in Hret; [| by left]. exact Hret.
Qed.

Lemma step_inv maxBytes close_err algorithms c c' :
  stream_inv maxBytes algorithms c -> step maxBytes close_err c c' -> stream_inv maxBytes algorithms c'.
Proof.
  intros Hinv Hstep.
  destruct Hstep as [c Hp Hterm | c Hp Hterm | c err Hp | c Hp | c Hp | c err Hp | c data err b data' err' Hp Hr
    | c data err b data' field Hp Hr | c data field err Hp | c];
    try (assert (pending c = []) as Hpend by (unfold pending; by rewrite Hp)).
  - by apply return_inv.
  - apply move_inv; try done. left. apply (not_finalized _ _ _ Hinv). by right.
  - apply move_inv; try done. left. apply (not_finalized _ _ _ Hinv). left. congruence.
  - apply move_inv; try done. left. apply (not_finalized _ _ _ Hinv). left. congruence.
  - apply move_inv; try done. left. apply (not_finalized _ _ _ Hinv). left. congruence.
  - apply (complete_inv _ _ _ err Idle) in Hinv; [| by right].
    by apply (return_inv _ _ _ (Some err)) in Hinv.
  - by apply (read_inv _ _ _ _ _ _ _ Hinv) in Hr.
  - by apply (read_inv _ _ _ _ _ _ _ Hinv) in Hr.
  - assert (finalized c = []) as Hfin.
    { apply (not_finalized _ _ _ Hinv). left. congruence. }
    destruct Hinv as [Ht Ha Hw Hph Ho _]. unfold pending in Ht, Hw. rewrite Hp in Ht, Hw, Hph.
    destruct Hph as (_ & _ & ->). destruct (completeLocked_same (body c) err) as (E1 & E2 & _ & E4 & E5).
    assert (digest_field (completeLocked (body c) err) = digest_field (body c)) as Hfield
      by (unfold digest_field; by rewrite E2).
    set (c' := mkStream _ _ _ _).
    assert (delivered c' ++ pending c' = delivered c ++ data) as Hdel.
    { unfold pending. cbn [point c']. rewrite app_nil_r.
      exact (delivered_returns c (body c) data (Some (default (Sentinel EOF) err))). }
    split; rewrite ?Hdel; cbn [c' body point finalized]; rewrite ?E1, ?E2, ?E4, ?E5, ?Hfield, ?Hfin; try done.
    intros _. split; [done |]. split; [done |]. exists err. split; [done |]. intros Hres.
    destruct (terminal (body c)) eqn:Hterm; [by destruct (Ho Hfin eq_refl) | done].
  - unfold close_locked. destruct (_ || _).
    + apply complete_inv; [done | by left].
    + by destruct c.
Qed.

Lemma new_writers_Ok algorithms ws :
  new_writers algorithms = Ok ws ->
  map writer_algorithm ws = algorithms /\ Forall (fun w => writer_text w = []) ws.
Proof.
  revert ws. induction algorithms as [| a l IH]; intros ws; cbn [new_writers]; [by intros [= <-] |].
  unfold newDigestWriter. destruct (_ || _); [| done].
  intros (w & [= <-] & (ws' & Hws & [= <-])%rbind_Ok)%rbind_Ok. destruct (IH _ Hws) as [<- Hf].
  split; [done | by constructor].
Qed.

Lemma stream_reachable_inv maxBytes close_err algorithms c :
  0 <= maxBytes -> reachable maxBytes close_err algorithms c -> stream_inv maxBytes algorithms c.
Proof.
  intros Hmax (ws & Hws & Hr). destruct (new_writers_Ok _ _ Hws) as [Ha Ht].
  assert (stream_inv maxBytes algorithms (opened ws)) as H0 by (split; done).
  revert H0. induction Hr as [c | c c1 c2 Hstep _ IH]; [done |].
  intros Hinv. apply IH. by eapply step_inv.
Qed.

(** ** The digests *)

Lemma compute_loop_writers content seen ws :
  Forall (fun w => writer_text w = content) ws ->
  is_Ok (compute_loop [] seen (map writer_algorithm ws)) = true ->
  compute_loop content seen (map writer_algorithm ws) =
    Ok (map (fun w => mkDigest (writer_algorithm w) (writer_Sum w) []) ws).
Proof.
  intros Ht. revert seen. induction Ht as [| w ws Hw _ IH]; intros seen; [done |].
  cbn [map compute_loop]. case_bool_decide; [done |]. unfold writer_Sum at 1. rewrite Hw.
  destruct (checksum (writer_algorithm w) content) as [v |] eqn:Hc; cbn [rbind].
  - intros Hok. rewrite IH; [done |]. destruct (checksum _ []); [| done]. cbn [rbind] in Hok.
    by destruct (compute_loop [] _ _).
  - unfold checksum in *. by repeat case_match.
Qed.

Lemma ComputeDigests_writers ws algorithms content :
  is_Ok (ComputeDigests algorithms []) = true -> map writer_algorithm ws = algorithms ->
  Forall (fun w => writer_text w = content) ws ->
  ComputeDigests algorithms content = Ok (writers_digests ws).
Proof.
  unfold ComputeDigests. intros Hok <- Ht. destruct (len _ =? 0); [done |].
  rewrite (compute_loop_writers content ∅ ws Ht); [done |].
  by destruct (compute_loop [] ∅ _).
Qed.

Lemma step_result maxBytes close_err c c' :
  step maxBytes close_err c c' -> terminal (body c) = true ->
  terminal (body c') = true /\ result_err (body c') = result_err (body c).
Proof.
  intros Hstep Hterm.
  assert (forall e, completeLocked (body c) e = body c) as Hsame by (intros e; unfold completeLocked; by rewrite Hterm).
  destruct Hstep as [| | | | | | c data err b data' err' Hp Hr | c data err b data' field Hp Hr | |];
    cbn [returns at_point body]; rewrite ?Hsame; try done.
  - unfold read_locked in Hr. rewrite Hterm in Hr. by injection Hr as <- _ _.
  - unfold read_locked in Hr. by rewrite Hterm in Hr.
  - unfold close_locked. destruct (_ || _); by rewrite ?Hsame.
Qed.

Lemma trailer_digest_cases maxBytes close_err algorithms c :
  is_Ok (ComputeDigests algorithms []) = true -> 0 <= maxBytes ->
  reachable maxBytes close_err algorithms c ->
  len (delivered c) <= maxBytes /\
  (finalized c = [] \/ exists field err, finalized c = [(field, err)] /\
     ComputeDigests algorithms (delivered c) = Ok field) /\
  (terminal (body c) = true -> result_err (body c) = None ->
     exists field, finalized c = [(field, None)] /\
       forall c', rtc (step maxBytes close_err) c c' ->
         result_err (body c') = None /\ finalized c' = finalized c /\ delivered c' = delivered c).
Proof.
  intros Hok Hmax Hreach. pose proof (stream_reachable_inv _ _ _ _ Hmax Hreach) as Hinv.
  assert (forall c, stream_inv maxBytes algorithms c -> finalized c <> [] ->
    exists err, finalized c = [(digest_field (body c), err)] /\ (result_err (body c) = None -> err = None) /\
      ComputeDigests algorithms (delivered c) = Ok (digest_field (body c))) as Hfin.
  { intros c0 H0 Hne. destruct (inv_done _ _ _ H0 Hne) as (Hidle & _ & err & Hf & Hr).
    exists err. split; [done |]. split; [done |]. apply ComputeDigests_writers; [done | apply H0 |].
    pose proof (inv_text _ _ _ H0) as Ht. unfold pending in Ht. by rewrite Hidle, app_nil_r in Ht. }
  split; [| split].
  - destruct (inv_written _ _ _ Hinv) as [Hw Hle]. rewrite len_app in Hw.
    pose proof (len_nonneg (pending c)). lia.
  - destruct (decide (finalized c = [])) as [? | Hne]; [by left | right].
    destruct (Hfin c Hinv Hne) as (err & ? & _ & ?). eauto.
  - intros Hterm Hres. assert (finalized c <> []) as Hne.
    { intros Hnil. by destruct (inv_open _ _ _ Hinv Hnil Hterm). }
    destruct (Hfin c Hinv Hne) as (err & Hf & Herr & _). rewrite (Herr Hres) in Hf.
    eexists. split; [exact Hf |]. clear Hreach Hfin Herr Hf err. intros c' Hr.
    induction Hr as [c | c c1 c2 Hstep _ IH]; [done |].
    destruct (step_result _ _ _ _ Hstep Hterm) as [Hterm1 Hres1].
    pose proof (step_inv _ _ _ _ _ Hinv Hstep) as Hinv1.
    assert (point c = Idle) as Hidle by apply (inv_done _ _ _ Hinv Hne).
    assert (finalized c1 = finalized c /\ delivered c1 = delivered c) as [Hf1 Hd1].
    { destruct Hstep; try congruence; [| done]. split; [done |].
      by rewrite delivered_returns, app_nil_r. }
    rewrite Hres in Hres1. rewrite <- Hf1 in Hne.
    destruct (IH Hinv1 Hterm1 Hres1 Hne) as (? & -> & ->). done.
Qed.

(** C13: the trailers sign what was sent.  However the reads of the transport and
    the calls of [Close] interleave, the bytes returned stay within the limit,
    the finalization runs at most once, and its digests are those of exactly
    the bytes returned up to and including the last read.  A body that has
    completed without error - the condition for the response to be released -
    was finalized without error, and it stays as it is. *)
Theorem trailer_digest_of_delivered maxBytes close_err algorithms c :
  is_Ok (ComputeDigests algorithms []) = true -> 0 <= maxBytes ->
  reachable maxBytes close_err algorithms c ->
  len (delivered c) <= maxBytes /\
  (finalized c = [] \/ exists field err, finalized c = [(field, err)] /\
     ComputeDigests algorithms (delivered c) = Ok field) /\
  (terminal (body c) = true -> result_err (body c) = None ->
     exists field, finalized c = [(field, None)] /\
       forall c', rtc (step maxBytes close_err) c c' ->
         result_err (body c') = None /\ finalized c' = finalized c /\ delivered c' = delivered c).
Proof. apply trailer_digest_cases. Qed.

(** ** Executable schedules *)

(** The choices of the environment. *)
Inductive choice :=
| Enter
| CheckContext (err : option error)
| WrappedRead (result : read_result)
| ReturnFailure
| Finalization (err : option error)
| Close.

Definition advance (maxBytes : Z) (close_err : option error) (c : stream) (e : choice) : option stream :=
  match e, point c with
  | Enter, Idle =>
      Some (if terminal (body c) then returns c (body c) [] (Some (terminal_error (body c)))
            else at_point c (body c) Checked)
  | CheckContext (Some err), Checked => Some (at_point c (body c) (Failing err))
  | CheckContext None, Checked => Some (at_point c (body c) InBody)
  | WrappedRead (ReadOutOfRange _), InBody =>
      Some (at_point c (body c) (Failing (Sentinel ErrBodyRead)))
  | WrappedRead (Read data err), InBody =>
      Some (match read_locked maxBytes (body c) data err with
            | (b, Return data' err') => returns c b data' err'
            | (b, Finalize data' field) => at_point c b (Finalizing data' field)
            end)
  | ReturnFailure, Failing err => Some (returns c (completeLocked (body c) (Some err)) [] (Some err))
  | Finalization err, Finalizing data field =>
      Some (mkStream (completeLocked (body c) err) Idle
              (returned c ++ [(data, Some (default (Sentinel EOF) err))]) (finalized c ++ [(field, err)]))
  | Close, _ => Some (at_point c (close_locked (body c) close_err) (point c))
  | _, _ => None
  end.

Fixpoint schedule (maxBytes : Z) (close_err : option error) (c : stream) (l : list choice)
  : option stream :=
  match l with
  | [] => Some c
  | e :: rest => c ← advance maxBytes close_err c e; schedule maxBytes close_err c rest
  end.

Lemma advance_sound maxBytes close_err c e c' :
  advance maxBytes close_err c e = Some c' -> step maxBytes close_err c c'.
Proof.
  destruct e as [| err | r | | err |]; cbn [advance].
  - destruct (point c) eqn:Hp; try done. intros [= <-].
    destruct (terminal (body c)) eqn:Ht; by constructor.
  - destruct err, (point c) eqn:Hp; try done; intros [= <-]; by constructor.
  - destruct r as [data err | err], (point c) eqn:Hp; try done; intros [= <-].
    + destruct (read_locked maxBytes (body c) data err) as [b [d e | d f]] eqn:Hr;
        [by eapply step_return | by eapply step_eof].
    + by constructor.
  - destruct (point c) eqn:Hp; try done. intros [= <-]. by constructor.
  - destruct (point c) eqn:Hp; try done. intros [= <-]. by constructor.
  - intros [= <-]. constructor.
Qed.

Lemma schedule_reachable maxBytes close_err algorithms ws l c :
  new_writers algorithms = Ok ws -> schedule maxBytes close_err (opened ws) l = Some c ->
  reachable maxBytes close_err algorithms c.
Proof.
  intros Hws Hl. exists ws. split; [done |]. clear Hws. revert Hl. generalize (opened ws).
  induction l as [| e l IH]; intros c0; cbn [schedule]; [by intros [= ->] |].
  intros (c1 & H1%advance_sound & H)%bind_Some. by apply (rtc_l _ _ c1); [| apply IH].
Qed.
End Body.
