(* ===== verification/TrailerSigning.v ===== *)
(** * Streaming request signing (body_integration.go 249-416)

    [TrailerSigningRoundTripper] gives the transport a clone of the request
    whose body hashes what is read and, at its end, signs the digests into the
    clone's trailers.  What the wrapped transport does with that body is a
    list of choices that the body of [TrailerBody] executes, with the
    finalization of this file. *)

From S2P Require Import Prelude GoStrings Errors Httpsfv StructuredFieldSafe SignatureFields.
From S2P Require Import HttpTypes GoTime Digest Algorithm Signer HttpFields BodyReader HttpIntegration.
From S2P Require Import BodyDigest TrailerFields TrailerBody.
Open Scope Z_scope.

Section Streaming.
Context `{SFV : Httpsfv} `{UC : UnicodeCase} `{NU : NetURL} `{CR : Crypto} `{HS : Hashes}.

Record TrailerSigningRoundTripperConfig := mkTrailerSigningConfig {
  tsc_has_transport : bool;
  tsc_signer : option (option SigningProfile);
  tsc_label : gostring;
  tsc_algorithms : list DigestAlgorithm;
  tsc_maxBytes : Z;
  tsc_options : option (Request -> res SigningOptions);
  tsc_externalContext : option (Request -> res (option ExternalRequestContext))
}.

Record TrailerSigningRoundTripper := mkTrailerSigning {
  ts_signer : option SigningProfile;
  ts_label : gostring;
  ts_algorithms : list DigestAlgorithm;
  ts_maxBytes : Z;
  ts_options : Request -> res SigningOptions;
  ts_externalContext : option (Request -> res (option ExternalRequestContext))
}.

(** A profile whose signatures can be put into trailers. *)
Definition trailer_profile (profile : SigningProfile) : bool :=
  signingProfileCoversTrailerDigest profile &&
  negb (signingProfileCoversProtocolDependentTrailerField profile).

Definition NewTrailerSigningRoundTripper (config : TrailerSigningRoundTripperConfig)
  : res TrailerSigningRoundTripper :=
  match tsc_has_transport config, tsc_signer config, tsc_options config with
  | true, Some (Some profile), Some options =>
      if negb (validSignatureLabel (tsc_label config)) || (tsc_maxBytes config <=? 0) ||
         negb (trailer_profile profile)
      then Err (Sentinel ErrInvalidBodyIntegration)
      else
        match ComputeDigests (tsc_algorithms config) [] with
        | Err _ => Err (Sentinel ErrInvalidBodyIntegration)
        | Ok _ =>
            Ok (mkTrailerSigning (Some profile) (tsc_label config) ([] ++ tsc_algorithms config)
                  (tsc_maxBytes config) options (tsc_externalContext config))
        end
  | _, _, _ => Err (Sentinel ErrInvalidBodyIntegration)
  end.

(** The clone with its announced trailers, and the names of the others.
    [fresh] is the clone, [fresh + 1] its body. *)
Definition prepare_stream (fresh : nat) (request : Request) : res (Request * gset gostring) :=
  if bool_decide (RequestBody request = BodyNil) || (Method request =s "CONNECT")
  then Err (Sentinel ErrInvalidBodyIntegration)
  else
    let? clone := normalizeProtectedRequest fresh request in
    let? trailer := normalizeTrailerFields (RequestTrailer clone) in
    if hasSignatureOrDigestFields (RequestHeader clone) || hasSignatureOrDigestFields trailer
    then Err (Sentinel ErrExistingSignatures)
    else
      let announced :=
        <[str "Signature" := []]> (<[str "Signature-Input" := []]>
          (<[str "Content-Digest" := []]> trailer)) in
      Ok (update_request fresh clone (delete_framing (RequestHeader clone)) announced
            (BodyReader (fresh + 1)) (-1) [str "chunked"],
          applicationTrailerNames trailer).

Definition with_trailer (clone : Request) (trailer : Header) : Request :=
  clone_request (RequestPtr clone) clone (RequestHeader clone) trailer.

(** [finalize]: the clone's trailers after it and its error.  [late] is the
    caller's request at the end of its body. *)
Definition finalize_stream (transport : TrailerSigningRoundTripper) (obs : SigningObservation)
  (clone : Request) (declared : gset gostring) (late : Request) (digests : DigestField)
  : option (Header * option error) :=
  match normalizeTrailerFields (RequestTrailer late) with
  | Err err => Some (RequestTrailer clone, Some err)
  | Ok trailers =>
      if hasSignatureOrDigestFields trailers
      then Some (RequestTrailer clone, Some (Sentinel ErrExistingSignatures))
      else if negb (sameTrailerNames declared (applicationTrailerNames trailers))
      then Some (RequestTrailer clone, Some (Sentinel ErrInvalidBodyIntegration))
      else
        field ← DigestField_String digests;
        let trailer := Header_Set trailers "Content-Digest" field in
        match ts_options transport late with
        | Err _ => Some (trailer, Some (Sentinel ErrHTTPIntegrationSigning))
        | Ok options =>
        match external_of (ts_externalContext transport) late with
        | Err _ => Some (trailer, Some (Sentinel ErrHTTPIntegrationSigning))
        | Ok external =>
            signed ← Signer_Sign (ts_signer transport) obs
                       (request_message (with_trailer clone trailer) external)
                       (ts_label transport) options;
            match signed with
            | Err _ => Some (trailer, Some (Sentinel ErrHTTPIntegrationSigning))
            | Ok signed =>
                inputField ← SignatureInputField signed;
                signatureField ← SignatureField signed;
                Some (Header_Set (Header_Set trailer "Signature-Input" inputField)
                        "Signature" signatureField, None)
            end
        end
        end
  end.

(** The body under the choices of the transport; the finalization is ours.
    [None] is a choice that the body does not have, or a panic. *)
Fixpoint run_stream (finalize : DigestField -> option (option error)) (maxBytes : Z)
  (close_err : option error) (c : stream) (choices : list choice) : option stream :=
  match choices with
  | [] => Some c
  | e :: rest =>
      e ← match e, point c with
          | Finalization _, Finalizing _ field => err ← finalize field; Some (Finalization err)
          | _, _ => Some e
          end;
      c ← advance maxBytes close_err c e;
      run_stream finalize maxBytes close_err c rest
  end.

(** What the environment does: the signer's observation, the choices on the
    body, the wrapped [Close], the request at the end of the body, and what
    the wrapped transport returns. *)
Record stream_run := mkStreamRun {
  run_signing : SigningObservation;
  run_choices : list choice;
  run_close_err : option error;
  run_late : Request;
  run_response : option Response;
  run_err : option error
}.

(** A refusal before the transport with the calls of [Close] on the caller's
    body; the transport's own error; the released response with the trailers
    that were sent; or an error after it, with the calls of [Close] on the
    response's body and whether the unfinished body is closed. *)
Inductive streaming :=
| StreamRefused (err : error) (closed : nat)
| StreamUpstream (response : option Response) (err : error)
| StreamReleased (response : Response) (final : stream)
| StreamAborted (err : error) (closed : nat) (body_closed : bool).

Definition closeResponseBody (response : option Response) : nat :=
  match response with Some response => closes (ResponseBody response) | None => 0 end.

Definition conclude (run : stream_run) (final : stream) : streaming :=
  match run_err run, run_response run with
  | Some err, response => StreamUpstream response err
  | None, None => StreamAborted (Sentinel ErrInvalidBodyIntegration) 0 true
  | None, Some response =>
      if terminal (body final) then
        match result_err (body final) with
        | Some err => StreamAborted err (closeResponseBody (Some response)) false
        | None => StreamReleased response final
        end
      else StreamAborted (Sentinel ErrBodyRead) (closeResponseBody (Some response)) true
  end.

(** The error of a finalization. *)
Definition finalize_error (transport : TrailerSigningRoundTripper) (run : stream_run)
  (clone : Request) (declared : gset gostring) (digests : DigestField) : option (option error) :=
  snd <$> finalize_stream transport (run_signing run) clone declared (run_late run) digests.

Definition TrailerSigning_RoundTrip (transport : option TrailerSigningRoundTripper) (fresh : nat)
  (run : stream_run) (request : option Request) : option streaming :=
  match transport, request with
  | Some transport, Some request =>
      let refuse err := Some (StreamRefused err (closeRequestBody (Some request))) in
      match prepare_stream fresh request with
      | Err err => refuse err
      | Ok (clone, declared) =>
      match new_writers (ts_algorithms transport) with
      | Err _ => refuse (Sentinel ErrInvalidBodyIntegration)
      | Ok ws =>
          final ← run_stream (finalize_error transport run clone declared) (ts_maxBytes transport)
                    (run_close_err run) (opened ws) (run_choices run);
          Some (conclude run final)
      end
      end
  | _, request =>
      Some (StreamRefused (Sentinel ErrInvalidBodyIntegration) (closeRequestBody request))
  end.
End Streaming.
