(* ===== verification/TrailerSigningFacts.v ===== *)
(** * What the streaming signing transport releases

    A response is released only when the body that was sent has been finalized:
    its trailers carry the digests of exactly the bytes sent and a signature
    over them. *)

From stdpp Require Import relations.
From S2P Require Import Prelude GoStrings Errors Httpsfv StructuredFieldSafe SignatureFields.
From S2P Require Import HttpTypes GoTime Digest DigestFacts Algorithm Signer SignerFacts HttpFields BodyReader.
From S2P Require Import HttpIntegration HttpFacts BodyDigest TrailerFields TrailerBody TrailerSigning.
Open Scope Z_scope.

Section Streaming.
Context `{SFV : Httpsfv} `{UC : UnicodeCase} `{NU : NetURL} `{CR : Crypto} `{HS : Hashes}.

(** ** The body under the transport's choices *)

Lemma advance_finalized maxBytes close_err c e c' :
  advance maxBytes close_err c e = Some c' ->
  finalized c' = finalized c \/
  exists data field err, e = Finalization err /\ point c = Finalizing data field /\
    finalized c' = finalized c ++ [(field, err)].
Proof.
  destruct e as [| err | r | | err |]; cbn [advance].
  - destruct (point c); try done. intros [= <-]. left. by destruct (terminal (body c)).
  - destruct err, (point c); try done; intros [= <-]; by left.
  - destruct r as [data err | err], (point c); try done; intros [= <-]; left; [| done].
    by destruct (read_locked maxBytes (body c) data err) as [b [d e | d f]].
  - destruct (point c); try done. intros [= <-]. by left.
  - destruct (point c) as [| | | | data field] eqn:Hp; try done. intros [= <-]. right.
    by exists data, field, err.
  - intros [= <-]. by left.
Qed.

(** Every finalization of a run is the given one. *)
Definition finalized_by (finalize : DigestField -> option (option error)) (c : stream) : Prop :=
  Forall (fun '(field, err) => finalize field = Some err) (finalized c).

Lemma run_stream_Some finalize maxBytes close_err choices : forall c final,
  finalized_by finalize c -> run_stream finalize maxBytes close_err c choices = Some final ->
  rtc (step maxBytes close_err) c final /\ finalized_by finalize final.
Proof.
  induction choices as [| e rest IH]; intros c final Hc; cbn [run_stream]; [by intros [= <-] |].
  intros (e' & He & (c1 & H1 & H)%bind_Some)%bind_Some.
  assert (finalized_by finalize c1) as Hc1.
  { destruct (advance_finalized _ _ _ _ _ H1) as [Hf | (data & field & err & -> & Hp & Hf)];
      unfold finalized_by; rewrite Hf; [done |]. apply list.Forall_app. split; [done |].
    constructor; [| done]. rewrite Hp in He.
    destruct e; try done. by apply bind_Some in He as (err' & Herr & [= <-]). }
  apply advance_sound in H1. destruct (IH c1 final Hc1 H) as [Hr Hf]. split; [| done].
  by apply (rtc_l _ _ c1).
Qed.

(** ** Finalization *)

Lemma sameTrailerNames_true a b : sameTrailerNames a b = true -> a = b.
Proof.
  unfold sameTrailerNames. intros [Hs Hall]%andb_true_iff. apply Nat.eqb_eq in Hs.
  assert (a ⊆ b) as Hsub.
  { intros x Hx. rewrite forallb_forall in Hall. apply (bool_decide_eq_true _), Hall.
    by apply list_elem_of_In, elem_of_elements. }
  apply set_eq. intros x. split; [apply Hsub |]. intros Hx. destruct (decide (x ∈ a)) as [| Hno]; [done |].
  assert (size a < size b)%nat; [| lia]. apply subset_size. split; [done |]. intros Hba. by apply Hno, Hba.
Qed.

(** The trailers that are sent: the caller's, the digests and the signature
    over the request with both. *)
Record signed_trailers (transport : TrailerSigningRoundTripper) (obs : SigningObservation)
  (clone : Request) (declared : gset gostring) (late : Request) (digests : DigestField)
  (sent : Header) : Prop := {
  st_trailers : exists application field options external signed inputField signatureField,
    let trailer := Header_Set application "Content-Digest" field in
    canonical_fields (RequestTrailer late) application /\
    hasSignatureOrDigestFields application = false /\
    applicationTrailerNames application = declared /\
    DigestField_String digests = Some field /\
    ts_options transport late = Ok options /\
    Signer_Sign (ts_signer transport) obs (request_message (with_trailer clone trailer) external)
      (ts_label transport) options = Some (Ok signed) /\
    (exists c, c ∈ Components (signed_input signed) /\ comparison_key c = comparison_key trailer_digest) /\
    SignatureInputField signed = Some inputField /\ SignatureField signed = Some signatureField /\
    sent = Header_Set (Header_Set trailer "Signature-Input" inputField) "Signature" signatureField
}.

Lemma constructed_stream config transport :
  NewTrailerSigningRoundTripper config = Ok transport ->
  0 < ts_maxBytes transport /\ is_Ok (ComputeDigests (ts_algorithms transport) []) = true /\
  exists profile, ts_signer transport = Some profile /\
    exists c, c ∈ s_components profile /\ comparison_key c = comparison_key trailer_digest.
Proof.
  unfold NewTrailerSigningRoundTripper. destruct (tsc_has_transport config); [| done].
  destruct (tsc_signer config) as [[profile |] |]; [| done | done].
  destruct (tsc_options config); [| done]. destruct (_ || _ || _) eqn:Hc; [done |].
  destruct (ComputeDigests _ _) as [d |] eqn:Hd; [| done]. intros [= <-]. cbn.
  apply orb_false_iff in Hc as [Hc Hprofile]. split; [lia |]. rewrite Hd. split; [done |].
  exists profile. split; [done |]. apply negb_false_iff in Hprofile.
  unfold trailer_profile in Hprofile. apply andb_true_iff in Hprofile as [Hcov _].
  apply existsb_exists in Hcov as (c & Hin%list_elem_of_In & Heq). exists c. split; [done |].
  by apply bool_decide_eq_true in Heq.
Qed.

Lemma Signer_Sign_components profile obs message label options signed :
  Signer_Sign (Some profile) obs message label options = Some (Ok signed) ->
  Components (signed_input signed) = s_components profile.
Proof.
  intros H%Signer_Sign_Ok. destruct (provider_result obs) as [key perr]. cbv zeta in H.
  destruct H as (_ & _ & _ & _ & _ & _ & _ & _ & _ & base & value & _ & _ & ->). done.
Qed.

Lemma finalize_stream_None config transport obs clone declared late digests sent :
  NewTrailerSigningRoundTripper config = Ok transport ->
  finalize_stream transport obs clone declared late digests = Some (sent, None) ->
  signed_trailers transport obs clone declared late digests sent.
Proof.
  intros (_ & _ & profile & Hprofile & c & Hin & Hkey)%constructed_stream. unfold finalize_stream.
  destruct (normalizeTrailerFields_cases (RequestTrailer late)) as [[_ (n & -> & Hn)] | [_ Herr]].
  2: { by destruct (normalizeTrailerFields _). }
  destruct (hasSignatureOrDigestFields n) eqn:Hh; [done |].
  destruct (sameTrailerNames declared _) eqn:Hs; cbn [negb]; [| done]. apply sameTrailerNames_true in Hs.
  destruct (DigestField_String digests) as [field |] eqn:Hf; cbn [mbind option_bind]; [| done]. cbv zeta.
  destruct (ts_options transport late) as [options |] eqn:Ho; [| done].
  destruct (external_of _ _) as [external |]; [| done].
  destruct (Signer_Sign _ _ _ _ _) as [[signed |] |] eqn:Hsign; cbn [mbind option_bind]; [| done | done].
  destruct (SignatureInputField signed) as [i |] eqn:Hi; cbn [mbind option_bind]; [| done].
  destruct (SignatureField signed) as [g |] eqn:Hg; cbn [mbind option_bind]; [| done].
  intros [= <-]. split. exists n, field, options, external, signed, i, g. cbv zeta.
  do 6 (split; [done |]). split; [| done]. rewrite Hprofile in Hsign.
  rewrite (Signer_Sign_components _ _ _ _ _ _ Hsign). by exists c.
Qed.

(** What a released response says of the stream. *)
Lemma released_stream_cases config transport fresh run request response final :
  NewTrailerSigningRoundTripper config = Ok transport ->
  TrailerSigning_RoundTrip (Some transport) fresh run (Some request) =
    Some (StreamReleased response final) ->
  exists clone declared digests sent,
    prepare_stream fresh request = Ok (clone, declared) /\
    run_response run = Some response /\ run_err run = None /\
    len (delivered final) <= ts_maxBytes transport /\
    ComputeDigests (ts_algorithms transport) (delivered final) = Ok digests /\
    finalized final = [(digests, None)] /\
    finalize_stream transport (run_signing run) clone declared (run_late run) digests =
      Some (sent, None) /\
    signed_trailers transport (run_signing run) clone declared (run_late run) digests sent.
Proof.
  intros Hconf. destruct (constructed_stream _ _ Hconf) as (Hmax & Hok & _).
  unfold TrailerSigning_RoundTrip. cbv zeta.
  destruct (prepare_stream fresh request) as [[clone declared] |]; [| done].
  destruct (new_writers (ts_algorithms transport)) as [ws |] eqn:Hws; [| done].
  destruct (run_stream _ _ _ _ _) as [fin |] eqn:Hrun; cbn [mbind option_bind]; [| done].
  unfold conclude. intros Hrel. injection Hrel as Hrel.
  destruct (run_err run) eqn:He; [done |]. destruct (run_response run) as [r |] eqn:Hr; [| done].
  destruct (terminal (body fin)) eqn:Hterm; [| done]. destruct (result_err (body fin)) eqn:Hres; [done |].
  injection Hrel as <- <-. apply run_stream_Some in Hrun as [Hrtc Hby]; [| by constructor].
  assert (reachable (ts_maxBytes transport) (run_close_err run) (ts_algorithms transport) fin) as Hreach by (by exists ws).
  destruct (trailer_digest_cases _ _ _ _ Hok (Z.lt_le_incl _ _ Hmax) Hreach) as (Hlen & Hdig & Hdone).
  destruct (Hdone Hterm Hres) as (field & Hfin & _).
  destruct Hdig as [Hnil | (field' & err' & Hfin' & Hd)]; [congruence |].
  assert (field' = field) as -> by congruence. unfold finalized_by in Hby. rewrite Hfin in Hby.
  apply list.Forall_cons in Hby as [Hby _]. unfold finalize_error in Hby.
  apply fmap_Some in Hby as ([sent err] & Hsent & Herr). cbn in Herr. subst err.
  exists clone, declared, field, sent. do 7 (split; [done |]). by eapply finalize_stream_None.
Qed.

(** C14: a streamed request is signed before its response is released.  When the
    transport releases a response, whatever the wrapped transport did with
    the body: the bytes it was given are within the limit; the body was
    finalized exactly once, with the digests of exactly those bytes; and the
    trailers sent are the caller's at the end of the body, with the announced
    names, these digests, and the signer's signature over the request with
    both, which covers content-digest in the trailers. *)
Theorem released_stream_signed config transport fresh run request response final :
  NewTrailerSigningRoundTripper config = Ok transport ->
  TrailerSigning_RoundTrip (Some transport) fresh run (Some request) =
    Some (StreamReleased response final) ->
  exists clone declared digests sent,
    prepare_stream fresh request = Ok (clone, declared) /\
    run_response run = Some response /\ run_err run = None /\
    len (delivered final) <= ts_maxBytes transport /\
    ComputeDigests (ts_algorithms transport) (delivered final) = Ok digests /\
    finalized final = [(digests, None)] /\
    finalize_stream transport (run_signing run) clone declared (run_late run) digests =
      Some (sent, None) /\
    signed_trailers transport (run_signing run) clone declared (run_late run) digests sent.
Proof. apply released_stream_cases. Qed.
End Streaming.
