(* ===== verification/TrailerResponse.v ===== *)
(** * Streaming response signing (body_integration.go 641-984)

    [trailerResponseWriter] stands between a handler and the client's writer:
    it announces the trailers, hashes what the client's writer accepts and
    refuses what cannot be signed; [TrailerResponseSigningMiddleware] puts the
    digests and the signature into the trailers when the handler is done.  A
    handler is the trace of its calls, each with what the client's writer
    answered.  [sent] and [statuses] record what the client's writer got. *)

From S2P Require Import Prelude GoStrings Errors Httpsfv StructuredFieldSafe SignatureFields.
From S2P Require Import HttpTypes MessageFields GoTime Digest Algorithm Signer HttpFields HttpIntegration.
From S2P Require Import ResponseSigning BodyDigest TrailerFields TrailerBody.
Open Scope Z_scope.

Section Streaming.
Context `{SFV : Httpsfv} `{UC : UnicodeCase} `{NU : NetURL} `{CR : Crypto} `{HS : Hashes}.

Record trailerResponseWriter := mkTrailerWriter {
  tw_header : Header;
  tw_committed : Header;
  tw_trailerNames : list gostring;
  tw_status : Z;
  tw_written : Z;
  tw_writers : list digestWriter;
  tw_failure : option error;
  tw_failureStatus : Z;
  sent : gostring;
  statuses : list (Z * Header)
}.

(** The stream of the middleware before the handler runs. *)
Definition newTrailerWriter (header : Header) (ws : list digestWriter) : trailerResponseWriter :=
  mkTrailerWriter header ∅ [] 0 0 ws None 0 [] [].

Definition set_header (w : trailerResponseWriter) (header : Header) : trailerResponseWriter :=
  mkTrailerWriter header (tw_committed w) (tw_trailerNames w) (tw_status w) (tw_written w)
    (tw_writers w) (tw_failure w) (tw_failureStatus w) (sent w) (statuses w).

(** [writer.failure] and [writer.failureStatus]. *)
Definition set_failure (w : trailerResponseWriter) (err : error) (status : Z)
  : trailerResponseWriter :=
  mkTrailerWriter (tw_header w) (tw_committed w) (tw_trailerNames w) (tw_status w) (tw_written w)
    (tw_writers w) (Some err) status (sent w) (statuses w).

(** The client's [WriteHeader] with the header as it is. *)
Definition forward_status (w : trailerResponseWriter) (status : Z) : trailerResponseWriter :=
  mkTrailerWriter (tw_header w) (tw_committed w) (tw_trailerNames w) (tw_status w) (tw_written w)
    (tw_writers w) (tw_failure w) (tw_failureStatus w) (sent w)
    (statuses w ++ [(status, tw_header w)]).

Definition commit (w : trailerResponseWriter) (status : Z) (committed : Header)
  (names : list gostring) : trailerResponseWriter :=
  mkTrailerWriter (tw_header w) committed names status (tw_written w) (tw_writers w) (tw_failure w)
    (tw_failureStatus w) (sent w) (statuses w).

Definition rejectSuccessfulConnect (w : trailerResponseWriter) : trailerResponseWriter :=
  let w := set_failure w (Sentinel ErrInvalidBodyIntegration) (tw_failureStatus w) in
  let w := forward_status (set_header w (clearHTTPHeader (tw_header w))) 501 in
  commit w 501 (tw_committed w) (tw_trailerNames w).

(** A header with the announced trailers in place of its framing. *)
Definition announce (header : Header) (names : list gostring) : Header :=
  Header_Set (delete_framing header) "Trailer" (Join names ",").

(** The code hands any other status to the client's writer, and so does the
    model.  The writer of net/http panics for a status below 100 or above 999;
    another [http.ResponseWriter] need not. *)
Definition trailer_WriteHeader (method : gostring) (w : trailerResponseWriter) (status : Z)
  : trailerResponseWriter :=
  let refuse err := set_failure w err (tw_failureStatus w) in
  if negb (is_nil (tw_failure w)) || negb (tw_status w =? 0) then w
  else if status =? 101 then set_failure w (Sentinel ErrInvalidBodyIntegration) 501
  else if (method =s "CONNECT") && (200 <=? status) && (status <=? 299)
  then rejectSuccessfulConnect w
  else if (status =? 204) || (status =? 205) || (status =? 304)
  then set_failure w (Sentinel ErrInvalidBodyIntegration) 501
  else
    match normalizeProtectedHeader (tw_header w) with
    | Err err => refuse err
    | Ok normalizedHeader =>
        if hasSignatureOrDigestFields (tw_header w) then refuse (Sentinel ErrExistingSignatures)
        else
          match responseTrailerNames (tw_header w) with
          | Err err => refuse err
          | Ok names =>
              let w := forward_status (set_header w (announce (tw_header w) names)) status in
              if (status <? 100) || (199 <? status) || (status =? 101)
              then commit w status (announce normalizedHeader names) names
              else w
          end
    end.

(** Bytes accepted by the client's writer under a status with a body. *)
Definition hash_written (w : trailerResponseWriter) (data : gostring) : trailerResponseWriter :=
  mkTrailerWriter (tw_header w) (tw_committed w) (tw_trailerNames w) (tw_status w)
    (tw_written w + len data) (map (fun hw => writer_Write hw data) (tw_writers w)) (tw_failure w)
    (tw_failureStatus w) (sent w) (statuses w).

Definition forward_bytes (w : trailerResponseWriter) (data : gostring) : trailerResponseWriter :=
  mkTrailerWriter (tw_header w) (tw_committed w) (tw_trailerNames w) (tw_status w) (tw_written w)
    (tw_writers w) (tw_failure w) (tw_failureStatus w) (sent w ++ data) (statuses w).

(** [Write]; [wrote] is what the client's [Write] returns, if it is called. *)
Definition trailer_Write (method : gostring) (maxBytes : Z) (w : trailerResponseWriter)
  (content : gostring) (wrote : Z * option error) : trailerResponseWriter * (Z * option error) :=
  match tw_failure w with
  | Some err => (w, (0, Some err))
  | None =>
      let w := if tw_status w =? 0 then trailer_WriteHeader method w 200 else w in
      match tw_failure w with
      | Some err => (w, (0, Some err))
      | None =>
          let hashed := (method <>s "HEAD") && responseBodyAllowed (tw_status w) in
          if hashed && (maxBytes - tw_written w <? len content)
          then (set_failure w (Sentinel ErrBodyTooLarge) (tw_failureStatus w),
                (0, Some (Sentinel ErrBodyTooLarge)))
          else
            let '(count, err) := wrote in
            if (count <? 0) || (len content <? count)
            then (set_failure w (Sentinel ErrBodyRead) (tw_failureStatus w),
                  (0, Some (Sentinel ErrBodyRead)))
            else
              let data := take (Z.to_nat count) content in
              let w := forward_bytes w data in
              let w := if hashed then hash_written w data else w in
              if negb (is_nil err) || negb (count =? len content)
              then (set_failure w (Sentinel ErrBodyRead) (tw_failureStatus w),
                    (count, Some (Sentinel ErrBodyRead)))
              else (w, (count, None))
      end
  end.

(** [FlushError]; [flushed] is the error of the client's [Flush]. *)
Definition trailer_FlushError (method : gostring) (w : trailerResponseWriter)
  (flushed : option error) : trailerResponseWriter * option error :=
  match tw_failure w with
  | Some err => (w, Some err)
  | None =>
      let w := if tw_status w =? 0 then trailer_WriteHeader method w 200 else w in
      match tw_failure w with
      | Some err => (w, Some err)
      | None =>
          match flushed with
          | None => (w, None)
          | Some err =>
              if errors_Is err ErrNotSupported then (w, Some err)
              else (set_failure w (Sentinel ErrBodyRead) (tw_failureStatus w),
                    Some (Sentinel ErrBodyRead))
          end
      end
  end.

(** [Hijack] and [EnableFullDuplex]. *)
Definition rejectProtocolBypass (w : trailerResponseWriter) : trailerResponseWriter :=
  if is_nil (tw_failure w)
  then set_failure w (Sentinel ErrInvalidBodyIntegration) (tw_failureStatus w) else w.

Definition failureStatusCode (w : trailerResponseWriter) : Z :=
  if negb (tw_failureStatus w =? 0) then tw_failureStatus w else 500.

(** A handler's calls with the answers of the client's writer. *)
Inductive stream_op :=
| StreamHeader (f : Header -> Header)
| StreamWriteHeader (status : Z)
| StreamWrite (content : gostring) (wrote : Z * option error)
| StreamFlush (flushed : option error)
| StreamHijack
| StreamFullDuplex.

Definition stream_do (method : gostring) (maxBytes : Z) (w : trailerResponseWriter) (op : stream_op)
  : trailerResponseWriter :=
  match op with
  | StreamHeader f => set_header w (f (tw_header w))
  | StreamWriteHeader status => trailer_WriteHeader method w status
  | StreamWrite content wrote => fst (trailer_Write method maxBytes w content wrote)
  | StreamFlush flushed => fst (trailer_FlushError method w flushed)
  | StreamHijack | StreamFullDuplex => rejectProtocolBypass w
  end.

(** ** Trailers *)

Fixpoint declared_trailers (header : Header) (names : list gostring) (trailers : Header)
  : res Header :=
  match names with
  | [] => Ok trailers
  | name :: rest =>
      let? (values, _) := protectedFieldValues header name in
      declared_trailers header rest (<[name := values]> trailers)
  end.

(** The loop over the header, in the order of [entries]. *)
Fixpoint late_trailers (declared late : gset gostring) (entries : list (gostring * list gostring))
  (trailers : Header) : res Header :=
  match entries with
  | [] => Ok trailers
  | (key, values) :: rest =>
      match CutPrefix key TrailerPrefix with
      | None => late_trailers declared late rest trailers
      | Some name =>
          let canonical := CanonicalHeaderKey name in
          if negb (trailer_name name) then Err (Sentinel ErrInvalidBodyIntegration)
          else if bool_decide (canonical ∈ declared) then Err (Sentinel ErrAmbiguousProtectedField)
          else if bool_decide (canonical ∈ late) then Err (Sentinel ErrAmbiguousProtectedField)
          else late_trailers declared ({[canonical]} ∪ late) rest
                 (<[canonical := [] ++ values]> trailers)
      end
  end.

Definition signingTrailers (w : trailerResponseWriter) (digests : DigestField)
  : option (res Header) :=
  match declared_trailers (tw_header w) (tw_trailerNames w) ∅ with
  | Err err => Some (Err err)
  | Ok trailers =>
      match late_trailers (list_to_set (tw_trailerNames w)) ∅ (map_to_list (tw_header w)) trailers with
      | Err err => Some (Err err)
      | Ok trailers =>
          field ← DigestField_String digests;
          Some (normalizeProtectedHeader (Header_Set trailers "Content-Digest" field))
      end
  end.

(** The response that is signed, with the protocol of an HTTP/1 request. *)
Definition trailer_response (w : trailerResponseWriter) (trailers : Header) (related : Request)
  : Response :=
  let one := RequestProtoMajor related =? 1 in {|
  StatusCode := tw_status w;
  ResponseProtoMajor := if one then RequestProtoMajor related else 0;
  ResponseProtoMinor := if one then RequestProtoMinor related else 0;
  ResponseHeader := tw_committed w;
  ResponseBody := NoBody;
  ResponseContentLength := if one then -1 else 0;
  ResponseTransferEncoding := if one then [str "chunked"] else [];
  ResponseClose := false;
  Uncompressed := false;
  ResponseTrailer := trailers;
  ResponseRequest := Some related
|}.

(** ** The middleware *)

Record TrailerResponseSigningMiddlewareConfig := mkTrailerResponseConfig {
  trc_signer : option (option SigningProfile);
  trc_label : gostring;
  trc_algorithms : list DigestAlgorithm;
  trc_maxBytes : Z;
  trc_options : option (Request -> res SigningOptions);
  trc_externalContext : option (Request -> res (option ExternalRequestContext));
  trc_has_reportError : bool
}.

(** The closure a constructed middleware keeps. *)
Record TrailerResponseSigningMiddleware := mkTrailerResponse {
  trm_signer : option SigningProfile;
  trm_label : gostring;
  trm_algorithms : list DigestAlgorithm;
  trm_maxBytes : Z;
  trm_options : Request -> res SigningOptions;
  trm_externalContext : option (Request -> res (option ExternalRequestContext))
}.

Definition NewTrailerResponseSigningMiddleware (config : TrailerResponseSigningMiddlewareConfig)
  : res TrailerResponseSigningMiddleware :=
  match trc_signer config, trc_options config, trc_has_reportError config with
  | Some (Some profile), Some options, true =>
      if negb (validSignatureLabel (trc_label config)) || (trc_maxBytes config <=? 0) ||
         negb (signingProfileCoversTrailerDigest profile) ||
         signingProfileCoversProtocolDependentTrailerField profile
      then Err (Sentinel ErrInvalidBodyIntegration)
      else
        match ComputeDigests (trc_algorithms config) [] with
        | Err _ => Err (Sentinel ErrInvalidBodyIntegration)
        | Ok _ =>
            Ok (mkTrailerResponse (Some profile) (trc_label config) ([] ++ trc_algorithms config)
                  (trc_maxBytes config) options (trc_externalContext config))
        end
  | _, _, _ => Err (Sentinel ErrInvalidBodyIntegration)
  end.

(** Nothing was committed: the client gets only a status, with an empty header;
    the response was committed and stays unsigned, with the header given; or
    the header has the trailers.  An error is reported. *)
Inductive trailer_outcome :=
| Unsigned (status : Z) (reported : error)
| Truncated (w : trailerResponseWriter) (header : Header) (reported : error)
| TrailersSigned (w : trailerResponseWriter) (header : Header).

(** The digest writers; an unsupported algorithm gives a nil hash, which the
    constructor has excluded. *)
Definition response_writers (algorithms : list DigestAlgorithm) : list digestWriter :=
  map (fun algorithm => mkDigestWriter algorithm []) algorithms.

(** The part after the handler, from the final state of the stream. *)
Definition finish_trailers (middleware : TrailerResponseSigningMiddleware) (obs : SigningObservation)
  (w : trailerResponseWriter) (related : Request) (external : option ExternalRequestContext)
  (options : SigningOptions) : option trailer_outcome :=
  let truncate err := Some (Truncated w (removeTrailerSigningFields (tw_header w)) err) in
  match tw_failure w with
  | Some err => if tw_status w =? 0 then Some (Unsigned (failureStatusCode w) err) else truncate err
  | None =>
  match normalizeProtectedHeader (tw_header w) with
  | Err err => truncate err
  | Ok normalizedHeader =>
  if hasSignatureOrDigestFields normalizedHeader then truncate (Sentinel ErrExistingSignatures)
  else
    let digests := writers_digests (tw_writers w) in
    trailers ← signingTrailers w digests;
    match trailers with
    | Err err => truncate err
    | Ok trailers =>
        let response := trailer_response w trailers related in
        signed ← Signer_Sign (trm_signer middleware) obs (written_message response related external)
                   (trm_label middleware) options;
        match signed with
        | Err _ => truncate (Sentinel ErrHTTPIntegrationSigning)
        | Ok signed =>
            field ← DigestField_String digests;
            inputField ← SignatureInputField signed;
            signatureField ← SignatureField signed;
            Some (TrailersSigned w
              (Header_Set (Header_Set (Header_Set (tw_header w) "Content-Digest" field)
                 "Signature-Input" inputField) "Signature" signatureField))
        end
    end
  end
  end.

Definition TrailerResponse_ServeHTTP (middleware : TrailerResponseSigningMiddleware) (fresh : nat)
  (obs : SigningObservation) (outer : Header) (has_next : bool) (ops : list stream_op)
  (request : option Request) : option trailer_outcome :=
  match has_next, request with
  | true, Some request =>
      if (Method request =s "HEAD") ||
         (RequestProtoMajor request =? 1) && (RequestProtoMinor request =? 0)
      then Some (Unsigned 501 (Sentinel ErrInvalidBodyIntegration))
      else
      match normalizeProtectedHeader outer with
      | Err err => Some (Unsigned 500 err)
      | Ok normalizedHeader =>
      if hasSignatureOrDigestFields normalizedHeader
      then Some (Unsigned 500 (Sentinel ErrInvalidBodyIntegration))
      else
      match normalizeProtectedRequest fresh request with
      | Err err => Some (Unsigned 500 err)
      | Ok related =>
      match trm_options middleware (cloneRequestSnapshot (fresh + 1) related) with
      | Err _ => Some (Unsigned 500 (Sentinel ErrHTTPIntegrationSigning))
      | Ok options =>
      match external_of (trm_externalContext middleware) (cloneRequestSnapshot (fresh + 2) related) with
      | Err _ => Some (Unsigned 500 (Sentinel ErrHTTPIntegrationSigning))
      | Ok external =>
          let method := Method related in
          let w := fold_left (stream_do method (trm_maxBytes middleware)) ops
                     (newTrailerWriter outer (response_writers (trm_algorithms middleware))) in
          let w := if (tw_status w =? 0) && is_nil (tw_failure w)
                   then trailer_WriteHeader method w 200 else w in
          finish_trailers middleware obs w related external options
      end
      end
      end
      end
  | _, _ => Some (Unsigned 500 (Sentinel ErrInvalidBodyIntegration))
  end.
End Streaming.
