(* ===== verification/TrailerResponseFacts.v ===== *)
(** * What the streaming response middleware signs

    The trailers carry the digests of exactly the bytes the client's writer
    accepted, under the status and header it got; a response that failed
    carries no signature. *)

From S2P Require Import Prelude GoStrings Errors Httpsfv StructuredFieldSafe SignatureFields.
From S2P Require Import HttpTypes MessageFields GoTime Digest DigestFacts Algorithm Signer HttpFields.
From S2P Require Import HttpIntegration HttpFacts ResponseSigning ResponseFacts BodyDigest TrailerFields.
From S2P Require Import TrailerBody TrailerSigningFacts TrailerResponse.
Open Scope Z_scope.

(** ** Announced names *)

Lemma trailer_line_names raw names names' :
  trailer_line names raw = Ok names' -> names ⊆ names'.
Proof.
  revert names. induction raw as [| r raw IH]; intros names; cbn [trailer_line]; [by intros [= <-] |].
  destruct (negb _); [done |]. intros H%IH. set_solver.
Qed.

Lemma trailer_lines_names values names names' :
  trailer_lines names values = Ok names' -> names ⊆ names'.
Proof.
  revert names. induction values as [| v values IH]; intros names; cbn [trailer_lines]; [by intros [= <-] |].
  intros (n & Hn%trailer_line_names & H%IH)%rbind_Ok. set_solver.
Qed.

(** The digest and signature fields are always announced. *)
Lemma responseTrailerNames_signing header names name :
  responseTrailerNames header = Ok names -> name ∈ signing_names -> name ∈ names.
Proof.
  unfold responseTrailerNames. intros ([values present] & _ & (ns & Hns & [= <-])%rbind_Ok)%rbind_Ok Hin.
  rewrite sort_by_perm. apply elem_of_elements.
  assert (list_to_set signing_names ⊆ ns) as Hsub.
  { destruct present; [by apply trailer_lines_names in Hns | by injection Hns as <-]. }
  apply Hsub. by apply elem_of_list_to_set.
Qed.

(** ** The failure path leaves nothing that looks signed *)

Lemma lookup_removeTrailerSigningFields header k :
  (exists name, name ∈ signing_names ++ [str "Trailer"] /\ EqualFold k name = true) \/
  HasPrefix k TrailerPrefix = true ->
  removeTrailerSigningFields header !! k = None.
Proof.
  unfold removeTrailerSigningFields. intros [(name & Hin & Hk) | Hp].
  - apply map_lookup_filter_None. left. revert header Hin.
    induction (signing_names ++ [str "Trailer"]) as [| n l IH]; intros header Hin; [by apply elem_of_nil in Hin |].
    cbn [fold_left]. apply elem_of_cons in Hin as [<- | Hin]; [| by apply IH].
    clear IH. assert (deleteHeaderField header name !! k = None) as H0 by (by rewrite lookup_deleteHeaderField, Hk).
    revert H0. generalize (deleteHeaderField header name). induction l as [| m l IH]; intros h Hh; [done |].
    cbn [fold_left]. apply IH. rewrite lookup_deleteHeaderField. by destruct (EqualFold k m).
  - apply map_lookup_filter_None. right. intros v _. by rewrite Hp.
Qed.

Section Streaming.
Context `{SFV : Httpsfv} `{UC : UnicodeCase} `{NU : NetURL} `{CR : Crypto} `{HS : Hashes}.

Implicit Types (w : trailerResponseWriter) (middleware : TrailerResponseSigningMiddleware).

(** ** The invariant of the writer *)

(** What the client's writer got with the final status. *)
Definition committed_to w : Prop :=
  exists prior h n,
    statuses w = prior ++ [(tw_status w, announce h (tw_trailerNames w))] /\
    Forall (fun '(status, _) => informational status = true \/ status = 0) prior /\
    normalizeProtectedHeader h = Ok n /\ hasSignatureOrDigestFields h = false /\
    responseTrailerNames h = Ok (tw_trailerNames w) /\
    tw_committed w = announce n (tw_trailerNames w).

Record writer_inv (maxBytes : Z) (algorithms : list DigestAlgorithm) w : Prop := {
  winv_algorithms : map writer_algorithm (tw_writers w) = algorithms;
  winv_text : Forall (fun hw =>
    writer_text hw = if responseBodyAllowed (tw_status w) then sent w else []) (tw_writers w);
  winv_written : tw_written w = (if responseBodyAllowed (tw_status w) then len (sent w) else 0) /\
    tw_written w <= maxBytes;
  winv_before : tw_status w = 0 -> sent w = [] /\
    Forall (fun '(status, _) => informational status = true \/ status = 0) (statuses w);
  winv_committed : 100 <= tw_status w -> tw_failure w = None -> committed_to w;
  winv_status : 200 <= tw_status w -> responseBodyAllowed (tw_status w) = true
}.

Lemma set_failure_inv maxBytes algorithms w err status :
  writer_inv maxBytes algorithms w -> writer_inv maxBytes algorithms (set_failure w err status).
Proof. intros []. by split. Qed.

Lemma set_header_inv maxBytes algorithms w header :
  writer_inv maxBytes algorithms w -> writer_inv maxBytes algorithms (set_header w header).
Proof. intros []. by split. Qed.

(** The writer after the status was forwarded with announced trailers. *)
Lemma forward_inv maxBytes algorithms w status h n :
  writer_inv maxBytes algorithms w -> tw_status w = 0 ->
  normalizeProtectedHeader (tw_header w) = Ok n -> hasSignatureOrDigestFields (tw_header w) = false ->
  responseTrailerNames (tw_header w) = Ok h ->
  (200 <= status -> responseBodyAllowed status = true) ->
  let w' := forward_status (set_header w (announce (tw_header w) h)) status in
  writer_inv maxBytes algorithms
    (if (status <? 100) || (199 <? status) || (status =? 101)
     then commit w' status (announce n h) h else w').
Proof.
  intros [Ha Ht [Hw Hmax] Hb Hc Hst] Hs Hn Hsig Hnames Hallow w'. destruct (Hb Hs) as [Hsent Hprior].
  assert (responseBodyAllowed (tw_status w) = false) as Hno by (by rewrite Hs).
  rewrite Hno in Ht, Hw.
  assert (Forall (fun hw => writer_text hw = if responseBodyAllowed status then sent w else []) (tw_writers w)) as Ht'.
  { rewrite Hsent. revert Ht. apply List.Forall_impl. intros hw Hhw. rewrite Hhw. by destruct (responseBodyAllowed status). }
  destruct (_ || _ || _) eqn:Hfinal.
  - split; cbn [tw_writers tw_status tw_written sent statuses tw_failure tw_header commit w' forward_status set_header];
      [done | exact Ht' | rewrite Hsent, len_nil; by destruct (responseBodyAllowed status) | | | done].
    + intros ->. split; [done |]. apply list.Forall_app. split; [done |]. constructor; [by right | done].
    + intros _ _. unfold committed_to. exists (statuses w), (tw_header w), n. done.
  - split; cbn [tw_writers tw_status tw_written sent statuses tw_failure tw_header w' forward_status set_header];
      rewrite ?Hno; try done; [| lia | lia].
    intros _. split; [done |]. apply list.Forall_app. split; [done |]. constructor; [| done]. left.
    unfold informational. lia.
Qed.

Lemma WriteHeader_inv maxBytes algorithms method w status :
  writer_inv maxBytes algorithms w -> writer_inv maxBytes algorithms (trailer_WriteHeader method w status).
Proof.
  intros Hinv. unfold trailer_WriteHeader. cbv zeta.
  destruct (negb (is_nil (tw_failure w)) || negb (tw_status w =? 0)) eqn:Hg; [done |].
  apply orb_false_iff in Hg as [_ Hs]. assert (tw_status w = 0) as Hs0 by lia.
  destruct (status =? 101) eqn:H101; [by apply set_failure_inv |].
  destruct ((method =s "CONNECT") && _ && _).
  { destruct Hinv as [Ha Ht [Hw Hmax] Hb Hc Hst]. destruct (Hb Hs0) as [Hsent _].
    rewrite Hs0 in Ht, Hw. cbn in Ht, Hw.
    split; cbn; rewrite ?Hsent; try done. }
  destruct ((status =? 204) || (status =? 205) || (status =? 304)) eqn:Hbodiless; [by apply set_failure_inv |].
  destruct (normalizeProtectedHeader (tw_header w)) as [n |] eqn:Hn; [| by apply set_failure_inv].
  destruct (hasSignatureOrDigestFields (tw_header w)) eqn:Hsig; [by apply set_failure_inv |].
  destruct (responseTrailerNames (tw_header w)) as [names |] eqn:Hnames; [| by apply set_failure_inv].
  pose proof (forward_inv _ _ _ status _ _ Hinv Hs0 Hn Hsig Hnames) as H. cbv zeta in H.
  specialize (H ltac:(unfold responseBodyAllowed; lia)).
  by rewrite H101 in H.
Qed.

(** A [Write] or [Flush] has committed the writer, or failed. *)
Lemma committed_or_failed method w :
  let w' := if tw_status w =? 0 then trailer_WriteHeader method w 200 else w in
  tw_failure w' = None -> tw_status w' <> 0.
Proof.
  cbv zeta. destruct (tw_status w =? 0) eqn:Hs; [| lia]. unfold trailer_WriteHeader. cbv zeta.
  destruct (tw_failure w) eqn:Hf; cbn [is_nil negb orb]; [congruence |]. rewrite Hs. cbn [negb Z.eqb].
  destruct (_ && _ && _); [done |]. cbn [orb]. destruct (normalizeProtectedHeader _); [| done].
  destruct (hasSignatureOrDigestFields _); [done |]. by destruct (responseTrailerNames _).
Qed.

Lemma committed_inv maxBytes algorithms method w :
  writer_inv maxBytes algorithms w ->
  writer_inv maxBytes algorithms (if tw_status w =? 0 then trailer_WriteHeader method w 200 else w).
Proof. intros Hinv. destruct (_ =? 0); [by apply WriteHeader_inv | done]. Qed.

Lemma bytes_inv maxBytes algorithms w data :
  writer_inv maxBytes algorithms w -> tw_status w <> 0 ->
  (responseBodyAllowed (tw_status w) = true -> tw_written w + len data <= maxBytes) ->
  let w' := forward_bytes w data in
  writer_inv maxBytes algorithms
    (if responseBodyAllowed (tw_status w) then hash_written w' data else w').
Proof.
  intros [Ha Ht [Hw Hmax] Hb Hc Hst] Hs Hroom w'. destruct (responseBodyAllowed (tw_status w)) eqn:Hallow.
  - split; cbn [w' forward_bytes hash_written tw_writers tw_status tw_written sent statuses tw_failure];
      rewrite ?Hallow; try done.
    + rewrite map_map. done.
    + apply List.Forall_map. revert Ht. apply List.Forall_impl. intros hw Hhw. cbn. by rewrite Hhw.
    + rewrite Hw, len_app in *. split; [done |]. by apply Hroom.
  - split; cbn [w' forward_bytes tw_writers tw_status tw_written sent statuses tw_failure];
      rewrite ?Hallow; try done.
Qed.

Lemma Write_inv maxBytes algorithms method w content wrote :
  method <> str "HEAD" -> writer_inv maxBytes algorithms w ->
  writer_inv maxBytes algorithms (fst (trailer_Write method maxBytes w content wrote)).
Proof.
  intros Hhead Hinv. unfold trailer_Write. destruct (tw_failure w); [done |]. cbv zeta.
  pose proof (committed_inv _ _ method _ Hinv) as H1. pose proof (committed_or_failed method w) as Hs.
  cbv zeta in Hs. destruct (if tw_status w =? 0 then _ else _) as [hd cm tn st wr ws fl fs se ss] eqn:Hw1. clear Hw1.
  set (w1 := mkTrailerWriter hd cm tn st wr ws fl fs se ss) in *. change (tw_failure w1) with fl in *.
  destruct fl as [e |]; [done |]. specialize (Hs eq_refl).
  rewrite (bool_decide_eq_false_2 _ Hhead). cbn [negb andb].
  destruct (responseBodyAllowed (tw_status w1) && _) eqn:Hfull; [by apply set_failure_inv |].
  destruct wrote as [count err]. destruct ((count <? 0) || (len content <? count)) eqn:Hr; [by apply set_failure_inv |].
  pose proof (bytes_inv _ _ _ (take (Z.to_nat count) content) H1 Hs) as H2. cbv zeta in H2.
  assert (responseBodyAllowed (tw_status w1) = true -> tw_written w1 + len (take (Z.to_nat count) content) <= maxBytes) as Hroom.
  { intros Ha. rewrite Ha in Hfull. cbn [andb] in Hfull. unfold len in *. rewrite length_take. lia. }
  specialize (H2 Hroom). destruct (negb (is_nil err) || negb (count =? len content)); [| exact H2].
  by apply set_failure_inv.
Qed.

Lemma stream_do_inv maxBytes algorithms method w op :
  method <> str "HEAD" -> writer_inv maxBytes algorithms w ->
  writer_inv maxBytes algorithms (stream_do method maxBytes w op).
Proof.
  intros Hhead Hinv. destruct op as [f | status | content wrote | flushed | |]; cbn [stream_do].
  - by apply set_header_inv.
  - by apply WriteHeader_inv.
  - by apply Write_inv.
  - unfold trailer_FlushError. destruct (tw_failure w); [done |]. cbv zeta.
    pose proof (committed_inv _ _ method _ Hinv) as H1.
    destruct (tw_failure (if tw_status w =? 0 then _ else _)); [done |].
    destruct flushed as [e |]; [| done]. destruct (errors_Is e ErrNotSupported); [done | by apply set_failure_inv].
  - unfold rejectProtocolBypass. destruct (is_nil _); [by apply set_failure_inv | done].
  - unfold rejectProtocolBypass. destruct (is_nil _); [by apply set_failure_inv | done].
Qed.

Lemma streamed_inv maxBytes algorithms method header ops :
  0 <= maxBytes -> method <> str "HEAD" ->
  writer_inv maxBytes algorithms
    (fold_left (stream_do method maxBytes) ops (newTrailerWriter header (response_writers algorithms))).
Proof.
  intros Hmax Hhead. assert (writer_inv maxBytes algorithms (newTrailerWriter header (response_writers algorithms))) as H0.
  { split; cbn; try done.
    - unfold response_writers. rewrite map_map. cbn. apply map_id.
    - apply List.Forall_map, list.Forall_forall. by intros a _. }
  revert H0. generalize (newTrailerWriter header (response_writers algorithms)).
  induction ops as [| op ops IH]; intros w Hw; cbn [fold_left]; [done |]. apply IH. by apply stream_do_inv.
Qed.

(** ** The signed trailers *)

Lemma signingTrailers_digest w digests trailers :
  signingTrailers w digests = Some (Ok trailers) ->
  exists field, DigestField_String digests = Some field /\
    trailers !! str "Content-Digest" = Some [field].
Proof.
  unfold signingTrailers. destruct (declared_trailers _ _ _) as [t0 |]; [| done].
  destruct (late_trailers _ _ _ _) as [t1 |]; [| done].
  destruct (DigestField_String digests) as [field |]; cbn [mbind option_bind]; [| done].
  intros [= Hn]. exists field. split; [done |]. apply normalizeProtectedHeader_Ok in Hn.
  apply (norm_protected _ _ _ _ Hn (str "Content-Digest")).
  - by do 3 apply list_elem_of_further; apply list_elem_of_here.
  - done.
  - split; [done |]. exists (str "Content-Digest"). split; [exact (lookup_insert_eq _ _ _) | done].
Qed.

Lemma constructed_trailer_response config middleware :
  NewTrailerResponseSigningMiddleware config = Ok middleware ->
  0 < trm_maxBytes middleware /\ is_Ok (ComputeDigests (trm_algorithms middleware) []) = true /\
  exists profile, trm_signer middleware = Some profile /\
    exists c, c ∈ s_components profile /\ comparison_key c = comparison_key trailer_digest.
Proof.
  unfold NewTrailerResponseSigningMiddleware. destruct (trc_signer config) as [[profile |] |]; [| done | done].
  destruct (trc_options config); [| done]. destruct (trc_has_reportError config); [| done].
  destruct (_ || _ || _ || _) eqn:Hc; [done |].
  destruct (ComputeDigests _ _) as [d |] eqn:Hd; [| done]. intros [= <-]. cbn.
  apply orb_false_iff in Hc as [[Hc Hcov]%orb_false_iff _]. split; [lia |]. rewrite Hd. split; [done |].
  exists profile. split; [done |]. apply negb_false_iff, existsb_exists in Hcov as (c & Hin%list_elem_of_In & Heq).
  exists c. split; [done |]. by apply bool_decide_eq_true in Heq.
Qed.

(** The response whose trailers are signed: what the client got, its digests,
    and the signature over its status, the header that was sent, normalized,
    and the trailers. *)
Record trailers_signed middleware (obs : SigningObservation) (request : Request)
  w (header : Header) : Prop := {
  ts_committed : 100 <= tw_status w -> committed_to w;
  ts_announced name : 100 <= tw_status w -> name ∈ signing_names -> name ∈ tw_trailerNames w;
  ts_bytes : 200 <= tw_status w -> len (sent w) <= trm_maxBytes middleware /\
    ComputeDigests (trm_algorithms middleware) (sent w) = Ok (writers_digests (tw_writers w));
  ts_signature : exists related external options trailers signed field inputField signatureField,
    normalized_request request related /\
    signingTrailers w (writers_digests (tw_writers w)) = Some (Ok trailers) /\
    trailers !! str "Content-Digest" = Some [field] /\
    Signer_Sign (trm_signer middleware) obs
      (written_message (trailer_response w trailers related) related external)
      (trm_label middleware) options = Some (Ok signed) /\
    (exists c, c ∈ Components (signed_input signed) /\ comparison_key c = comparison_key trailer_digest) /\
    DigestField_String (writers_digests (tw_writers w)) = Some field /\
    SignatureInputField signed = Some inputField /\ SignatureField signed = Some signatureField /\
    header = Header_Set (Header_Set (Header_Set (tw_header w) "Content-Digest" field)
               "Signature-Input" inputField) "Signature" signatureField
}.

Lemma finish_signed config middleware obs w request related external options outcome :
  NewTrailerResponseSigningMiddleware config = Ok middleware ->
  writer_inv (trm_maxBytes middleware) (trm_algorithms middleware) w ->
  normalized_request request related ->
  finish_trailers middleware obs w related external options = Some outcome ->
  match outcome with
  | Unsigned status err => True
  | Truncated w' header err => w' = w /\ header = removeTrailerSigningFields (tw_header w)
  | TrailersSigned w' header => w' = w /\ trailers_signed middleware obs request w header
  end.
Proof.
  intros (Hmax & Hok & profile & Hprofile & c & Hin & Hkey)%constructed_trailer_response Hinv Hrel.
  unfold finish_trailers. destruct (tw_failure w) eqn:Hf.
  { destruct (tw_status w =? 0); by intros [= <-]. }
  destruct (normalizeProtectedHeader _); [| by intros [= <-]].
  destruct (hasSignatureOrDigestFields _); [by intros [= <-] |]. cbv zeta.
  destruct (signingTrailers _ _) as [[trailers |] |] eqn:Ht; cbn [mbind option_bind]; [| by intros [= <-] | done].
  destruct (Signer_Sign _ _ _ _ _) as [[signed |] |] eqn:Hs; cbn [mbind option_bind]; [| by intros [= <-] | done].
  destruct (DigestField_String _) as [field |] eqn:Hfield; cbn [mbind option_bind]; [| done].
  destruct (SignatureInputField signed) as [i |] eqn:Hi; cbn [mbind option_bind]; [| done].
  destruct (SignatureField signed) as [g |] eqn:Hg; cbn [mbind option_bind]; [| done].
  intros [= <-]. split; [done |]. destruct Hinv as [Ha Htext [Hw Hle] _ Hc Hallow].
  split.
  - intros Hst. by apply Hc.
  - intros name Hst Hname. destruct (Hc Hst Hf) as (_ & h & _ & _ & _ & _ & _ & Hnames & _).
    by eapply responseTrailerNames_signing.
  - intros Hst. specialize (Hallow Hst). rewrite Hallow in Htext, Hw.
    split; [lia | by apply ComputeDigests_writers].
  - destruct (signingTrailers_digest _ _ _ Ht) as (field' & Hf' & Hlook).
    assert (field' = field) as -> by congruence.
    exists related, external, options, trailers, signed, field, i, g. do 4 (split; [done |]).
    split; [| done]. rewrite Hprofile in Hs. rewrite (Signer_Sign_components _ _ _ _ _ _ Hs). by exists c.
Qed.

(** C15: streaming responses.  For every sequence of a handler's calls and every
    answer of the client's writer: when the middleware signs, the client's
    writer got exactly one final status, with a header that announces the
    digest and signature trailers, and the digests are those of exactly the
    bytes it accepted, within the limit; the signature, which covers
    content-digest in the trailers, is the signer's over that status, the sent
    header, normalized, and the trailers.  Statuses below 100, which the
    writer of net/http refuses, are left aside, and informational ones are not
    final.  When a committed response is not
    signed, no digest, signature or trailer announcement is left in the
    header. *)
Theorem streamed_response_signed config middleware fresh obs outer has_next ops request outcome :
  NewTrailerResponseSigningMiddleware config = Ok middleware ->
  TrailerResponse_ServeHTTP middleware fresh obs outer has_next ops (Some request) = Some outcome ->
  match outcome with
  | Unsigned status err => True
  | Truncated w header err =>
      forall k, HasPrefix k TrailerPrefix = true \/
        (exists name, name ∈ signing_names ++ [str "Trailer"] /\ EqualFold k name = true) ->
        header !! k = None
  | TrailersSigned w header => trailers_signed middleware obs request w header
  end.
Proof.
  intros Hconf. unfold TrailerResponse_ServeHTTP. destruct has_next; [| by intros [= <-]].
  destruct (_ || _ && _) eqn:Hm; [by intros [= <-] |].
  destruct (normalizeProtectedHeader outer); [| by intros [= <-]].
  destruct (hasSignatureOrDigestFields _); [by intros [= <-] |].
  destruct (normalizeProtectedRequest fresh request) as [related |] eqn:Hrel; [| by intros [= <-]].
  apply normalizeProtectedRequest_Ok in Hrel.
  destruct (trm_options _ _) as [options |]; [| by intros [= <-]].
  destruct (external_of _ _) as [external |]; [| by intros [= <-]]. cbv zeta.
  assert (Method related <> str "HEAD") as Hhead.
  { destruct Hrel as [-> _]. cbn [Method clone_request]. apply orb_false_iff in Hm as [Hm _].
    by apply bool_decide_eq_false in Hm. }
  pose proof (proj1 (constructed_trailer_response _ _ Hconf)) as Hmax.
  pose proof (streamed_inv _ (trm_algorithms middleware) (Method related) outer ops (Z.lt_le_incl _ _ Hmax) Hhead) as Hinv.
  intros Hfin. eapply finish_signed in Hfin; [| exact Hconf | | exact Hrel].
  - destruct outcome as [| w header err | w header]; [done | |].
    + destruct Hfin as [-> ->]. intros k Hk. apply lookup_removeTrailerSigningFields. tauto.
    + by destruct Hfin as [-> ?].
  - case_match; [by apply WriteHeader_inv | exact Hinv].
Qed.
End Streaming.
