(* ===== verification/TrailerVerification.v ===== *)
(** * Verification of trailers (body_integration.go 1059-1315)

    [BufferedTrailerVerificationMiddleware] and
    [BufferedTrailerVerifyingRoundTripper] drain a body, check its digest and
    the signature in the trailers that follow it, and only then pass the
    message on, with the drained content.  Bodies and the trailers after them
    are observations; [inbound_response] is the outcome of [HttpIntegration]. *)

From S2P Require Import Prelude GoStrings Errors Httpsfv StructuredFieldSafe SignatureFields.
From S2P Require Import HttpTypes GoTime ReplayStore Digest Algorithm Signer Verifier.
From S2P Require Import HttpFields BodyReader HttpIntegration BodyDigest TrailerFields.
Open Scope Z_scope.

Section Verification.
Context `{SFV : Httpsfv} `{UC : UnicodeCase} `{NU : NetURL} `{CR : Crypto} `{HS : Hashes}.
Context {S Obs : Type} `{RS : ReplayStore S Obs}.

(** ** Requests *)

Record BufferedTrailerVerificationMiddlewareConfig := mkTrailerVerificationConfig {
  tvc_verifier : option (option VerificationProfile);
  tvc_selectLabel : option (Request -> SignatureInputs -> Signatures -> res gostring);
  tvc_requiredAlgorithms : list DigestAlgorithm;
  tvc_maxBytes : Z;
  tvc_externalContext : option (Request -> res (option ExternalRequestContext));
  tvc_has_mapError : bool
}.

(** The closure a constructed middleware keeps. *)
Record BufferedTrailerVerificationMiddleware := mkTrailerVerification {
  tvm_verifier : VerificationProfile;
  tvm_selectLabel : Request -> SignatureInputs -> Signatures -> res gostring;
  tvm_algorithms : list DigestAlgorithm;
  tvm_maxBytes : Z;
  tvm_externalContext : option (Request -> res (option ExternalRequestContext))
}.

Definition NewBufferedTrailerVerificationMiddleware
  (config : BufferedTrailerVerificationMiddlewareConfig) : res BufferedTrailerVerificationMiddleware :=
  match tvc_verifier config, tvc_selectLabel config with
  | Some (Some profile), Some selectLabel =>
      if (tvc_maxBytes config <=? 0) || negb (tvc_has_mapError config) ||
         negb (verificationProfileCoversTrailerDigest profile)
      then Err (Sentinel ErrInvalidBodyIntegration)
      else
        match ComputeDigests (tvc_requiredAlgorithms config) [] with
        | Err _ => Err (Sentinel ErrInvalidBodyIntegration)
        | Ok _ =>
            Ok (mkTrailerVerification profile selectLabel ([] ++ tvc_requiredAlgorithms config)
                  (tvc_maxBytes config) (tvc_externalContext config))
        end
  | _, _ => Err (Sentinel ErrInvalidBodyIntegration)
  end.

(** The request the next handler serves, its content and the metadata in its
    context, or the error given to [MapError] and the calls of [Close]. *)
Inductive trailer_inbound :=
| TrailerServed (request : Request) (content : gostring) (verified : VerifiedSignature)
| TrailerMapped (err : error) (closed : nat).

(** The digest field, the input and the signature in the trailers of a drained
    message, and the digests checked against its content. *)
Definition checked_trailers (trailer : Header) (content : gostring)
  (algorithms : list DigestAlgorithm) (inputError signatureError : error)
  : res (SignatureInputs * Signatures) :=
  match ParseDigestFields (Header_Values trailer "Content-Digest") with
  | Err _ => Err (Sentinel ErrInvalidDigestField)
  | Ok digestField =>
      match DigestField_Verify digestField content algorithms with
      | Some err => Err err
      | None =>
          match ParseSignatureInputs (Header_Values trailer "Signature-Input") with
          | Err _ => Err inputError
          | Ok inputs =>
              match ParseSignatures (Header_Values trailer "Signature") with
              | Err _ => Err signatureError
              | Ok signatures => Ok (inputs, signatures)
              end
          end
      end
  end.

(** The request after its body was drained: the trailers that followed. *)
Definition drained_request (verifiedRequest : Request) (trailer : Header) : Request :=
  clone_request (RequestPtr verifiedRequest) verifiedRequest (RequestHeader verifiedRequest) trailer.

Definition BufferedTrailerVerification_ServeHTTP (middleware : BufferedTrailerVerificationMiddleware)
  (fresh : nat) (obs : VerificationObservation (Obs := Obs)) (store : S) (input : drained)
  (has_next : bool) (request : option Request) : option (S * trailer_inbound) :=
  match has_next, request with
  | true, Some request =>
      let reject err := Some (store, TrailerMapped err (closeRequestBody (Some request))) in
      match normalizeProtectedRequest fresh request with
      | Err err => reject err
      | Ok verifiedRequest =>
      content ← drain input (RequestBody verifiedRequest) (tvm_maxBytes middleware);
      match content with
      | Err err => reject err
      | Ok content =>
      match normalizeProtectedHeader (trailers_after input) with
      | Err err => reject err
      | Ok trailer =>
      let verifiedRequest := drained_request verifiedRequest trailer in
      match checked_trailers trailer content (tvm_algorithms middleware)
              (Sentinel ErrInvalidSignatureInput) (Sentinel ErrInvalidSignature) with
      | Err err => reject err
      | Ok (inputs, signatures) =>
      let snapshot := cloneRequestSnapshot (fresh + 1) verifiedRequest in
      match checked_label (tvm_selectLabel middleware snapshot inputs signatures) with
      | None => reject (Sentinel ErrInvalidHTTPIntegration)
      | Some label =>
      match external_of (tvm_externalContext middleware) snapshot with
      | Err _ => reject (Sentinel ErrInvalidHTTPIntegration)
      | Ok external =>
          '(store, verified) ← Verifier_Verify (Some (tvm_verifier middleware)) obs store
                                 (request_message verifiedRequest external) label inputs signatures;
          match verified with
          | Err err => Some (store, TrailerMapped err (closeRequestBody (Some request)))
          | Ok verified =>
              Some (store, TrailerServed
                (update_request (fresh + 2) verifiedRequest (RequestHeader verifiedRequest) trailer
                   (BodyReader (fresh + 3)) (RequestContentLength verifiedRequest)
                   (RequestTransferEncoding verifiedRequest)) content verified)
          end
      end
      end
      end
      end
      end
      end
  | _, _ => Some (store, TrailerMapped (Sentinel ErrInvalidBodyIntegration) 0)
  end.

(** ** Responses *)

Record BufferedTrailerVerifyingRoundTripperConfig := mkTrailerVerifyingConfig {
  ttc_has_transport : bool;
  ttc_verifier : option (option VerificationProfile);
  ttc_selectLabel : option (Request -> Response -> SignatureInputs -> Signatures -> res gostring);
  ttc_requiredAlgorithms : list DigestAlgorithm;
  ttc_maxBytes : Z;
  ttc_externalContext : option (Request * Response -> res (option ExternalRequestContext))
}.

Record BufferedTrailerVerifyingRoundTripper := mkTrailerVerifying {
  ttr_verifier : VerificationProfile;
  ttr_selectLabel : Request -> Response -> SignatureInputs -> Signatures -> res gostring;
  ttr_requiredAlgorithms : list DigestAlgorithm;
  ttr_maxBytes : Z;
  ttr_externalContext : option (Request * Response -> res (option ExternalRequestContext))
}.

Definition NewBufferedTrailerVerifyingRoundTripper
  (config : BufferedTrailerVerifyingRoundTripperConfig) : res BufferedTrailerVerifyingRoundTripper :=
  match ttc_has_transport config, ttc_verifier config, ttc_selectLabel config with
  | true, Some (Some profile), Some selectLabel =>
      if (ttc_maxBytes config <=? 0) || negb (verificationProfileCoversTrailerDigest profile)
      then Err (Sentinel ErrInvalidBodyIntegration)
      else
        match ComputeDigests (ttc_requiredAlgorithms config) [] with
        | Err _ => Err (Sentinel ErrInvalidBodyIntegration)
        | Ok _ =>
            Ok (mkTrailerVerifying profile selectLabel ([] ++ ttc_requiredAlgorithms config)
                  (ttc_maxBytes config) (ttc_externalContext config))
        end
  | _, _, _ => Err (Sentinel ErrInvalidBodyIntegration)
  end.

Definition BufferedTrailerVerifying_RoundTrip
  (transport : option BufferedTrailerVerifyingRoundTripper) (fresh : nat)
  (obs : VerificationObservation (Obs := Obs)) (store : S) (ctx_nil : bool) (exchange : exchange)
  (request : option Request) : option (S * inbound_response) :=
  match transport, request with
  | Some transport, Some request =>
  match transport_err exchange, received exchange with
  | Some err, response => Some (store, Upstream response err)
  | None, None => Some (store, Withheld (Sentinel ErrHTTPIntegrationVerification) 0)
  | None, Some response =>
      let closed := closes (ResponseBody response) in
      let fail cause := Some (store, Withheld (response_error cause) closed) in
      let invalid failure := fail (verificationError failure (Sentinel ErrInvalidHTTPIntegration)) in
      match snapshotResponseRequest fresh (ResponseRequest response) with
      | Err _ => fail (Sentinel ErrInvalidHTTPIntegration)
      | Ok related =>
      match normalizeProtectedHeader (ResponseHeader response) with
      | Err err => fail err
      | Ok header =>
      if responseTransitionsProtocol related response
      then fail (Sentinel ErrInvalidHTTPIntegration)
      else if Uncompressed response then fail (Sentinel ErrInvalidBodyIntegration)
      else
      content ← drain (mkDrained ctx_nil (received_body exchange) (trailer_after exchange))
                  (ResponseBody response) (ttr_maxBytes transport);
      match content with
      | Err err => fail err
      | Ok content =>
      match normalizeProtectedHeader (trailer_after exchange) with
      | Err err => fail err
      | Ok trailer =>
      match checked_trailers trailer content (ttr_requiredAlgorithms transport)
              (verificationError VerificationSelection (Sentinel ErrInvalidSignatureInput))
              (verificationError VerificationSelection (Sentinel ErrInvalidSignature)) with
      | Err err => fail err
      | Ok (inputs, signatures) =>
      let response :=
        update_response response header trailer (ResponseBody response)
          (ResponseContentLength response) (ResponseRequest response) in
      match checked_label
              (ttr_selectLabel transport (cloneRequestSnapshot (fresh + 1) related)
                 (responseCallbackSnapshot (fresh + 2) response related) inputs signatures) with
      | None => invalid VerificationSelection
      | Some label =>
      match external_of (ttr_externalContext transport)
              (cloneRequestSnapshot (fresh + 3) related,
               responseCallbackSnapshot (fresh + 4) response related) with
      | Err _ => invalid VerificationBase
      | Ok external =>
          '(store, verified) ← Verifier_Verify (Some (ttr_verifier transport)) obs store
                                 (received_message response related external) label inputs signatures;
          match verified with
          | Err err => Some (store, Withheld (response_error err) closed)
          | Ok verified =>
              Some (store, Released
                (update_response response (ResponseHeader response) (ResponseTrailer response)
                   (BodyReader (fresh + 5)) (len content)
                   (Some (clone_request (fresh + 6) related (RequestHeader related)
                            (RequestTrailer related)))) (Some content) verified)
          end
      end
      end
      end
      end
      end
      end
      end
  end
  | _, _ => Some (store, Withheld (Sentinel ErrInvalidBodyIntegration) 0)
  end.
End Verification.
