(* ===== verification/TrailerVerificationFacts.v ===== *)
(** * What the trailer verification adapters let through

    A handler serves, and a client gets, only a drained content whose digests
    are in trailers that a verified signature covers. *)

From S2P Require Import Prelude GoStrings Errors Httpsfv StructuredFieldSafe SignatureFields.
From S2P Require Import HttpTypes GoTime ReplayStore Digest DigestFacts Algorithm Signer Verifier.
From S2P Require Import VerifierFacts HttpFields BodyReader HttpIntegration HttpFacts BodyDigest.
From S2P Require Import BodyDigestFacts TrailerFields TrailerVerification.
Open Scope Z_scope.

Section Verification.
Context `{SFV : Httpsfv} `{UC : UnicodeCase} `{NU : NetURL} `{CR : Crypto} `{HS : Hashes}.
Context {S Obs : Type} `{RS : ReplayStore S Obs}.

Implicit Types (obs : VerificationObservation (Obs := Obs)) (store : S).

(** The digest of the content is in the trailers, and so is the signature the
    application selected, which the profile accepts for the message and which
    covers the digest. *)
Definition trailers_authentic (verifier : VerificationProfile) obs store store' (trailer : Header)
  (content : gostring) (algorithms : list DigestAlgorithm)
  (select : SignatureInputs -> Signatures -> res gostring) (message : MessageContext)
  (label : gostring) (verified : VerifiedSignature) : Prop :=
  exists field inputs signatures input c,
    ParseDigestFields (Header_Values trailer "Content-Digest") = Ok field /\ algorithms <> [] /\
    (forall a, a ∈ algorithms -> digest_matches field content a) /\
    ParseSignatureInputs (Header_Values trailer "Signature-Input") = Ok inputs /\
    ParseSignatures (Header_Values trailer "Signature") = Ok signatures /\
    select inputs signatures = Ok label /\
    accepted (Some verifier) obs store store' message label inputs signatures input verified /\
    c ∈ Components input /\ componentComparisonKey c = Ok (comparison_key trailer_digest).

Lemma covers_required verifier obs store store' message label inputs signatures input verified :
  verificationProfileCoversTrailerDigest verifier = true ->
  accepted (Some verifier) obs store store' message label inputs signatures input verified ->
  exists c, c ∈ Components input /\ componentComparisonKey c = Ok (comparison_key trailer_digest).
Proof.
  intros Hcov (profile & signature & metadata & base & key & [= <-] & Hver & _).
  apply existsb_exists in Hcov as (c & Hin%list_elem_of_In & Heq%bool_decide_eq_true).
  pose proof (ver_input _ _ _ _ _ _ _ _ _ _ _ _ Hver) as Hinput.
  apply validateInput_Ok in Hinput. rewrite <- Heq. by apply (acc_coverage _ _ _ _ Hinput).
Qed.

Lemma checked_trailers_Ok trailer content algorithms e1 e2 inputs signatures :
  checked_trailers trailer content algorithms e1 e2 = Ok (inputs, signatures) ->
  exists field, ParseDigestFields (Header_Values trailer "Content-Digest") = Ok field /\
    algorithms <> [] /\ (forall a, a ∈ algorithms -> digest_matches field content a) /\
    ParseSignatureInputs (Header_Values trailer "Signature-Input") = Ok inputs /\
    ParseSignatures (Header_Values trailer "Signature") = Ok signatures.
Proof.
  unfold checked_trailers. destruct (ParseDigestFields _) as [field |]; [| done].
  destruct (DigestField_Verify _ _ _) eqn:Hv; [done |].
  apply DigestField_Verify_cases in Hv as (Hne & _ & Hall).
  destruct (ParseSignatureInputs _) as [i |]; [| done].
  destruct (ParseSignatures _) as [g |]; [| done]. intros [= <- <-]. by exists field.
Qed.

(** C17: a handler behind the trailer middleware.  It serves only a request whose
    body was drained within the limit, with exactly that content, whose
    trailers after the body hold a matching digest for every required
    algorithm, and whose signature, in the trailers, the application selected
    among those of this request and the profile accepted over this very
    request with these trailers and the external context the application gave
    for it; the signature covers content-digest in the trailers. *)
Theorem handler_serves_trailer_verified config middleware fresh obs store input has_next request store'
    served content verified :
  NewBufferedTrailerVerificationMiddleware config = Ok middleware ->
  BufferedTrailerVerification_ServeHTTP middleware fresh obs store input has_next (Some request) =
    Some (store', TrailerServed served content verified) ->
  drains input (RequestBody request) (tvm_maxBytes middleware) content /\
  normalized_from (RequestHeader request) (RequestHeader served) protectedHTTPFieldNames
    (RequestHeader request) /\
  normalized_from (trailers_after input) (RequestTrailer served) protectedHTTPFieldNames
    (trailers_after input) /\
  let verified_request := clone_request fresh request (RequestHeader served) (RequestTrailer served) in
  served = update_request (fresh + 2) request (RequestHeader served) (RequestTrailer served)
    (BodyReader (fresh + 3)) (RequestContentLength request) (RequestTransferEncoding request) /\
  exists label external,
    external_of (tvm_externalContext middleware) (cloneRequestSnapshot (fresh + 1) verified_request) =
      Ok external /\
    trailers_authentic (tvm_verifier middleware) obs store store' (RequestTrailer served) content
      (tvm_algorithms middleware)
      (tvm_selectLabel middleware (cloneRequestSnapshot (fresh + 1) verified_request))
      (request_message verified_request external) label verified.
Proof.
  intros Hconf Hserve.
  assert (0 < tvm_maxBytes middleware /\ verificationProfileCoversTrailerDigest (tvm_verifier middleware) = true) as [Hmax Hcov].
  { unfold NewBufferedTrailerVerificationMiddleware in Hconf.
    destruct (tvc_verifier config) as [[profile |] |]; [| done | done].
    destruct (tvc_selectLabel config); [| done]. destruct (_ || _ || _) eqn:Hc; [done |].
    destruct (ComputeDigests _ _); [| done]. injection Hconf as <-. cbn.
    apply orb_false_iff in Hc as [Hc Hcov]. apply negb_false_iff in Hcov. split; [lia | done]. }
  unfold BufferedTrailerVerification_ServeHTTP in Hserve. destruct has_next; [| done]. cbv zeta in Hserve.
  destruct (normalizeProtectedRequest fresh request) as [req |] eqn:Hn; [| done].
  assert (RequestPtr req = fresh) as Hptr
    by (by apply rbind_Ok in Hn as (? & _ & (? & _ & [= <-])%rbind_Ok)).
  apply normalizeProtectedRequest_Ok in Hn as (Heq & Hh & _). rewrite Hptr in Heq.
  assert (RequestBody req = RequestBody request) as Hbody by (by rewrite Heq). rewrite Hbody in Hserve.
  destruct (drain_cases input (RequestBody request) (tvm_maxBytes middleware) Hmax) as (r & Hr & Hdrains).
  rewrite Hr in Hserve. cbn [mbind option_bind] in Hserve. destruct r as [ct |]; [| done].
  destruct (normalizeProtectedHeader (trailers_after input)) as [trailer |] eqn:Ht; [| done].
  apply normalizeProtectedHeader_Ok in Ht.
  destruct (checked_trailers _ _ _ _ _) as [[inputs signatures] |] eqn:Hchk; [| done].
  destruct (checked_label _) as [label |] eqn:Hl; [| done]. apply checked_label_Some in Hl as [Hl _].
  destruct (external_of _ _) as [external |] eqn:Hext; [| done].
  destruct (Verifier_Verify _ _ _ _ _ _ _) as [[store1 result] |] eqn:Hv; cbn [mbind option_bind] in Hserve; [| done].
  destruct result as [metadata |]; [| done]. injection Hserve as -> <- <- <-.
  apply Verifier_Verify_accepted in Hv as [inp Hacc].
  destruct (covers_required _ _ _ _ _ _ _ _ _ _ Hcov Hacc) as (c & Hin & Hkey).
  apply checked_trailers_Ok in Hchk as (field & Hf & Hne & Hall & Hi & Hs).
  split; [by apply Hdrains |]. cbn [RequestHeader RequestTrailer update_request drained_request clone_request].
  split; [exact Hh |]. split; [exact Ht |]. cbv zeta. split; [by rewrite Heq |].
  assert (drained_request req trailer = clone_request fresh request (RequestHeader req) trailer) as Hdr
    by (unfold drained_request; by rewrite Hptr, Heq).
  rewrite Hdr in Hl, Hext, Hacc. exists label, external. split; [exact Hext |].
  by exists field, inputs, signatures, inp, c.
Qed.

(** C18: a client behind the trailer transport.  It gets only a response whose
    body was drained within the limit, with exactly that content and its
    length, whose trailers after the body hold a matching digest for every
    required algorithm, and whose signature, in the trailers, the application
    selected and the profile accepted over the status, fields, trailers and
    length on the wire, related to the request it answers; the signature
    covers content-digest in the trailers. *)
Theorem released_trailers_authentic config transport fresh obs store ctx_nil exchange request store'
    released content verified :
  NewBufferedTrailerVerifyingRoundTripper config = Ok transport ->
  BufferedTrailerVerifying_RoundTrip (Some transport) fresh obs store ctx_nil exchange (Some request) =
    Some (store', Released released content verified) ->
  exists response original related text label external,
    let wire := update_response response (ResponseHeader released) (ResponseTrailer released)
      (ResponseBody response) (ResponseContentLength response) (ResponseRequest response) in
    received exchange = Some response /\ transport_err exchange = None /\
    ResponseRequest response = Some original /\ normalized_request original related /\
    content = Some text /\
    drains (mkDrained ctx_nil (received_body exchange) (trailer_after exchange)) (ResponseBody response)
      (ttr_maxBytes transport) text /\
    ResponseContentLength released = len text /\ StatusCode released = StatusCode response /\
    released = update_response response (ResponseHeader released) (ResponseTrailer released)
      (BodyReader (fresh + 5)) (len text)
      (Some (clone_request (fresh + 6) related (RequestHeader related) (RequestTrailer related))) /\
    normalized_from (ResponseHeader response) (ResponseHeader released) protectedHTTPFieldNames
      (ResponseHeader response) /\
    normalized_from (trailer_after exchange) (ResponseTrailer released) protectedHTTPFieldNames
      (trailer_after exchange) /\
    trailers_authentic (ttr_verifier transport) obs store store' (ResponseTrailer released) text
      (ttr_requiredAlgorithms transport)
      (ttr_selectLabel transport (cloneRequestSnapshot (fresh + 1) related)
         (responseCallbackSnapshot (fresh + 2) wire related))
      (received_message wire related external) label verified /\
    external_of (ttr_externalContext transport)
      (cloneRequestSnapshot (fresh + 3) related,
       responseCallbackSnapshot (fresh + 4) wire related) = Ok external.
Proof.
  intros Hconf Htrip.
  assert (0 < ttr_maxBytes transport /\ verificationProfileCoversTrailerDigest (ttr_verifier transport) = true) as [Hmax Hcov].
  { unfold NewBufferedTrailerVerifyingRoundTripper in Hconf. destruct (ttc_has_transport config); [| done].
    destruct (ttc_verifier config) as [[profile |] |]; [| done | done].
    destruct (ttc_selectLabel config); [| done]. destruct (_ || _) eqn:Hc; [done |].
    destruct (ComputeDigests _ _); [| done]. injection Hconf as <-. cbn.
    apply orb_false_iff in Hc as [Hc Hcov]. apply negb_false_iff in Hcov. split; [lia | done]. }
  unfold BufferedTrailerVerifying_RoundTrip in Htrip. cbv zeta in Htrip.
  destruct (transport_err exchange); [done |]. destruct (received exchange) as [response |]; [| done].
  destruct (snapshotResponseRequest _ _) as [related |] eqn:Hrel; [| done].
  destruct (normalizeProtectedHeader (ResponseHeader response)) as [header |] eqn:Hh; [| done].
  destruct (responseTransitionsProtocol _ _); [done |]. destruct (Uncompressed response); [done |].
  set (input := mkDrained _ _ _) in *.
  destruct (drain_cases input (ResponseBody response) (ttr_maxBytes transport) Hmax) as (r & Hr & Hdrains).
  rewrite Hr in Htrip. cbn [mbind option_bind] in Htrip. destruct r as [ct |]; [| done].
  destruct (normalizeProtectedHeader (trailer_after exchange)) as [trailer |] eqn:Ht; [| done].
  destruct (checked_trailers _ _ _ _ _) as [[inputs signatures] |] eqn:Hchk; [| done].
  destruct (checked_label _) as [label |] eqn:Hl; [| done]. apply checked_label_Some in Hl as [Hl _].
  destruct (external_of _ _) as [external |] eqn:Hext; [| done].
  destruct (Verifier_Verify _ _ _ _ _ _ _) as [[store1 result] |] eqn:Hv; cbn [mbind option_bind] in Htrip; [| done].
  destruct result as [metadata |]; [| done]. injection Htrip as -> <- <- <-.
  apply Verifier_Verify_accepted in Hv as [inp Hacc].
  destruct (covers_required _ _ _ _ _ _ _ _ _ _ Hcov Hacc) as (c & Hin & Hkey).
  apply checked_trailers_Ok in Hchk as (field & Hf & Hne & Hall & Hi & Hs).
  unfold snapshotResponseRequest in Hrel. destruct (ResponseRequest response) as [original |] eqn:Hreq; [| done].
  destruct (is_nil (RequestURL original)); [done |]. apply normalizeProtectedRequest_Ok in Hrel.
  apply normalizeProtectedHeader_Ok in Hh, Ht.
  exists response, original, related, ct, label, external.
  cbv zeta. cbn [StatusCode ResponseHeader ResponseTrailer ResponseContentLength update_response].
  do 5 (split; [done |]). split; [by apply Hdrains |]. do 5 (split; [done |]).
  rewrite Hreq. split; [| exact Hext]. by exists field, inputs, signatures, inp, c.
Qed.
End Verification.
