(* ===== verification/Compatibility.v ===== *)
(** * Boundaries for other schemes (compatibility/adapter.go)

    Adapters that let caller-supplied code sign or verify with a scheme other
    than RFC 9421, on a view of the request that is isolated from the one that
    is delegated or served.  The caller's [Sign] and [Verify] are functions
    from the view to an error and, for [Sign], the headers and trailers it
    leaves in the view; the wrapped transport, the reporter and the handler
    are outcomes.  The body of the view refuses reads. *)

From S2P Require Import Prelude GoStrings HttpTypes HttpFields HttpIntegration.
Open Scope Z_scope.

Definition Protocol := gostring.
Definition CavageDraft : Protocol := str "cavage-draft".
Definition AWSSigV4 : Protocol := str "aws-sigv4".
Definition OAuth1 : Protocol := str "oauth1".

Inductive Operation : Set := OperationSign | OperationVerify.

(** The package's own errors. *)
Inductive compatibility_error : Set := ErrInvalidAdapter | ErrSigning | ErrVerification.

Abbreviation result_of := (result compatibility_error).

(** ** Names of vendor schemes *)

Definition vendor_char (character : ascii) : bool :=
  is_lower character || is_digit character || char_eqb character "-" || char_eqb character "_" ||
  char_eqb character ".".

Definition vendorProtocol (name : gostring) : option Protocol :=
  if (len name =? 0) || (64 <? len name) then None
  else if forallb vendor_char name then Some (str "vendor:" ++ name) else None.

(** ** The isolated view *)

(** A request with what [net/http] keeps beside its metadata: whether its body
    is the one that refuses reads, and whether it has [GetBody], parsed forms
    and a redirect response. *)
Record message := mkMessageView {
  metadata : Request;
  refusing_body : bool;
  has_get_body : bool;
  has_forms : bool;
  has_response : bool
}.

(** The metadata of a view: no body of the caller and no TLS state. *)
Definition isolated_metadata (fresh : nat) (request : Request) : Request := {|
  RequestPtr := fresh;
  Method := Method request;
  RequestURL := RequestURL request;
  RequestProtoMajor := RequestProtoMajor request;
  RequestProtoMinor := RequestProtoMinor request;
  RequestHeader := RequestHeader request;
  RequestBody := BodyNil;
  RequestContentLength := RequestContentLength request;
  RequestTransferEncoding := RequestTransferEncoding request;
  RequestClose := RequestClose request;
  Host := Host request;
  RequestTrailer := RequestTrailer request;
  RequestURI := RequestURI request;
  RequestTLS := false
|}.

(** The view.  Its body is none, or one that refuses every read
    ([isolatedBody_Read]), told apart by [refusing_body].  The view owns copies
    of all that the callback could reach; what it did to them is [view_header]
    and [view_trailer] of its effect, and nothing else of the view is read
    again. *)
Definition isolatedCallbackRequest (fresh : nat) (request : message) : message := {|
  metadata := isolated_metadata fresh (metadata request);
  refusing_body := negb (bool_decide (RequestBody (metadata request) = BodyNil));
  has_get_body := false;
  has_forms := false;
  has_response := false
|}.

(** [isolatedBody.Read]: no bytes and an error. *)
Inductive isolated_read : Set := errCallbackBodyAccess.
Definition isolatedBody_Read (buffer : gostring) : Z * isolated_read := (0, errCallbackBodyAccess).

Definition isRFC9421Field (name : gostring) : bool :=
  EqualFold name "Signature-Input" || EqualFold name "Signature" || EqualFold name "Accept-Signature".

Definition cloneStrings (values : list gostring) : list gostring := [] ++ values.

(** The callback's fields without those of RFC 9421, and the original's fields
    of RFC 9421. *)
Definition compatibleSigningFields (callback original : Header) : Header :=
  let fields := filter (fun '(name, _) => isRFC9421Field name = false) callback in
  map_fold (fun name values fields =>
    if isRFC9421Field name then <[name := cloneStrings values]> fields else fields) fields original.

(** ** Outbound *)

(** What the signing callback makes of the view. *)
Record sign_effect {E : Type} := mkSignEffect {
  view_header : Header;
  view_trailer : Header;
  sign_error : option E
}.
Arguments sign_effect E : clear implicits.

Section Adapters.
Context {E : Type}.

Record CompatSigningRoundTripperConfig := mkCompatSigningConfig {
  has_transport : bool;
  config_sign : option (message -> sign_effect E);
  has_report : bool
}.

Record CompatSigningRoundTripper := mkCompatSigning {
  protocol : Protocol;
  sign : message -> sign_effect E
}.

Definition newSigningRoundTripper (p : Protocol) (config : CompatSigningRoundTripperConfig)
  : result_of CompatSigningRoundTripper :=
  match has_transport config, config_sign config, has_report config with
  | true, Some sign, true => Ok (mkCompatSigning p sign)
  | _, _, _ => Err ErrInvalidAdapter
  end.

Definition NewCavageSigningRoundTripper := newSigningRoundTripper CavageDraft.
Definition NewAWSSigV4SigningRoundTripper := newSigningRoundTripper AWSSigV4.
Definition NewOAuth1SigningRoundTripper := newSigningRoundTripper OAuth1.

Definition NewVendorSigningRoundTripper (name : gostring) (config : CompatSigningRoundTripperConfig)
  : result_of CompatSigningRoundTripper :=
  match vendorProtocol name with
  | None => Err ErrInvalidAdapter
  | Some p => newSigningRoundTripper p config
  end.

Definition SigningRoundTripper_Protocol (adapter : option CompatSigningRoundTripper) : Protocol :=
  match adapter with None => [] | Some adapter => protocol adapter end.

(** The request the transport gets, or an error with what was reported and the
    calls of [Close] on the caller's body. *)
Inductive outbound_result :=
| CompatDelegated (request : message)
| CompatRefused (err : compatibility_error) (reported : option (Protocol * Operation * E))
    (closed : nat).

Definition with_fields (request : message) (header trailer : Header) : message :=
  mkMessageView (clone_request (RequestPtr (metadata request)) (metadata request) header trailer)
    (refusing_body request) (has_get_body request) (has_forms request) (has_response request).

(** [request.Clone]. *)
Definition clone_message (fresh : nat) (request : message) : message :=
  mkMessageView (clone_request fresh (metadata request) (RequestHeader (metadata request))
                   (RequestTrailer (metadata request)))
    (refusing_body request) (has_get_body request) (has_forms request) (has_response request).

Definition Compat_RoundTrip (adapter : option CompatSigningRoundTripper) (fresh : nat)
  (request : option message) : outbound_result :=
  match adapter, request with
  | Some adapter, Some request =>
      let delegated := clone_message fresh request in
      let effect := sign adapter (isolatedCallbackRequest (fresh + 1) delegated) in
      match sign_error effect with
      | Some err =>
          CompatRefused ErrSigning (Some (protocol adapter, OperationSign, err))
            (closes (RequestBody (metadata request)))
      | None =>
          CompatDelegated (with_fields delegated
            (compatibleSigningFields (view_header effect) (RequestHeader (metadata delegated)))
            (compatibleSigningFields (view_trailer effect) (RequestTrailer (metadata delegated))))
      end
  | _, _ => CompatRefused ErrInvalidAdapter None 0
  end.

(** ** Inbound *)

Record VerificationMiddlewareConfig := mkCompatVerificationConfig {
  config_verify : option (message -> option E);
  verify_has_report : bool;
  has_reject : bool
}.

Record VerificationMiddleware := mkCompatVerification {
  verify_protocol : Protocol;
  verify : message -> option E
}.

Definition newVerificationMiddleware (p : Protocol) (config : VerificationMiddlewareConfig)
  : result_of VerificationMiddleware :=
  match config_verify config, verify_has_report config, has_reject config with
  | Some verify, true, true => Ok (mkCompatVerification p verify)
  | _, _, _ => Err ErrInvalidAdapter
  end.

Definition NewCavageVerificationMiddleware := newVerificationMiddleware CavageDraft.
Definition NewAWSSigV4VerificationMiddleware := newVerificationMiddleware AWSSigV4.
Definition NewOAuth1VerificationMiddleware := newVerificationMiddleware OAuth1.

Definition NewVendorVerificationMiddleware (name : gostring) (config : VerificationMiddlewareConfig)
  : result_of VerificationMiddleware :=
  match vendorProtocol name with
  | None => Err ErrInvalidAdapter
  | Some p => newVerificationMiddleware p config
  end.

(** The request the next handler serves, a status written for a missing handler
    or request, or the sanitized error given to [Reject] with the report. *)
Inductive inbound_result :=
| CompatServed (request : message)
| CompatInternalError (status : Z)
| CompatRejected (request : message) (err : compatibility_error)
    (reported : Protocol * Operation * E).

Definition Compat_ServeHTTP (middleware : VerificationMiddleware) (fresh : nat) (has_next : bool)
  (request : option message) : inbound_result :=
  match has_next, request with
  | true, Some request =>
      match verify middleware (isolatedCallbackRequest fresh request) with
      | Some err =>
          CompatRejected request ErrVerification (verify_protocol middleware, OperationVerify, err)
      | None => CompatServed request
      end
  | _, _ => CompatInternalError 500
  end.

(** ** What the boundary guarantees *)

Lemma lookup_compatibleSigningFields callback original name :
  compatibleSigningFields callback original !! name =
    if isRFC9421Field name then original !! name else callback !! name.
Proof.
  unfold compatibleSigningFields. cbv zeta. set (fields := filter _ callback).
  assert (fields !! name = if isRFC9421Field name then None else callback !! name) as H0.
  { unfold fields. destruct (isRFC9421Field name) eqn:Hn.
    - apply map_lookup_filter_None. right. intros v _. by rewrite Hn.
    - destruct (callback !! name) as [v |] eqn:Hv; [by apply map_lookup_filter_Some |].
      apply map_lookup_filter_None. by left. }
  clearbody fields. apply (map_fold_weak_ind (fun r m => r !! name =
    if isRFC9421Field name then m !! name else callback !! name)).
  - rewrite H0. by destruct (isRFC9421Field name).
  - intros k v m r Hk Hr. destruct (isRFC9421Field k) eqn:Hf.
    + destruct (decide (k = name)) as [<- | Hne].
      * rewrite !lookup_insert_eq, Hf. done.
      * by rewrite !lookup_insert_ne.
    + rewrite Hr. destruct (isRFC9421Field name) eqn:Hn; [| done].
      rewrite lookup_insert_ne; [done |]. congruence.
Qed.

(** Names of vendor schemes.  A name is accepted exactly when it has 1 to 64
    lowercase letters, digits, hyphens, underscores and dots; its protocol is
    the name with a prefix, so that different names give different protocols
    and none is one of the built-in schemes. *)
Theorem vendorProtocol_exact name p :
  vendorProtocol name = Some p <->
  1 <= len name <= 64 /\ forallb vendor_char name = true /\ p = str "vendor:" ++ name /\
  p <> CavageDraft /\ p <> AWSSigV4 /\ p <> OAuth1.
Proof.
  unfold vendorProtocol. pose proof (len_nonneg name). split.
  - destruct ((len name =? 0) || (64 <? len name)) eqn:Hl; [done |].
    destruct (forallb vendor_char name) eqn:Hc; [| done]. intros [= <-].
    split; [lia |]. do 2 (split; [done |]). repeat split; intros [=].
  - intros (Hl & -> & -> & _). replace ((len name =? 0) || (64 <? len name)) with false by lia. done.
Qed.

(** C24: the outbound boundary.  The callback sees a view without the body, the
    TLS state, forms or [GetBody] of the request.  When it fails, nothing is
    delegated, the caller's body is closed once, the failure goes to the
    reporter and only a fixed error to the caller.  When it succeeds, the
    delegated request is the caller's except for its fields and trailers:
    those of RFC 9421 are the caller's and all others are the callback's. *)
Theorem compat_signing_boundary adapter fresh request :
  let view := isolatedCallbackRequest (fresh + 1) (clone_message fresh request) in
  let effect := sign adapter view in
  RequestBody (metadata view) = BodyNil /\ RequestTLS (metadata view) = false /\
  has_get_body view = false /\ has_forms view = false /\ has_response view = false /\
  match sign_error effect with
  | Some err =>
      Compat_RoundTrip (Some adapter) fresh (Some request) =
        CompatRefused ErrSigning (Some (protocol adapter, OperationSign, err))
          (closes (RequestBody (metadata request)))
  | None =>
      exists header trailer,
        Compat_RoundTrip (Some adapter) fresh (Some request) =
          CompatDelegated (with_fields (clone_message fresh request) header trailer) /\
        forall name,
          header !! name = (if isRFC9421Field name then RequestHeader (metadata request) !! name
                            else view_header effect !! name) /\
          trailer !! name = (if isRFC9421Field name then RequestTrailer (metadata request) !! name
                             else view_trailer effect !! name)
  end.
Proof.
  cbv zeta. do 5 (split; [done |]). unfold Compat_RoundTrip. cbv zeta.
  destruct (sign_error _) as [err |]; [done |]. eexists _, _. split; [done |].
  intros name. by rewrite !lookup_compatibleSigningFields.
Qed.

(** The inbound boundary.  The next handler is called exactly when the
    callback accepts the isolated view, and it gets the request itself; a
    refusal is reported, and the response is given only a fixed error. *)
Theorem compat_verification_boundary middleware fresh request served :
  (Compat_ServeHTTP middleware fresh true (Some request) = CompatServed served <->
   verify middleware (isolatedCallbackRequest fresh request) = None /\ served = request) /\
  (forall err, verify middleware (isolatedCallbackRequest fresh request) = Some err ->
   Compat_ServeHTTP middleware fresh true (Some request) =
     CompatRejected request ErrVerification (verify_protocol middleware, OperationVerify, err)).
Proof.
  unfold Compat_ServeHTTP. split.
  - destruct (verify middleware _); split; [done | by intros [? _] | by intros [= <-] | by intros [_ ->]].
  - by intros err ->.
Qed.
End Adapters.
