(* ===== verification/Instances.v ===== *)
(** * Concrete instances of the parameters

    Small executable instances of the interfaces the development takes as
    parameters: net/url, Unicode case mapping and the cryptographic
    primitives.  They satisfy the laws the theorems assume, so they show that
    the hypotheses can hold; they are not the libraries' code and not secure.
    With [HttpsfvRef] and the in-memory replay store they run the program's
    definitions on the request of RFC 9421, appendix B.2. *)

From S2P Require Import Prelude GoStrings Errors SyntaxLimits Httpsfv HttpsfvRef.
From S2P Require Import StructuredFieldSafe SignatureFields HttpTypes MessageLimits.
From S2P Require Import MessageFields MessageDerived MessageBase GoTime Replay ReplayStore.
From S2P Require Import ReplayFacts Digest Algorithm AlgorithmFacts Signer Verifier.
Open Scope Z_scope.

#[export] Existing Instance ref_sfv.

#[export] Instance ref_unicode : UnicodeCase := { ToLower_unicode s := s }.

(** ** net/url for the forms the program parses *)

(** Split at the first byte of [set]. *)
Fixpoint cut_at (set s : gostring) : gostring * gostring :=
  match s with
  | [] => ([], [])
  | c :: r => if char_mem c set then ([], s) else let '(a, b) := cut_at set r in (c :: a, b)
  end.

Definition parse_rest (scheme : gostring) (host : gostring) (rest : gostring) : URL :=
  let '(path, query) := cut_at "?" rest in
  match query with
  | [] => mkURL scheme [] false host path [] false [] []
  | _ :: q => mkURL scheme [] false host path [] (is_nil (head q)) q []
  end.

Definition ref_parse (s : gostring) : option URL :=
  let '(before, after) := cut_at ":/?" s in
  match CutPrefix after "://" with
  | Some r => let '(host, rest) := cut_at "/?" r in Some (parse_rest before host rest)
  | None =>
      match CutPrefix s "//" with
      | Some r => let '(host, rest) := cut_at "/?" r in Some (parse_rest [] host rest)
      | None => Some (parse_rest [] [] s)
      end
  end.

#[export] Instance ref_url : NetURL := {
  url_Parse := ref_parse;
  url_ParseRequestURI := ref_parse;
  EscapedPath := URLPath;
  RequestURI_of u := match RawQuery u with [] => URLPath u | q => URLPath u ++ "?"%char :: q end
}.

(** ** Primitives *)

Definition ref_hash (size : nat) (s : gostring) : gostring := fill_bytes size (SetBytes s) [].

Definition ref_rsa (k : rsaPublicKey) (digest : gostring) : gostring :=
  fill_bytes (Z.to_nat (rsa_Size k)) (SetBytes digest) [].

#[export] Instance ref_hashes : Hashes := { Sum256 := ref_hash 32; Sum512 := ref_hash 64 }.

#[export] Instance ref_crypto : Crypto := {
  crypto_hashes := ref_hashes;
  Sum384 := ref_hash 48;
  hmac_sha256 k m := ref_hash 32 (k ++ m);
  rsa_Validate k := true;
  rsa_SignPSS _ k d := Some (ref_rsa (rsa_public k) d);
  rsa_VerifyPSS k d s := s =s ref_rsa k d;
  rsa_SignPKCS1v15 k d := Some (ref_rsa (rsa_public k) d);
  rsa_VerifyPKCS1v15 k d s := s =s ref_rsa k d;
  ecdsa_PublicBytes k := Returns (ecdsa_point k);
  ecdsa_PrivateBytes k := Returns (ecdsa_scalar k);
  ecdsa_ParsePublic c b := Some (mkECDSAPublic (Some c) b);
  ecdsa_ParsePrivate c b := Some (mkECDSAPrivate (mkECDSAPublic (Some c) b) b);
  ecdsa_Sign random k d := Some (SetBytes d mod 2 ^ 256, 1);
  ecdsa_Verify k d r s := (r =? SetBytes d mod 2 ^ 256) && (s =? 1);
  ed25519_NewKeyFromSeed seed := seed ++ seed;
  ed25519_Sign k m := ref_hash 64 m;
  ed25519_Verify k m s := s =s ref_hash 64 m
}.

#[export] Instance ref_hash_laws : HashLaws.
Proof.
  split; intros s; cbn [Sum256 Sum512 ref_hashes]; unfold ref_hash, len;
    rewrite length_fill_bytes; reflexivity.
Qed.

Lemma ref_rsa_length k digest :
  validRSAPublicKey (Some k) = true -> len (ref_rsa k digest) = rsa_Size k.
Proof.
  intros Hv. unfold ref_rsa, len. rewrite length_fill_bytes, Z2Nat.id; [done |].
  unfold rsa_Size, BitLen. apply Z.div_pos; [| lia].
  destruct (_ =? 0); [lia |]. pose proof (Z.log2_nonneg (Z.abs (default 0 (rsa_N k)))). lia.
Qed.

#[export] Instance ref_crypto_laws : CryptoLaws.
Proof.
  split.
  - intros r k d s Hk [= <-]. split; [apply ref_rsa_length; by apply andb_true_iff in Hk as [? _] |].
    by apply bool_decide_eq_true_2.
  - intros k d s Hk [= <-]. split; [apply ref_rsa_length; by apply andb_true_iff in Hk as [? _] |].
    by apply bool_decide_eq_true_2.
  - intros random k d r s curve size _ Hsize [= <- <-].
    pose proof (Z.mod_pos_bound (SetBytes d) (2 ^ 256) ltac:(lia)).
    assert (2 ^ 256 <= 256 ^ size) as Hle.
    { destruct Hsize as [[= _ ->] | [= _ ->]]; vm_compute; discriminate. }
    split; [lia |]. split; [lia |]. cbn. by rewrite Z.eqb_refl.
  - intros k base _. split.
    { cbn [ed25519_Sign ref_crypto]. unfold ref_hash, len. by rewrite length_fill_bytes. }
    by apply bool_decide_eq_true_2.
Qed.

(** ** The request of RFC 9421, appendix B.2 *)

Definition header_of (l : list (string * string)) : Header :=
  list_to_map (map (fun '(k, v) => (str k, [str v])) l).

Definition test_request : Request := {|
  RequestPtr := 1;
  Method := "POST";
  RequestURL := Some (mkURL [] [] false [] "/foo" [] false "param=Value&Pet=dog" []);
  RequestProtoMajor := 1;
  RequestProtoMinor := 1;
  RequestHeader := header_of
    [("Date", "Tue, 20 Apr 2021 02:07:55 GMT"); ("Content-Type", "application/json");
     ("Content-Length", "18"); ("X-List", " a,   b ")]%string;
  RequestBody := BodyReader 0;
  RequestContentLength := 18;
  RequestTransferEncoding := [];
  RequestClose := false;
  Host := "example.com";
  RequestTrailer := ∅;
  RequestURI := "/foo?param=Value&Pet=dog";
  RequestTLS := true
|}.

Definition test_message : MessageContext := {|
  MessageRequest := Some test_request;
  MessageResponse := None;
  RelatedRequest := None;
  ExternalRequest := None;
  StructuredFields := {[ str "x-list" := StructuredFieldList ]};
  ResponseTransport := ResponseTransportUnspecified;
  MaxSignatureBaseBytes := 0
|}.

Definition component (n : string) : ComponentIdentifier := mkComponent n [].

Definition test_input : SignatureInput :=
  mkSignatureInput "sig1" [component "date"; component "@authority"; component "content-type"]
    [mkParam "created" (AInt64 1618884473); mkParam "keyid" (AString "test-shared-secret")].

Definition quoted (s : string) : gostring := c_quote :: str s ++ [c_quote].

(** The signature base of section B.2.5. *)
Definition test_base : gostring :=
  quoted "date" ++ str ": Tue, 20 Apr 2021 02:07:55 GMT" ++ [c_lf] ++
  quoted "@authority" ++ str ": example.com" ++ [c_lf] ++
  quoted "content-type" ++ str ": application/json" ++ [c_lf] ++
  quoted "@signature-params" ++ str ": (" ++ quoted "date" ++ str " " ++ quoted "@authority" ++
  str " " ++ quoted "content-type" ++ str ");created=1618884473;keyid=" ++
  quoted "test-shared-secret".

Example rfc9421_b25_base : CreateSignatureBase test_message test_input = Ok test_base.
Proof. vm_compute. reflexivity. Qed.

(** Derived components, a structured field and a query parameter. *)
Example rfc9421_components :
  (fun c => resolveComponent test_message c 4096) <$>
    [component "@method"; component "@scheme"; component "@target-uri"; component "@path";
     component "@query"; mkComponent "@query-param" [mkParam "name" (AString "Pet")];
     mkComponent "x-list" [mkParam "sf" (ABool true)]; component "content-length";
     mkComponent "date" [mkParam "bs" (ABool true)]] =
  [Ok (str "POST"); Ok (str "https"); Ok (str "https://example.com/foo?param=Value&Pet=dog");
   Ok (str "/foo"); Ok (str "?param=Value&Pet=dog"); Ok (str "dog"); Ok (str "a, b"); Ok (str "18");
   Ok (str ":VHVlLCAyMCBBcHIgMjAyMSAwMjowNzo1NSBHTVQ=:")].
Proof. vm_compute. reflexivity. Qed.

(** The field of section B.2.5 parses to the input and prints back. *)
Definition test_field : gostring :=
  str "sig1=(" ++ quoted "date" ++ str " " ++ quoted "@authority" ++ str " " ++
  quoted "content-type" ++ str ");created=1618884473;keyid=" ++ quoted "test-shared-secret".

Example rfc9421_field :
  ParseSignatureInputs [test_field] = Ok [test_input] /\
  SignatureInputs_String [test_input] = Some test_field.
Proof. split; vm_compute; reflexivity. Qed.
