(* ===== verification/Witnesses.v ===== *)
(** * Concrete runs

    Each theorem with a hypothesis applied at concrete inputs where its
    hypotheses hold, with the reference instances, the in-memory replay store
    and the request of RFC 9421, appendix B.2. *)

From S2P Require Import Prelude GoStrings Errors SyntaxLimits Httpsfv HttpsfvRef.
From S2P Require Import StructuredFieldSafe SignatureFields SerializationFacts SignatureFacts.
From S2P Require Import HttpTypes MessageLimits MessageFields MessageDerived MessageBase.
From S2P Require Import BaseFacts GoTime Heap Replay ReplayStore ReplayFacts Digest.
From S2P Require Import DigestFacts Algorithm AlgorithmFacts Signer Verifier VerifierFacts.
From S2P Require Import SignerFacts ProfileFacts Instances.
Open Scope Z_scope.

#[local] Existing Instance ref_sfv_laws.

(** ** A profile pair and a shared HMAC key *)

Definition get_ok {A} (r : res A) (default : A) : A := match r with Ok a => a | Err _ => default end.
Definition get_some {A} (o : option A) (default : A) : A := match o with Some a => a | None => default end.

Definition shared_key : HMACKey := mkHMACKey (repeat "k"%char 32).
Definition test_time : Time := time_Unix 1618884473.

Definition signing_config : SigningProfileConfig := {|
  S_AllowedAlgorithms := [HMACSHA256];
  S_CoveredComponents := Components test_input;
  S_AllowEmptyCoverage := false;
  S_Expires := ParameterRequired;
  S_AlgorithmParameter := ParameterForbidden;
  S_Nonce := ParameterRequired;
  S_Tag := ParameterForbidden;
  S_TagValue := [];
  S_Lifetime := 60 * Second;
  S_ResolveTimeout := Second;
  S_HasNow := true;
  S_HasProvider := true;
  S_RequireExternalRequestContext := false
|}.

Definition no_signing_profile : SigningProfile :=
  mkSigningProfile ∅ [] false ParameterInvalid ParameterInvalid ParameterInvalid ParameterInvalid [] 0 0 false.
Definition signing_profile : SigningProfile := get_ok (NewSigningProfile signing_config) no_signing_profile.

Definition test_key : SigningKey :=
  mkSigningKey "test-shared-secret" HMACSHA256 (KeyHMAC shared_key) (test_time - 3600 * Second)
    (test_time + 3600 * Second) false.

Definition signing_observation : SigningObservation :=
  mkSigningObservation false None (test_key, None) None test_time None None 0.

Definition test_options : SigningOptions := mkOptions "n1".

Definition no_signed : SignedFields := mkSigned (mkSignatureInput [] [] []) (mkSignatureValue [] [] []).
Definition test_signed : SignedFields :=
  get_ok (get_some (Signer_Sign (Some signing_profile) signing_observation test_message "sig1" test_options)
            (Err (Sentinel EOF))) no_signed.

Definition verification_config : VerificationProfileConfig := {|
  V_AllowedAlgorithms := [HMACSHA256];
  V_RequiredComponents := [component "date"; component "@authority"];
  V_AllowEmptyCoverage := false;
  V_Created := ParameterRequired;
  V_Expires := ParameterOptional;
  V_AlgorithmParameter := ParameterForbidden;
  V_Nonce := ParameterRequired;
  V_Tag := ParameterForbidden;
  V_AllowedTags := [];
  V_MaxAge := 300 * Second;
  V_ClockSkew := 5 * Second;
  V_ResolveTimeout := Second;
  V_ReplayTimeout := Second;
  V_HasNow := true;
  V_HasResolver := true;
  V_HasReplay := true;
  V_RequireExternalRequestContext := false
|}.

Definition no_verification_profile : VerificationProfile :=
  mkVerificationProfile ∅ [] false ParameterInvalid ParameterInvalid ParameterInvalid ParameterInvalid
    ParameterInvalid ∅ 0 0 0 0 false false.
Definition verification_profile : VerificationProfile :=
  get_ok (NewVerificationProfile verification_config) no_verification_profile.

Definition resolved_key : ResolvedKey :=
  mkResolvedKey HMACSHA256 (KeyHMAC shared_key) (test_time - 3600 * Second)
    (test_time + 3600 * Second) (test_time + 3600 * Second) false.

(** A call [seconds] after the signature was made, by a resolver that knows
    one key. *)
Definition verifying_at (seconds : Z) : VerificationObservation (Obs := ConsumeObservation) := {|
  verify_ctx_nil := false;
  verify_ctx_err := None;
  now_input := test_time + seconds * Second;
  resolve := fun k => if k =s "test-shared-secret" then (resolved_key, None)
                      else (resolved_key, Some (Sentinel ErrKeyNotFound));
  resolve_context_err := None;
  now_key := test_time + seconds * Second;
  crypto_err_before := None;
  crypto_err_after := None;
  replay_observation := mkObservation false None (test_time + seconds * Second) None false false None;
  replay_context_err := None
|}.

Definition verify_signed (seconds : Z) (store : Store) : option (Store * res VerifiedSignature) :=
  Verifier_Verify (Some verification_profile) (verifying_at seconds) store test_message "sig1"
    [signed_input test_signed] [signed_signature test_signed].

Definition resulting_store {A} (outcome : option (Store * A)) : Store :=
  match outcome with Some (store, _) => store | None => None end.

Definition store_after : Store := resulting_store (verify_signed 1 (Some example_store)).

Definition verified : VerifiedSignature :=
  mkVerified "sig1" "test-shared-secret" HMACSHA256 test_time (test_time + 60 * Second).

(** The first verification succeeds, the second is a replay. *)
Example verify_then_replay :
  verify_signed 1 (Some example_store) = Some (store_after, Ok verified) /\
  snd <$> verify_signed 2 store_after =
    Some (Err (verificationError VerificationReplay (Sentinel ErrReplayDetected))).
Proof. split; vm_compute; reflexivity. Qed.

(** ** Verification *)

Lemma verify_first :
  Verifier_Verify (Some verification_profile) (verifying_at 1) (Some example_store : Store) test_message
    "sig1" [signed_input test_signed] [signed_signature test_signed] = Some (store_after, Ok verified).
Proof. vm_compute. reflexivity. Qed.

Lemma example_store_wf : store_inv (Some example_store).
Proof. apply (New_inv example_config). reflexivity. Qed.

Lemma no_signature_verified_twice_witness :
  Verifier_Verify (Some verification_profile) (verifying_at 2) store_after test_message "sig1"
    [signed_input test_signed] [signed_signature test_signed] <> Some (store_after, Ok verified).
Proof.
  apply (no_signature_verified_twice (RSL := memory_store_laws) verification_profile (verifying_at 1)
    (Some example_store) test_message "sig1" [signed_input test_signed] [signed_signature test_signed]
    store_after verified (signed_input test_signed) [] store_after [] (verifying_at 2) test_message
    "sig1" [signed_input test_signed] [signed_signature test_signed] (signed_input test_signed)).
  - exact example_store_wf.
  - exact verify_first.
  - vm_compute. reflexivity.
  - vm_compute. eexists. reflexivity.
  - reflexivity.
  - vm_compute. reflexivity.
  - reflexivity.
Defined.

Lemma Verify_sound_witness :
  exists input signature base key,
    input ∈ [signed_input test_signed] /\ InputLabel input = str "sig1" /\
    signature ∈ [signed_signature test_signed] /\ SignatureLabel signature = str "sig1" /\
    (forall c, c ∈ v_requiredComponents verification_profile ->
       exists c', c' ∈ Components input /\ componentComparisonKey c' = Ok (comparison_key c)) /\
    stringParameter input "keyid" = Some (VerifiedKeyID verified) /\
    resolve (verifying_at 1) (VerifiedKeyID verified) = (key, None) /\
    ResolvedAlgorithm key ∈ v_algorithms verification_profile /\
    VerifiedAlgorithm verified = ResolvedAlgorithm key /\
    (forall a, stringParameter input "alg" = Some a -> a = ResolvedAlgorithm key) /\
    Revoked key = false /\
    NotBefore key - v_clockSkew verification_profile <= now_key (verifying_at 1)
      < NotAfter key + v_clockSkew verification_profile /\
    now_key (verifying_at 1) < FreshUntil key /\
    CreateSignatureBase test_message input = Ok base /\
    verify_switch (ResolvedAlgorithm key) (ResolvedMaterial key) base (SignatureBytes signature) =
      Ok true.
Proof.
  exact (Verify_sound verification_profile (verifying_at 1) (Some example_store) test_message "sig1"
    [signed_input test_signed] [signed_signature test_signed] store_after verified verify_first).
Defined.

Lemma Verify_time_window_witness :
  exists input, selected_input "sig1" [signed_input test_signed] = Some input /\
    (forall z, integerParameter input "created" = Some z ->
       VerifiedCreated verified = time_Unix z /\
       VerifiedCreated verified <= now_input (verifying_at 1) + v_clockSkew verification_profile /\
       (minDuration <= v_maxAge verification_profile + v_clockSkew verification_profile < maxDuration ->
        now_input (verifying_at 1) - VerifiedCreated verified <=
        v_maxAge verification_profile + v_clockSkew verification_profile)) /\
    (forall z, integerParameter input "expires" = Some z ->
       VerifiedExpires verified = time_Unix z /\
       now_input (verifying_at 1) < VerifiedExpires verified + v_clockSkew verification_profile /\
       (is_Some (integerParameter input "created") ->
        VerifiedCreated verified < VerifiedExpires verified)).
Proof.
  exact (Verify_time_window verification_profile (verifying_at 1) (Some example_store) test_message
    "sig1" [signed_input test_signed] [signed_signature test_signed] store_after verified verify_first).
Defined.

Lemma nonce_consumed_only_after_verification_witness :
  store_after = Some example_store \/
  exists input signature base key keyid nonce err,
    selectSignature "sig1" [signed_input test_signed] [signed_signature test_signed] =
      Some (input, signature) /\
    input ∈ [signed_input test_signed] /\ InputLabel input = "sig1" /\
    signature ∈ [signed_signature test_signed] /\ SignatureLabel signature = "sig1" /\
    policy_accepts verification_profile (now_input (verifying_at 1)) input /\
    stringParameter input "keyid" = Some keyid /\ resolve (verifying_at 1) keyid = (key, None) /\
    key_accepted verification_profile (now_key (verifying_at 1)) input key /\
    CreateSignatureBase test_message input = Ok base /\
    verify_switch (ResolvedAlgorithm key) (ResolvedMaterial key) base (SignatureBytes signature) =
      Ok true /\
    stringParameter input "nonce" = Some nonce /\
    replay_Consume (Some example_store : Store) (replay_observation (verifying_at 1))
      (mkReplayRecord keyid nonce (replay_expiry verification_profile input)) = Some (store_after, err).
Proof.
  exact (nonce_consumed_only_after_verification verification_profile (verifying_at 1)
    (Some example_store) test_message "sig1" [signed_input test_signed] [signed_signature test_signed]
    store_after (Ok verified) verify_first).
Defined.

(** The store after the second, refused, consumption: its clock has advanced. *)
Definition store_after_replay : Store := resulting_store (verify_signed 2 store_after).

Lemma Verify_error_redacted_witness :
  exists failure cause,
    verificationError VerificationReplay (Sentinel ErrReplayDetected) = verificationError failure cause /\
    (failure = VerificationKeyResolution -> cause ∈ resolution_causes) /\
    (failure = VerificationReplay -> cause ∈ replay_causes).
Proof.
  apply (Verify_error_redacted verification_profile (verifying_at 2) store_after test_message "sig1"
    [signed_input test_signed] [signed_signature test_signed] store_after_replay).
  vm_compute. reflexivity.
Defined.

(** ** Signing and verifying *)

Lemma test_components : v_requiredComponents verification_profile = [component "date"; component "@authority"].
Proof. vm_compute. reflexivity. Qed.

Lemma test_signed_components : s_components signing_profile =
  [component "date"; component "@authority"; component "content-type"].
Proof. vm_compute. reflexivity. Qed.

Lemma test_admits : policy_admits signing_profile verification_profile test_message.
Proof.
  constructor.
  2: { rewrite test_components, test_signed_components. intros c Hc. exists c.
       apply elem_of_cons in Hc as [-> | [-> | Hc%elem_of_nil]%elem_of_cons]; [..| done];
         (split; [apply (bool_decide_eq_true_1 _); vm_compute; reflexivity | vm_compute; reflexivity]). }
  2: { rewrite test_signed_components. discriminate. }
  all: try (vm_compute; reflexivity).
  all: vm_compute; discriminate.
Qed.

Lemma signed_message_verifies_witness :
  Verifier_Verify (Some verification_profile) (verifying_at 1) (Some example_store : Store)
    test_message "sig1" [signed_input test_signed] [signed_signature test_signed] =
  Some (store_after, Ok verified).
Proof.
  apply (signed_message_verifies signing_config signing_profile verification_profile
    signing_observation (verifying_at 1) (Some example_store : Store) store_after test_message "sig1"
    test_options test_signed resolved_key).
  - vm_compute. reflexivity.
  - vm_compute. reflexivity.
  - exact test_admits.
  - constructor; [vm_compute; discriminate | vm_compute; discriminate |].
    intros _. split; vm_compute; reflexivity.
  - split; reflexivity.
  - reflexivity.
  - split; reflexivity.
  - vm_compute. split; [discriminate | reflexivity].
Defined.

Lemma Verify_total_witness :
  exists store' r,
    Verifier_Verify (Some verification_profile) (verifying_at 1) (Some example_store : Store)
      test_message "sig1" [signed_input test_signed] [signed_signature test_signed] = Some (store', r) /\
    store_inv store' /\ reached (Some example_store : Store) <= reached store'.
Proof.
  apply (Verify_total (RSL := memory_store_laws) verification_config).
  - vm_compute. reflexivity.
  - exact example_store_wf.
Defined.

Lemma Sign_follows_profile_witness :
  exists r, Signer_Sign (Some signing_profile) signing_observation test_message "sig1" test_options =
    Some r /\
    match r with
    | Ok signed =>
        prescribed signing_config signing_observation test_message "sig1" test_options signed
    | Err e => e ∈ signing_errors \/ sign_ctx_err signing_observation = Some e \/
        resolve_ctx_err signing_observation = Some e
    end.
Proof. apply Sign_follows_profile. vm_compute. reflexivity. Defined.

Lemma Sign_Verify_roundtrip_witness :
  exists r, Sign (mkCryptoObservation false None None 0) Ed25519 (KeyEd25519Private (repeat "k"%char 64))
    (str "base") = Some r /\
    forall signature, r = Ok signature ->
      exists public, verification_key (KeyEd25519Private (repeat "k"%char 64)) = Some public /\
        forall obs', context_nil obs' = false -> err_before obs' = None -> err_after obs' = None ->
          Verify obs' Ed25519 public (str "base") signature = None.
Proof. apply Sign_Verify_roundtrip. Defined.

Lemma Verify_hmac_exact_witness :
  Verify (mkCryptoObservation false None None 0) HMACSHA256 (KeyHMAC shared_key) (str "base") (str "x") =
  if bool_decide (32 <= len (material shared_key) <= 64)
  then if str "x" =s hmac_sha256 (material shared_key) (str "base") then None
       else Some (Sentinel ErrInvalidSignatureValue)
  else Some (Sentinel ErrIncompatibleKey).
Proof. apply Verify_hmac_exact; reflexivity. Defined.

Lemma Verify_refuses_private_keys_witness :
  Verify (mkCryptoObservation false None None 0) Ed25519 (KeyEd25519Private (repeat "k"%char 64))
    (str "base") (str "x") = Some (Sentinel ErrIncompatibleKey).
Proof. apply Verify_refuses_private_keys; reflexivity. Defined.

(** ** The signature base *)

Lemma test_base_ok : CreateSignatureBase test_message test_input = Ok test_base.
Proof. vm_compute. reflexivity. Qed.

Lemma base_structure_witness :
  (exists lines parameters, Forall2 (resolved_line test_message) (Components test_input) lines /\
     serializeSignatureParameters test_input = Ok parameters /\
     test_base = render_lines lines ++ parameterPrefix ++ parameters) /\
  breaks test_base = 3%nat.
Proof. exact (base_structure test_message test_input test_base test_base_ok). Defined.

Lemma base_commits_witness :
  serializeSignatureParameters test_input = serializeSignatureParameters test_input /\
  forall c, c ∈ Components test_input -> exists v max1 max2,
    resolveComponent test_message c max1 = Ok v /\ resolveComponent test_message c max2 = Ok v.
Proof.
  exact (base_commits test_message test_message test_input test_input test_base test_base_ok
    test_base_ok eq_refl).
Defined.

Lemma base_components_distinct_witness :
  NoDup (map comparison_key (Components test_input)) /\
  Forall (fun c => ComponentName c <> str "@signature-params") (Components test_input).
Proof. exact (base_components_distinct test_message test_input test_base test_base_ok). Defined.

Lemma base_within_limit_witness : len test_base <= 2 ^ 20.
Proof. apply (base_within_limit test_message test_input test_base test_base_ok). reflexivity. Defined.

(** ** Fields *)

Lemma componentComparisonKey_permutation_witness :
  componentComparisonKey (mkComponent "x" [mkParam "req" (ABool true); mkParam "bs" (ABool true)]) =
  componentComparisonKey (mkComponent "x" [mkParam "bs" (ABool true); mkParam "req" (ABool true)]).
Proof.
  apply componentComparisonKey_permutation.
  - apply (bool_decide_eq_true_1 _). vm_compute. reflexivity.
  - apply Permutation_swap.
Defined.

Lemma ParseSignatureInputs_wf_witness :
  metadata_wf DefaultSyntaxLimits validSignatureParameters [test_field] [test_input].
Proof. apply ParseSignatureInputs_wf. vm_compute. reflexivity. Defined.

Definition accept_field : gostring :=
  str "sig1=(" ++ quoted "@method" ++ str ");created;keyid=" ++ quoted "k".
Lemma ParseAcceptSignatures_wf_witness :
  metadata_wf DefaultSyntaxLimits validAcceptSignatureParameters [accept_field]
    [mkSignatureInput "sig1" [component "@method"]
       [mkParam "created" (ABool true); mkParam "keyid" (AString "k")]].
Proof. apply ParseAcceptSignatures_wf. vm_compute. reflexivity. Defined.

Lemma ParseSignatures_wf_witness :
  1 <= len [str "sig1=:AQID:"] <= MaxFieldLines DefaultSyntaxLimits /\
  len (Join [str "sig1=:AQID:"] ", ") <= MaxFieldBytes DefaultSyntaxLimits /\
  1 <= len [mkSignatureValue "sig1" (map ascii_of_N [1; 2; 3]%N) []] <=
    MaxDictionaryMembers DefaultSyntaxLimits /\
  NoDup (map SignatureLabel [mkSignatureValue "sig1" (map ascii_of_N [1; 2; 3]%N) []]) /\
  Forall (fun v => len (SignatureBytes v) <= MaxBinaryBytes DefaultSyntaxLimits /\
                   parameters_wf DefaultSyntaxLimits (SignatureParameters v))
    [mkSignatureValue "sig1" (map ascii_of_N [1; 2; 3]%N) []].
Proof. apply ParseSignatures_wf. vm_compute. reflexivity. Defined.

Lemma ComputeDigests_Verify_witness :
  DigestField_Verify (get_ok (ComputeDigests [SHA512; SHA256] (str "hello")) []) (str "hello") [SHA256] = None.
Proof.
  apply (ComputeDigests_Verify [SHA512; SHA256]).
  - vm_compute. reflexivity.
  - discriminate.
  - apply (bool_decide_eq_true_1 _). vm_compute. reflexivity.
  - intros x Hx. apply list_elem_of_singleton in Hx as ->.
    apply list_elem_of_further, list_elem_of_here.
Defined.
