(* ===== verification/HttpWitnesses.v ===== *)
(** * Concrete runs of the HTTP adapters

    A request signed by the outbound adapter and verified by the middleware, a
    signed response whose body is checked against its Content-Digest, and a
    streamed body; the theorems about the adapters applied to them. *)

From stdpp Require Import relations.
From S2P Require Import Prelude GoStrings Errors Httpsfv HttpsfvRef StructuredFieldSafe.
From S2P Require Import SignatureFields HttpTypes MessageBase GoTime Replay ReplayStore ReplayFacts.
From S2P Require Import Digest DigestFacts Algorithm Signer SignerFacts Verifier VerifierFacts.
From S2P Require Import HttpFields BodyReader HttpIntegration HttpFacts TrailerBody Instances Witnesses.
Open Scope Z_scope.

(** ** A request *)

Definition outbound_adapter : SigningRoundTripper :=
  mkSigningRoundTripper (Some signing_profile) "sig1" ExistingSignaturesReject
    (fun _ => Ok test_options) None.

Definition outbound_result : option outbound :=
  SigningRoundTripper_RoundTrip (Some outbound_adapter) 10 signing_observation (Some test_request).

Definition delegated_request : Request :=
  match outbound_result with Some (Delegated r) => r | _ => test_request end.

Definition inbound_adapter : RequestVerificationMiddleware :=
  mkRequestVerification (Some verification_profile) (fun _ _ _ => Ok (str "sig1")) None.

Definition inbound_result : option (Store * inbound) :=
  RequestVerification_ServeHTTP inbound_adapter 20 (verifying_at 1) (Some example_store) true
    (Some delegated_request).

Definition served_request : Request :=
  match inbound_result with Some (_, Served r _) => r | _ => test_request end.

Example inbound_served :
  inbound_result = Some (store_after, Served served_request verified).
Proof. vm_compute. reflexivity. Qed.


Lemma handler_serves_verified_witness :
  normalized_request delegated_request served_request /\
  exists inputs signatures label external input,
    ParseSignatureInputs (Header_Values (RequestHeader served_request) "Signature-Input") = Ok inputs /\
    ParseSignatures (Header_Values (RequestHeader served_request) "Signature") = Ok signatures /\
    rvm_selectLabel inbound_adapter (cloneRequestSnapshot (20 + 1) served_request) inputs signatures =
      Ok label /\
    external_of (rvm_externalContext inbound_adapter) (cloneRequestSnapshot (20 + 1) served_request) = Ok external /\
    accepted (rvm_verifier inbound_adapter) (verifying_at 1) (Some example_store : Store) store_after
      (request_message served_request external) label inputs signatures input verified.
Proof.
  apply (handler_serves_verified inbound_adapter 20 (verifying_at 1) (Some example_store : Store) true
    delegated_request store_after served_request verified).
  exact inbound_served.
Defined.

(** ** A response with a digest *)

Definition content : gostring := str "hello".

Definition response_config : SigningProfileConfig := {|
  S_AllowedAlgorithms := [HMACSHA256];
  S_CoveredComponents := [component "@status"; component "content-digest"];
  S_AllowEmptyCoverage := false;
  S_Expires := ParameterForbidden;
  S_AlgorithmParameter := ParameterForbidden;
  S_Nonce := ParameterRequired;
  S_Tag := ParameterForbidden;
  S_TagValue := [];
  S_Lifetime := 0;
  S_ResolveTimeout := Second;
  S_HasNow := true;
  S_HasProvider := true;
  S_RequireExternalRequestContext := false
|}.

Definition response_profile : VerificationProfile :=
  mkVerificationProfile {[ HMACSHA256 ]} [component "content-digest"] false ParameterRequired
    ParameterOptional ParameterForbidden ParameterRequired ParameterForbidden ∅ (60 * Second)
    (5 * Second) Second Second true false.

Definition unsigned_response : Response := {|
  StatusCode := 200;
  ResponseProtoMajor := 1;
  ResponseProtoMinor := 1;
  ResponseHeader := {[ str "Content-Digest" :=
    [get_some (DigestField_String (get_ok (ComputeDigests [SHA256] content) [])) []] ]};
  ResponseBody := BodyReader 1;
  ResponseContentLength := 5;
  ResponseTransferEncoding := [];
  ResponseClose := false;
  Uncompressed := false;
  ResponseTrailer := ∅;
  ResponseRequest := Some test_request
|}.

Definition response_signed : SignedFields :=
  get_ok (get_some (Signer_Sign (Some (get_ok (NewSigningProfile response_config) no_signing_profile))
    signing_observation (received_message unsigned_response test_request None) "sig1" test_options)
    (Err (Sentinel EOF))) no_signed.

Definition signed_response : Response :=
  update_response unsigned_response
    (Header_Set (Header_Set (ResponseHeader unsigned_response)
       "Signature-Input" (get_some (SignatureInputField response_signed) []))
       "signature" (get_some (SignatureField response_signed) []))
    ∅ (BodyReader 1) 5 (Some test_request).

Definition response_exchange : exchange := {|
  received := Some signed_response;
  transport_err := None;
  received_body := mkBody
    (fun n => match n with
              | O => (None, Read (str "hel") None)
              | _ => (None, Read (str "lo") (Some (Sentinel EOF)))
              end) None;
  trailer_after := ∅
|}.

Definition response_adapter : VerifyingRoundTripper :=
  mkVerifyingRoundTripper (Some response_profile) (fun _ _ _ _ => Ok (str "sig1")) [SHA256] 100 None.

Definition response_result : option (Store * inbound_response) :=
  VerifyingRoundTripper_RoundTrip (Some response_adapter) 30 (verifying_at 1) (Some example_store) false
    response_exchange (Some test_request).

Definition released_response : Response :=
  match response_result with Some (_, Released r _ _) => r | _ => unsigned_response end.
Definition response_store : Store := resulting_store response_result.
Definition response_verified : VerifiedSignature :=
  mkVerified "sig1" "test-shared-secret" HMACSHA256 test_time 0.

Example response_released :
  response_result =
    Some (response_store, Released released_response (Some content) response_verified).
Proof. vm_compute. reflexivity. Qed.

Lemma released_response_authentic_witness :
  exists response original related inputs signatures label external wire input,
    let normalized := update_response response (ResponseHeader released_response) (ResponseTrailer response)
      (ResponseBody response) (ResponseContentLength response) (ResponseRequest response) in
    received response_exchange = Some response /\ transport_err response_exchange = None /\
    ResponseRequest response = Some original /\ normalized_request original related /\
    normalized_from (ResponseHeader response) (ResponseHeader released_response) protectedHTTPFieldNames
      (ResponseHeader response) /\
    released_response = update_response response (ResponseHeader released_response)
      (ResponseTrailer released_response) (ResponseBody released_response)
      (ResponseContentLength released_response)
      (Some (clone_request (30 + 7) related (RequestHeader related) (RequestTrailer related))) /\
    released_rest response_exchange response released_response (Some content) /\
    ParseSignatureInputs (Header_Values (ResponseHeader released_response) "Signature-Input") = Ok inputs /\
    ParseSignatures (Header_Values (ResponseHeader released_response) "Signature") = Ok signatures /\
    vrt_selectLabel response_adapter (cloneRequestSnapshot (30 + 1) related)
      (responseCallbackSnapshot (30 + 2) normalized related) inputs signatures = Ok label /\
    external_of (vrt_externalContext response_adapter)
      (cloneRequestSnapshot (30 + 5) related,
       responseCallbackSnapshot (30 + 6) released_response related) = Ok external /\
    accepted (vrt_verifier response_adapter) (verifying_at 1) (Some example_store : Store) response_store
      (received_message wire related external) label inputs signatures input response_verified /\
    (exists body r, wire = update_response response (ResponseHeader released_response)
       (ResponseTrailer released_response) body (ResponseContentLength response) r) /\
    authentic_content response_adapter response_exchange response released_response input (Some content).
Proof.
  apply (released_response_authentic response_adapter 30 (verifying_at 1) (Some example_store : Store) false
    response_exchange test_request response_store released_response (Some content) response_verified).
  exact response_released.
Defined.

(** ** A streamed body *)

(** Two reads, the end of the file with the last one, and a late [Close]. *)
Definition streaming : list choice :=
  [Enter; CheckContext None; WrappedRead (Read "ab" None);
   Enter; CheckContext None; WrappedRead (Read "cd" (Some (Sentinel EOF)));
   Close; Finalization None; Enter].

Definition streamed : stream :=
  get_some (schedule 10 None (opened [mkDigestWriter SHA256 []]) streaming) (opened []).

Example streamed_returns :
  returned streamed =
    [(str "ab", None); (str "cd", Some (Sentinel EOF)); ([], Some (Sentinel EOF))].
Proof. vm_compute. reflexivity. Qed.

Lemma streamed_reachable : reachable 10 None [SHA256] streamed.
Proof.
  apply (schedule_reachable 10 None [SHA256] [mkDigestWriter SHA256 []] streaming);
    vm_compute; reflexivity.
Qed.

Lemma trailer_digest_of_delivered_witness :
  exists field, finalized streamed = [(field, None)] /\
    forall c', rtc (step 10 None) streamed c' ->
      result_err (body c') = None /\ finalized c' = finalized streamed /\
      delivered c' = delivered streamed.
Proof.
  apply (trailer_digest_of_delivered 10 None [SHA256] streamed).
  - vm_compute. reflexivity.
  - discriminate.
  - exact streamed_reachable.
  - vm_compute. reflexivity.
  - vm_compute. reflexivity.
Defined.
