(* ===== verification/StreamWitnesses.v ===== *)
(** * Concrete runs of the buffering and streaming adapters

    A buffered and a streamed response that are signed, a request whose body
    is digested and checked again, a request streamed with signed trailers and
    verified behind its body, and a response verified by its trailers. *)

From S2P Require Import Prelude GoStrings Errors Httpsfv HttpsfvRef HttpsfvRefReads StructuredFieldSafe.
From S2P Require Import SignatureFields HttpTypes MessageBase GoTime Replay ReplayStore ReplayFacts.
From S2P Require Import Digest DigestFacts Algorithm Signer SignerFacts Verifier VerifierFacts.
From S2P Require Import HttpFields BodyReader HttpIntegration HttpFacts ResponseSigning ResponseFacts.
From S2P Require Import BodyDigest BodyDigestFacts TrailerFields TrailerBody TrailerSigning.
From S2P Require Import TrailerSigningFacts TrailerResponse TrailerResponseFacts TrailerVerification.
From S2P Require Import TrailerVerificationFacts Instances Witnesses HttpWitnesses.
Open Scope Z_scope.

(** ** A buffered response *)

Definition no_header : Header := ∅.

(** A header change, an informational status, the status and two writes. *)
Definition handler_calls : list writer_op :=
  [MutateHeader (fun h => Header_Set h "X-App" "1"); WriteHeader 103; WriteHeader 201;
   Write "hel"; Write "lo"].

Definition buffer : bufferedResponseWriter :=
  get_some (buffered_run (newBufferedResponseWriter no_header 10) handler_calls)
    (newBufferedResponseWriter no_header 10).

Lemma buffered_writer_exact_witness :
  buffered_run (newBufferedResponseWriter no_header 10) handler_calls = Some buffer /\
  buffer_holds 10 (str "hello") (Some (201, Header_Set no_header "X-App" "1")) buffer.
Proof.
  split; [vm_compute; reflexivity |].
  exact (proj2 (buffered_writer_exact no_header 10 handler_calls ltac:(discriminate))).
Defined.

Definition response_middleware_config : ResponseSigningMiddlewareConfig := {|
  rsc_signer := Some (Some (get_ok (NewSigningProfile response_config) no_signing_profile));
  rsc_label := "sig1";
  rsc_existing := ExistingSignaturesReject;
  rsc_maxBufferedBytes := 10;
  rsc_contentDigestAlgorithms := [SHA256];
  rsc_options := Some (fun _ _ => Ok test_options);
  rsc_externalContext := None;
  rsc_has_mapError := true;
  rsc_has_reportError := true
|}.

Definition response_middleware : ResponseSigningMiddleware :=
  mkResponseSigning (Some (get_ok (NewSigningProfile response_config) no_signing_profile)) "sig1"
    ExistingSignaturesReject 10 [SHA256] (fun _ _ => Ok test_options) None.

Example response_middleware_constructed :
  NewResponseSigningMiddleware response_middleware_config = Ok response_middleware.
Proof. vm_compute. reflexivity. Qed.

Definition emitted_result : option response_outcome :=
  ResponseSigning_ServeHTTP response_middleware 40 signing_observation no_header true
    (mkHandlerRun handler_calls "POST") (5, None) (Some test_request).

Definition emitted_header : Header :=
  match emitted_result with Some (Emitted h _ _ _) => h | _ => no_header end.

Example response_emitted : emitted_result = Some (Emitted emitted_header 201 (str "hello") None).
Proof. vm_compute. reflexivity. Qed.

Lemma emitted_response_signed_witness :
  emitted_result = Some (Emitted emitted_header 201 (str "hello") None) /\
  only_value emitted_header "Content-Length" (FormatInt (len (str "hello"))) /\
  exists digests field, ComputeDigests [SHA256] (str "hello") = Ok digests /\
    DigestField_String digests = Some field.
Proof.
  split; [exact response_emitted |].
  pose proof response_emitted as He. unfold emitted_result in He.
  destruct (emitted_response_signed response_middleware_config response_middleware 40 signing_observation
    no_header (mkHandlerRun handler_calls "POST") (5, None) test_request emitted_header 201 (str "hello")
    None response_middleware_constructed He)
    as (? & ? & ? & ? & ? & ? & ? & ? & ? & ? & _ & _ & _ & _ & _ & _ & _ & _ & _ & _ & _ & _ & Hlen & Hdigest & _).
  split; [apply Hlen; vm_compute; reflexivity |].
  destruct Hdigest as [Hnil | (digests & field & Hd & Hf & _)]; [discriminate Hnil | exists digests, field].
  split; [exact Hd | exact Hf].
Defined.

(** ** A digested request *)

Definition plain_request : Request :=
  update_request 60 test_request {[ str "X-App" := [str "1"] ]} ∅ (BodyReader 9) 4 [].

(** A body that gives the content in two reads. *)
Definition body_of (a b : string) : body_observation :=
  mkBody (fun n => match n with
                   | O => (None, Read a None)
                   | _ => (None, Read b (Some (Sentinel EOF)))
                   end) None.
Definition drained_of (a b : string) (trailers : Header) : drained :=
  mkDrained false (body_of a b) trailers.

Lemma gives_two (a b : string) n :
  str a <> [] -> len (str a) <= readBufferSize -> len (str b) <= readBufferSize ->
  n = O -> gives (body_of a b) n (str a ++ str b).
Proof.
  intros Ha Hla Hlb ->. apply gives_more; [done | done | done |].
  by apply (gives_end _ _ _ (Sentinel EOF)).
Qed.

Definition digest_transport_config : BufferedContentDigestRoundTripperConfig :=
  mkDigestRoundTripperConfig true [SHA256; SHA512] 10.
Definition digest_middleware_config : BufferedContentDigestVerificationMiddlewareConfig :=
  mkDigestVerificationConfig [SHA256] 10 true.
Definition digest_transport : BufferedContentDigestRoundTripper :=
  mkDigestRoundTripper [SHA256; SHA512] 10.
Definition digest_middleware : BufferedContentDigestVerificationMiddleware :=
  mkDigestVerification [SHA256] 10.

Example digest_adapters_constructed :
  NewBufferedContentDigestRoundTripper digest_transport_config = Ok digest_transport /\
  NewBufferedContentDigestVerificationMiddleware digest_middleware_config = Ok digest_middleware.
Proof. split; vm_compute; reflexivity. Qed.

Definition digested_result : option digest_outbound :=
  BufferedContentDigest_RoundTrip (Some digest_transport) 61 (drained_of "ab" "cd" ∅) (Some plain_request).
Definition digested : Request :=
  match digested_result with Some (DigestDelegated r _) => r | _ => plain_request end.

Example request_digested : digested_result = Some (DigestDelegated digested (str "abcd")).
Proof. vm_compute. reflexivity. Qed.

Definition digest_served_result : option digest_inbound :=
  BufferedContentDigestVerification_ServeHTTP digest_middleware 70 (drained_of "abc" "d" ∅) true (Some digested).
Definition digest_served : Request :=
  match digest_served_result with Some (DigestServed r _) => r | _ => plain_request end.

Example digest_accepted : digest_served_result = Some (DigestServed digest_served (str "abcd")).
Proof. vm_compute. reflexivity. Qed.

Lemma delegated_digest_exact_witness :
  delegated_with_digest digest_transport (drained_of "ab" "cd" ∅) plain_request digested (str "abcd").
Proof.
  exact (delegated_digest_exact digest_transport_config digest_transport 61 (drained_of "ab" "cd" ∅)
    plain_request (DigestDelegated digested (str "abcd")) (proj1 digest_adapters_constructed) request_digested).
Defined.

Lemma served_content_matches_witness :
  served_with_digest digest_middleware (drained_of "abc" "d" ∅) digested digest_served (str "abcd").
Proof.
  exact (served_content_matches digest_middleware_config digest_middleware 70 (drained_of "abc" "d" ∅)
    true digested digest_served (str "abcd") (proj2 digest_adapters_constructed) digest_accepted).
Defined.

Lemma delegated_digest_served_witness :
  BufferedContentDigestVerification_ServeHTTP digest_middleware 70 (drained_of "abc" "d" ∅) true
    (Some digested) =
  Some (DigestServed
    (update_request 71 digested (RequestHeader digested) (RequestTrailer digested) (BodyReader 72)
       (RequestContentLength digested) (RequestTransferEncoding digested)) (str "abcd")).
Proof.
  apply (delegated_digest_served (HL := ref_sfv_laws) (HR := ref_sfv_reads) digest_transport_config digest_transport digest_middleware_config
    digest_middleware 61 70 (drained_of "ab" "cd" ∅) (drained_of "abc" "d" ∅) plain_request digested).
  - exact (proj1 digest_adapters_constructed).
  - exact (proj2 digest_adapters_constructed).
  - intros a [-> | Ha]%elem_of_cons; [apply list_elem_of_here | by apply elem_of_nil in Ha].
  - exact request_digested.
  - assert (RequestBody digested = BodyReader 62) as Hbody by (vm_compute; reflexivity).
    unfold drains. rewrite Hbody. cbn [drained_ctx_nil drained_body drained_of close_err body_of].
    rewrite bool_decide_eq_false_2 by discriminate. split; [reflexivity |].
    split; [by apply (gives_two "abc" "d") | by split].
  - vm_compute. reflexivity.
Defined.

(** ** A streamed request *)

Definition stream_config : SigningProfileConfig := {|
  S_AllowedAlgorithms := [HMACSHA256];
  S_CoveredComponents := [trailer_digest];
  S_AllowEmptyCoverage := false;
  S_Expires := ParameterForbidden;
  S_AlgorithmParameter := ParameterForbidden;
  S_Nonce := ParameterRequired;
  S_Tag := ParameterForbidden;
  S_TagValue := [];
  S_Lifetime := 0;
  S_ResolveTimeout := Second;
  S_HasNow := true;
  S_HasProvider := true;
  S_RequireExternalRequestContext := false
|}.

Definition stream_profile : SigningProfile := get_ok (NewSigningProfile stream_config) no_signing_profile.

Definition stream_transport_config : TrailerSigningRoundTripperConfig :=
  mkTrailerSigningConfig true (Some (Some stream_profile)) "sig1" [SHA256] 10
    (Some (fun _ => Ok test_options)) None.
Definition stream_transport : TrailerSigningRoundTripper :=
  mkTrailerSigning (Some stream_profile) "sig1" [SHA256] 10 (fun _ => Ok test_options) None.

Example stream_transport_constructed :
  NewTrailerSigningRoundTripper stream_transport_config = Ok stream_transport.
Proof. vm_compute. reflexivity. Qed.

(** The wrapped transport reads the body to its end and answers. *)
Definition stream_environment : stream_run :=
  mkStreamRun signing_observation streaming None plain_request (Some unsigned_response) None.

Definition stream_result : option TrailerSigning.streaming :=
  TrailerSigning_RoundTrip (Some stream_transport) 80 stream_environment (Some plain_request).
Definition stream_final : stream :=
  match stream_result with Some (StreamReleased _ final) => final | _ => opened [] end.

Example stream_released : stream_result = Some (StreamReleased unsigned_response stream_final).
Proof. vm_compute. reflexivity. Qed.

Lemma released_stream_signed_witness :
  stream_result = Some (StreamReleased unsigned_response stream_final) /\
  exists digests, ComputeDigests [SHA256] (delivered stream_final) = Ok digests /\
    finalized stream_final = [(digests, None)].
Proof.
  split; [exact stream_released |].
  pose proof stream_released as Hs. unfold stream_result in Hs.
  destruct (released_stream_signed stream_transport_config stream_transport 80 stream_environment
    plain_request unsigned_response stream_final stream_transport_constructed Hs)
    as (clone & declared & digests & sent & _ & _ & _ & _ & Hd & Hf & _).
  exists digests. split; [exact Hd | exact Hf].
Defined.

(** ** The same request behind its trailers *)

(** The trailers that were sent. *)
Definition sent_trailers : Header :=
  match prepare_stream 80 plain_request with
  | Ok (clone, declared) =>
      match finalize_stream stream_transport signing_observation clone declared plain_request
              (get_ok (ComputeDigests [SHA256] (str "abcd")) []) with
      | Some (trailer, None) => trailer
      | _ => ∅
      end
  | Err _ => ∅
  end.

Definition trailer_verification_profile : VerificationProfile :=
  mkVerificationProfile {[ HMACSHA256 ]} [trailer_digest] false ParameterRequired
    ParameterOptional ParameterForbidden ParameterRequired ParameterForbidden ∅ (60 * Second)
    (5 * Second) Second Second true false.

Definition trailer_middleware_config : BufferedTrailerVerificationMiddlewareConfig :=
  mkTrailerVerificationConfig (Some (Some trailer_verification_profile))
    (Some (fun _ _ _ => Ok (str "sig1"))) [SHA256] 10 None true.
Definition trailer_middleware : BufferedTrailerVerificationMiddleware :=
  mkTrailerVerification trailer_verification_profile (fun _ _ _ => Ok (str "sig1")) [SHA256] 10 None.

Definition trailer_result : option (Store * trailer_inbound) :=
  BufferedTrailerVerification_ServeHTTP trailer_middleware 90 (verifying_at 1) (Some example_store)
    (drained_of "abc" "d" sent_trailers) true (Some plain_request).
Definition trailer_served : Request :=
  match trailer_result with Some (_, TrailerServed r _ _) => r | _ => plain_request end.
Definition trailer_store : Store := resulting_store trailer_result.

Example trailer_middleware_constructed :
  NewBufferedTrailerVerificationMiddleware trailer_middleware_config = Ok trailer_middleware.
Proof. vm_compute. reflexivity. Qed.

Example trailer_request_served :
  trailer_result = Some (trailer_store, TrailerServed trailer_served (str "abcd") response_verified).
Proof. vm_compute. reflexivity. Qed.

Lemma handler_serves_trailer_verified_witness :
  drains (drained_of "abc" "d" sent_trailers) (RequestBody plain_request) 10 (str "abcd") /\
  let verified_request :=
    clone_request 90 plain_request (RequestHeader trailer_served) (RequestTrailer trailer_served) in
  exists label external,
    external_of (tvm_externalContext trailer_middleware) (cloneRequestSnapshot 91 verified_request) =
      Ok external /\
    trailers_authentic trailer_verification_profile (verifying_at 1) (Some example_store : Store) trailer_store
      (RequestTrailer trailer_served) (str "abcd") [SHA256]
      (tvm_selectLabel trailer_middleware (cloneRequestSnapshot 91 verified_request))
      (request_message verified_request external) label response_verified.
Proof.
  pose proof trailer_request_served as Hs. unfold trailer_result in Hs.
  destruct (handler_serves_trailer_verified trailer_middleware_config trailer_middleware 90 (verifying_at 1)
    (Some example_store : Store) (drained_of "abc" "d" sent_trailers) true plain_request trailer_store
    trailer_served (str "abcd") response_verified trailer_middleware_constructed Hs)
    as (Hd & _ & _ & _ & Ha).
  split; [exact Hd | exact Ha].
Defined.
