(* ===== verification/TrailerWitnesses.v ===== *)
(** * Concrete runs of the response trailers

    A streamed response whose trailers are signed, one whose stream fails, and
    the response verified by its trailers at the client. *)

From S2P Require Import Prelude GoStrings Errors Httpsfv HttpsfvRef StructuredFieldSafe.
From S2P Require Import SignatureFields HttpTypes MessageBase GoTime Replay ReplayStore ReplayFacts.
From S2P Require Import Digest DigestFacts Algorithm Signer SignerFacts Verifier VerifierFacts.
From S2P Require Import HttpFields BodyReader HttpIntegration HttpFacts ResponseSigning ResponseFacts.
From S2P Require Import BodyDigest BodyDigestFacts TrailerFields TrailerBody TrailerSigning.
From S2P Require Import TrailerResponse TrailerResponseFacts TrailerVerification TrailerVerificationFacts.
From S2P Require Import Instances Witnesses HttpWitnesses StreamWitnesses.
Open Scope Z_scope.

(** ** Trailer names *)

Definition late_header : Header := {[ str "x-checksum" := [str "1"] ]}.

Lemma normalizeTrailerFields_exact_witness :
  map_to_list late_header ≡ₚ map_to_list late_header /\
  trailer_fields late_header.
Proof.
  split; [reflexivity |].
  destruct (normalizeTrailerFields_exact late_header (map_to_list late_header) (Permutation_refl _))
    as [(Hf & _) | (_ & Herr & _)]; [exact Hf |].
  vm_compute in Herr. discriminate Herr.
Defined.

(** ** A streamed response *)

Definition trailer_response_config : TrailerResponseSigningMiddlewareConfig :=
  mkTrailerResponseConfig (Some (Some stream_profile)) "sig1" [SHA256] 10
    (Some (fun _ => Ok test_options)) None true.
Definition trailer_response_middleware : TrailerResponseSigningMiddleware :=
  mkTrailerResponse (Some stream_profile) "sig1" [SHA256] 10 (fun _ => Ok test_options) None.

Example trailer_response_constructed :
  NewTrailerResponseSigningMiddleware trailer_response_config = Ok trailer_response_middleware.
Proof. vm_compute. reflexivity. Qed.

(** A trailer of the application, two writes and a flush between them. *)
Definition stream_calls : list stream_op :=
  [StreamHeader (fun h => Header_Set h "Trailer" "x-checksum"); StreamWrite "he" (2, None);
   StreamFlush None; StreamHeader (fun h => Header_Set h "X-Checksum" "1");
   StreamWrite "llo" (3, None)].

Definition streamed_result (ops : list stream_op) : option trailer_outcome :=
  TrailerResponse_ServeHTTP trailer_response_middleware 100 signing_observation no_header true ops
    (Some plain_request).
Definition streamed_header (ops : list stream_op) : Header :=
  match streamed_result ops with
  | Some (TrailersSigned _ h) | Some (Truncated _ h _) => h
  | _ => no_header
  end.
Definition streamed_writer (ops : list stream_op) : trailerResponseWriter :=
  match streamed_result ops with
  | Some (TrailersSigned w _) | Some (Truncated w _ _) => w
  | _ => newTrailerWriter no_header []
  end.

Example response_streamed :
  streamed_result stream_calls =
    Some (TrailersSigned (streamed_writer stream_calls) (streamed_header stream_calls)) /\
  sent (streamed_writer stream_calls) = str "hello" /\
  tw_trailerNames (streamed_writer stream_calls) =
    [str "Content-Digest"; str "Signature"; str "Signature-Input"; str "X-Checksum"].
Proof. split; [| split]; vm_compute; reflexivity. Qed.

(** A short write by the client's writer ends the stream without trailers. *)
Example response_truncated :
  streamed_result [StreamWrite "hello" (3, None); StreamWrite "x" (1, None)] =
    Some (Truncated (streamed_writer [StreamWrite "hello" (3, None)])
            (streamed_header [StreamWrite "hello" (3, None)]) (Sentinel ErrBodyRead)).
Proof. vm_compute. reflexivity. Qed.

Lemma streamed_response_signed_witness :
  trailers_signed trailer_response_middleware signing_observation plain_request
    (streamed_writer stream_calls) (streamed_header stream_calls).
Proof.
  pose proof (proj1 response_streamed) as Hs. unfold streamed_result in Hs.
  exact (streamed_response_signed trailer_response_config trailer_response_middleware 100
    signing_observation no_header true stream_calls plain_request
    (TrailersSigned (streamed_writer stream_calls) (streamed_header stream_calls))
    trailer_response_constructed Hs).
Defined.

(** ** The response at the client *)

(** The announced trailers, as the client reads them after the body. *)
Definition response_trailers : Header :=
  filter (fun '(name, _) => bool_decide (name ∈ tw_trailerNames (streamed_writer stream_calls)) = true)
    (streamed_header stream_calls).

Definition trailer_exchange : exchange := {|
  received := Some unsigned_response;
  transport_err := None;
  received_body := body_of "hel" "lo";
  trailer_after := response_trailers
|}.

Definition trailer_client_config : BufferedTrailerVerifyingRoundTripperConfig :=
  mkTrailerVerifyingConfig true (Some (Some trailer_verification_profile))
    (Some (fun _ _ _ _ => Ok (str "sig1"))) [SHA256] 10 None.
Definition trailer_client : BufferedTrailerVerifyingRoundTripper :=
  mkTrailerVerifying trailer_verification_profile (fun _ _ _ _ => Ok (str "sig1")) [SHA256] 10 None.

Example trailer_client_constructed :
  NewBufferedTrailerVerifyingRoundTripper trailer_client_config = Ok trailer_client.
Proof. vm_compute. reflexivity. Qed.

Definition client_result : option (Store * inbound_response) :=
  BufferedTrailerVerifying_RoundTrip (Some trailer_client) 110 (verifying_at 1) (Some example_store) false
    trailer_exchange (Some plain_request).
Definition client_response : Response :=
  match client_result with Some (_, Released r _ _) => r | _ => unsigned_response end.
Definition client_store : Store := resulting_store client_result.

Example client_released :
  client_result = Some (client_store, Released client_response (Some (str "hello")) response_verified).
Proof. vm_compute. reflexivity. Qed.

Lemma released_trailers_authentic_witness :
  ResponseContentLength client_response = 5 /\
  exists select response related label external,
    trailers_authentic trailer_verification_profile (verifying_at 1) (Some example_store : Store)
      client_store (ResponseTrailer client_response) (str "hello") [SHA256] select
      (received_message response related external) label response_verified.
Proof.
  split; [vm_compute; reflexivity |].
  pose proof client_released as Hs. unfold client_result in Hs.
  destruct (released_trailers_authentic trailer_client_config trailer_client 110 (verifying_at 1)
    (Some example_store : Store) false trailer_exchange plain_request client_store client_response
    (Some (str "hello")) response_verified trailer_client_constructed Hs)
    as (response & original & related & text & label & external & _ & _ & _ & _ & Htext & _ & _ & _ & _ & _ & _ & Ha & _).
  injection Htext as <-. eexists _, _, related, label, external. exact Ha.
Defined.
