(* ===== verification/RoundtripWitnesses.v ===== *)
(** * Concrete round trips

    The fields of RFC 9421, appendix B.2, printed and parsed, a digest field
    and preferences, and a request that goes from a signing transport to a
    verifying handler. *)

From S2P Require Import Prelude GoStrings Codecs Errors SyntaxLimits Httpsfv HttpsfvRef HttpsfvRefReads.
From S2P Require Import StructuredFieldSafe SignatureFields SignatureFacts FieldText FieldRoundtrip.
From S2P Require Import HttpTypes MessageBase GoTime Replay ReplayStore ReplayFacts.
From S2P Require Import Digest Algorithm AlgorithmFacts Signer SignerFacts Verifier VerifierFacts.
From S2P Require Import HttpFields BodyReader HttpIntegration HttpFacts ResponseSigning ResponseFacts EndToEnd.
From S2P Require Import ResponseEndToEnd Instances Witnesses HttpWitnesses StreamWitnesses.
Open Scope Z_scope.

#[local] Existing Instance ref_sfv_laws.
#[local] Existing Instance ref_sfv_reads.

Lemma printable_test_input : printable_inputs DefaultSyntaxLimits validSignatureParameters [test_input].
Proof.
  split; [vm_compute; split; discriminate | cbn; apply NoDup_singleton | | reflexivity].
  constructor; [| constructor]. split; [| | vm_compute; discriminate | | reflexivity].
  - repeat (constructor; [split; [reflexivity | split; [reflexivity | split; [vm_compute; discriminate | constructor]]] |]).
    constructor.
  - apply (bool_decide_eq_true_1 _). vm_compute. reflexivity.
  - split; [vm_compute; discriminate |]. apply (bool_decide_eq_true_1 _). vm_compute. reflexivity.
Qed.

Lemma SignatureInputs_roundtrip_witness :
  SignatureInputs_String [test_input] = Some test_field /\ ParseSignatureInputs [test_field] = Ok [test_input].
Proof.
  assert (SignatureInputs_String [test_input] = Some test_field) as Hs by (vm_compute; reflexivity).
  split; [exact Hs |].
  assert (len test_field <= MaxFieldBytes DefaultSyntaxLimits) as Hlen by (vm_compute; discriminate).
  destruct (SignatureInputs_roundtrip DefaultSyntaxLimits [test_input] test_field eq_refl Hlen) as [Hin _].
  exact (Hin printable_test_input Hs).
Defined.

Definition two_signatures : Signatures :=
  [mkSignatureValue "sig1" "hello" [mkParam "p" (ABool true)]; mkSignatureValue "b" "w" []].
Definition two_signatures_field : gostring := str "sig1=:aGVsbG8=:;p, b=:dw==:".

Lemma Signatures_roundtrip_witness :
  Signatures_String two_signatures = Some two_signatures_field /\
  ParseSignatures [two_signatures_field] = Ok two_signatures.
Proof.
  split; [vm_compute; reflexivity |]. unfold ParseSignatures.
  apply (Signatures_roundtrip DefaultSyntaxLimits two_signatures two_signatures_field).
  - reflexivity.
  - vm_compute. split; discriminate.
  - apply (bool_decide_eq_true_1 _). vm_compute. reflexivity.
  - repeat (constructor; [split; [vm_compute; discriminate | split; [split; [vm_compute; discriminate |] | reflexivity]];
      apply (bool_decide_eq_true_1 _); vm_compute; reflexivity |]). constructor.
  - vm_compute. reflexivity.
  - vm_compute. discriminate.
Defined.

Definition hello_digests : DigestField := get_ok (ComputeDigests [SHA512; SHA256] (str "hello")) [].
Definition hello_digests_field : gostring := get_some (DigestField_String hello_digests) [].
Definition two_preferences : DigestPreferences := [mkPreference "sha-256" 10; mkPreference "sha-512" 3].

Lemma DigestField_roundtrip_witness :
  ParseDigestFields [hello_digests_field] = Ok hello_digests /\
  ParseDigestPreferences [str "sha-256=10, sha-512=3"] = Ok two_preferences.
Proof.
  pose proof (DigestField_roundtrip DefaultSyntaxLimits eq_refl) as [Hdigest Hpreferences].
  unfold ParseDigestFields, ParseDigestPreferences. split.
  - apply Hdigest.
    + vm_compute. split; discriminate.
    + apply (bool_decide_eq_true_1 _). vm_compute. reflexivity.
    + repeat (constructor; [split; [vm_compute; discriminate | split; [split; [vm_compute; discriminate |] | reflexivity]];
        constructor |]). constructor.
    + vm_compute. reflexivity.
    + vm_compute. discriminate.
  - apply (Hpreferences two_preferences).
    + vm_compute. reflexivity.
    + vm_compute. discriminate.
    + vm_compute. reflexivity.
    + vm_compute. discriminate.
Defined.

(** ** From the transport to the handler *)

Example adapters_agree :
  sides_agree outbound_adapter inbound_adapter signing_profile verification_profile test_request test_options None.
Proof. by split. Qed.

Lemma delegated_admits : policy_admits signing_profile verification_profile (request_message delegated_request None).
Proof. pose proof test_admits as []. by split. Qed.

(** What the shared key signs is 32 bytes long. *)
Lemma test_key_signature obs base value :
  Sign obs (SigningAlgorithm test_key) (SigningMaterial test_key) base = Some (Ok value) ->
  1 <= len value <= MaxBinaryBytes DefaultSyntaxLimits.
Proof.
  change (SigningAlgorithm test_key) with HMACSHA256.
  change (SigningMaterial test_key) with (KeyHMAC shared_key). unfold Sign.
  destruct (contextError (context_nil obs) (err_before obs)); [done |].
  change (sign_switch (entropy obs) HMACSHA256 (KeyHMAC shared_key) base)
    with (Some (Ok (Some (hmac_sha256 (material shared_key) base)) : res (option gostring))).
  cbn [mbind option_bind]. unfold finishSignature. destruct (contextError _ _); [done |].
  cbn [rbind]. intros Heq. assert (value = hmac_sha256 (material shared_key) base) as -> by congruence.
  assert (len (hmac_sha256 (material shared_key) base) = 32) as ->.
  { unfold len. change (hmac_sha256 (material shared_key) base) with (fill_bytes 32 (SetBytes (material shared_key ++ base)) []).
    by rewrite length_fill_bytes. }
  split; [done | vm_compute; discriminate].
Qed.

(** Short enough lines under the signature fields. *)
Definition short_lines (header : Header) : bool :=
  forallb (fun name => forallb (fun v => len v <=? 65536) (Header_Values header name))
    [str "Signature-Input"; str "Signature"].

Lemma short_lines_ok header name v :
  short_lines header = true -> name ∈ [str "Signature-Input"; str "Signature"] ->
  v ∈ Header_Values header name -> len v <= MaxFieldBytes DefaultSyntaxLimits.
Proof.
  unfold short_lines. intros Hs Hname Hv. rewrite forallb_forall in Hs.
  specialize (Hs name (proj1 (list_elem_of_In _ _) Hname)). rewrite forallb_forall in Hs.
  apply Z.leb_le, (Hs v). by apply list_elem_of_In.
Qed.

Lemma delegated_readable : readable signing_profile test_key (RequestHeader delegated_request).
Proof.
  split.
  - rewrite test_signed_components. repeat (constructor; [constructor |]). constructor.
  - rewrite test_signed_components. vm_compute. discriminate.
  - intros name v. apply short_lines_ok. vm_compute. reflexivity.
  - apply test_key_signature.
Qed.

Lemma delegated_request_served_witness :
  exists metadata,
    RequestVerification_ServeHTTP inbound_adapter 20 (verifying_at 1) (Some example_store : Store) true
      (Some delegated_request) =
      Some (store_after, Served (clone_request 20 delegated_request (RequestHeader delegated_request)
        (RequestTrailer delegated_request)) metadata) /\
    metadata = verified.
Proof.
  apply (delegated_request_served (HR := ref_sfv_reads) signing_config signing_profile verification_profile
    outbound_adapter inbound_adapter 10 20 signing_observation (verifying_at 1) (Some example_store : Store)
    store_after test_request delegated_request test_options None resolved_key).
  - vm_compute. reflexivity.
  - exact adapters_agree.
  - vm_compute. reflexivity.
  - exact delegated_admits.
  - constructor; [vm_compute; discriminate | vm_compute; discriminate |].
    intros _. split; vm_compute; reflexivity.
  - split; reflexivity.
  - reflexivity.
  - split; reflexivity.
  - vm_compute. split; [discriminate | reflexivity].
  - exact delegated_readable.
Defined.

(** ** From the handler to the client *)

Definition framed_config : SigningProfileConfig := {|
  S_AllowedAlgorithms := [HMACSHA256];
  S_CoveredComponents := [component "@status"; component "content-length"; component "content-digest";
    mkComponent "@method" [mkParam "req" (ABool true)]];
  S_AllowEmptyCoverage := false;
  S_Expires := ParameterForbidden;
  S_AlgorithmParameter := ParameterForbidden;
  S_Nonce := ParameterRequired;
  S_Tag := ParameterForbidden;
  S_TagValue := [];
  S_Lifetime := 0;
  S_ResolveTimeout := Second;
  S_HasNow := true;
  S_HasProvider := true;
  S_RequireExternalRequestContext := false
|}.
Definition framed_profile : SigningProfile := get_ok (NewSigningProfile framed_config) no_signing_profile.

Definition writing_config : ResponseSigningMiddlewareConfig := {|
  rsc_signer := Some (Some framed_profile);
  rsc_label := "sig1";
  rsc_existing := ExistingSignaturesReject;
  rsc_maxBufferedBytes := 10;
  rsc_contentDigestAlgorithms := [SHA256];
  rsc_options := Some (fun _ _ => Ok test_options);
  rsc_externalContext := None;
  rsc_has_mapError := true;
  rsc_has_reportError := true
|}.
Definition writing_middleware : ResponseSigningMiddleware :=
  mkResponseSigning (Some framed_profile) "sig1" ExistingSignaturesReject 10 [SHA256] (fun _ _ => Ok test_options) None.

Definition reading_config : VerifyingRoundTripperConfig :=
  mkVerifyingRoundTripperConfig true (Some (Some response_profile)) (Some (fun _ _ _ _ => Ok (str "sig1"))) [SHA256] 100 None.

Definition written_result : option response_outcome :=
  ResponseSigning_ServeHTTP writing_middleware 40 signing_observation no_header true
    (mkHandlerRun handler_calls "POST") (5, None) (Some test_request).
Definition written_header : Header :=
  match written_result with Some (Emitted h _ _ _) => h | _ => no_header end.

Definition read_response : Response := {|
  StatusCode := 201;
  ResponseProtoMajor := 1;
  ResponseProtoMinor := 1;
  ResponseHeader := written_header;
  ResponseBody := BodyReader 1;
  ResponseContentLength := 5;
  ResponseTransferEncoding := [];
  ResponseClose := false;
  Uncompressed := false;
  ResponseTrailer := ∅;
  ResponseRequest := Some test_request
|}.
Definition read_exchange : exchange := mkExchange (Some read_response) None (body_of "hel" "lo") ∅.

Definition read_related : Request := get_ok (snapshotResponseRequest 30 (Some test_request)) test_request.

Example response_arrives : arrives written_header 201 (str "hello") 100 30 read_exchange read_response read_related.
Proof.
  split; [reflexivity | reflexivity | vm_compute; reflexivity | reflexivity | vm_compute; reflexivity |
    by split | reflexivity | reflexivity | discriminate | by apply (gives_two "hel" "lo") | reflexivity |
    vm_compute; discriminate | reflexivity | | intros wanted; by left].
  apply (normalized_is_canonical written_header), normalizeProtectedHeader_Ok. vm_compute. reflexivity.
Qed.

Example framed_components : s_components framed_profile = S_CoveredComponents framed_config.
Proof. vm_compute. reflexivity. Qed.

Example writing_and_reading :
  NewSigningProfile framed_config = Ok framed_profile /\
  NewResponseSigningMiddleware writing_config = Ok writing_middleware /\
  NewVerifyingRoundTripper reading_config = Ok
    (mkVerifyingRoundTripper (Some response_profile) (fun _ _ _ _ => Ok (str "sig1")) [SHA256] 100 None) /\
  written_result = Some (Emitted written_header 201 (str "hello") None).
Proof. split; [| split; [| split]]; vm_compute; reflexivity. Qed.

Lemma reading_sides : response_sides writing_middleware response_adapter framed_profile response_profile test_options None.
Proof.
  split; [reflexivity | reflexivity | reflexivity | reflexivity | | reflexivity | reflexivity | reflexivity | discriminate |].
  - rewrite framed_components. cbn. set_solver.
  - done.
Qed.

Lemma response_admits message : policy_admits framed_profile response_profile message.
Proof.
  constructor.
  2: { rewrite framed_components. intros c [-> | Hc%elem_of_nil]%elem_of_cons; [| done].
       exists (component "content-digest"). split; [cbn; set_solver | vm_compute; reflexivity]. }
  2: { rewrite framed_components. discriminate. }
  all: try (vm_compute; reflexivity).
  all: vm_compute; discriminate.
Qed.

Lemma written_readable : readable framed_profile test_key written_header.
Proof.
  split.
  - rewrite framed_components. do 3 (constructor; [constructor |]).
    constructor; [by apply NoDup_singleton | constructor].
  - rewrite framed_components. vm_compute. discriminate.
  - intros name v. apply short_lines_ok. vm_compute. reflexivity.
  - apply test_key_signature.
Qed.

(** Both sides saw the same request, whose method is covered. *)
Lemma framed_alike related :
  normalizeProtectedRequest 40 test_request = Ok related ->
  Forall (seen_alike related read_related None) (s_components framed_profile).
Proof.
  intros Hr. vm_compute in Hr. injection Hr as <-. rewrite framed_components.
  do 3 (constructor; [left; apply not_elem_of_nil |]). constructor; [| constructor]. right.
  split; [reflexivity |]. split; [vm_compute; discriminate |]. right. repeat split.
Qed.

Lemma emitted_response_released_witness :
  (exists related written wire base input,
    CreateSignatureBase (written_message written related None) input = Ok base /\
    CreateSignatureBase (received_message wire read_related None) input = Ok base) /\
  VerifyingRoundTripper_RoundTrip (Some response_adapter) 30 (verifying_at 1) (Some example_store : Store) false
    read_exchange (Some test_request) =
    Some (response_store, Released
      (update_response read_response written_header ∅ (BodyReader 33) 5
         (Some (clone_request 37 read_related (RequestHeader read_related) (RequestTrailer read_related))))
      (Some (str "hello")) response_verified).
Proof.
  destruct writing_and_reading as (Hprofile & Hwriting & Hreading & Hwritten).
  destruct (emitted_response_released (HL := ref_sfv_laws) (HR := ref_sfv_reads) framed_config framed_profile response_profile
    writing_config writing_middleware reading_config response_adapter 40 30 signing_observation (verifying_at 1)
    (Some example_store : Store) response_store no_header (mkHandlerRun handler_calls "POST") (5, None) test_request
    written_header 201 (str "hello") None read_exchange read_response read_related test_options None resolved_key
    test_request) as (related & written & signed & i & g & base & wire & _ & Hb & Hb' & _ & Hrun).
  - exact Hprofile.
  - exact Hwriting.
  - exact Hreading.
  - reflexivity.
  - exact reading_sides.
  - exact Hwritten.
  - discriminate.
  - reflexivity.
  - exact response_arrives.
  - apply response_admits.
  - constructor; [vm_compute; discriminate | vm_compute; discriminate |].
    intros H. vm_compute in H. discriminate H.
  - split; reflexivity.
  - reflexivity.
  - split; reflexivity.
  - vm_compute. split; [discriminate | reflexivity].
  - exact written_readable.
  - exact framed_alike.
  - split; [exists related, written, wire, base, (signed_input signed); split; [exact Hb | exact Hb'] | exact Hrun].
Defined.
